(* ===== verification/_CoqProject ===== *)
-Q . S2P
Prelude.v
Codec.v
Wire.v
Domain.v
Enums.v
Header.v
RData.v
RDataWire.v
BitMaps.v
RDataProps.v
Resource.v
Message.v
RecordSet.v
KeyPair.v
Signer.v
Update.v
BTree.v
Journal.v
Authority.v
AuthorityProps.v
ZoneSecurity.v
ZoneInstances.v
Catalog.v
CatalogProps.v
Responses.v
Returns.v
Text.v
Lexer.v
Master.v
ZoneText.v
ZoneFile.v
ClientHandle.v
Validate.v
ValidateProps.v
ValidateExamples.v
SignedZone.v
SignedReply.v
SignedUpdate.v
SignedExamples.v
Streams.v
Tcp.v
Udp.v
ClientFuture.v
Sync.v
ClientSteps.v
Futures.v
Blocking.v
SecureSync.v
SignedClient.v
Server.v
Listener.v
Schema.v
Nsec3.v
KeyFormat.v
Recovery.v
Named.v
Certificate.v
Connect.v
Startup.v
