(* ===== verification/Prelude.v ===== *)
(** * Trust-DNS: a verification development

    Trust-DNS is a DNS library and an authoritative name server in Rust.  The
    crate [client] holds the data model, the wire and text formats, the clients with
    DNSSEC validation, and the transports; the crate [server] holds the zones, the
    request handler, the server loops and the start-up of the server.  This library
    models both from the source and proves what makes them correct.

    ** The program and its model

    A request arrives as bytes.  [Message::from_vec] parses it through a
    [BinDecoder]; [Catalog::handle_request] finds the zone that is responsible for
    it and takes that zone's lock; the [Authority] answers a query from its map of
    [RecordSet]s, or checks, journals and applies an update and then re-signs the
    zone or increments its serial; [Message::to_vec] writes the response through a
    [BinEncoder], which compresses names.  Signatures over messages and record sets
    are made and checked by a [Signer] that holds a [KeyPair].

    Around this handler the server polls streams: a [UdpStream], or for each
    accepted connection a [TcpStream] under a [TimeoutStream], yields messages to a
    [RequestStream], and the responses are queued for their sources.  Zones come from
    master files ([Lexer], [Parser]) or from a [Journal], which records every update;
    [load_zone] chooses between the two at start-up and loads the keys. [main] of
    [named] reads the configuration, loads the zones, binds the sockets, loads or makes
    the certificate for TLS and registers the listeners.

    A client connects ([TcpClientConnection], [UdpClientConnection],
    [TlsClientConnection]) and builds a message ([ClientHandle]); a [ClientFuture] gives it an id, signs
    it if it is an update, sends it and waits for a reply with that id or for a
    timeout; wrappers retry it, remember its outcome, or validate the reply up to a
    trust anchor ([SecureClientHandle]); [SyncClient] and [SecureSyncClient] run an
    event loop until the outcome is there.

    The files, in order of dependency (paths under src/client/src unless they start
    with [server]); a definition has the name of the Rust item it models, a method
    [f] of a type [T] being [T_f]:

    - [Prelude]: outcomes of a Rust call, the state-and-error monad, checked machine
      arithmetic, orders, hints and tactics, lemmas on lists and bytes.
    - [Codec]: serialize/binary/decoder.rs, encoder.rs; the error kinds.
    - [Wire]: what it means for a writer and a reader to fit; the lemmas from which
      every round trip is composed.
    - [Domain]: rr/domain.rs ([Name]).
    - [Enums]: record_type.rs, dns_class.rs, op_code.rs, response_code.rs,
      algorithm.rs, digest_type.rs, nsec3.rs (the code), supported_algorithm.rs.
    - [Header]: op/header.rs, op/query.rs.
    - [RData]: the files of rr/rdata and rr/record_data.rs.  [RDataWire], [BitMaps]
      and [RDataProps]: its round trips.
    - [Resource]: rr/resource.rs.
    - [Message]: op/edns.rs, op/message.rs.
    - [RecordSet]: rr/rr_set.rs.
    - [KeyPair]: rr/dnssec/keypair.rs, trust_anchor.rs, the hashing of
      digest_type.rs and [DNSKEY::to_digest].
    - [Signer]: rr/dnssec/signer.rs and [Message::sign].
    - [Update]: the trait [UpdateMessage] of op/message.rs, an interface with laws through
      which the client builds updates and the server reads them.
    - [BTree]: the part of [std::collections::BTreeMap] a zone uses: a list of
      entries sorted by key.
    - [Journal]: server/src/authority/persistence.rs.
    - [Authority]: rr/rr_key.rs, server/src/authority/authority.rs.
      [AuthorityProps] and [ZoneSecurity]: its theorems; [ZoneInstances]: a concrete
      zone, on which they are applied.
    - [Catalog]: server/src/authority/catalog.rs; [CatalogProps]: its theorems;
      [Responses]: that its responses can be written.
    - [Returns]: that computations end, by composition.
    - [Text]: strings, integers and addresses as [str::parse] reads them, the tokens and
      errors of the text form, [Name::parse].
    - [Lexer]: serialize/txt/master_lex.rs.  [Master]: serialize/txt/master.rs, the
      [parse] functions of rr/rdata, [parse_file] of server/src/named.rs.
    - [ZoneFile]: the zone that a master file gives, set by set.
    - [ClientHandle]: the messages of client/client_future.rs,
      retry_client_handle.rs, memoize_client_handle.rs.
    - [Validate]: client/secure_client_handle.rs, [DS::covers]; [ValidateProps]: its
      theorems; [ValidateExamples]: a concrete chain of trust, and what slips through.
    - [SignedZone]: what [Authority::secure_zone] signs; [SignedReply]: a validating
      client asks a server that signs; [SignedUpdate]: the same after an update;
      [SignedExamples]: a zone on which they are applied.
    - [Streams]: the interface of the transports, [BufStream].  [Tcp]:
      tcp/tcp_stream.rs.  [Udp]: udp/udp_stream.rs, the two client streams.
    - [ClientFuture]: client/client_future.rs; [ClientSteps]: a poll of it, step by step.
      [Sync]: client/client.rs, the client that does not validate.  [Futures]: trees of
      futures, polled on the event loop of a client; [Blocking]: that a run of one ends.
      [SecureSync]: the validating client of client.rs, and the futures of
      secure_client_handle.rs.  [SignedClient]: such a client and a server that signs.
    - [Server]: server/src/server/request_stream.rs, timeout_stream.rs and the loop of
      server_future.rs.  [Listener]: the listeners of server_future.rs.
    - [Schema]: the opening and migration of journals, in persistence.rs.
    - [Nsec3]: rr/dnssec/nsec3.rs.  [KeyFormat]: rr/dnssec/key_format.rs and
      [KeyPair::generate].
    - [Recovery]: a zone that is persisted and recovered.
    - [Named]: server/src/config.rs, and the loading of zones in named.rs.
    - [Certificate]: [read_cert] and [load_cert] of named.rs.
    - [Connect]: the constructors of the streams, tls/tls_stream.rs,
      tls_client_stream.rs and the three client connections.
    - [Startup]: logger.rs, [main] of server/src/named.rs, the constructor and the
      registrations of server_future.rs; the theorems from the zone file to the wire.

    ** Outcomes, state and integers

    A method that returns a [Result] is a function into [res]: [Ok], [Err], [Panic]
    or [Diverge].  A method on [&mut self] is a state transformer ([M]), and the
    state it leaves on an error is part of its result, since Rust does not roll
    back; after a panic the state is behind a poisoned lock and nothing reads it.
    Integers are [Z] with their width written out at every operation that can leave
    it: [as u16] and the like truncate, and an addition, subtraction or index out of
    range panics, as in a build with overflow checks.  Bytes are [Z] in [0, 256).
    Strings are the bytes of their UTF-8 form.  Both features of the client crate,
    [openssl] and [ring], are on.  Log lines and allocation are left out.

    What the program takes from elsewhere is a class of operations, and its
    documented behaviour a class of laws, which are hypotheses of the theorems that
    need them and are shown to hold of a concrete instance: [Lowercase] (Unicode
    lowercasing), [HashOrder] (the order a [HashMap] is walked in: any permutation),
    [Crypto] and [CryptoLaws] (openssl and ring), [Sqlite] and [SqliteLaws]
    (rusqlite), [SqliteSchema] and [SchemaLaws] (its tables), [Clock] (chrono),
    [KeyFiles] and [KeyFileLaws] (key serialisation), [Numeric] ([char::is_numeric]),
    [Rng] (rand), [Network] (the server's replies and the order in which futures
    complete), [Scheduler] (the order in which a selection polls its futures), [Disk] and [DiskLaws] (files), [X509Lib] (certificates), [Host] (TOML, the
    sockets of the server), [Net] (the sockets of a client), [TlsLib] and [TlsLaws]
    (the handshake of native_tls).

    A future is a function of its state and of what the reactor shows it in one poll
    ([Moment], [Tick]); a socket is a script of what its next calls do, so that a
    theorem for all scripts is one for all ways a network can block, fail and cut up
    bytes.  A completed request is an entry in a log, which makes it observable that
    none is completed twice.

    ** What is proved

    - Wire format.  Every well-formed message is written, within the sum of its
      uncompressed sizes, and what is written parses back to it; every message the
      parser accepts is structured as its header says ([Message]).  Names: reading
      is exactly the grammar of compressed names, writing with compression is
      undone by reading, order and equality are lawful ([Domain]).  Round trips of
      type bit maps ([BitMaps]) and options ([RDataWire]), codes ([Enums]).
    - Record sets.  Insertion and removal keep a set well formed and do what RFC
      2136 asks of them; the SOA serial only grows; a signed answer carries the best
      supported signature ([RecordSet]).
    - Signatures.  A message that is signed, sent and parsed verifies; the bytes a
      record set's signature covers do not depend on the order of the records; the
      wildcard rule; RSA keys survive publication ([Signer], [KeyPair]).  Every signature
      that a zone is given verifies under the key it publishes ([SignedZone]).
    - Zones.  Lookup is sound and complete against the set of the zone's records;
      transfers are framed by the SOA; prerequisites are decided as specified;
      updates keep the zone invariant and move the serial forward; nothing but an
      authenticated, prescanned update changes a zone; the NSEC chain is complete
      ([AuthorityProps], [ZoneSecurity]).  The journal yields what was appended
      ([Journal]).
    - The server.  The most specific zone answers; a query is answered with exactly
      the matching records and never panics; no request but an authenticated update
      changes a zone ([CatalogProps]); every response can be written and is read back
      ([Responses]).  When [named] has started, a query that arrives as a datagram is
      answered with the records of the zone file that match ([Startup]); a certificate is
      made once and found again ([Certificate]).
    - Zone files. A file made of printed records parses to exactly those records;
      loading any file ends, within the lexer's bound per token, and gives a
      well-formed zone; names are read as they are printed ([Text], [Lexer],
      [Master]). A zone survives being written to a journal and a restart of the
      server ([Recovery], [Named]); a journal that is opened is ready ([Schema]); keys
      survive their files ([KeyFormat]); the NSEC3 hash is that of RFC 5155 but for
      the case of letters ([Nsec3]).
    - Transports. A TCP stream keeps every byte of both directions; two of them
      implement a queue of messages; what arrives is delivered ([Tcp]). A UDP server
      and a TCP connection implement the same specification: the answers, in order, of
      handling the decodable messages one after the other ([Server], [Listener]).
    - Clients. Each update message means what RFC 2136 says of it, and a created set
      is found by a lookup ([ClientHandle]); every record a validating client passes
      on is vouched for by a chain of signatures from a trust anchor, in the sense the
      code gives to it, and validation ends ([ValidateProps]); and what a server of this
      library signs such a client accepts, record for record, over the wire
      ([SignedReply]), also what another client has just created ([SignedUpdate]); a TLS client says nothing to a server that has not shown a
      certificate it trusts ([Connect]); no request is lost,
      answered twice, given a reply to another id, or outlives its timeout
      ([ClientFuture]); a blocking call returns ([Sync]); a question asked over UDP is
      given the catalog's answer ([Server]).  A blocking call of the validating client, which
      may have many requests in flight at once, does what the validator computes for
      the network that the run saw, returns as time passes ([SecureSync]), and gives
      the records of a zone that was signed ([SignedClient]).
    - Where the program does not do what it means to, a theorem says what it does
      instead: pointer loops, the panics a hostile update can cause and their
      persistence, the inverted deletion filter, the NSEC record chosen for a
      denial, the lost serial, signatures over hash-ordered options, updates that are
      remembered instead of sent, gaps in validation, replies trusted by id and from any
      source, frames of length zero, listeners that one client can stop, journals and
      key configurations that do not do what they say, questions about a signed zone
      that have no valid answer, a certificate that blocks later starts, connections
      without a timeout.

    ** Fuel

    [Name_read_loop] is given more turns than the number of loop turns a chain of
    distinct pointers can take; [Name_read_fuel_enough] shows that a run that does not
    end within it does not end at all. [txt_read_loop] and [opt_read_loop] consume at
    least one byte per turn and are given one turn more than the length of the data.
    [find_auth_loop] drops one label per turn and is given one turn more than there
    are labels; [SupportedAlgorithmsIter_loop] walks 256 positions. [JournalIter_from]
    and [recover_loop] take their fuel as an argument, a bound on the number of rows,
    and so do [load_zone] and [load_zones]. [next_token_loop] has the 4095 turns after
    which the source panics; [parse_loop] is given a turn per character, which
    [next_token] consumes. [secure_send] needs 22: the handle refuses a depth above
    20, and [secure_send_terminates] shows that it is enough; [send_future] has the same,
    and [block_on] and [Core_run] take the turns of the event loop. [send_fuel] and
    [read_fuel] of [Tcp] bound the turns by the messages, events and bytes at hand,
    and [TcpStream_poll_conserves] shows that they suffice; [RequestStream_poll] and
    [serve] take a bound on the messages at hand, as [tcp_server_poll_ends] and the
    refinements say. [schema_loop] has one turn more than there are migrations.
    [next_random_socket] takes the number of polls, [main] the bound on journal rows that
    [load_zones] has.

    ** Bounds

    [zone_writable] asks for records that have a wire form and at most 32000 of them in a
    zone, so that a section holds them and a message stays within the 32-bit offsets of
    the encoder; [message_ok], [record_ok] and the like are decidable, and the examples
    are checked by evaluation ([by_decision]).

    ** What is not modelled

    Third-party code is a parameter: TOML decoding, the command line, openssl, ring,
    native_tls, rusqlite and the reactor.  Of the library of futures the combinators [and_then],
    [select_all] and [select_ok] are used as documented, with the order of polling a parameter; an
    event loop is a sequence of turns.  A TLS stream is a [TcpStream] over a stream of native_tls, whose
    handshake is an event of [Listener] and a parameter of [Connect]; the variants of
    tls_stream.rs for macOS are left out, and so are the features without openssl.  Log
    lines are not formatted.  [ServerFuture::listen] only runs the event loop.  Getters are the
    projections of their records, constructors that fill in all fields those of the records.  A zone whose
    configuration asks for signing is loaded unsigned, which is a theorem of [Named], so there is
    no theorem from a configuration to a signed answer: [SignedReply] and [SignedClient]
    begin with a zone that was secured. *)

From stdpp Require Export base list list_numbers numbers gmap strings sorting.
From Stdlib Require Export ZArith Lia.

(** ** Outcomes

    A Rust call ends in one of four ways.  [Ok] and [Err] are the two
    constructors of [Result]; [Panic] is an unwinding call: a failed [assert!],
    an [unwrap] of the wrong constructor, [unimplemented!], an index out of
    range, or an arithmetic overflow in a build with overflow checks (the
    profile [cargo test] and [cargo build] use); [Diverge] is a call that has
    not returned within the fuel it was given. *)
Inductive res (E A : Type) : Type :=
  | Ok (a : A)
  | Err (e : E)
  | Panic
  | Diverge.

Arguments Ok {E A} a.
Arguments Err {E A} e.
Arguments Panic {E A}.
Arguments Diverge {E A}.

(** A stateful fallible computation, the shape of every [&mut self] method that
    returns a [Result]: the state it leaves behind is observable on an error
    too, since Rust does not roll it back. *)
Definition M (S E A : Type) : Type := S → res E A * S.

Definition ret {S E A} (a : A) : M S E A := λ s, (Ok a, s).
Definition fail {S E A} (e : E) : M S E A := λ s, (Err e, s).
Definition panic {S E A} : M S E A := λ s, (Panic, s).
Definition diverge {S E A} : M S E A := λ s, (Diverge, s).

Definition bind {S E A B} (m : M S E A) (k : A → M S E B) : M S E B :=
  λ s, match m s with
       | (Ok a, s') => k a s'
       | (Err e, s') => (Err e, s')
       | (Panic, s') => (Panic, s')
       | (Diverge, s') => (Diverge, s')
       end.

(** [assert!(b)] *)
Definition assert_ {S E} (b : bool) : M S E () := if b then ret () else panic.

(** A pure [Result] used with [try!] inside a stateful method. *)
Definition lift {S E A} (r : res E A) : M S E A := λ s, (r, s).

(** Reading a field, or a value computed from the state. *)
Definition gets {S E A} (f : S → A) : M S E A := λ s, (Ok (f s), s).

Declare Scope mon_scope.
Delimit Scope mon_scope with mon.

Notation "'let*' x := m 'in' k" := (bind m (λ x, k))
  (at level 10, x binder, m at level 100, k at level 200,
   format "'[v' 'let*'  x  :=  m  'in' '/' k ']'") : mon_scope.
Notation "m1 ;;; m2" := (bind m1 (λ _, m2))
  (at level 90, right associativity) : mon_scope.
Open Scope mon_scope.

(** A [for x in xs] loop whose body can fail. *)
Fixpoint for_each {S E A} (f : A → M S E ()) (xs : list A) : M S E () :=
  match xs with
  | [] => ret ()
  | x :: xs => f x ;;; for_each f xs
  end.

(** [for _ in 0..n { v.push(try!(m)) }] *)
Fixpoint repeat_m {S E A} (n : nat) (m : M S E A) : M S E (list A) :=
  match n with
  | O => ret []
  | S n => let* x := m in let* xs := repeat_m n m in ret (x :: xs)
  end.

(** The pure fallible computations, for code without [&mut self]. *)
Definition rbind {E A B} (r : res E A) (k : A → res E B) : res E B :=
  match r with
  | Ok a => k a
  | Err e => Err e
  | Panic => Panic
  | Diverge => Diverge
  end.

Notation "'try*' x := r 'in' k" := (rbind r (λ x, k))
  (at level 10, x binder, r at level 100, k at level 200,
   format "'[v' 'try*'  x  :=  r  'in' '/' k ']'") : mon_scope.

(** [Result::map_err] *)
Definition map_err {E F A} (f : E → F) (r : res E A) : res F A :=
  match r with Ok a => Ok a | Err e => Err (f e) | Panic => Panic | Diverge => Diverge end.

Definition is_Ok {E A} (r : res E A) : Prop := ∃ a, r = Ok a.

#[global] Instance is_Ok_dec {E A} (r : res E A) : Decision (is_Ok r).
Proof. destruct r as [a| | |]; [left; by exists a|right; by intros [a ?]..]. Defined.

(** ** Reasoning about computations *)

Section monad.
Context {S E : Type}.
Implicit Types s : S.

Lemma bind_Ok {A B} (m : M S E A) (k : A → M S E B) a s s' :
  m s = (Ok a, s') → bind m k s = k a s'.
Proof. intros H. unfold bind. by rewrite H. Qed.

Lemma bind_Err {A B} (m : M S E A) (k : A → M S E B) e s s' :
  m s = (Err e, s') → bind m k s = (Err e, s').
Proof. intros H. unfold bind. by rewrite H. Qed.

Lemma bind_Ok_inv {A B} (m : M S E A) (k : A → M S E B) b s s'' :
  bind m k s = (Ok b, s'') → ∃ a s', m s = (Ok a, s') ∧ k a s' = (Ok b, s'').
Proof. unfold bind. destruct (m s) as [[a|e| |] s'] eqn:?; naive_solver. Qed.

Lemma bind_assoc {A B C} (m : M S E A) (f : A → M S E B) (g : B → M S E C) s :
  bind (bind m f) g s = bind m (λ a, bind (f a) g) s.
Proof. unfold bind. by destruct (m s) as [[] ?]. Qed.

(** Computations that agree on every state can replace each other. *)
Lemma bind_ext {A B} (m m' : M S E A) (k k' : A → M S E B) s :
  (∀ s, m s = m' s) → (∀ a s, k a s = k' a s) → bind m k s = bind m' k' s.
Proof. intros Hm Hk. unfold bind. rewrite Hm. destruct (m' s) as [[] ?]; auto. Qed.

Lemma for_each_ext {A B} (f : A → M S E ()) (g : B → M S E ()) xs ys s :
  Forall2 (λ x y, ∀ s, f x s = g y s) xs ys → for_each f xs s = for_each g ys s.
Proof.
  intros H. revert s. induction H as [|x y xs ys Hxy _ IH]; intros s; [done|]. simpl.
  by apply bind_ext; [|intros _].
Qed.

Lemma assert_Ok_inv b s s' u :
  assert_ (E:=E) b s = (Ok u, s') → b = true ∧ s' = s.
Proof. destruct b; unfold assert_, ret, panic; intros; by simplify_eq. Qed.

Lemma for_each_app {A} (f : A → M S E ()) xs ys s :
  for_each f (xs ++ ys) s = (for_each f xs ;;; for_each f ys) s.
Proof.
  revert s. induction xs as [|x xs IH]; intros s; [done|]. simpl.
  rewrite bind_assoc. unfold bind at 1 2.
  destruct (f x s) as [[] s']; [by rewrite IH|done..].
Qed.
End monad.

(** A computation that always returns: it neither panics nor diverges. *)
Definition returns {S E A} (m : M S E A) : Prop :=
  ∀ s, match (m s).1 with Ok _ | Err _ => True | _ => False end.

Lemma returns_bind {S E A B} (m : M S E A) (k : A → M S E B) :
  returns m → (∀ a, returns (k a)) → returns (bind m k).
Proof.
  intros Hm Hk s. specialize (Hm s). unfold bind.
  destruct (m s) as [[a|e| |] s']; try done. apply Hk.
Qed.

Lemma returns_ret {S E A} (a : A) : returns (S:=S) (E:=E) (ret a).
Proof. by intros s. Qed.

Lemma returns_fail {S E A} (e : E) : returns (S:=S) (A:=A) (fail e).
Proof. by intros s. Qed.

Lemma returns_repeat {S E A} n (m : M S E A) : returns m → returns (repeat_m n m).
Proof.
  intros Hm. induction n as [|n IH]; simpl; [apply returns_ret|].
  apply returns_bind; [done|]. intros a. apply returns_bind; [done|]. intros. apply returns_ret.
Qed.

(** [inv_ok H] splits a successful run [H] of a sequence of calls into the
    successful runs of its parts. *)
Ltac inv_ok_step :=
  match goal with
  | H : bind _ _ _ = (Ok _, _) |- _ =>
      let a := fresh "a" in let s := fresh "s" in
      let H1 := fresh "Hm" in let H2 := fresh "Hk" in
      apply bind_Ok_inv in H as (a & s & H1 & H2); cbn beta in H2;
      try match type of a with unit => destruct a end
  | H : ret _ _ = (Ok _, _) |- _ => unfold ret in H; simplify_eq
  | H : gets _ _ = (Ok _, _) |- _ => unfold gets in H; simplify_eq
  | H : lift _ _ = (Ok _, _) |- _ => unfold lift in H; simplify_eq
  | H : fail _ _ = (Ok _, _) |- _ => by unfold fail in H
  | H : panic _ = (Ok _, _) |- _ => by unfold panic in H
  | H : assert_ _ _ = (Ok _, _) |- _ =>
      apply assert_Ok_inv in H as [H ->]
  end.
Ltac inv_ok := repeat inv_ok_step.

(** ** Machine integers *)

Definition u8_max : Z := 255.
Definition u16_max : Z := 65535.
Definition u32_max : Z := 4294967295.

Definition u8 (z : Z) : Prop := (0 ≤ z < 2^8)%Z.
Definition u16 (z : Z) : Prop := (0 ≤ z < 2^16)%Z.
Definition u32 (z : Z) : Prop := (0 ≤ z < 2^32)%Z.
Definition i32 (z : Z) : Prop := (- 2^31 ≤ z < 2^31)%Z.

(** [z as u8] and friends *)
Definition as_u8 (z : Z) : Z := (z `mod` 2^8)%Z.
Definition as_u16 (z : Z) : Z := (z `mod` 2^16)%Z.
Definition as_u32 (z : Z) : Z := (z `mod` 2^32)%Z.
Definition as_i32 (z : Z) : Z := ((z + 2^31) `mod` 2^32 - 2^31)%Z.

#[global] Instance u8_dec z : Decision (u8 z).
Proof. unfold u8. apply _. Defined.
#[global] Instance u16_dec z : Decision (u16 z).
Proof. unfold u16. apply _. Defined.
#[global] Instance u32_dec z : Decision (u32 z).
Proof. unfold u32. apply _. Defined.
#[global] Instance i32_dec z : Decision (i32 z).
Proof. unfold i32. apply _. Defined.

(** Checked subtraction on an unsigned width: an underflow panics. *)
Definition checked_sub {S E} (x y : nat) : M S E nat :=
  if decide (y ≤ x)%nat then ret (x - y)%nat else panic.

Lemma checked_sub_Ok {S E} x y (s : S) :
  (y ≤ x)%nat → checked_sub (E:=E) x y s = (Ok (x - y)%nat, s).
Proof. intros. unfold checked_sub. by rewrite decide_True. Qed.

Lemma bind_checked_sub {S E A} x y (k : nat → M S E A) s :
  (y ≤ x)%nat → bind (checked_sub x y) k s = k (x - y)%nat s.
Proof. intros. by rewrite (bind_Ok _ _ _ _ _ (checked_sub_Ok _ _ _ H)). Qed.

(** A fact about every byte, by enumeration. *)
Lemma u8_forallb (P : Z → bool) : forallb P (seqZ 0 256) = true → ∀ b, u8 b → P b = true.
Proof.
  intros H b [H0 H1]. rewrite forallb_forall in H. apply H.
  apply list_elem_of_In, elem_of_seqZ. lia.
Qed.

Lemma u8_forall (P : Z → Prop) `{∀ b, Decision (P b)} :
  forallb (λ b, bool_decide (P b)) (seqZ 0 256) = true → ∀ b, u8 b → P b.
Proof. intros Hall b Hb. apply (bool_decide_eq_true_1 _), (u8_forallb _ Hall b Hb). Qed.

(** A decidable proposition about given data, by evaluation. *)
Ltac by_decision := apply (bool_decide_unpack _); vm_compute; exact I.

(** The decision of a record of propositions, from that of their conjunction. *)
Ltac dec_fields :=
  match goal with
  | H : ¬ _ |- _ => intros []; apply H; repeat (split; [done|]); done
  | H : _ ∧ _ |- _ => destruct_and!; by split
  end.

(** A goal [∀ b, u8 b → P b] by evaluating [P] at every byte. *)
Ltac by_all_bytes :=
  match goal with |- ∀ b, u8 b → @?P b => apply (u8_forall P); vm_compute; reflexivity end.

Create HintDb dns.
#[export] Hint Resolve returns_bind returns_ret returns_fail returns_repeat : dns.

(** ** Orders

    [Ord::cmp] as a class: a comparison, and the laws Rust asks of it.  Two
    values that compare [Eq] need not be equal: [Name] compares without regard
    to case. *)
Class Compare (A : Type) := cmp : A → A → comparison.
#[global] Hint Mode Compare ! : typeclass_instances.

Class CompareLaws (A : Type) `{Compare A} : Prop := {
  cmp_opp (x y : A) : cmp y x = CompOpp (cmp x y);
  cmp_lt_trans (x y z : A) : cmp x y = Lt → cmp y z = Lt → cmp x z = Lt;
  cmp_eq_l (x y z : A) : cmp x y = Eq → cmp x z = cmp y z;
}.

Section compare_laws.
Context `{CompareLaws A}.
Implicit Types x y z : A.

Lemma cmp_refl x : cmp x x = Eq.
Proof. pose proof (cmp_opp x x). by destruct (cmp x x). Qed.

Lemma cmp_eq_sym x y : cmp x y = Eq → cmp y x = Eq.
Proof. intros E. by rewrite cmp_opp, E. Qed.

Lemma cmp_eq_r x y z : cmp y z = Eq → cmp x y = cmp x z.
Proof. intros E. rewrite (cmp_opp y x), (cmp_opp z x). by rewrite (cmp_eq_l y z x E). Qed.

Lemma cmp_gt_lt x y : cmp x y = Gt ↔ cmp y x = Lt.
Proof. rewrite (cmp_opp x y). by destruct (cmp x y). Qed.

Lemma cmp_le_trans x y z : cmp x y ≠ Gt → cmp y z ≠ Gt → cmp x z ≠ Gt.
Proof.
  intros Hxy Hyz. destruct (cmp x y) eqn:Exy; [by rewrite (cmp_eq_l x y z Exy)| |done].
  destruct (cmp y z) eqn:Eyz; [|by rewrite (cmp_lt_trans x y z)|done].
  by rewrite <-(cmp_eq_r x y z Eyz), Exy.
Qed.
End compare_laws.

#[global] Instance Z_compare_inst : Compare Z := Z.compare.
#[global] Instance Z_compare_laws : CompareLaws Z.
Proof.
  split; unfold cmp, Z_compare_inst; intros x y.
  - apply Z.compare_antisym.
  - intros z. rewrite !Z.compare_lt_iff. lia.
  - intros z. by rewrite Z.compare_eq_iff; intros ->.
Qed.

(** Lexicographic order on sequences, the absence of an element sorting first. *)
Fixpoint list_cmp {A} `{Compare A} (l k : list A) : comparison :=
  match l, k with
  | [], [] => Eq
  | [], _ :: _ => Lt
  | _ :: _, [] => Gt
  | x :: l, y :: k => match cmp x y with Eq => list_cmp l k | o => o end
  end.

#[global] Instance list_compare_inst {A} `{Compare A} : Compare (list A) := list_cmp.
#[global] Instance list_compare_laws {A} `{CompareLaws A} : CompareLaws (list A).
Proof.
  split; unfold cmp, list_compare_inst; intros l.
  - induction l as [|x l IH]; intros [|y k]; simpl; try done.
    rewrite (cmp_opp x y). destruct (cmp x y); simpl; auto.
  - induction l as [|x l IH]; intros [|y k] [|z m]; simpl; try done.
    destruct (cmp x y) eqn:Exy, (cmp y z) eqn:Eyz; try done; intros.
    + rewrite (cmp_eq_l x y z Exy), Eyz. eauto.
    + by rewrite (cmp_eq_l x y z Exy), Eyz.
    + by rewrite <-(cmp_eq_r x y z Eyz), Exy.
    + by rewrite (cmp_lt_trans x y z).
  - induction l as [|x l IH]; intros [|y k] [|z m]; simpl; try done;
      destruct (cmp x y) eqn:Exy; try done; intros Elk.
    rewrite (cmp_eq_l x y z Exy). destruct (cmp y z); auto.
Qed.

(** Equality of sequences is [Eq] when it is for the elements. *)
Lemma list_cmp_eq_iff {A} `{Compare A} (l k : list A) :
  (∀ x y : A, cmp x y = Eq ↔ x = y) → cmp l k = Eq ↔ l = k.
Proof.
  intros Hiff. unfold cmp, list_compare_inst. revert k.
  induction l as [|x l IH]; intros [|y k]; simpl; try done.
  destruct (cmp x y) eqn:E.
  - apply Hiff in E as ->. rewrite IH. split; [by intros ->|by intros [= ->]].
  - split; [done|]. intros [= -> _]. by rewrite (proj2 (Hiff y y)) in E.
  - split; [done|]. intros [= -> _]. by rewrite (proj2 (Hiff y y)) in E.
Qed.

Lemma Z_cmp_eq_iff (x y : Z) : cmp x y = Eq ↔ x = y.
Proof. apply Z.compare_eq_iff. Qed.

(** Comparing through a key, as [u16::from(x).cmp(&u16::from(y))] does. *)
Lemma compare_laws_key {A B} `{CompareLaws B} (f : A → B) (C : Compare A) :
  (∀ x y : A, cmp x y = cmp (f x) (f y)) → CompareLaws A.
Proof.
  intros Hf. split; intros *; rewrite ?Hf; [apply cmp_opp|apply cmp_lt_trans|apply cmp_eq_l].
Qed.

(** ** Iterating a partial step

    A walk that stops, stops before it has taken more steps than there are
    places to step from. *)
Fixpoint iter_opt {A} (f : A → option A) (k : nat) (x : A) : option A :=
  match k with
  | O => Some x
  | S k => match f x with Some y => iter_opt f k y | None => None end
  end.

Section iter_opt.
Context {A} (f : A → option A).

Lemma iter_opt_S k x :
  iter_opt f (S k) x = match f x with Some y => iter_opt f k y | None => None end.
Proof. done. Qed.

Lemma iter_opt_add i j x :
  iter_opt f (i + j) x = match iter_opt f i x with Some y => iter_opt f j y | None => None end.
Proof. revert x. induction i as [|i IH]; intros x; simpl; [done|]. by destruct (f x). Qed.

Lemma iter_opt_None_le i j x : (i ≤ j)%nat → iter_opt f i x = None → iter_opt f j x = None.
Proof. intros Hle H. replace j with (i + (j - i))%nat by lia. by rewrite iter_opt_add, H. Qed.

(** The positions a shortest terminating walk visits are distinct. *)
Lemma iter_opt_minimal_inj k x i j y :
  iter_opt f k x = None → (∀ k', (k' < k)%nat → iter_opt f k' x ≠ None) →
  iter_opt f i x = Some y → iter_opt f j x = Some y → (i < j)%nat → (j < k)%nat → False.
Proof.
  intros Hk Hmin Hi Hj Hij Hjk. apply (Hmin (i + (k - j))%nat); [lia|].
  rewrite iter_opt_add, Hi. replace k with (j + (k - j))%nat in Hk by lia.
  by rewrite iter_opt_add, Hj in Hk.
Qed.
End iter_opt.

Lemma iter_opt_bound (f : nat → option nat) (N k x : nat) :
  (∀ y, is_Some (f y) → (y < N)%nat) →
  iter_opt f k x = None → iter_opt f (S N) x = None.
Proof.
  intros HN Hk.
  assert (∃ k', iter_opt f k' x = None ∧ ∀ j, (j < k')%nat → iter_opt f j x ≠ None)
    as (m & Hm & Hmin).
  { induction (lt_wf k) as [k _ IH].
    destruct (decide (Exists (λ j, iter_opt f j x = None) (seq 0 k))) as [Hex|Hno].
    - apply Exists_exists in Hex as (j & Hj & HjN). apply elem_of_seq in Hj.
      apply (IH j); [lia|done].
    - exists k. split; [done|]. intros j Hj HjN. apply Hno, Exists_exists. exists j.
      rewrite elem_of_seq. split; [lia|done]. }
  destruct (decide (m ≤ S N)%nat) as [Hle|Hgt]; [by eapply iter_opt_None_le|]. exfalso.
  set (g := λ i, default 0%nat (iter_opt f i x)).
  assert (Hg : ∀ i, (i < m)%nat → iter_opt f i x = Some (g i)).
  { intros i Hi. unfold g. specialize (Hmin i Hi). by destruct (iter_opt f i x). }
  assert (Hlen : (length (g <$> seq 0 (m - 1)) ≤ length (seq 0 N))%nat).
  { apply submseteq_length, NoDup_submseteq.
    - apply NoDup_fmap_2_strong; [|apply NoDup_seq].
      intros i j Hi Hj E. apply elem_of_seq in Hi, Hj.
      pose proof (Hg i ltac:(lia)) as Hi'. pose proof (Hg j ltac:(lia)) as Hj'.
      rewrite E in Hi'. destruct (lt_eq_lt_dec i j) as [[?|?]|?]; [exfalso|done|exfalso].
      + eapply (iter_opt_minimal_inj f m x i j); eauto; lia.
      + eapply (iter_opt_minimal_inj f m x j i); eauto; lia.
    - intros y. rewrite list_elem_of_fmap. intros (i & -> & Hi). apply elem_of_seq in Hi.
      apply elem_of_seq. split; [lia|]. apply HN.
      pose proof (Hg (i + 1)%nat ltac:(lia)) as H1.
      rewrite iter_opt_add, (Hg i ltac:(lia)) in H1. simpl in H1. by destruct (f (g i)). }
  rewrite length_fmap, !length_seq in Hlen. lia.
Qed.

(** ** Filters *)

Section filters.
Context {A : Type} (P : A → Prop) `{!∀ x, Decision (P x)}.

Lemma filter_all (l : list A) : (∀ x, x ∈ l → P x) → filter P l = l.
Proof.
  induction l as [|x l IH]; intros Hl; [done|]. rewrite filter_cons, decide_True by (apply Hl; by left).
  f_equal. apply IH. intros y Hy. apply Hl. by right.
Qed.

Lemma Forall_filter (Q : A → Prop) (l : list A) : Forall Q l → Forall Q (filter P l).
Proof.
  rewrite !Forall_forall. intros Hl x [_ Hx]%list_elem_of_filter. auto.
Qed.
End filters.
