(* ===== verification/Codec.v ===== *)
(** * The binary codec: [BinDecoder] and [BinEncoder]

    Models [client/src/serialize/binary/decoder.rs] and [encoder.rs]: the two
    cursors every wire format of the crate is written with, the errors they
    report ([client/src/error]), and the UTF-8 check of [String::from_utf8]. *)

From S2P Require Import Prelude.

Open Scope Z_scope.

(** ** Bytes and strings

    A [u8] is a [Z]; a [String] (or [&str]) is the list of its UTF-8 bytes. *)

Abbreviation byte := Z (only parsing).
Abbreviation bytes := (list Z) (only parsing).
Abbreviation label := (list Z) (only parsing).

Definition in_range (lo hi b : Z) : bool := (lo <=? b) && (b <=? hi).
Definition utf8_cont (b : Z) : bool := in_range 128 191 b.

(** Well-formed UTF-8 (table 3-7 of the Unicode standard), the test of
    [String::from_utf8]. *)
Fixpoint valid_utf8 (s : list Z) : bool :=
  match s with
  | [] => true
  | b :: r =>
      if in_range 0 127 b then valid_utf8 r
      else match r with
      | [] => false
      | b1 :: r1 =>
          if in_range 194 223 b then utf8_cont b1 && valid_utf8 r1
          else match r1 with
          | [] => false
          | b2 :: r2 =>
              if in_range 224 239 b then
                (if b =? 224 then in_range 160 191 b1
                 else if b =? 237 then in_range 128 159 b1 else utf8_cont b1)
                && utf8_cont b2 && valid_utf8 r2
              else match r2 with
              | [] => false
              | b3 :: r3 =>
                  in_range 240 244 b &&
                  (if b =? 240 then in_range 144 191 b1
                   else if b =? 244 then in_range 128 143 b1 else utf8_cont b1)
                  && utf8_cont b2 && utf8_cont b3 && valid_utf8 r3
              end
          end
      end
  end.

(** ** Errors *)

(** [DecodeErrorKind]; [Msg] carries the text and the value of the formatted
    message, [UTF8] is the foreign link to [FromUtf8Error].  [EdnsNameNotRoot]
    carries the labels of the name. *)
Inductive decode_error : Type :=
  | Message (message : string)
  | Msg (message : string) (value : Z)
  | UTF8
  | UnknownDnsClassValue (value : Z)
  | UnknownDnsClassStr (value : string)
  | UnknownRecordTypeValue (value : Z)
  | UnknownRecordTypeStr (value : string)
  | UnknownAlgorithmTypeValue (value : Z)
  | EdnsNameNotRoot (found : list label)
  | DnsKeyProtocolNot3 (value : Z)
  | UnrecognizedNsec3Flags (value : Z)
  | UnrecognizedLabelCode (value : Z)
  | IncorrectRDataLengthRead (read len : nat).

(** [EncodeErrorKind] *)
Inductive encode_error : Type :=
  | CharacterDataTooLong (len : nat)
  | LabelBytesTooLong (len : nat)
  | DomainNameTooLong (len : nat).

(** ** [BinDecoder] *)

Record BinDecoder : Type := dec_at { dbuf : bytes; dindex : nat }.

Definition D (A : Type) : Type := M BinDecoder decode_error A.

Definition BinDecoder_new (buffer : bytes) : BinDecoder := dec_at buffer 0.

Definition BinDecoder_pop : D byte := λ d,
  match dbuf d !! dindex d with
  | Some b => (Ok b, dec_at (dbuf d) (S (dindex d)))
  | None => (Err (Message "unexpected end of input reached"), d)
  end.

(** [self.buffer.len() - self.index]: an index past the end, which only a
    pointer of [Name::read] makes, underflows. *)
Definition BinDecoder_len : D nat := λ d,
  checked_sub (length (dbuf d)) (dindex d) d.

Definition BinDecoder_peek (d : BinDecoder) : option byte := dbuf d !! dindex d.

Definition BinDecoder_index (d : BinDecoder) : nat := dindex d.

Definition BinDecoder_clone (d : BinDecoder) (index_at : Z) : BinDecoder :=
  dec_at (dbuf d) (Z.to_nat index_at).

Definition BinDecoder_read_vec (len : nat) : D bytes := repeat_m len BinDecoder_pop.

Definition String_from_utf8 (v : bytes) : D bytes :=
  if valid_utf8 v then ret v else fail UTF8.

Definition BinDecoder_read_character_data : D bytes :=
  let* length := BinDecoder_pop in
  let* label_vec := BinDecoder_read_vec (Z.to_nat length) in
  String_from_utf8 label_vec.

Definition BinDecoder_read_u8 : D Z := BinDecoder_pop.

Definition BinDecoder_read_u16 : D Z :=
  let* b1 := BinDecoder_pop in
  let* b2 := BinDecoder_pop in
  ret (Z.shiftl b1 8 + b2).

Definition BinDecoder_read_i32 : D Z :=
  let* b1 := BinDecoder_pop in
  let* b2 := BinDecoder_pop in
  let* b3 := BinDecoder_pop in
  let* b4 := BinDecoder_pop in
  ret (as_i32 (Z.shiftl b1 24) + Z.shiftl b2 16 + Z.shiftl b3 8 + b4).

Definition BinDecoder_read_u32 : D Z :=
  let* b1 := BinDecoder_pop in
  let* b2 := BinDecoder_pop in
  let* b3 := BinDecoder_pop in
  let* b4 := BinDecoder_pop in
  ret (Z.shiftl b1 24 + Z.shiftl b2 16 + Z.shiftl b3 8 + b4).

(** ** [BinEncoder] *)

Inductive EncodeMode : Type := Signing | Normal.

#[global] Instance EncodeMode_eq_dec : EqDecision EncodeMode.
Proof. solve_decision. Defined.

Record BinEncoder : Type := mk_encoder {
  eoffset : Z;
  ebuf : bytes;
  name_pointers : gmap (list label) Z;
  emode : EncodeMode;
  canonical_names : bool;
}.

Definition X (A : Type) : Type := M BinEncoder encode_error A.

Definition BinEncoder_with_offset (buf : bytes) (offset : Z) (mode : EncodeMode) : BinEncoder :=
  mk_encoder offset buf ∅ mode false.
Definition BinEncoder_new (buf : bytes) : BinEncoder := BinEncoder_with_offset buf 0 Normal.
Definition BinEncoder_with_mode (buf : bytes) (mode : EncodeMode) : BinEncoder :=
  BinEncoder_with_offset buf 0 mode.

Definition BinEncoder_len (e : BinEncoder) : nat := length (ebuf e).
Definition BinEncoder_offset (e : BinEncoder) : Z := eoffset e.
Definition BinEncoder_mode (e : BinEncoder) : EncodeMode := emode e.
Definition BinEncoder_is_canonical_names (e : BinEncoder) : bool := canonical_names e.

Definition BinEncoder_set_canonical_names (c : bool) : X () := λ e,
  (Ok (), mk_encoder (eoffset e) (ebuf e) (name_pointers e) (emode e) c).

(** [self.offset += 1] overflows a [u32] after 2^32 - 1 bytes. *)
Definition BinEncoder_emit (b : byte) : X () := λ e,
  if eoffset e + 1 <=? u32_max then
    (Ok (), mk_encoder (eoffset e + 1) (ebuf e ++ [b]) (name_pointers e) (emode e)
                       (canonical_names e))
  else (Panic, e).

Definition BinEncoder_store_label_pointer (labels : list label) : X () := λ e,
  (Ok (),
   if eoffset e <? 16383 (* 0x3FFF *) then
     mk_encoder (eoffset e) (ebuf e) (<[labels := as_u16 (eoffset e)]> (name_pointers e))
                (emode e) (canonical_names e)
   else e).

Definition BinEncoder_get_label_pointer (e : BinEncoder) (labels : list label) : option Z :=
  name_pointers e !! labels.

Definition BinEncoder_emit_vec (data : bytes) : X () := for_each BinEncoder_emit data.

Definition BinEncoder_emit_character_data (char_bytes : bytes) : X () :=
  if decide (255 < length char_bytes)%nat then fail (CharacterDataTooLong (length char_bytes))
  else
    BinEncoder_emit (as_u8 (Z.of_nat (length char_bytes))) ;;;
    for_each BinEncoder_emit char_bytes.

Definition BinEncoder_emit_u16 (data : Z) : X () :=
  let b1 := as_u8 (Z.land (Z.shiftr data 8) 255) in
  let b2 := as_u8 (Z.land data 255) in
  BinEncoder_emit b1 ;;; BinEncoder_emit b2.

Definition BinEncoder_emit_i32 (data : Z) : X () :=
  let b1 := as_u8 (Z.land (Z.shiftr data 24) 255) in
  let b2 := as_u8 (Z.land (Z.shiftr data 16) 255) in
  let b3 := as_u8 (Z.land (Z.shiftr data 8) 255) in
  let b4 := as_u8 (Z.land data 255) in
  BinEncoder_emit b1 ;;; BinEncoder_emit b2 ;;; BinEncoder_emit b3 ;;; BinEncoder_emit b4.

Definition BinEncoder_emit_u32 (data : Z) : X () :=
  let b1 := as_u8 (Z.land (Z.shiftr data 24) 255) in
  let b2 := as_u8 (Z.land (Z.shiftr data 16) 255) in
  let b3 := as_u8 (Z.land (Z.shiftr data 8) 255) in
  let b4 := as_u8 (Z.land data 255) in
  BinEncoder_emit b1 ;;; BinEncoder_emit b2 ;;; BinEncoder_emit b3 ;;; BinEncoder_emit b4.
