(* ===== verification/Wire.v ===== *)
(** * The wire relation

    What the bytes written by [BinEncoder] mean to [BinDecoder]: the grammar of
    compressed names, the invariant of the encoder's table of name pointers, and
    the two judgements every serialisable type of the crate is verified with:
    [RT] (what is written is read back) and [TOT] (writing succeeds, within a
    bound on the size). *)

From S2P Require Import Prelude Codec.

Open Scope Z_scope.

(** ** Names on the wire (RFC 1035, 4.1.4)

    [name_at buf p ls q]: a name starting at byte [p] of the message [buf] spells
    the labels [ls], and the bytes after it start at [q].  This is what [Name::read] accepts; the RFC's
    limit of 255 octets on a whole name, which the code does not test, is not part of it. *)
Inductive name_at (buf : bytes) : nat → list label → nat → Prop :=
  | name_at_root p :
      buf !! p = Some 0 → name_at buf p [] (S p)
  | name_at_label p l ls q :
      buf !! p = Some (Z.of_nat (length l)) →
      (0 < length l < 64)%nat →
      take (length l) (drop (S p) buf) = l →
      valid_utf8 l = true →
      name_at buf (S p + length l) ls q →
      name_at buf p (l :: ls) q
  | name_at_pointer p b1 b2 ls q :
      buf !! p = Some b1 → buf !! S p = Some b2 →
      Z.land b1 192 = 192 →
      name_at buf (Z.to_nat (Z.land (Z.shiftl b1 8 + b2) 16383)) ls q →
      name_at buf p ls (S (S p)).

(** A label that has a wire form: not empty (an empty label is the root's
    terminator), at most 63 bytes, and UTF-8. *)
Definition label_ok (l : label) : Prop :=
  (0 < length l < 64)%nat ∧ valid_utf8 l = true.

#[global] Instance label_ok_dec l : Decision (label_ok l).
Proof. unfold label_ok. apply _. Defined.

(** ** The encoder's invariant

    [pre] is what precedes the encoder's own buffer in the message: empty for a
    message's encoder, everything written so far for the temporary encoder that
    [Record::emit] writes RDATA with.  Each stored pointer leads to the name it
    is stored under, except the pending ones in [P], whose name is still being
    written. *)
Record enc_ok (P : list label → Z → Prop) (pre : bytes) (e : BinEncoder) : Prop := {
  eo_offset : eoffset e = Z.of_nat (length pre + length (ebuf e));
  eo_pointers ls loc :
    name_pointers e !! ls = Some loc →
    0 ≤ loc < 16383 ∧
    (P ls loc ∨ ∃ q, name_at (pre ++ ebuf e) (Z.to_nat loc) ls q);
}.

Definition no_pending (ls : list label) (loc : Z) : Prop := False.

(** The encoder [e'] continues [e]: it has appended to the buffer and kept the
    mode and the canonical flag. *)
Record extends (e e' : BinEncoder) : Prop := {
  ex_buf : ∃ w, ebuf e' = ebuf e ++ w;
  ex_mode : emode e' = emode e;
  ex_canonical : canonical_names e' = canonical_names e;
}.

(** [RT c em rd a]: whatever [em] appends, with the canonical flag at [c], [rd]
    reads back as [a], consuming exactly those bytes, in every message they end
    up in. *)
Definition RT {A} (c : bool) (em : X ()) (rd : D A) (a : A) : Prop :=
  ∀ pre e e',
    enc_ok no_pending pre e → canonical_names e = c → em e = (Ok (), e') →
    enc_ok no_pending pre e' ∧ extends e e' ∧
    ∀ suf, rd (dec_at (pre ++ ebuf e' ++ suf) (length pre + length (ebuf e))) =
           (Ok a, dec_at (pre ++ ebuf e' ++ suf) (length pre + length (ebuf e'))).

(** The encoder [e'] is [e] after at most [n] more bytes. *)
Record grown (n : nat) (e e' : BinEncoder) : Prop := {
  gr_buf : ∃ w, ebuf e' = ebuf e ++ w ∧ (length w ≤ n)%nat ∧
                eoffset e' = eoffset e + Z.of_nat (length w);
  gr_mode : emode e' = emode e;
  gr_canonical : canonical_names e' = canonical_names e;
}.

(** [TOT c em n]: with the canonical flag at [c], [em] succeeds and appends at
    most [n] bytes, as long as those fit the 32-bit offset. *)
Definition TOT (c : bool) (em : X ()) (n : nat) : Prop :=
  ∀ e, canonical_names e = c → eoffset e + Z.of_nat n ≤ u32_max →
    ∃ e', em e = (Ok (), e') ∧ grown n e e'.

(** ** Generic lemmas *)

Lemma name_at_app buf suf p ls q :
  name_at buf p ls q → name_at (buf ++ suf) p ls q.
Proof.
  induction 1 as [p H|p l ls q H Hl Ht Hu _ IH|p b1 b2 ls q H1 H2 Hb _ IH].
  - apply name_at_root. by apply lookup_app_l_Some.
  - eapply name_at_label; eauto using lookup_app_l_Some.
    apply lookup_lt_Some in H.
    rewrite drop_app_le by lia. rewrite take_app_le; [done|].
    apply (f_equal length) in Ht. rewrite length_take in Ht. lia.
  - eapply name_at_pointer; eauto using lookup_app_l_Some.
Qed.

Lemma enc_ok_mono P Q pre e :
  (∀ ls loc, P ls loc → Q ls loc) → enc_ok P pre e → enc_ok Q pre e.
Proof.
  intros HPQ [Ho Hp]. split; [done|]. intros ls loc Hl.
  destruct (Hp _ _ Hl) as [? [?|?]]; eauto.
Qed.

#[global] Instance extends_preorder : PreOrder extends.
Proof.
  split.
  - intros e. split; [exists []; by rewrite app_nil_r|done..].
  - intros e1 e2 e3 [[w1 H1] ??] [[w2 H2] ??]. split; [|congruence..].
    exists (w1 ++ w2). by rewrite H2, H1, app_assoc.
Qed.

(** Appending one byte keeps the invariant. *)
Lemma enc_ok_push P pre e b o :
  enc_ok P pre e → o = eoffset e + 1 →
  enc_ok P pre (mk_encoder o (ebuf e ++ [b]) (name_pointers e) (emode e) (canonical_names e)).
Proof.
  intros [Ho Hp] ->. split; simpl.
  - rewrite Ho, length_app. simpl. lia.
  - intros ls loc Hl. destruct (Hp _ _ Hl) as [? [?|[q ?]]]; eauto using name_at_app.
    split; [done|]. right. exists q. rewrite app_assoc. by apply name_at_app.
Qed.

Lemma enc_ok_emit P pre e e' b :
  enc_ok P pre e → BinEncoder_emit b e = (Ok (), e') →
  enc_ok P pre e' ∧ extends e e' ∧ ebuf e' = ebuf e ++ [b] ∧
  name_pointers e' = name_pointers e.
Proof.
  unfold BinEncoder_emit. intros Hok H.
  destruct (_ <=? _); simplify_eq. split_and!; [by apply enc_ok_push|..|done|done].
  split; [by exists [b]|done..].
Qed.

Lemma enc_ok_emit_vec P pre e e' bs :
  enc_ok P pre e → for_each BinEncoder_emit bs e = (Ok (), e') →
  enc_ok P pre e' ∧ extends e e' ∧ ebuf e' = ebuf e ++ bs ∧
  name_pointers e' = name_pointers e.
Proof.
  revert e. induction bs as [|b bs IH]; intros e Hok H; simpl in H; inv_ok.
  - split_and!; [done..| |done]. by rewrite app_nil_r.
  - apply (enc_ok_emit P pre) in Hm as (Hok1 & Hex1 & Hb1 & Hn1); [|done].
    apply IH in Hk as (Hok2 & Hex2 & Hb2 & Hn2); [|done].
    split_and!; [done|by etrans| |congruence].
    by rewrite Hb2, Hb1, <-app_assoc.
Qed.

Lemma enc_ok_new pre m : enc_ok no_pending pre (BinEncoder_with_offset [] (Z.of_nat (length pre)) m).
Proof. split; simpl; [lia|]. intros ls loc. by rewrite lookup_empty. Qed.

(** ** Combinators for [RT] *)

Section rt.
Context (c : bool).

Lemma RT_bind {A B} em1 em2 (rd1 : D A) (rd2 : A → D B) a b :
  RT c em1 rd1 a → RT c em2 (rd2 a) b →
  RT c (em1 ;;; em2) (bind rd1 rd2) b.
Proof.
  intros H1 H2 pre e e' Hok Hc H. inv_ok.
  destruct (H1 _ _ _ Hok Hc Hm) as (Hok1 & Hex1 & Hr1).
  destruct (H2 _ _ _ Hok1 ltac:(by rewrite (ex_canonical _ _ Hex1)) Hk) as (Hok2 & Hex2 & Hr2).
  split_and!; [done|by etrans|]. intros suf.
  destruct (ex_buf _ _ Hex2) as [w Hw].
  rewrite (bind_Ok _ _ a _ (dec_at (pre ++ ebuf e' ++ suf) (length pre + length (ebuf s)))).
  - apply Hr2.
  - rewrite Hw, <-app_assoc. apply Hr1.
Qed.

Lemma RT_ret {A} (a : A) : RT c (ret ()) (ret a) a.
Proof. intros pre e e' Hok Hc H. inv_ok. split_and!; [done..|]. by intros. Qed.

(** A read that ends with a computation that consumes nothing. *)
Lemma RT_last {A B} em (rd : D A) (k : A → D B) a b :
  RT c em rd a → (∀ d, k a d = (Ok b, d)) → RT c em (bind rd k) b.
Proof.
  intros H Hk pre e e' Hok Hc He. destruct (H _ _ _ Hok Hc He) as (? & ? & Hr).
  split_and!; [done..|]. intros suf. rewrite (bind_Ok _ _ _ _ _ (Hr suf)). apply Hk.
Qed.

(** A read that goes on after a computation that consumes nothing. *)
Lemma RT_bind_pure {A B} em (rd : D A) (k : A → D B) a b :
  (∀ d, rd d = (Ok a, d)) → RT c em (k a) b → RT c em (bind rd k) b.
Proof.
  intros Hrd H pre e e' Hok Hc He. destruct (H _ _ _ Hok Hc He) as (? & ? & Hr).
  split_and!; [done..|]. intros suf. rewrite (bind_Ok _ _ _ _ _ (Hrd _)). apply Hr.
Qed.

Lemma RT_ext {A} em em' (rd rd' : D A) a :
  (∀ e, em e = em' e) → (∀ d, rd d = rd' d) → RT c em rd a → RT c em' rd' a.
Proof.
  intros He Hr H pre e e' Hok Hc Hem. rewrite <-He in Hem.
  destruct (H _ _ _ Hok Hc Hem) as (? & ? & Hrd).
  split_and!; [done..|]. intros suf. by rewrite <-Hr.
Qed.

Lemma RT_for_each {A} (em : A → X ()) (rd : D A) xs :
  (∀ x, x ∈ xs → RT c (em x) rd x) →
  RT c (for_each em xs) (repeat_m (length xs) rd) xs.
Proof.
  induction xs as [|x xs IH]; intros H; simpl; [apply RT_ret|].
  apply RT_bind with x; [apply H; set_solver|].
  eapply RT_last; [apply IH; set_solver|done].
Qed.
End rt.

(** ** Combinators for [TOT] *)

Lemma grown_refl e : grown 0 e e.
Proof. split; [|done..]. exists []. rewrite app_nil_r. simpl. split_and!; [done|lia|lia]. Qed.

Lemma grown_trans n m e1 e2 e3 : grown n e1 e2 → grown m e2 e3 → grown (n + m) e1 e3.
Proof.
  intros [(w1 & B1 & L1 & O1) ??] [(w2 & B2 & L2 & O2) ??]. split; [|congruence..].
  exists (w1 ++ w2). rewrite B2, B1, O2, O1, length_app, app_assoc. split_and!; [done|lia|lia].
Qed.

Lemma grown_weaken n m e e' : grown n e e' → (n ≤ m)%nat → grown m e e'.
Proof. intros [(w & ? & ? & ?) ??] ?. split; [|done..]. exists w. split_and!; [done|lia|done]. Qed.

Lemma grown_offset n e e' : grown n e e' → eoffset e' ≤ eoffset e + Z.of_nat n.
Proof. intros [(w & ? & ? & ?) ??]. lia. Qed.

Section tot.
Context (c : bool).

Lemma TOT_weaken em n m : TOT c em n → (n ≤ m)%nat → TOT c em m.
Proof.
  intros H Hle e Hc He. destruct (H e) as (e' & ? & ?); [done|lia|].
  exists e'. split; [done|by eapply grown_weaken].
Qed.

Lemma TOT_bind em1 em2 n1 n2 :
  TOT c em1 n1 → TOT c em2 n2 → TOT c (em1 ;;; em2) (n1 + n2).
Proof.
  intros H1 H2 e Hc He. destruct (H1 e) as (e1 & E1 & G1); [done|lia|].
  pose proof (grown_offset _ _ _ G1).
  destruct (H2 e1) as (e2 & E2 & G2); [by rewrite (gr_canonical _ _ _ G1)|lia|].
  exists e2. rewrite (bind_Ok _ _ _ _ _ E1). split; [done|by eapply grown_trans].
Qed.

Lemma TOT_ret : TOT c (ret ()) 0.
Proof. intros e _ _. exists e. split; [done|apply grown_refl]. Qed.

Lemma TOT_emit b : TOT c (BinEncoder_emit b) 1.
Proof.
  intros e Hc He. unfold BinEncoder_emit.
  rewrite (proj2 (Z.leb_le (eoffset e + 1) u32_max)) by lia.
  eexists. split; [done|]. split; [|done..]. exists [b]. simpl. split_and!; [done|lia|lia].
Qed.

Lemma TOT_for_each {A} (em : A → X ()) (f : A → nat) xs :
  (∀ x, x ∈ xs → TOT c (em x) (f x)) → TOT c (for_each em xs) (sum_list_with f xs).
Proof.
  induction xs as [|x xs IH]; intros H; simpl; [apply TOT_ret|].
  apply TOT_bind; [apply H; set_solver|apply IH; set_solver].
Qed.

Lemma TOT_emit_vec bs : TOT c (BinEncoder_emit_vec bs) (length bs).
Proof.
  unfold BinEncoder_emit_vec.
  eapply TOT_weaken; [by apply (TOT_for_each _ (λ _, 1%nat)); intros; apply TOT_emit|].
  induction bs; simpl; lia.
Qed.
End tot.

#[export] Hint Resolve TOT_ret TOT_emit TOT_emit_vec : dns.

(** ** Reading primitives *)

Lemma pop_at buf i b :
  buf !! i = Some b → BinDecoder_pop (dec_at buf i) = (Ok b, dec_at buf (S i)).
Proof. intros H. unfold BinDecoder_pop. simpl. by rewrite H. Qed.

Lemma lookup_mid (pre b : bytes) x suf :
  (pre ++ (b ++ [x]) ++ suf) !! (length pre + length b)%nat = Some x.
Proof.
  rewrite lookup_app_r by lia. rewrite Nat.add_comm, Nat.add_sub, <-app_assoc.
  by apply list_lookup_middle.
Qed.

Lemma RT_emit c b : RT c (BinEncoder_emit b) BinDecoder_pop b.
Proof.
  intros pre e e' Hok Hc H. apply (enc_ok_emit _ _ _ _ _ Hok) in H as (Hok' & Hex & Hb & _).
  split_and!; [done..|]. intros suf. rewrite Hb, length_app. simpl.
  rewrite (pop_at _ _ b); [do 2 f_equal; lia|]. apply lookup_mid.
Qed.

Lemma RT_emit_vec c bs : RT c (BinEncoder_emit_vec bs) (BinDecoder_read_vec (length bs)) bs.
Proof. apply RT_for_each. intros x _. apply RT_emit. Qed.

#[export] Hint Resolve RT_emit RT_emit_vec : dns.

(** ** Integers and character data *)

Lemma land_255 z : Z.land z 255 = z `mod` 256.
Proof. apply (Z.land_ones z 8). lia. Qed.

Lemma shiftl_mul z n : 0 ≤ n → Z.shiftl z n = z * 2^n.
Proof. apply Z.shiftl_mul_pow2. Qed.

Lemma shiftr_div z n : 0 ≤ n → Z.shiftr z n = z `div` 2^n.
Proof. apply Z.shiftr_div_pow2. Qed.

(** Setting bits below a multiple of a power of two adds them. *)
Lemma lor_low a b n : 0 ≤ n → 0 ≤ b < 2^n → Z.lor (a * 2^n) b = a * 2^n + b.
Proof.
  intros Hn Hb. rewrite <-Z.add_lor_land.
  assert (Z.land (a * 2^n) b = 0) as ->; [|lia].
  apply Z.bits_inj'. intros k Hk. rewrite Z.land_spec, Z.bits_0.
  destruct (Z.lt_ge_cases k n).
  - by rewrite Z.mul_pow2_bits_low.
  - rewrite <-(Z.mod_small b (2^n)) by done. rewrite (Z.mod_pow2_bits_high b) by lia.
    apply andb_false_r.
Qed.

(** Turns shifts and byte masks into [div] and [mod] and calls [lia]. *)
Ltac solve_bytes :=
  unfold as_u8, as_u16, as_u32, as_i32, u8, u16, u32, i32 in *;
  rewrite ?land_255, ?shiftl_mul, ?shiftr_div in * by lia;
  Z.div_mod_to_equations; lia.

Lemma RT_u16 c z : u16 z → RT c (BinEncoder_emit_u16 z) BinDecoder_read_u16 z.
Proof.
  intros Hz. unfold BinEncoder_emit_u16, BinDecoder_read_u16.
  eapply RT_bind; [apply RT_emit|]. eapply RT_last; [apply RT_emit|].
  intros d. unfold ret. do 2 f_equal. solve_bytes.
Qed.

Lemma RT_u32 c z : u32 z → RT c (BinEncoder_emit_u32 z) BinDecoder_read_u32 z.
Proof.
  intros Hz. unfold BinEncoder_emit_u32, BinDecoder_read_u32.
  do 3 (eapply RT_bind; [apply RT_emit|]). eapply RT_last; [apply RT_emit|].
  intros d. unfold ret. do 2 f_equal. solve_bytes.
Qed.

Lemma RT_i32 c z : i32 z → RT c (BinEncoder_emit_i32 z) BinDecoder_read_i32 z.
Proof.
  intros Hz. unfold BinEncoder_emit_i32, BinDecoder_read_i32.
  do 3 (eapply RT_bind; [apply RT_emit|]). eapply RT_last; [apply RT_emit|].
  intros d. unfold ret. do 2 f_equal. solve_bytes.
Qed.

(** A character string: up to 255 bytes of UTF-8. *)
Definition char_data_ok (s : bytes) : Prop := (length s ≤ 255)%nat ∧ valid_utf8 s = true.

#[global] Instance char_data_ok_dec s : Decision (char_data_ok s).
Proof. unfold char_data_ok. apply _. Defined.

Lemma RT_character_data c s :
  char_data_ok s → RT c (BinEncoder_emit_character_data s) BinDecoder_read_character_data s.
Proof.
  intros [Hl Hu]. unfold BinEncoder_emit_character_data, BinDecoder_read_character_data.
  rewrite decide_False by lia. eapply RT_bind; [apply RT_emit|].
  replace (Z.to_nat (as_u8 (Z.of_nat (length s)))) with (length s)
    by (unfold as_u8; rewrite Z.mod_small by lia; lia).
  eapply RT_last; [apply RT_emit_vec|]. intros d. unfold String_from_utf8. by rewrite Hu.
Qed.

Lemma TOT_u16 c z : TOT c (BinEncoder_emit_u16 z) 2.
Proof. apply (TOT_bind _ _ _ 1 1); apply TOT_emit. Qed.

Lemma TOT_u32 c z : TOT c (BinEncoder_emit_u32 z) 4.
Proof.
  apply (TOT_bind _ _ _ 1 3); [apply TOT_emit|]. apply (TOT_bind _ _ _ 1 2); [apply TOT_emit|].
  apply (TOT_bind _ _ _ 1 1); apply TOT_emit.
Qed.

Lemma TOT_i32 c z : TOT c (BinEncoder_emit_i32 z) 4.
Proof. apply TOT_u32. Qed.

Lemma TOT_character_data c s :
  (length s ≤ 255)%nat → TOT c (BinEncoder_emit_character_data s) (S (length s)).
Proof.
  intros. unfold BinEncoder_emit_character_data. rewrite decide_False by lia.
  apply (TOT_bind _ _ _ 1); [apply TOT_emit|apply TOT_emit_vec].
Qed.

#[export] Hint Resolve RT_u16 RT_u32 RT_i32 RT_character_data : dns.
#[export] Hint Resolve TOT_u16 TOT_u32 TOT_i32 TOT_character_data : dns.

(** ** What the reading primitives return *)

Lemma pop_inv buf i b d' :
  BinDecoder_pop (dec_at buf i) = (Ok b, d') → buf !! i = Some b ∧ d' = dec_at buf (S i).
Proof. unfold BinDecoder_pop. simpl. destruct (buf !! i); naive_solver. Qed.

Lemma returns_pop : returns BinDecoder_pop.
Proof. intros d. unfold BinDecoder_pop. by destruct (_ !! _). Qed.
#[export] Hint Resolve returns_pop : dns.

Lemma returns_read_character_data : returns BinDecoder_read_character_data.
Proof.
  unfold BinDecoder_read_character_data, BinDecoder_read_vec, String_from_utf8.
  apply returns_bind; [auto with dns|]. intros n. apply returns_bind; [auto with dns|].
  intros l. destruct (valid_utf8 l); auto with dns.
Qed.

Lemma returns_read_u16 : returns BinDecoder_read_u16.
Proof. unfold BinDecoder_read_u16. auto 6 with dns. Qed.

Lemma read_vec_inv buf i n l d' :
  BinDecoder_read_vec n (dec_at buf i) = (Ok l, d') →
  length l = n ∧ take n (drop i buf) = l ∧ d' = dec_at buf (i + n).
Proof.
  unfold BinDecoder_read_vec. revert i l. induction n as [|n IH]; intros i l H; simpl in H; inv_ok.
  - split_and!; [done..|]. by rewrite Nat.add_0_r.
  - apply pop_inv in Hm as [Hb ->]. apply IH in Hm0 as (Hl & Ht & ->).
    rewrite (drop_S _ _ _ Hb). simpl. rewrite Hl, Ht. split_and!; [done..|].
    f_equal. lia.
Qed.

Lemma read_vec_at buf i l :
  take (length l) (drop i buf) = l →
  BinDecoder_read_vec (length l) (dec_at buf i) = (Ok l, dec_at buf (i + length l)).
Proof.
  unfold BinDecoder_read_vec. revert i. induction l as [|x l IH]; intros i Ht; simpl.
  - by rewrite Nat.add_0_r.
  - destruct (drop i buf) as [|y r] eqn:Ed; [done|]. simpl in Ht. injection Ht as -> Ht.
    assert (Hx : buf !! i = Some x).
    { rewrite <-(Nat.add_0_r i), <-lookup_drop, Ed. done. }
    rewrite (bind_Ok _ _ _ _ _ (pop_at _ _ _ Hx)).
    assert (Hr : drop (S i) buf = r).
    { rewrite (drop_S _ _ _ Hx) in Ed. by simplify_eq. }
    rewrite (bind_Ok _ _ l _ (dec_at buf (S i + length l))); [|apply IH; by rewrite Hr].
    unfold ret. do 2 f_equal. lia.
Qed.

Lemma read_character_data_inv buf p l d' :
  BinDecoder_read_character_data (dec_at buf p) = (Ok l, d') →
  ∃ n, buf !! p = Some n ∧ length l = Z.to_nat n ∧ take (length l) (drop (S p) buf) = l ∧
       valid_utf8 l = true ∧ d' = dec_at buf (S p + length l).
Proof.
  unfold BinDecoder_read_character_data, String_from_utf8. intros H. inv_ok.
  apply pop_inv in Hm as [Hb ->]. apply read_vec_inv in Hm0 as (Hl & Ht & ->).
  destruct (valid_utf8 _) eqn:Hu; [|done]. unfold ret in *. simplify_eq.
  eexists. split_and!; [done|done|by rewrite Hl|done|by rewrite Hl].
Qed.

Lemma read_character_data_at buf p l :
  buf !! p = Some (Z.of_nat (length l)) → take (length l) (drop (S p) buf) = l →
  valid_utf8 l = true →
  BinDecoder_read_character_data (dec_at buf p) = (Ok l, dec_at buf (S p + length l)).
Proof.
  intros Hb Ht Hu. unfold BinDecoder_read_character_data.
  rewrite (bind_Ok _ _ _ _ _ (pop_at _ _ _ Hb)), Nat2Z.id.
  rewrite (bind_Ok _ _ _ _ _ (read_vec_at _ _ _ Ht)). unfold String_from_utf8. by rewrite Hu.
Qed.

Lemma read_u16_at buf i b1 b2 :
  buf !! i = Some b1 → buf !! S i = Some b2 →
  BinDecoder_read_u16 (dec_at buf i) = (Ok (Z.shiftl b1 8 + b2), dec_at buf (S (S i))).
Proof.
  intros H1 H2. unfold BinDecoder_read_u16.
  by rewrite (bind_Ok _ _ _ _ _ (pop_at _ _ _ H1)), (bind_Ok _ _ _ _ _ (pop_at _ _ _ H2)).
Qed.

Lemma read_u16_inv buf i v d' :
  BinDecoder_read_u16 (dec_at buf i) = (Ok v, d') →
  ∃ b1 b2, buf !! i = Some b1 ∧ buf !! S i = Some b2 ∧ v = Z.shiftl b1 8 + b2 ∧
           d' = dec_at buf (S (S i)).
Proof.
  unfold BinDecoder_read_u16. intros H. inv_ok.
  apply pop_inv in Hm as [? ->]. apply pop_inv in Hm0 as [? ->]. eauto 8.
Qed.
