(* ===== verification/Domain.v ===== *)
(** * Domain names

    Models [client/src/rr/domain.rs]: the [Name] type, its constructors and
    queries, its ordering, and its wire form with compression in both
    directions. *)

From S2P Require Import Prelude Codec Wire.

Open Scope Z_scope.

(** [str::to_lowercase] is Unicode's; names are compared, hashed and written in
    canonical form through it, and nothing here depends on its table.  ASCII
    lowercasing, the part of it RFC 4034 asks for, is an instance. *)
Class Lowercase := to_lowercase : label → label.

Definition ascii_lower (b : byte) : byte := if in_range 65 90 b then b + 32 else b.

Definition ascii_lowercase : Lowercase := λ l, ascii_lower <$> l.

(** ** The type and its constructors *)

Record Name : Type := mkName { labels : list label }.

#[global] Instance Name_eq_dec : EqDecision Name.
Proof. solve_decision. Defined.

Definition Name_new : Name := mkName [].
Definition Name_root : Name := Name_new.
Definition Name_is_root (self : Name) : bool := bool_decide (labels self = []).

(** The [assert!(len < 256)] shared by the constructors. *)
Definition Name_checked {E} (ls : list label) : res E Name :=
  if decide (length ls < 256)%nat then Ok (mkName ls) else Panic.

Definition Name_label {E} (self : Name) (l : label) : res E Name :=
  Name_checked (labels self ++ [l]).
Definition Name_with_labels {E} (ls : list label) : res E Name := Name_checked ls.
Definition Name_prepend_label {E} (self : Name) (l : label) : res E Name :=
  Name_checked (l :: labels self).
Definition Name_add_label {E} (self : Name) (l : label) : res E Name :=
  Name_checked (labels self ++ [l]).

Fixpoint Name_append_loop {E} (self : Name) (ls : list label) : res E Name :=
  match ls with
  | [] => Ok self
  | l :: ls => try* self := Name_add_label self l in Name_append_loop self ls
  end.
Definition Name_append {E} (self other : Name) : res E Name :=
  Name_append_loop self (labels other).

Definition Name_trim_to (self : Name) (num_labels : nat) : Name :=
  if decide (num_labels ≤ length (labels self))%nat then
    mkName (drop (length (labels self) - num_labels) (labels self))
  else Name_root.

Definition Name_base_name (self : Name) : Name :=
  let length := length (labels self) in
  if decide (0 < length)%nat then Name_trim_to self (length - 1) else Name_root.

(** [labels.len() as u8], less one for a leading [*]. *)
Definition Name_num_labels (self : Name) : Z :=
  let num := as_u8 (Z.of_nat (length (labels self))) in
  if (0 <? num) && bool_decide (head (labels self) = Some [42]) then num - 1 else num.

Definition Name_len (self : Name) : nat :=
  let dots := if decide (0 < length (labels self))%nat then length (labels self) else 1%nat in
  foldl (λ acc item, acc + length item)%nat dots (labels self).

(** [Display] and [to_string]: each label followed by a dot. *)
Definition Name_to_string (self : Name) : bytes :=
  concat ((λ l, l ++ [46]) <$> labels self) ++ (if Name_is_root self then [46] else []).

Section lowercase.
Context `{L : Lowercase}.

Definition Name_to_lowercase {E} (self : Name) : res E Name :=
  Name_with_labels (to_lowercase <$> labels self).

(** [for i in 1..(self_len + 1)]: [name_len - i] underflows when the zone has
    more labels than the name. *)
Fixpoint zone_of_loop {E} (self_lower name_lower : list label) (idx : list nat) : res E bool :=
  match idx with
  | [] => Ok true
  | i :: idx =>
      if decide (i ≤ length name_lower)%nat then
        if decide (self_lower !! (length self_lower - i)%nat =
                   name_lower !! (length name_lower - i)%nat)
        then zone_of_loop self_lower name_lower idx
        else Ok false
      else Panic
  end.

Definition Name_zone_of {E} (self name : Name) : res E bool :=
  let self_len := length (labels self) in
  try* self_lower := Name_to_lowercase self in
  try* name_lower := Name_to_lowercase name in
  zone_of_loop (labels self_lower) (labels name_lower) (seq 1 self_len).

(** ** Comparison *)

(** The [zip] loop over the reversed labels: the first difference decides. *)
Fixpoint cmp_labels (ignore_case : bool) (ls rs : list label) : comparison :=
  match ls, rs with
  | l :: ls, r :: rs =>
      match (if ignore_case then cmp (to_lowercase l) (to_lowercase r) else cmp l r) with
      | Eq => cmp_labels ignore_case ls rs
      | o => o
      end
  | _, _ => Eq
  end.

Definition Name_cmp_with_case (self other : Name) (ignore_case : bool) : comparison :=
  if bool_decide (labels self = []) && bool_decide (labels other = []) then Eq
  else match cmp_labels ignore_case (reverse (labels self)) (reverse (labels other)) with
       | Eq => (length (labels self) ?= length (labels other))%nat
       | o => o
       end.

(** [impl Ord for Name] and [impl PartialEq for Name] *)
#[global] Instance Name_cmp : Compare Name := λ self other,
  Name_cmp_with_case self other true.

Definition Name_eq (self other : Name) : bool :=
  match Name_cmp_with_case self other true with Eq => true | _ => false end.

(** ** Writing *)

(** The [while let Some(label) = labels.first()] loop; [true] when it returned
    after writing a pointer. *)
Fixpoint emit_labels (ls : list label) : X bool :=
  match ls with
  | [] => ret false
  | l :: rest =>
      let* ptr := gets (λ e, BinEncoder_get_label_pointer e (l :: rest)) in
      match ptr with
      | Some loc =>
          BinEncoder_emit_u16 (Z.lor 49152 (Z.land loc 16383)) ;;; ret true
      | None =>
          if decide (63 < length l)%nat then fail (LabelBytesTooLong (length l))
          else
            BinEncoder_store_label_pointer (l :: rest) ;;;
            BinEncoder_emit_character_data l ;;;
            emit_labels rest
      end
  end.

Definition Name_emit_as_canonical (self : Name) (canonical : bool) : X () :=
  let* buf_len := gets BinEncoder_len in
  let* returned :=
    (if canonical then for_each BinEncoder_emit_character_data (labels self) ;;; ret false
     else emit_labels (labels self)) in
  if returned : bool then ret ()
  else
    BinEncoder_emit 0 ;;;
    let* now := gets BinEncoder_len in
    let len := (now - buf_len)%nat in
    if decide (255 < len)%nat then fail (DomainNameTooLong len) else ret ().

Definition Name_emit (self : Name) : X () :=
  let* is_canonical_names := gets BinEncoder_is_canonical_names in
  Name_emit_as_canonical self is_canonical_names.

Definition Name_emit_with_lowercase (self : Name) (lowercase : bool) : X () :=
  let* is_canonical_names := gets BinEncoder_is_canonical_names in
  if lowercase then
    let* lower := lift (Name_to_lowercase self) in
    Name_emit_as_canonical lower is_canonical_names
  else Name_emit_as_canonical self is_canonical_names.
End lowercase.

(** ** Reading *)

Inductive LabelParseState : Type := LabelLengthOrPointer | Label | Pointer | Root.

(** The loop of [Name::read].  A pointer calls [Name::read] again on a clone of
    the decoder at the location, with no bound on the chain of pointers: every
    turn of the loop and every such call costs one unit of fuel. *)
Fixpoint Name_read_loop (fuel : nat) (state : LabelParseState) (acc : list label) : D Name :=
  match fuel with
  | O => diverge
  | S fuel =>
      match state with
      | LabelLengthOrPointer =>
          let* b := gets BinDecoder_peek in
          match b with
          | None => Name_read_loop fuel Root acc
          | Some byte =>
              if byte =? 0 then Name_read_loop fuel Root acc
              else if Z.land byte 192 =? 192 then Name_read_loop fuel Pointer acc
              else if Z.land byte 192 =? 0 then Name_read_loop fuel Label acc
              else fail (UnrecognizedLabelCode byte)
          end
      | Label =>
          let* l := BinDecoder_read_character_data in
          Name_read_loop fuel LabelLengthOrPointer (acc ++ [l])
      | Pointer =>
          let* v := BinDecoder_read_u16 in
          let location := Z.land v 16383 in
          let* pointed := (λ d,
            let '(r, _) := Name_read_loop fuel LabelLengthOrPointer [] (BinDecoder_clone d location)
            in (r, d)) in
          ret (mkName (acc ++ labels pointed))
      | Root => BinDecoder_pop ;;; ret (mkName acc)
      end
  end.

(** Enough fuel for every chain of pointers that ends
    ([Name_read_fuel_enough]). *)
Definition Name_read_fuel (buf : bytes) : nat := 2 * length buf + 4.

Definition Name_read : D Name := λ d,
  Name_read_loop (Name_read_fuel (dbuf d)) LabelLengthOrPointer [] d.

(** ** Reading: the loop and the wire grammar *)

(** The two high bits of a length byte are clear exactly when it is below 64. *)
Lemma land_192_small n : u8 n → Z.land n 192 = 0 ↔ n < 64.
Proof.
  intros Hn. rewrite <-Z.eqb_eq, <-Z.ltb_lt.
  assert (Bool.eqb (Z.land n 192 =? 0) (n <? 64) = true) as ->%eqb_prop; [|done].
  by apply (u8_forallb (λ n, Bool.eqb (Z.land n 192 =? 0) (n <? 64))); [vm_compute|].
Qed.

(** Two turns of the loop: the length or pointer byte, and what it announces. *)
Lemma loop_two f acc buf p :
  Name_read_loop (S (S f)) LabelLengthOrPointer acc (dec_at buf p) =
  match buf !! p with
  | None => (Err (Message "unexpected end of input reached"), dec_at buf p)
  | Some b =>
      if b =? 0 then (Ok (mkName acc), dec_at buf (S p))
      else if Z.land b 192 =? 192 then
        match BinDecoder_read_u16 (dec_at buf p) with
        | (Ok v, d') =>
            match (Name_read_loop f LabelLengthOrPointer []
                     (dec_at buf (Z.to_nat (Z.land v 16383)))).1 with
            | Ok n => (Ok (mkName (acc ++ labels n)), d')
            | Err e => (Err e, d')
            | Panic => (Panic, d')
            | Diverge => (Diverge, d')
            end
        | (Err e, d') => (Err e, d')
        | (Panic, d') => (Panic, d')
        | (Diverge, d') => (Diverge, d')
        end
      else if Z.land b 192 =? 0 then
        match BinDecoder_read_character_data (dec_at buf p) with
        | (Ok l, d') => Name_read_loop f LabelLengthOrPointer (acc ++ [l]) d'
        | (Err e, d') => (Err e, d')
        | (Panic, d') => (Panic, d')
        | (Diverge, d') => (Diverge, d')
        end
      else (Err (UnrecognizedLabelCode b), dec_at buf p)
  end.
Proof.
  cbn [Name_read_loop]. unfold bind at 1, gets, BinDecoder_peek. cbn [dbuf dindex].
  destruct (buf !! p) as [b|] eqn:Hb.
  - destruct (b =? 0).
    { unfold bind. by rewrite (pop_at _ _ _ Hb). }
    destruct (_ =? 192).
    { unfold bind at 1. destruct (BinDecoder_read_u16 (dec_at buf p)) as [[v|e| |] d'] eqn:Hv; try done.
      apply read_u16_inv in Hv as (? & ? & _ & _ & -> & ->). unfold bind, BinDecoder_clone. simpl dbuf.
      by destruct (Name_read_loop f _ _ _) as [[] ?]. }
    destruct (_ =? 0); [|done].
    unfold bind at 1. by destruct (BinDecoder_read_character_data _) as [[] ?].
  - unfold bind, BinDecoder_pop. cbn [dbuf dindex]. by rewrite Hb.
Qed.

Lemma loop_one acc buf p r d' :
  Name_read_loop 1 LabelLengthOrPointer acc (dec_at buf p) = (r, d') →
  r = Diverge ∨ ∃ b, buf !! p = Some b ∧ (b =? 0) = false ∧ (Z.land b 192 =? 192) = false ∧
                     (Z.land b 192 =? 0) = false ∧ r = Err (UnrecognizedLabelCode b) ∧
                     d' = dec_at buf p.
Proof.
  cbn [Name_read_loop]. unfold bind, gets, BinDecoder_peek. cbn [dbuf dindex].
  destruct (buf !! p) as [b|]; [|unfold diverge; naive_solver].
  destruct (b =? 0) eqn:?; [unfold diverge; naive_solver|].
  destruct (Z.land b 192 =? 192) eqn:?; [unfold diverge; naive_solver|].
  destruct (Z.land b 192 =? 0) eqn:?; [unfold diverge; naive_solver|].
  unfold fail. intros ?; simplify_eq. right. by exists b.
Qed.

(** One more pair of turns does not change a run that has returned. *)
Lemma loop_mono f acc buf p r d' :
  Name_read_loop f LabelLengthOrPointer acc (dec_at buf p) = (r, d') → r ≠ Diverge →
  ∀ f', (f ≤ f')%nat → Name_read_loop f' LabelLengthOrPointer acc (dec_at buf p) = (r, d').
Proof.
  revert acc p r d'. induction (lt_wf f) as [f _ IH]. intros acc p r d' H Hr f' Hf.
  destruct f as [|[|f]].
  - cbn in H. unfold diverge in H. by simplify_eq.
  - apply loop_one in H as [?|(b & Hb & H0 & H1 & H2 & -> & ->)]; [done|].
    destruct f' as [|f']; [lia|]. cbn [Name_read_loop]. unfold bind, gets, BinDecoder_peek.
    cbn [dbuf dindex]. by rewrite Hb, H0, H1, H2.
  - destruct f' as [|[|f']]; [lia..|]. rewrite loop_two in *.
    destruct (buf !! p) as [b|]; [|done]. destruct (b =? 0); [done|].
    destruct (_ =? 192).
    + destruct (BinDecoder_read_u16 _) as [[v|e| |] d2]; try done.
      destruct (Name_read_loop f _ _ _) as [r2 d3] eqn:H2. simpl in H.
      rewrite (IH f ltac:(lia) _ _ _ _ H2); [done| |lia]. by intros ->; simplify_eq.
    + destruct (_ =? 0); [|done].
      destruct (BinDecoder_read_character_data _) as [[l|e| |] d2] eqn:Hl; try done.
      apply read_character_data_inv in Hl as (n & _ & _ & _ & _ & ->).
      apply (IH f ltac:(lia) _ _ _ _ H); [done|lia].
Qed.

(** Where a name continues after the byte at [p], if it does. *)
Definition next_pos (buf : bytes) (p : nat) : option nat :=
  match buf !! p with
  | None => None
  | Some b =>
      if b =? 0 then None
      else if Z.land b 192 =? 192 then
        match BinDecoder_read_u16 (dec_at buf p) with
        | (Ok v, _) => Some (Z.to_nat (Z.land v 16383))
        | _ => None
        end
      else if Z.land b 192 =? 0 then
        match BinDecoder_read_character_data (dec_at buf p) with
        | (Ok _, d') => Some (dindex d')
        | _ => None
        end
      else None
  end.

Lemma next_pos_lt buf p : is_Some (next_pos buf p) → (p < length buf)%nat.
Proof.
  unfold next_pos. destruct (buf !! p) eqn:H; [|by intros []]. intros _.
  by eapply lookup_lt_Some.
Qed.

Lemma iter_next_loop buf k p acc :
  iter_opt (next_pos buf) k p = None →
  (Name_read_loop (2 * k) LabelLengthOrPointer acc (dec_at buf p)).1 ≠ Diverge.
Proof.
  revert p acc. induction k as [|k IH]; intros p acc H; [done|].
  replace (2 * S k)%nat with (S (S (2 * k))) by lia.
  rewrite loop_two. simpl in H. unfold next_pos in H at 1.
  destruct (buf !! p) as [b|]; [|done]. destruct (b =? 0); [done|].
  destruct (_ =? 192).
  - pose proof (returns_read_u16 (dec_at buf p)) as Hret.
    destruct (BinDecoder_read_u16 _) as [[v|e| |] d2]; try done.
    specialize (IH _ [] H). by destruct (Name_read_loop (2 * k) _ _ _) as [[] ?].
  - destruct (_ =? 0); [|done]. pose proof (returns_read_character_data (dec_at buf p)) as Hret.
    destruct (BinDecoder_read_character_data _) as [[l|e| |] d2] eqn:Hl; try done.
    apply read_character_data_inv in Hl as (n & _ & _ & _ & _ & ->). by apply IH.
Qed.

Lemma loop_iter_next buf f p acc :
  (Name_read_loop f LabelLengthOrPointer acc (dec_at buf p)).1 ≠ Diverge →
  iter_opt (next_pos buf) (S f) p = None.
Proof.
  revert p acc. induction (lt_wf f) as [f _ IH]. intros p acc H.
  destruct f as [|[|f]]; [done| |].
  - destruct (Name_read_loop _ _ _ _) as [r d'] eqn:Hl.
    apply loop_one in Hl as [->|(b & Hb & H0 & H1 & H2 & _ & _)]; [done|].
    simpl. unfold next_pos at 1. by rewrite Hb, H0, H1, H2.
  - rewrite loop_two in H. rewrite iter_opt_S. unfold next_pos at 1.
    destruct (buf !! p) as [b|]; [|done]. destruct (b =? 0); [done|].
    destruct (_ =? 192).
    + destruct (BinDecoder_read_u16 _) as [[v|e| |] d2]; try done.
      apply (iter_opt_None_le _ (S f)); [lia|].
      apply (IH f ltac:(lia) _ []). by destruct (Name_read_loop f _ _ _) as [[] ?].
    + destruct (_ =? 0); [|done].
      destruct (BinDecoder_read_character_data _) as [[l|e| |] d2] eqn:Hl; try done.
      apply read_character_data_inv in Hl as (n & _ & _ & _ & _ & ->).
      apply (iter_opt_None_le _ (S f)); [lia|]. by apply (IH f ltac:(lia) _ (acc ++ [l])).
Qed.

(** The fuel of [Name_read] is enough: if any amount of it lets the call return,
    that one does, with the same result. *)
Lemma Name_read_fuel_complete f d :
  (Name_read_loop f LabelLengthOrPointer [] d).1 ≠ Diverge →
  Name_read d = Name_read_loop f LabelLengthOrPointer [] d.
Proof.
  destruct d as [buf p]. intros H. unfold Name_read. cbn [dbuf].
  pose proof (loop_iter_next _ _ _ _ H) as Hit.
  apply (iter_opt_bound _ (length buf)) in Hit; [|apply next_pos_lt].
  apply (iter_next_loop _ _ _ []) in Hit. set (m := (2 * S (length buf))%nat) in *.
  destruct (Name_read_loop m _ _ _) as [r d1] eqn:H1.
  destruct (Name_read_loop f _ _ _) as [r2 d2] eqn:H2. cbn [fst] in *.
  pose proof (loop_mono _ _ _ _ _ _ H1 Hit (max m f) ltac:(lia)) as E1.
  pose proof (loop_mono _ _ _ _ _ _ H2 H (max m f) ltac:(lia)) as E2.
  rewrite E1 in E2. rewrite <-E2.
  apply (loop_mono m _ _ _ _ _ H1 Hit). unfold Name_read_fuel, m. lia.
Qed.

Lemma name_at_loop buf p ls q :
  name_at buf p ls q →
  ∃ f, ∀ acc, Name_read_loop f LabelLengthOrPointer acc (dec_at buf p) =
              (Ok (mkName (acc ++ ls)), dec_at buf q).
Proof.
  induction 1 as [p H|p l ls q H Hl Ht Hu _ [f IH]|p b1 b2 ls q H1 H2 Hb _ [f IH]].
  - exists 2%nat. intros acc. rewrite loop_two, H. simpl. by rewrite app_nil_r.
  - exists (S (S f)). intros acc. rewrite loop_two, H.
    assert (Hn : Z.land (Z.of_nat (length l)) 192 = 0) by (apply land_192_small; unfold u8; lia).
    rewrite Hn. rewrite (proj2 (Z.eqb_neq _ _)) by lia. simpl.
    rewrite (read_character_data_at _ _ _ H Ht Hu), IH, <-app_assoc. done.
  - exists (S (S f)). intros acc. rewrite loop_two, H1.
    rewrite (proj2 (Z.eqb_neq b1 0)) by (intros ->; done). rewrite Hb. simpl.
    by rewrite (read_u16_at _ _ _ _ H1 H2), IH.
Qed.

Lemma loop_name_at buf f acc p n d' :
  Forall u8 buf →
  Name_read_loop f LabelLengthOrPointer acc (dec_at buf p) = (Ok n, d') →
  ∃ ls q, labels n = acc ++ ls ∧ d' = dec_at buf q ∧ name_at buf p ls q.
Proof.
  intros Hbuf. revert acc p n d'. induction (lt_wf f) as [f _ IH]. intros acc p n d' H.
  destruct f as [|[|f]]; [done| |].
  { by apply loop_one in H as [?|(b & _ & _ & _ & _ & ? & _)]. }
  rewrite loop_two in H. destruct (buf !! p) as [b|] eqn:Hb; [|done].
  destruct (b =? 0) eqn:H0; [apply Z.eqb_eq in H0 as ->; simplify_eq|].
  { exists [], (S p). split_and!; [by rewrite app_nil_r|done|by apply name_at_root]. }
  destruct (_ =? 192) eqn:H1.
  - destruct (BinDecoder_read_u16 _) as [[v|e| |] d2] eqn:Hv; try done.
    apply read_u16_inv in Hv as (b1 & b2 & Hb1 & Hb2 & -> & ->).
    destruct (Name_read_loop f _ _ _) as [[n2|e| |] d2] eqn:H2; simpl in H; simplify_eq.
    apply (IH f ltac:(lia)) in H2 as (ls & q & -> & -> & ?). apply Z.eqb_eq in H1.
    exists ls, (S (S p)). split_and!; [done..|].
    by eapply name_at_pointer.
  - destruct (Z.land b 192 =? 0) eqn:H2; [|done].
    destruct (BinDecoder_read_character_data _) as [[l|e| |] d2] eqn:Hl; try done.
    apply read_character_data_inv in Hl as (m & Hm & Hlen & Ht & Hu & ->).
    apply (IH f ltac:(lia)) in H as (ls & q & -> & -> & ?).
    exists (l :: ls), q. split_and!; [by rewrite <-app_assoc|done|].
    pose proof (Forall_lookup_1 _ _ _ _ Hbuf Hb) as Hu8.
    rewrite Hb in Hm. injection Hm as <-.
    apply Z.eqb_eq, land_192_small in H2; [|done].
    unfold u8 in Hu8. apply Z.eqb_neq in H0.
    eapply name_at_label; [|lia|done|done|done]. rewrite Hb. f_equal. lia.
Qed.

Lemma Name_read_at buf p ls q :
  name_at buf p ls q → Name_read (dec_at buf p) = (Ok (mkName ls), dec_at buf q).
Proof.
  intros [f Hf]%name_at_loop. rewrite (Name_read_fuel_complete f); [apply (Hf [])|].
  by rewrite (Hf []).
Qed.

(** ** Writing: compression is sound *)

Lemma RT_name_at c em ls :
  (∀ pre e e', enc_ok no_pending pre e → canonical_names e = c → em e = (Ok (), e') →
     enc_ok no_pending pre e' ∧ extends e e' ∧
     name_at (pre ++ ebuf e') (length pre + length (ebuf e)) ls (length pre + length (ebuf e'))) →
  RT c em Name_read (mkName ls).
Proof.
  intros H pre e e' Hok Hc He. destruct (H _ _ _ Hok Hc He) as (? & ? & Hat).
  split_and!; [done..|]. intros suf. apply Name_read_at. rewrite app_assoc. by apply name_at_app.
Qed.

(** A label written before a name extends the name. *)
Lemma name_at_cons_emit P pre e e1 e2 l ls q :
  label_ok l → enc_ok P pre e →
  BinEncoder_emit_character_data l e = (Ok (), e1) → extends e1 e2 →
  name_at (pre ++ ebuf e2) (length pre + length (ebuf e1)) ls q →
  name_at (pre ++ ebuf e2) (length pre + length (ebuf e)) (l :: ls) q.
Proof.
  intros [Hl Hu] Hok He1 [[w Hw] _ _] Hat.
  unfold BinEncoder_emit_character_data in He1. rewrite decide_False in He1 by lia. inv_ok.
  apply (enc_ok_emit P pre) in Hm as (Hok' & _ & Hb & _); [|done].
  apply (enc_ok_emit_vec P pre) in Hk as (_ & _ & Hb' & _); [|done].
  assert (He1 : ebuf e1 = ebuf e ++ Z.of_nat (length l) :: l).
  { rewrite Hb', Hb, <-app_assoc. unfold as_u8. by rewrite Z.mod_small by lia. }
  apply name_at_label; [|lia| |done|].
  - rewrite Hw, He1, <-app_assoc, app_assoc, <-length_app. by apply list_lookup_middle.
  - rewrite Hw, He1, <-app_assoc, app_assoc, <-length_app.
    rewrite drop_app_ge by lia. replace (S _ - _)%nat with 1%nat by lia. simpl.
    by rewrite drop_0, take_app_length.
  - rewrite He1, length_app in Hat. simpl in Hat. replace (S _ + _)%nat with
      (length pre + (length (ebuf e) + S (length l)))%nat by lia. done.
Qed.

Lemma enc_ok_character_data P pre e e' l :
  enc_ok P pre e → BinEncoder_emit_character_data l e = (Ok (), e') →
  enc_ok P pre e' ∧ extends e e'.
Proof.
  intros Hok H. unfold BinEncoder_emit_character_data in H. case_decide; [done|]. inv_ok.
  apply (enc_ok_emit P pre) in Hm as (Hok' & Hex & _); [|done].
  apply (enc_ok_emit_vec P pre) in Hk as (? & ? & _); [|done]. split; [done|by etrans].
Qed.

(** Storing a pointer makes the name it is stored under pending. *)
Lemma enc_ok_store P pre e e' ls :
  enc_ok P pre e → BinEncoder_store_label_pointer ls e = (Ok (), e') →
  enc_ok (λ k loc, P k loc ∨ (k = ls ∧ loc = eoffset e)) pre e' ∧ extends e e' ∧
  ebuf e' = ebuf e.
Proof.
  intros [Ho Hp] H. unfold BinEncoder_store_label_pointer in H. simplify_eq.
  destruct (eoffset e <? 16383) eqn:Hlt; [|split_and!; [|done..]].
  - apply Z.ltb_lt in Hlt. split_and!; [|split; [by exists []; rewrite app_nil_r|done..]|done].
    split; [done|]. cbn. intros k loc. unfold as_u16. rewrite Z.mod_small by lia.
    destruct (decide (ls = k)) as [<-|Hne].
    + rewrite lookup_insert_eq. intros [= <-]. split; [lia|]. auto.
    + rewrite lookup_insert_ne by done. intros Hk. destruct (Hp _ _ Hk) as [? [?|?]]; auto.
  - split; [done|]. intros k loc Hk. destruct (Hp _ _ Hk) as [? [?|?]]; auto.
Qed.

(** The pointer bytes: [0xC000 | loc], split big-endian, and read back. *)
Lemma pointer_bytes loc :
  0 ≤ loc < 16384 →
  let v := Z.lor 49152 (Z.land loc 16383) in
  let b1 := as_u8 (Z.land (Z.shiftr v 8) 255) in
  let b2 := as_u8 (Z.land v 255) in
  Z.land b1 192 = 192 ∧ Z.land (Z.shiftl b1 8 + b2) 16383 = loc.
Proof.
  intros Hloc v b1 b2.
  assert (Hv : v = 49152 + loc).
  { unfold v. change 16383 with (Z.ones 14). rewrite Z.land_ones, Z.mod_small by lia.
    assert (Hz : Z.land loc 49152 = 0).
    { rewrite <-(Z.mod_small loc (2^14)), <-Z.land_ones, <-Z.land_assoc by lia.
      apply Z.land_0_r. }
    pose proof (Z.add_lor_land loc 49152). rewrite Z.lor_comm. lia. }
  assert (Hb1 : u8 b1) by (unfold b1; solve_bytes).
  assert (Hsum : Z.shiftl b1 8 + b2 = v) by (unfold b1, b2; rewrite Hv; solve_bytes).
  split.
  - assert (192 ≤ b1) by (unfold b1; rewrite Hv; solve_bytes).
    assert ((b1 <? 192) || (Z.land b1 192 =? 192) = true) as Hx.
    { by apply (u8_forallb (λ n, (n <? 192) || (Z.land n 192 =? 192))); [vm_compute|]. }
    rewrite (proj2 (Z.ltb_ge _ _)) in Hx by lia. simpl in Hx. lia.
  - rewrite Hsum, Hv. change 16383 with (Z.ones 14). rewrite Z.land_ones by lia.
    change 49152 with (3 * 2^14). rewrite Z.add_comm, Z.mod_add, Z.mod_small by lia. done.
Qed.

Lemma name_at_pointer_emit P pre e e' loc ls q :
  enc_ok P pre e → 0 ≤ loc < 16383 → name_at (pre ++ ebuf e) (Z.to_nat loc) ls q →
  BinEncoder_emit_u16 (Z.lor 49152 (Z.land loc 16383)) e = (Ok (), e') →
  enc_ok P pre e' ∧ extends e e' ∧
  name_at (pre ++ ebuf e') (length pre + length (ebuf e)) ls (length pre + length (ebuf e')).
Proof.
  intros Hok Hloc Hat H. destruct (pointer_bytes loc ltac:(lia)) as [Hb Hv].
  unfold BinEncoder_emit_u16 in H. cbv zeta in H, Hb, Hv. set (v := Z.lor _ _) in *.
  set (b1 := as_u8 (Z.land (Z.shiftr v 8) 255)) in *. set (b2 := as_u8 (Z.land v 255)) in *. inv_ok.
  apply (enc_ok_emit P pre) in Hm as (Hok1 & Hex1 & Hb1 & _); [|done].
  apply (enc_ok_emit P pre) in Hk as (Hok2 & Hex2 & Hb2 & _); [|done].
  split_and!; [done|by etrans|].
  assert (Hbuf : pre ++ ebuf e' = (pre ++ ebuf e) ++ [b1; b2])
    by (by rewrite Hb2, Hb1, <-!app_assoc).
  replace (length pre + length (ebuf e'))%nat with (S (S (length pre + length (ebuf e))))
    by (rewrite Hb2, Hb1, !length_app; simpl; lia).
  rewrite Hbuf, <-length_app.
  apply (name_at_pointer _ _ b1 b2 ls q); [by apply list_lookup_middle| |done|].
  - rewrite lookup_app_r by lia. by replace (S _ - _)%nat with 1%nat by lia.
  - rewrite Hv. by apply name_at_app.
Qed.

(** The name loop with its terminator. *)
Definition emit_name (ls : list label) : X () :=
  let* returned := emit_labels ls in
  if returned : bool then ret () else BinEncoder_emit 0.

Lemma emit_name_ok ls P pre e e' :
  Forall label_ok ls → (∀ k loc, P k loc → (length ls < length k)%nat) →
  enc_ok P pre e → emit_name ls e = (Ok (), e') →
  enc_ok P pre e' ∧ extends e e' ∧
  name_at (pre ++ ebuf e') (length pre + length (ebuf e)) ls (length pre + length (ebuf e')).
Proof.
  revert P e. induction ls as [|l ls IH]; intros P e Hls HP Hok H; unfold emit_name in H; inv_ok.
  - simpl in Hm. unfold ret in Hm. injection Hm as <- <-.
    apply (enc_ok_emit P pre) in Hk as (Hok' & Hex & Hb & _); [|done].
    split_and!; [done..|]. rewrite Hb, length_app, app_assoc, <-length_app. simpl.
    replace (length pre + (length (ebuf e) + 1))%nat with (S (length (pre ++ ebuf e)))
      by (rewrite length_app; lia).
    apply name_at_root. by apply list_lookup_middle.
  - apply Forall_cons in Hls as [Hl Hls]. simpl in Hm. inv_ok.
    destruct (BinEncoder_get_label_pointer s0 (l :: ls)) as [loc|] eqn:Hptr.
    + inv_ok. destruct (eo_pointers _ _ _ Hok _ _ Hptr) as [Hloc [Hpend|[q Hat]]].
      { apply HP in Hpend. lia. }
      by eapply name_at_pointer_emit.
    + case_decide; [done|]. inv_ok.
      destruct (enc_ok_store _ _ _ _ _ Hok Hm) as (Hok1 & Hex1 & Hbuf1).
      destruct (enc_ok_character_data _ _ _ _ _ Hok1 Hm0) as [Hok2 Hex2].
      destruct (IH (λ k loc, P k loc ∨ (k = l :: ls ∧ loc = eoffset s0)) s2) as (Hok3 & Hex3 & Hat);
        [done| |done|by unfold emit_name; rewrite (bind_Ok _ _ _ _ _ Hk0)|].
      { intros k loc [Hk2|[-> _]]; simpl; [|lia]. apply HP in Hk2. simpl in Hk2. lia. }
      pose proof (name_at_cons_emit _ _ _ _ _ _ _ _ Hl Hok1 Hm0 Hex3 Hat) as Hat'.
      rewrite Hbuf1 in Hat'.
      split_and!; [|by etrans; [|etrans]|done].
      split; [apply Hok3|]. intros k loc Hk2.
      destruct (eo_pointers _ _ _ Hok3 _ _ Hk2) as [? [[?|[-> ->]]|?]]; auto.
      split; [done|]. right. rewrite (eo_offset _ _ _ Hok), Nat2Z.id. eauto.
Qed.

Lemma canonical_labels_ok ls pre e e' :
  Forall label_ok ls → enc_ok no_pending pre e →
  (for_each BinEncoder_emit_character_data ls ;;; BinEncoder_emit 0) e = (Ok (), e') →
  enc_ok no_pending pre e' ∧ extends e e' ∧
  name_at (pre ++ ebuf e') (length pre + length (ebuf e)) ls (length pre + length (ebuf e')).
Proof.
  revert e. induction ls as [|l ls IH]; intros e Hls Hok H.
  - by apply (emit_name_ok [] no_pending pre).
  - apply Forall_cons in Hls as [Hl Hls]. simpl in H. rewrite bind_assoc in H. inv_ok.
    destruct (enc_ok_character_data _ _ _ _ _ Hok Hm) as [Hok2 Hex2].
    destruct (IH s Hls Hok2) as (Hok3 & Hex3 & Hat); [by rewrite (bind_Ok _ _ _ _ _ Hm0)|].
    split_and!; [done|by etrans|]. by eapply name_at_cons_emit.
Qed.

Lemma emit_as_canonical_inv n c e e' :
  Name_emit_as_canonical n c e = (Ok (), e') →
  (if c then for_each BinEncoder_emit_character_data (labels n) ;;; BinEncoder_emit 0
   else emit_name (labels n)) e = (Ok (), e').
Proof.
  unfold Name_emit_as_canonical. intros H. inv_ok. destruct c.
  - inv_ok. case_decide; [done|]. inv_ok. by rewrite (bind_Ok _ _ _ _ _ Hm).
  - unfold emit_name. rewrite (bind_Ok _ _ _ _ _ Hm0). destruct a0; [done|]. inv_ok.
    case_decide; [done|]. by inv_ok.
Qed.

Lemma RT_name c n :
  Forall label_ok (labels n) → RT c (Name_emit n) Name_read n.
Proof.
  intros Hn. destruct n as [ls]. apply RT_name_at. intros pre e e' Hok Hc H.
  unfold Name_emit in H. inv_ok. apply emit_as_canonical_inv in Hk.
  unfold BinEncoder_is_canonical_names in Hk. destruct (canonical_names _).
  - by apply canonical_labels_ok.
  - by apply emit_name_ok.
Qed.
#[export] Hint Resolve RT_name : dns.

(** Reading the canonical flag first, as the RDATA writers do. *)
Lemma RT_gets_canonical {A} c (em : bool → X ()) (rd : D A) a :
  RT c (em c) rd a → RT c (let* c' := gets BinEncoder_is_canonical_names in em c') rd a.
Proof. intros H pre e e' Hok Hc He. apply H; [done..|]. by rewrite <-Hc. Qed.

Lemma TOT_gets_canonical c (em : bool → X ()) n :
  TOT c (em c) n → TOT c (let* c' := gets BinEncoder_is_canonical_names in em c') n.
Proof. intros H e Hc He. destruct (H e Hc He) as (e' & ? & ?). exists e'. by rewrite <-Hc in *. Qed.

(** Outside canonical mode RDATA names are written as they are. *)
Lemma RT_name_rdata `{Lowercase} n :
  Forall label_ok (labels n) → RT false (Name_emit_with_lowercase n false) Name_read n.
Proof. intros Hn. unfold Name_emit_with_lowercase. by apply (RT_name false). Qed.
#[export] Hint Resolve RT_name_rdata : dns.

(** ** Writing succeeds *)

(** The size of a name on the wire without compression. *)
Definition wire_len (ls : list label) : nat := (sum_list_with (λ l, S (length l)) ls + 1)%nat.

Definition name_ok (n : Name) : Prop := Forall label_ok (labels n) ∧ (wire_len (labels n) ≤ 255)%nat.

#[global] Instance name_ok_dec n : Decision (name_ok n).
Proof. unfold name_ok. apply _. Defined.

Lemma grown_store n e ls :
  ∃ e', BinEncoder_store_label_pointer ls e = (Ok (), e') ∧ grown n e e'.
Proof.
  eexists. split; [done|]. unfold BinEncoder_store_label_pointer.
  destruct (_ <? _); (split; [exists []; simpl; rewrite app_nil_r; split_and!; [done|lia|lia]|done..]).
Qed.

Lemma emit_labels_total c ls e :
  Forall label_ok ls → canonical_names e = c →
  eoffset e + Z.of_nat (sum_list_with (λ l, S (length l)) ls) ≤ u32_max →
  ∃ r e', emit_labels ls e = (Ok r, e') ∧ grown (sum_list_with (λ l, S (length l)) ls) e e'.
Proof.
  revert e. induction ls as [|l ls IH]; intros e Hls Hc He.
  { exists false, e. split; [done|apply grown_refl]. }
  apply Forall_cons in Hls as [[Hl Hu] Hls]. simpl in He. cbn [emit_labels].
  unfold bind at 1, gets. destruct (BinEncoder_get_label_pointer e (l :: ls)) as [loc|].
  - destruct (TOT_u16 c (Z.lor 49152 (Z.land loc 16383)) e Hc) as (e' & E & G); [lia|].
    exists true, e'. rewrite (bind_Ok _ _ _ _ _ E). split; [done|].
    eapply grown_weaken; [done|]. simpl. lia.
  - rewrite decide_False by lia.
    destruct (grown_store 0 e (l :: ls)) as (e1 & E1 & G1).
    rewrite (bind_Ok _ _ _ _ _ E1). pose proof (grown_offset _ _ _ G1).
    destruct (TOT_character_data c l ltac:(lia) e1) as (e2 & E2 & G2);
      [by rewrite (gr_canonical _ _ _ G1)|lia|].
    rewrite (bind_Ok _ _ _ _ _ E2). pose proof (grown_offset _ _ _ G2).
    destruct (IH e2 Hls) as (r & e3 & E3 & G3); [|lia|].
    { by rewrite (gr_canonical _ _ _ G2), (gr_canonical _ _ _ G1). }
    exists r, e3. split; [done|]. eapply grown_weaken;
      [eapply (grown_trans 0); [done|by eapply grown_trans]|simpl; lia].
Qed.

Lemma grown_len n e e' : grown n e e' → (BinEncoder_len e' - BinEncoder_len e ≤ n)%nat.
Proof. intros [(w & Hb & ? & ?) ??]. unfold BinEncoder_len. rewrite Hb, length_app. lia. Qed.

Lemma TOT_emit_as_canonical c n canonical :
  name_ok n → TOT c (Name_emit_as_canonical n canonical) (wire_len (labels n)).
Proof.
  intros [Hn Hlen] e Hc He. unfold Name_emit_as_canonical, bind at 1, gets. unfold wire_len in *.
  set (body := sum_list_with (λ l, S (length l)) (labels n)) in *.
  assert (∃ r e1,
    (if canonical then for_each BinEncoder_emit_character_data (labels n) ;;; ret false
     else emit_labels (labels n)) e = (Ok r, e1) ∧ grown body e e1) as (r & e1 & E1 & G1).
  { destruct canonical; [|apply (emit_labels_total c); [done..|lia]].
    destruct (TOT_for_each c BinEncoder_emit_character_data (λ l, S (length l)) (labels n))
      with e as (e1 & E1 & G1); [|done|unfold body in *; lia|].
    { intros l Hl. apply TOT_character_data. rewrite Forall_forall in Hn.
      destruct (Hn l Hl) as [? _]. lia. }
    exists false, e1. by rewrite (bind_Ok _ _ _ _ _ E1). }
  rewrite (bind_Ok _ _ _ _ _ E1). destruct r.
  { exists e1. split; [done|]. eapply grown_weaken; [done|lia]. }
  pose proof (grown_offset _ _ _ G1).
  destruct (TOT_emit c 0 e1) as (e2 & E2 & G2); [by rewrite (gr_canonical _ _ _ G1)|lia|].
  rewrite (bind_Ok _ _ _ _ _ E2). unfold bind.
  pose proof (grown_trans _ _ _ _ _ G1 G2) as G. pose proof (grown_len _ _ _ G).
  rewrite decide_False by lia. by exists e2.
Qed.

Lemma TOT_name c n : name_ok n → TOT c (Name_emit n) (wire_len (labels n)).
Proof. intros Hn. apply TOT_gets_canonical. by apply TOT_emit_as_canonical. Qed.

Lemma TOT_name_rdata `{Lowercase} n :
  name_ok n → TOT false (Name_emit_with_lowercase n false) (wire_len (labels n)).
Proof. intros Hn. apply TOT_gets_canonical. by apply TOT_emit_as_canonical. Qed.
#[export] Hint Resolve TOT_name TOT_name_rdata : dns.

(** ** Order and equality *)

Section order.
Context `{L : Lowercase}.

(** Names are ordered by their lowercased labels, the last label first. *)
Definition name_key (n : Name) : list label := reverse (to_lowercase <$> labels n).

Lemma cmp_labels_list_cmp ls rs :
  match cmp_labels true ls rs with Eq => (length ls ?= length rs)%nat | o => o end =
  list_cmp (to_lowercase <$> ls) (to_lowercase <$> rs).
Proof.
  revert rs. induction ls as [|l ls IH]; intros [|r rs]; simpl; try done.
  rewrite <-IH. by destruct (cmp (to_lowercase l) (to_lowercase r)).
Qed.

Lemma Name_cmp_key (n m : Name) : cmp n m = cmp (name_key n) (name_key m).
Proof.
  unfold cmp, Name_cmp, Name_cmp_with_case, list_compare_inst, name_key.
  rewrite <-!fmap_reverse, <-cmp_labels_list_cmp, !length_reverse.
  destruct (labels n), (labels m); done.
Qed.

#[global] Instance Name_compare_laws : CompareLaws Name.
Proof. apply (compare_laws_key name_key), Name_cmp_key. Qed.

Lemma name_key_cmp_eq (j k : list label) : cmp j k = Eq ↔ j = k.
Proof. apply list_cmp_eq_iff. intros x y. apply list_cmp_eq_iff, Z_cmp_eq_iff. Qed.

Lemma Name_cmp_eq_labels (n m : Name) :
  cmp n m = Eq ↔ to_lowercase <$> labels n = to_lowercase <$> labels m.
Proof.
  rewrite Name_cmp_key, name_key_cmp_eq. unfold name_key. split; [apply (inj reverse)|by intros ->].
Qed.

Lemma Name_eq_cmp (n m : Name) : Name_eq n m = true ↔ cmp n m = Eq.
Proof. unfold Name_eq, cmp, Name_cmp. by destruct (Name_cmp_with_case _ _ _). Qed.

(** Equality of names as an equivalence relation. *)
Definition name_equiv (n m : Name) : Prop := cmp n m = Eq.

#[global] Instance name_equiv_equivalence : Equivalence name_equiv.
Proof.
  split; unfold name_equiv.
  - intros n. apply cmp_refl.
  - intros n m. apply cmp_eq_sym.
  - intros n m k E1 E2. by rewrite (cmp_eq_l n m k).
Qed.

#[global] Instance Name_cmp_proper : Proper (name_equiv ==> name_equiv ==> eq) (cmp (A:=Name)).
Proof. intros n n' En m m' Em. by rewrite (cmp_eq_l n n' m En), (cmp_eq_r n' m m' Em). Qed.

(** ** [zone_of] *)

(** The comparison from the last label on. *)
Fixpoint zone_rev {E} (rs rn : list label) : res E bool :=
  match rs, rn with
  | [], _ => Ok true
  | _ :: _, [] => Panic
  | r :: rs, n :: rn => if decide (r = n) then zone_rev rs rn else Ok false
  end.

Lemma zone_of_loop_rev {E} k s n :
  (k ≤ length s)%nat →
  zone_of_loop (E:=E) s n (seq (S k) (length s - k)) =
  if decide (k ≤ length n)%nat then zone_rev (drop k (reverse s)) (drop k (reverse n))
  else zone_of_loop s n (seq (S k) (length s - k)).
Proof.
  remember (length s - k)%nat as m eqn:Hm. revert k Hm. induction m as [|m IH]; intros k Hm Hk.
  - rewrite drop_ge by (rewrite length_reverse; lia). by destruct (decide _).
  - destruct (decide (k ≤ length n)%nat) as [Hn|]; [|done]. cbn [seq zone_of_loop].
    assert (Hs : is_Some (s !! (length s - S k)%nat)) by (apply lookup_lt_is_Some; lia).
    destruct Hs as [x Hx]. rewrite (drop_S (reverse s) x k)
      by (rewrite reverse_lookup by lia; rewrite <-Hx; f_equal; lia).
    destruct (decide (S k ≤ length n)%nat) as [Hn'|Hn'].
    + assert (Hy : is_Some (n !! (length n - S k)%nat)) by (apply lookup_lt_is_Some; lia).
      destruct Hy as [y Hy]. rewrite (drop_S (reverse n) y k)
        by (rewrite reverse_lookup by lia; rewrite <-Hy; f_equal; lia).
      rewrite Hx, Hy. cbn [zone_rev].
      destruct (decide (x = y)) as [->|Hxy].
      * rewrite decide_True by done. rewrite IH by lia. by rewrite decide_True.
      * rewrite decide_False; [done|]. by intros [=].
    + by rewrite (drop_ge (reverse n)) by (rewrite length_reverse; lia).
Qed.

Lemma zone_rev_prefix {E} rs rn :
  zone_rev (E:=E) rs rn =
  if decide (rs `prefix_of` rn) then Ok true
  else if decide (rn `prefix_of` rs) then Panic else Ok false.
Proof.
  revert rn. induction rs as [|r rs IH]; intros [|n rn]; cbn [zone_rev].
  - by rewrite decide_True by apply prefix_nil.
  - by rewrite decide_True by apply prefix_nil.
  - rewrite decide_False by apply prefix_nil_not.
    by rewrite decide_True by apply prefix_nil.
  - destruct (decide (r = n)) as [->|Hne].
    + rewrite IH. by repeat case_decide; try done;
        repeat match goal with H : ¬ _ |- _ => destruct H; eauto using prefix_cons, prefix_cons_inv_2 end.
    + rewrite !decide_False; [done|..]; intros ?%prefix_cons_inv_1; congruence.
Qed.

Lemma Name_zone_of_rev {E} self name :
  (length (labels self) < 256)%nat → (length (labels name) < 256)%nat →
  Name_zone_of (E:=E) self name = zone_rev (name_key self) (name_key name).
Proof.
  intros Hs Hn. unfold Name_zone_of, Name_to_lowercase, Name_with_labels, Name_checked.
  rewrite !decide_True by (by rewrite length_fmap). simpl.
  pose proof (zone_of_loop_rev (E:=E) 0 (to_lowercase <$> labels self)
                (to_lowercase <$> labels name) ltac:(lia)) as H.
  rewrite decide_True in H by lia. rewrite Nat.sub_0_r, length_fmap in H. apply H.
Qed.
End order.

(** ** The properties of names *)


Definition example_message : bytes := [2; 114; 98; 2; 114; 99; 0; 2; 114; 97; 192; 0].


(** The fuel of the model loses nothing: [Name::read] fails to return on an
    input if and only if no number of loop turns and nested calls lets it
    return, and when some number does the model gives that run's outcome. *)
Theorem Name_read_fuel_enough d :
  ((Name_read d).1 = Diverge ↔ ∀ f, (Name_read_loop f LabelLengthOrPointer [] d).1 = Diverge) ∧
  ∀ f, (Name_read_loop f LabelLengthOrPointer [] d).1 ≠ Diverge →
       Name_read d = Name_read_loop f LabelLengthOrPointer [] d.
Proof.
  split; [split|]; [|intros H; apply H|intros f; apply Name_read_fuel_complete].
  intros H f. destruct (Name_read_loop f _ _ d) as [r d'] eqn:Hf.
  destruct r; try done; rewrite (Name_read_fuel_complete f), Hf in H; by rewrite ?Hf.
Qed.

(** A pointer to itself is never rejected: on a message whose bytes at [p]
    are the pointer to [p], [Name::read] calls itself without end. *)
Theorem Name_read_self_pointer_diverges buf p f :
  Z.of_nat p < 16384 →
  buf !! p = Some (192 + Z.of_nat p / 256) → buf !! S p = Some (Z.of_nat p `mod` 256) →
  (Name_read_loop f LabelLengthOrPointer [] (dec_at buf p)).1 = Diverge.
Proof.
  intros Hp H1 H2. induction (lt_wf f) as [f _ IH].
  assert (Hhi : 0 ≤ Z.of_nat p / 256 < 64) by (Z.div_mod_to_equations; lia).
  assert (Hb1 : Z.land (192 + Z.of_nat p / 256) 192 = 192).
  { assert (((192 + Z.of_nat p / 256 <? 192) || (Z.land (192 + Z.of_nat p / 256) 192 =? 192)) = true).
    { apply (u8_forallb (λ n, (n <? 192) || (Z.land n 192 =? 192))); [by vm_compute|unfold u8; lia]. }
    lia. }
  assert (Hv : Z.to_nat (Z.land (Z.shiftl (192 + Z.of_nat p / 256) 8 + Z.of_nat p `mod` 256) 16383) = p).
  { change 16383 with (Z.ones 14). rewrite Z.land_ones, Z.shiftl_mul_pow2 by lia.
    Z.div_mod_to_equations. lia. }
  destruct f as [|[|f]]; [done| |].
  - destruct (Name_read_loop 1 _ _ _) as [r d'] eqn:Hr.
    apply loop_one in Hr as [?|(b & Hb & _ & H3 & _)]; [done|]. rewrite H1 in Hb. simplify_eq. lia.
  - rewrite loop_two, H1, Hb1. rewrite (proj2 (Z.eqb_neq _ 0)) by lia. simpl.
    rewrite (read_u16_at _ _ _ _ H1 H2), Hv. specialize (IH f ltac:(lia)).
    destruct (Name_read_loop f _ _ _) as [r d']. simpl in *. by subst.
Qed.

Lemma Name_read_self_pointer_diverges_witness :
  (Name_read_loop 1000 LabelLengthOrPointer [] (dec_at [192; 0] 0)).1 = Diverge.
Proof. apply Name_read_self_pointer_diverges; [lia|reflexivity|reflexivity]. Defined.


(** The four names of the crate's own compression test. *)
Definition example_names : list Name :=
  [mkName [[114; 97]; [114; 98]; [114; 99]]; mkName [[114; 98]; [114; 99]];
   mkName [[114; 99]]; mkName [[122]; [114; 97]; [114; 98]; [114; 99]]].

Definition example_names_buf : bytes :=
  [2; 114; 97; 2; 114; 98; 2; 114; 99; 0; 192; 3; 192; 6; 1; 122; 192; 0].


(** Writing a name succeeds whenever every label has 1 to 63 bytes and the
    name at most 255 on the wire, and takes no more space than it does without
    compression; with the canonical flag set or not. *)
Theorem Name_emit_total n e :
  name_ok n → eoffset e + 255 ≤ u32_max →
  ∃ e' w, Name_emit n e = (Ok (), e') ∧ ebuf e' = ebuf e ++ w ∧ (length w ≤ wire_len (labels n))%nat.
Proof.
  intros Hn He. destruct (TOT_name (canonical_names e) n Hn e) as (e' & E & G); [done| |].
  - destruct Hn. lia.
  - destruct (gr_buf _ _ _ G) as (w & ? & ? & ?). eauto.
Qed.

Lemma Name_emit_total_witness :
  ∃ e' w, Name_emit (mkName [[119]; [97; 98]]) (BinEncoder_new []) = (Ok (), e') ∧
          ebuf e' = [] ++ w ∧ (length w ≤ 6)%nat.
Proof.
  apply (Name_emit_total (mkName [[119]; [97; 98]]) (BinEncoder_new [])).
  - by_decision.
  - vm_compute. discriminate.
Defined.

Section properties.
Context `{L : Lowercase}.

(** [Ord] and [PartialEq] of names agree and are lawful: comparing is
    antisymmetric and transitive, equal names compare alike with every other
    one, and two names are equal exactly when their lowercased labels are. *)
Theorem Name_order_lawful (n m k : Name) :
  cmp m n = CompOpp (cmp n m) ∧
  (cmp n m = Lt → cmp m k = Lt → cmp n k = Lt) ∧
  (Name_eq n m = true → cmp n k = cmp m k) ∧
  (Name_eq n m = true ↔ to_lowercase <$> labels n = to_lowercase <$> labels m).
Proof.
  rewrite Name_eq_cmp, Name_cmp_eq_labels, <-Name_cmp_eq_labels.
  split_and!; [apply cmp_opp|apply cmp_lt_trans|apply cmp_eq_l|done].
Qed.

(** [zone_of] decides whether the zone's labels end the name's, without
    regard to case, except on a name with fewer labels than the zone that
    itself ends the zone: there the index underflows and the call panics. *)
Theorem Name_zone_of_spec {E} self name :
  (length (labels self) < 256)%nat → (length (labels name) < 256)%nat →
  Name_zone_of (E:=E) self name =
  let s := to_lowercase <$> labels self in
  let n := to_lowercase <$> labels name in
  if decide (s `suffix_of` n) then Ok true
  else if decide (n `suffix_of` s) then Panic else Ok false.
Proof.
  intros Hs Hn. rewrite Name_zone_of_rev, zone_rev_prefix by done. unfold name_key. cbv zeta.
  repeat case_decide; try done; exfalso; rewrite <-suffix_prefix_reverse in *; auto.
Qed.
End properties.

Lemma Name_zone_of_spec_witness :
  Name_zone_of (L:=ascii_lowercase) (E:=()) (mkName [[67; 79; 77]])
    (mkName [[119; 119; 119]; [99; 111; 109]]) = Ok true ∧
  Name_zone_of (L:=ascii_lowercase) (E:=()) (mkName [[119]; [99; 111; 109]])
    (mkName [[99; 111; 109]]) = Panic.
Proof.
  split; (rewrite Name_zone_of_spec by (simpl; lia)); vm_compute; reflexivity.
Defined.
