(* ===== verification/Enums.v ===== *)
(** * Code points: the enumerations of the wire format

    Models [client/src/rr/record_type.rs], [rr/dns_class.rs], [op/op_code.rs],
    [op/response_code.rs], and [rr/dnssec/]'s [algorithm.rs], [digest_type.rs],
    [supported_algorithm.rs] and the enumeration of [nsec3.rs]: the types, their
    conversions to and from integers and text, and their wire form.  Each
    enumeration is a Module of its own, so that its constructors read as in the
    source. *)

From S2P Require Import Prelude Codec Wire.

Open Scope Z_scope.

(** ** [RecordType] *)

Module RecordType.
Inductive RecordType : Type :=
  | A | AAAA | ANY | AXFR | CNAME | DNSKEY | DS | IXFR | KEY | MX | NS | NULL | NSEC | NSEC3
  | NSEC3PARAM | OPT | PTR | RRSIG | SIG | SOA | SRV | TXT.
End RecordType.
Abbreviation RecordType := RecordType.RecordType.

#[global] Instance RecordType_eq_dec : EqDecision RecordType.
Proof. solve_decision. Defined.

Definition RecordType_from_str {S} (str : string) : M S decode_error RecordType :=
  match str with
  | "A" => ret RecordType.A
  | "AAAA" => ret RecordType.AAAA
  | "CNAME" => ret RecordType.CNAME
  | "NULL" => ret RecordType.NULL
  | "MX" => ret RecordType.MX
  | "NS" => ret RecordType.NS
  | "PTR" => ret RecordType.PTR
  | "SOA" => ret RecordType.SOA
  | "SRV" => ret RecordType.SRV
  | "TXT" => ret RecordType.TXT
  | "ANY" | "*" => ret RecordType.ANY
  | "AXFR" => ret RecordType.AXFR
  | _ => fail (UnknownRecordTypeStr str)
  end%string.

Definition RecordType_from_u16 {S} (value : Z) : M S decode_error RecordType :=
  match value with
  | 1 => ret RecordType.A
  | 28 => ret RecordType.AAAA
  | 255 => ret RecordType.ANY
  | 252 => ret RecordType.AXFR
  | 5 => ret RecordType.CNAME
  | 48 => ret RecordType.DNSKEY
  | 43 => ret RecordType.DS
  | 25 => ret RecordType.KEY
  | 15 => ret RecordType.MX
  | 2 => ret RecordType.NS
  | 47 => ret RecordType.NSEC
  | 50 => ret RecordType.NSEC3
  | 51 => ret RecordType.NSEC3PARAM
  | 0 => ret RecordType.NULL
  | 41 => ret RecordType.OPT
  | 12 => ret RecordType.PTR
  | 46 => ret RecordType.RRSIG
  | 24 => ret RecordType.SIG
  | 6 => ret RecordType.SOA
  | 33 => ret RecordType.SRV
  | 16 => ret RecordType.TXT
  | _ => fail (UnknownRecordTypeValue value)
  end.

Definition RecordType_to_str (rt : RecordType) : string :=
  match rt with
  | RecordType.A => "A"
  | RecordType.AAAA => "AAAA"
  | RecordType.ANY => "ANY"
  | RecordType.AXFR => "AXFR"
  | RecordType.CNAME => "CNAME"
  | RecordType.DNSKEY => "DNSKEY"
  | RecordType.DS => "DS"
  | RecordType.IXFR => "IXFR"
  | RecordType.KEY => "KEY"
  | RecordType.MX => "MX"
  | RecordType.NULL => "NULL"
  | RecordType.NS => "NS"
  | RecordType.NSEC => "NSEC"
  | RecordType.NSEC3 => "NSEC3"
  | RecordType.NSEC3PARAM => "NSEC3PARAM"
  | RecordType.OPT => "OPT"
  | RecordType.PTR => "PTR"
  | RecordType.RRSIG => "RRSIG"
  | RecordType.SIG => "SIG"
  | RecordType.SOA => "SOA"
  | RecordType.SRV => "SRV"
  | RecordType.TXT => "TXT"
  end.

Definition RecordType_to_u16 (rt : RecordType) : Z :=
  match rt with
  | RecordType.A => 1
  | RecordType.AAAA => 28
  | RecordType.ANY => 255
  | RecordType.AXFR => 252
  | RecordType.CNAME => 5
  | RecordType.KEY => 25
  | RecordType.DNSKEY => 48
  | RecordType.DS => 43
  | RecordType.IXFR => 251
  | RecordType.MX => 15
  | RecordType.NS => 2
  | RecordType.NULL => 0
  | RecordType.NSEC => 47
  | RecordType.NSEC3 => 50
  | RecordType.NSEC3PARAM => 51
  | RecordType.OPT => 41
  | RecordType.PTR => 12
  | RecordType.RRSIG => 46
  | RecordType.SIG => 24
  | RecordType.SOA => 6
  | RecordType.SRV => 33
  | RecordType.TXT => 16
  end.

Definition RecordType_read : D RecordType :=
  let* v := BinDecoder_read_u16 in RecordType_from_u16 v.

Definition RecordType_emit (self : RecordType) : X () :=
  BinEncoder_emit_u16 (RecordType_to_u16 self).

(** [impl Ord for RecordType] *)
#[global] Instance RecordType_cmp : Compare RecordType := λ self other,
  cmp (RecordType_to_u16 self) (RecordType_to_u16 other).

(** ** [DNSClass] *)

Module DNSClass.
Inductive DNSClass : Type := IN | CH | HS | NONE | ANY | OPT (version : Z).
End DNSClass.
Abbreviation DNSClass := DNSClass.DNSClass.

#[global] Instance DNSClass_eq_dec : EqDecision DNSClass.
Proof. solve_decision. Defined.

Definition DNSClass_from_str {S} (str : string) : M S decode_error DNSClass :=
  match str with
  | "IN" => ret DNSClass.IN
  | "CH" => ret DNSClass.CH
  | "HS" => ret DNSClass.HS
  | "NONE" => ret DNSClass.NONE
  | "ANY" | "*" => ret DNSClass.ANY
  | _ => fail (UnknownDnsClassStr str)
  end%string.

Definition DNSClass_from_u16 {S} (value : Z) : M S decode_error DNSClass :=
  match value with
  | 1 => ret DNSClass.IN
  | 3 => ret DNSClass.CH
  | 4 => ret DNSClass.HS
  | 254 => ret DNSClass.NONE
  | 255 => ret DNSClass.ANY
  | _ => fail (UnknownDnsClassValue value)
  end.

Definition DNSClass_for_opt (value : Z) : DNSClass := DNSClass.OPT value.

Definition DNSClass_to_str (rt : DNSClass) : string :=
  match rt with
  | DNSClass.IN => "IN"
  | DNSClass.CH => "CH"
  | DNSClass.HS => "HS"
  | DNSClass.NONE => "NONE"
  | DNSClass.ANY => "ANY"
  | DNSClass.OPT _ => "OPT"
  end.

Definition DNSClass_to_u16 (rt : DNSClass) : Z :=
  match rt with
  | DNSClass.IN => 1
  | DNSClass.CH => 3
  | DNSClass.HS => 4
  | DNSClass.NONE => 254
  | DNSClass.ANY => 255
  | DNSClass.OPT version => version
  end.

Definition DNSClass_read : D DNSClass :=
  let* v := BinDecoder_read_u16 in DNSClass_from_u16 v.

Definition DNSClass_emit (self : DNSClass) : X () :=
  BinEncoder_emit_u16 (DNSClass_to_u16 self).

#[global] Instance DNSClass_cmp : Compare DNSClass := λ self other,
  cmp (DNSClass_to_u16 self) (DNSClass_to_u16 other).

(** ** [OpCode] *)

Module OpCode.
Inductive OpCode : Type := Query | Status | Notify | Update.
End OpCode.
Abbreviation OpCode := OpCode.OpCode.

#[global] Instance OpCode_eq_dec : EqDecision OpCode.
Proof. solve_decision. Defined.

Definition OpCode_to_u8 (rt : OpCode) : Z :=
  match rt with
  | OpCode.Query => 0
  | OpCode.Status => 2
  | OpCode.Notify => 4
  | OpCode.Update => 5
  end.

Definition OpCode_from_u8 {S} (value : Z) : M S decode_error OpCode :=
  match value with
  | 0 => ret OpCode.Query
  | 2 => ret OpCode.Status
  | 4 => ret OpCode.Notify
  | 5 => ret OpCode.Update
  | _ => fail (Msg "unknown OpCode: " value)
  end.

(** ** [ResponseCode] *)

Module ResponseCode.
Inductive ResponseCode : Type :=
  | NoError | FormErr | ServFail | NXDomain | NotImp | Refused | YXDomain | YXRRSet | NXRRSet
  | NotAuth | NotZone | BADVERS | BADSIG | BADKEY | BADTIME | BADMODE | BADNAME | BADALG
  | BADTRUNC | BADCOOKIE.
End ResponseCode.
Abbreviation ResponseCode := ResponseCode.ResponseCode.

#[global] Instance ResponseCode_eq_dec : EqDecision ResponseCode.
Proof. solve_decision. Defined.

Definition ResponseCode_to_u16 (rt : ResponseCode) : Z :=
  match rt with
  | ResponseCode.NoError => 0
  | ResponseCode.FormErr => 1
  | ResponseCode.ServFail => 2
  | ResponseCode.NXDomain => 3
  | ResponseCode.NotImp => 4
  | ResponseCode.Refused => 5
  | ResponseCode.YXDomain => 6
  | ResponseCode.YXRRSet => 7
  | ResponseCode.NXRRSet => 8
  | ResponseCode.NotAuth => 9
  | ResponseCode.NotZone => 10
  | ResponseCode.BADVERS => 16
  | ResponseCode.BADSIG => 16
  | ResponseCode.BADKEY => 17
  | ResponseCode.BADTIME => 18
  | ResponseCode.BADMODE => 19
  | ResponseCode.BADNAME => 20
  | ResponseCode.BADALG => 21
  | ResponseCode.BADTRUNC => 22
  | ResponseCode.BADCOOKIE => 23
  end.

(** [impl From<u16> for ResponseCode]: a value it does not know is
    [unimplemented!()]. *)
Definition ResponseCode_from_u16 {E} (value : Z) : res E ResponseCode :=
  match value with
  | 0 => Ok ResponseCode.NoError
  | 1 => Ok ResponseCode.FormErr
  | 2 => Ok ResponseCode.ServFail
  | 3 => Ok ResponseCode.NXDomain
  | 4 => Ok ResponseCode.NotImp
  | 5 => Ok ResponseCode.Refused
  | 6 => Ok ResponseCode.YXDomain
  | 7 => Ok ResponseCode.YXRRSet
  | 8 => Ok ResponseCode.NXRRSet
  | 9 => Ok ResponseCode.NotAuth
  | 10 => Ok ResponseCode.NotZone
  | 16 => Ok ResponseCode.BADSIG
  | 17 => Ok ResponseCode.BADKEY
  | 18 => Ok ResponseCode.BADTIME
  | 19 => Ok ResponseCode.BADMODE
  | 20 => Ok ResponseCode.BADNAME
  | 21 => Ok ResponseCode.BADALG
  | 22 => Ok ResponseCode.BADTRUNC
  | 23 => Ok ResponseCode.BADCOOKIE
  | _ => Panic
  end.

Definition ResponseCode_low (self : ResponseCode) : Z :=
  as_u8 (Z.land (ResponseCode_to_u16 self) 15).

(** [high] has no return type: the value it computes is dropped. *)
Definition ResponseCode_high (self : ResponseCode) : () := ().

Definition ResponseCode_from {E} (high low : Z) : res E ResponseCode :=
  ResponseCode_from_u16 (Z.lor (as_u16 (Z.shiftl high 4)) (Z.land low 15)).

Definition ResponseCode_to_str (self : ResponseCode) : string :=
  match self with
  | ResponseCode.NoError => "No Error"
  | ResponseCode.FormErr => "Form Error"
  | ResponseCode.ServFail => "Server Failure"
  | ResponseCode.NXDomain => "Non-Existent Domain"
  | ResponseCode.NotImp => "Not Implemented"
  | ResponseCode.Refused => "Query Refused"
  | ResponseCode.YXDomain => "Name should not exist"
  | ResponseCode.YXRRSet => "RR Set should not exist"
  | ResponseCode.NXRRSet => "RR Set does not exist"
  | ResponseCode.NotAuth => "Not authorized"
  | ResponseCode.NotZone => "Name not in zone"
  | ResponseCode.BADVERS => "Bad option verions"
  | ResponseCode.BADSIG => "TSIG Failure"
  | ResponseCode.BADKEY => "Key not recognized"
  | ResponseCode.BADTIME => "Signature out of time window"
  | ResponseCode.BADMODE => "Bad TKEY mode"
  | ResponseCode.BADNAME => "Duplicate key name"
  | ResponseCode.BADALG => "Algorithm not supported"
  | ResponseCode.BADTRUNC => "Bad truncation"
  | ResponseCode.BADCOOKIE => "Bad server cookie"
  end.

(** ** [Algorithm] *)

Module Algorithm.
Inductive Algorithm : Type :=
  | RSASHA1 | RSASHA1NSEC3SHA1 | RSASHA256 | RSASHA512 | ECDSAP256SHA256 | ECDSAP384SHA384
  | ED25519.
End Algorithm.
Abbreviation Algorithm := Algorithm.Algorithm.

#[global] Instance Algorithm_eq_dec : EqDecision Algorithm.
Proof. solve_decision. Defined.

Definition Algorithm_from_u8 {S} (value : Z) : M S decode_error Algorithm :=
  match value with
  | 5 => ret Algorithm.RSASHA1
  | 7 => ret Algorithm.RSASHA1NSEC3SHA1
  | 8 => ret Algorithm.RSASHA256
  | 10 => ret Algorithm.RSASHA512
  | 13 => ret Algorithm.ECDSAP256SHA256
  | 14 => ret Algorithm.ECDSAP384SHA384
  | 15 => ret Algorithm.ED25519
  | _ => fail (UnknownAlgorithmTypeValue value)
  end.

Definition Algorithm_hash_len (self : Algorithm) : nat :=
  match self with
  | Algorithm.RSASHA1 | Algorithm.RSASHA1NSEC3SHA1 => 20
  | Algorithm.RSASHA256 | Algorithm.ECDSAP256SHA256 | Algorithm.ED25519 => 32
  | Algorithm.ECDSAP384SHA384 => 48
  | Algorithm.RSASHA512 => 64
  end.

Definition Algorithm_to_str (self : Algorithm) : string :=
  match self with
  | Algorithm.RSASHA1 => "RSASHA1"
  | Algorithm.RSASHA256 => "RSASHA256"
  | Algorithm.RSASHA1NSEC3SHA1 => "RSASHA1-NSEC3-SHA1"
  | Algorithm.RSASHA512 => "RSASHA512"
  | Algorithm.ECDSAP256SHA256 => "ECDSAP256SHA256"
  | Algorithm.ECDSAP384SHA384 => "ECDSAP384SHA384"
  | Algorithm.ED25519 => "ED25519"
  end.

(** The error's message names the string; the string itself is carried by
    [UnknownRecordTypeStr]'s sibling [Msg], here without its value. *)
Definition Algorithm_from_str {S} (s : string) : M S decode_error Algorithm :=
  match s with
  | "RSASHA1" => ret Algorithm.RSASHA1
  | "RSASHA256" => ret Algorithm.RSASHA256
  | "RSASHA1-NSEC3-SHA1" => ret Algorithm.RSASHA1NSEC3SHA1
  | "RSASHA512" => ret Algorithm.RSASHA512
  | "ECDSAP256SHA256" => ret Algorithm.ECDSAP256SHA256
  | "ECDSAP384SHA384" => ret Algorithm.ECDSAP384SHA384
  | "ED25519" => ret Algorithm.ED25519
  | _ => fail (Message ("unrecognized string " +:+ s))
  end%string.

Definition Algorithm_to_u8 (a : Algorithm) : Z :=
  match a with
  | Algorithm.RSASHA1 => 5
  | Algorithm.RSASHA1NSEC3SHA1 => 7
  | Algorithm.RSASHA256 => 8
  | Algorithm.RSASHA512 => 10
  | Algorithm.ECDSAP256SHA256 => 13
  | Algorithm.ECDSAP384SHA384 => 14
  | Algorithm.ED25519 => 15
  end.

Definition Algorithm_read : D Algorithm :=
  let* algorithm_id := BinDecoder_read_u8 in Algorithm_from_u8 algorithm_id.

Definition Algorithm_emit (self : Algorithm) : X () := BinEncoder_emit (Algorithm_to_u8 self).

(** ** [DigestType] *)

Module DigestType.
Inductive DigestType : Type := SHA1 | SHA256 | SHA384 | SHA512 | ED25519.
End DigestType.
Abbreviation DigestType := DigestType.DigestType.

#[global] Instance DigestType_eq_dec : EqDecision DigestType.
Proof. solve_decision. Defined.

Definition DigestType_from_u8 {S} (value : Z) : M S decode_error DigestType :=
  match value with
  | 1 => ret DigestType.SHA1
  | 2 => ret DigestType.SHA256
  | 4 => ret DigestType.SHA384
  | 5 => ret DigestType.ED25519
  | _ => fail (UnknownAlgorithmTypeValue value)
  end.

Definition DigestType_from (a : Algorithm) : DigestType :=
  match a with
  | Algorithm.RSASHA1 | Algorithm.RSASHA1NSEC3SHA1 => DigestType.SHA1
  | Algorithm.RSASHA256 => DigestType.SHA256
  | Algorithm.RSASHA512 => DigestType.SHA512
  | Algorithm.ECDSAP256SHA256 => DigestType.SHA256
  | Algorithm.ECDSAP384SHA384 => DigestType.SHA384
  | Algorithm.ED25519 => DigestType.ED25519
  end.

Definition DigestType_to_u8 (a : DigestType) : Z :=
  match a with
  | DigestType.SHA1 => 1
  | DigestType.SHA256 => 2
  | DigestType.SHA384 => 4
  | DigestType.ED25519 => 5
  | DigestType.SHA512 => 255
  end.

(** ** [Nsec3HashAlgorithm] *)

Module Nsec3HashAlgorithm.
Inductive Nsec3HashAlgorithm : Type := SHA1.
End Nsec3HashAlgorithm.
Abbreviation Nsec3HashAlgorithm := Nsec3HashAlgorithm.Nsec3HashAlgorithm.

#[global] Instance Nsec3HashAlgorithm_eq_dec : EqDecision Nsec3HashAlgorithm.
Proof. solve_decision. Defined.

Definition Nsec3HashAlgorithm_from_u8 {S} (value : Z) : M S decode_error Nsec3HashAlgorithm :=
  match value with
  | 1 => ret Nsec3HashAlgorithm.SHA1
  | _ => fail (UnknownAlgorithmTypeValue value)
  end.

Definition Nsec3HashAlgorithm_to_u8 (a : Nsec3HashAlgorithm) : Z :=
  match a with Nsec3HashAlgorithm.SHA1 => 1 end.

(** ** [SupportedAlgorithms]: a set of algorithms as a bit map *)

Record SupportedAlgorithms : Type := mkSupported { bit_map : Z }.

#[global] Instance SupportedAlgorithms_eq_dec : EqDecision SupportedAlgorithms.
Proof. solve_decision. Defined.

Definition SupportedAlgorithms_new : SupportedAlgorithms := mkSupported 0.
Definition SupportedAlgorithms_all : SupportedAlgorithms := mkSupported 127.

Definition SupportedAlgorithms_pos (algorithm : Algorithm) : Z :=
  let bit_pos :=
    match algorithm with
    | Algorithm.RSASHA1 => 0
    | Algorithm.RSASHA256 => 1
    | Algorithm.RSASHA1NSEC3SHA1 => 2
    | Algorithm.RSASHA512 => 3
    | Algorithm.ECDSAP256SHA256 => 4
    | Algorithm.ECDSAP384SHA384 => 5
    | Algorithm.ED25519 => 6
    end in
  as_u8 (Z.shiftl 1 bit_pos).

Definition SupportedAlgorithms_from_pos (pos : Z) : option Algorithm :=
  match pos with
  | 0 => Some Algorithm.RSASHA1
  | 1 => Some Algorithm.RSASHA256
  | 2 => Some Algorithm.RSASHA1NSEC3SHA1
  | 3 => Some Algorithm.RSASHA512
  | 4 => Some Algorithm.ECDSAP256SHA256
  | 5 => Some Algorithm.ECDSAP384SHA384
  | 6 => Some Algorithm.ED25519
  | _ => None
  end.

Definition SupportedAlgorithms_set (self : SupportedAlgorithms) (algorithm : Algorithm) :
    SupportedAlgorithms :=
  mkSupported (Z.lor (bit_map self) (SupportedAlgorithms_pos algorithm)).

Definition SupportedAlgorithms_has (self : SupportedAlgorithms) (algorithm : Algorithm) : bool :=
  let bit_pos := SupportedAlgorithms_pos algorithm in
  Z.land bit_pos (bit_map self) =? bit_pos.

Definition SupportedAlgorithms_from_vec (algorithms : list Algorithm) : SupportedAlgorithms :=
  foldl SupportedAlgorithms_set SupportedAlgorithms_new algorithms.

(** The [while let] loop of [SupportedAlgorithmsIter::next]: the position is
    [None] from 7 on, so eight turns are all it takes. *)
Fixpoint SupportedAlgorithmsIter_loop (fuel : nat) (algorithms : SupportedAlgorithms) (current : Z) :
    option Algorithm * Z :=
  match fuel with
  | O => (None, current)
  | S fuel =>
      match SupportedAlgorithms_from_pos (as_u8 current) with
      | Some algorithm =>
          if SupportedAlgorithms_has algorithms algorithm then (Some algorithm, current + 1)
          else SupportedAlgorithmsIter_loop fuel algorithms (current + 1)
      | None => (None, current)
      end
  end.

Definition SupportedAlgorithmsIter_next (algorithms : SupportedAlgorithms) (current : Z) :
    option Algorithm * Z :=
  if u8_max <? current then (None, current)
  else SupportedAlgorithmsIter_loop 8 algorithms current.

(** Everything the iterator yields from [current] on. *)
Fixpoint SupportedAlgorithms_collect (fuel : nat) (algorithms : SupportedAlgorithms) (current : Z) :
    list Algorithm :=
  match fuel with
  | O => []
  | S fuel =>
      match SupportedAlgorithmsIter_next algorithms current with
      | (Some a, current) => a :: SupportedAlgorithms_collect fuel algorithms current
      | (None, _) => []
      end
  end.

Definition SupportedAlgorithms_iter (self : SupportedAlgorithms) : list Algorithm :=
  SupportedAlgorithms_collect 8 self 0.

Definition SupportedAlgorithms_len (self : SupportedAlgorithms) : Z :=
  as_u16 (Z.of_nat (length (SupportedAlgorithms_iter self))).

(** [From<&[u8]>] drops the bytes that are not an algorithm; [From<&Self> for
    Vec<u8>] lists the set. *)
Definition SupportedAlgorithms_from_bytes (values : bytes) : SupportedAlgorithms :=
  foldl (λ supported i,
           match Algorithm_from_u8 i () with
           | (Ok a, _) => SupportedAlgorithms_set supported a
           | _ => supported
           end) SupportedAlgorithms_new values.

Definition SupportedAlgorithms_to_bytes (value : SupportedAlgorithms) : bytes :=
  Algorithm_to_u8 <$> SupportedAlgorithms_iter value.

Definition SupportedAlgorithms_default : SupportedAlgorithms :=
  SupportedAlgorithms_from_vec [Algorithm.RSASHA256].

(** ** Lemmas *)

(** The value read is the value written, by cases on the enumeration. *)
Ltac by_codes := intros; repeat (case_match; simplify_eq/=; try done).

Lemma RecordType_from_to {S} t (s : S) :
  t ≠ RecordType.IXFR → RecordType_from_u16 (RecordType_to_u16 t) s = (Ok t, s).
Proof. by destruct t. Qed.

Lemma RecordType_from_u16_inv {S} v t (s s' : S) :
  RecordType_from_u16 v s = (Ok t, s') → v = RecordType_to_u16 t ∧ t ≠ RecordType.IXFR ∧ s' = s.
Proof. unfold RecordType_from_u16, ret, fail. by_codes. Qed.

Lemma RecordType_to_u16_inj t t' : RecordType_to_u16 t = RecordType_to_u16 t' → t = t'.
Proof. by destruct t, t'. Qed.

Lemma RecordType_to_u16_range t : u16 (RecordType_to_u16 t).
Proof. unfold u16. destruct t; simpl; lia. Qed.
#[export] Hint Resolve RecordType_to_u16_range : dns.

#[global] Instance RecordType_compare_laws : CompareLaws RecordType.
Proof. by apply (compare_laws_key RecordType_to_u16). Qed.

Lemma RecordType_cmp_eq (t t' : RecordType) : cmp t t' = Eq ↔ t = t'.
Proof.
  unfold cmp, RecordType_cmp. rewrite Z_cmp_eq_iff.
  split; [apply RecordType_to_u16_inj|by intros ->].
Qed.

Lemma RT_record_type c t :
  t ≠ RecordType.IXFR → RT c (RecordType_emit t) RecordType_read t.
Proof.
  intros Ht. eapply RT_last; [apply RT_u16, RecordType_to_u16_range|].
  intros d. by apply RecordType_from_to.
Qed.
#[export] Hint Resolve RT_record_type : dns.

Lemma TOT_record_type c t : TOT c (RecordType_emit t) 2.
Proof. apply TOT_u16. Qed.
#[export] Hint Resolve TOT_record_type : dns.

Lemma DNSClass_from_u16_inv {S} v k (s s' : S) :
  DNSClass_from_u16 v s = (Ok k, s') → v = DNSClass_to_u16 k ∧ (∀ o, k ≠ DNSClass.OPT o) ∧ s' = s.
Proof. unfold DNSClass_from_u16, ret, fail. by_codes. Qed.

Lemma RT_dns_class c k :
  (∀ o, k ≠ DNSClass.OPT o) → RT c (DNSClass_emit k) DNSClass_read k.
Proof.
  intros Hk. eapply RT_last; [apply RT_u16|].
  - unfold u16. destruct k; simpl; [lia..|]. by destruct (Hk version).
  - intros d. destruct k; try done. by destruct (Hk version).
Qed.
#[export] Hint Resolve RT_dns_class : dns.

Lemma TOT_dns_class c k : TOT c (DNSClass_emit k) 2.
Proof. apply TOT_u16. Qed.
#[export] Hint Resolve TOT_dns_class : dns.

#[global] Instance DNSClass_compare_laws : CompareLaws DNSClass.
Proof. by apply (compare_laws_key DNSClass_to_u16). Qed.

Lemma OpCode_from_to {S} o (s : S) : OpCode_from_u8 (OpCode_to_u8 o) s = (Ok o, s).
Proof. by destruct o. Qed.

Lemma Algorithm_from_to {S} a (s : S) : Algorithm_from_u8 (Algorithm_to_u8 a) s = (Ok a, s).
Proof. by destruct a. Qed.

Lemma RT_algorithm c a : RT c (Algorithm_emit a) Algorithm_read a.
Proof. eapply RT_last; [apply RT_emit|]. intros d. apply Algorithm_from_to. Qed.
#[export] Hint Resolve RT_algorithm : dns.

Lemma TOT_algorithm c a : TOT c (Algorithm_emit a) 1.
Proof. apply TOT_emit. Qed.
#[export] Hint Resolve TOT_algorithm : dns.

Lemma DigestType_from_to {S} t (s : S) :
  t ≠ DigestType.SHA512 → DigestType_from_u8 (DigestType_to_u8 t) s = (Ok t, s).
Proof. by destruct t. Qed.

(** The bit that stands for an algorithm. *)
Definition algorithm_index (a : Algorithm) : Z :=
  match a with
  | Algorithm.RSASHA1 => 0
  | Algorithm.RSASHA256 => 1
  | Algorithm.RSASHA1NSEC3SHA1 => 2
  | Algorithm.RSASHA512 => 3
  | Algorithm.ECDSAP256SHA256 => 4
  | Algorithm.ECDSAP384SHA384 => 5
  | Algorithm.ED25519 => 6
  end.

Definition all_algorithms : list Algorithm :=
  [Algorithm.RSASHA1; Algorithm.RSASHA256; Algorithm.RSASHA1NSEC3SHA1; Algorithm.RSASHA512;
   Algorithm.ECDSAP256SHA256; Algorithm.ECDSAP384SHA384; Algorithm.ED25519].

Lemma pos_pow2 a : SupportedAlgorithms_pos a = 2 ^ algorithm_index a.
Proof. by destruct a. Qed.

Lemma land_pow2 k m : 0 ≤ k → (Z.land (2^k) m =? 2^k) = Z.testbit m k.
Proof.
  intros Hk. apply Bool.eq_iff_eq_true. rewrite Z.eqb_eq. split.
  - intros H. apply (f_equal (λ z, Z.testbit z k)) in H.
    rewrite Z.land_spec, Z.pow2_bits_true in H by lia. done.
  - intros H. apply Z.bits_inj'. intros n Hn. rewrite Z.land_spec, Z.pow2_bits_eqb by lia.
    destruct (Z.eqb_spec k n) as [<-|]; [by rewrite H|done].
Qed.

Lemma has_testbit s a : SupportedAlgorithms_has s a = Z.testbit (bit_map s) (algorithm_index a).
Proof.
  unfold SupportedAlgorithms_has. rewrite pos_pow2. apply land_pow2. destruct a; simpl; lia.
Qed.

Lemma has_set s a b :
  SupportedAlgorithms_has (SupportedAlgorithms_set s a) b =
  bool_decide (a = b) || SupportedAlgorithms_has s b.
Proof.
  rewrite !has_testbit. simpl. rewrite pos_pow2, Z.lor_spec, Z.pow2_bits_eqb, orb_comm
    by (destruct a; simpl; lia).
  f_equal. by destruct a, b.
Qed.

Lemma iter_filter s :
  u8 (bit_map s) →
  SupportedAlgorithms_iter s = filter (λ a, SupportedAlgorithms_has s a = true) all_algorithms.
Proof.
  destruct s as [b]. simpl. revert b.
  apply (u8_forall (λ b, SupportedAlgorithms_iter (mkSupported b) =
    filter (λ a, SupportedAlgorithms_has (mkSupported b) a = true) all_algorithms)).
  vm_compute. reflexivity.
Qed.

Lemma supported_bytes_roundtrip s :
  0 ≤ bit_map s < 128 →
  SupportedAlgorithms_from_bytes (SupportedAlgorithms_to_bytes s) = s ∧
  (length (SupportedAlgorithms_to_bytes s) ≤ 7)%nat ∧
  SupportedAlgorithms_len s = Z.of_nat (length (SupportedAlgorithms_to_bytes s)).
Proof.
  destruct s as [b]. simpl. intros Hb.
  assert (u8 b) as Hb8 by (unfold u8; lia). cut (b < 128); [|lia]. clear Hb. revert b Hb8.
  apply (u8_forall (λ b, b < 128 →
    SupportedAlgorithms_from_bytes (SupportedAlgorithms_to_bytes (mkSupported b)) = mkSupported b ∧
    (length (SupportedAlgorithms_to_bytes (mkSupported b)) ≤ 7)%nat ∧
    SupportedAlgorithms_len (mkSupported b) =
      Z.of_nat (length (SupportedAlgorithms_to_bytes (mkSupported b))))).
  vm_compute. reflexivity.
Qed.

(** ** The properties of the code points *)

(** The conversions of [RecordType] are mutually inverse, except that [IXFR],
    which has a code, is refused when that code is read. *)
Theorem RecordType_codes {S} t v (s s' : S) :
  (RecordType_from_u16 v s = (Ok t, s') ↔
   v = RecordType_to_u16 t ∧ t ≠ RecordType.IXFR ∧ s' = s) ∧
  RecordType_from_u16 (RecordType_to_u16 RecordType.IXFR) s =
    (Err (UnknownRecordTypeValue 251), s).
Proof.
  split; [|done]. split; [apply RecordType_from_u16_inv|]. intros (-> & Ht & ->).
  by apply RecordType_from_to.
Qed.

(** Recombining the two halves of a response code gives the code back for
    every code but [BADVERS], which comes back as [BADSIG]; a pair of halves
    panics exactly when they make one of the unassigned values. *)
Theorem ResponseCode_halves {E} high low rc :
  u8 high → u8 low →
  let v := 16 * high + low `mod` 16 in
  (ResponseCode_from (E:=E) high low = Ok rc →
     ResponseCode_to_u16 rc = v ∧ ResponseCode_low rc = low `mod` 16) ∧
  (ResponseCode_from (E:=E) high low = Panic ↔ 10 < v < 16 ∨ 23 < v) ∧
  (rc ≠ ResponseCode.BADVERS → ResponseCode_from_u16 (E:=E) (ResponseCode_to_u16 rc) = Ok rc) ∧
  ResponseCode_from_u16 (E:=E) (ResponseCode_to_u16 ResponseCode.BADVERS) =
    Ok ResponseCode.BADSIG.
Proof.
  intros Hh Hl v.
  assert (Hv : Z.lor (as_u16 (Z.shiftl high 4)) (Z.land low 15) = v).
  { unfold as_u16, v, u8 in *. rewrite shiftl_mul by lia. rewrite Z.mod_small by lia.
    change 15 with (Z.ones 4). rewrite Z.land_ones by lia.
    rewrite lor_low by (try apply Z.mod_pos_bound; lia). change (2^4) with 16. lia. }
  unfold ResponseCode_from. rewrite Hv.
  assert (Hlow : low `mod` 16 = v `mod` 16).
  { unfold v. rewrite Z.add_comm, (Z.mul_comm 16), Z.mod_add, Z.mod_mod by lia. done. }
  assert (0 ≤ v) by (unfold v, u8 in *; Z.div_mod_to_equations; lia).
  clearbody v. rewrite Hlow. clear Hlow Hv.
  split_and!; [| |by destruct rc|done].
  - unfold ResponseCode_from_u16. by_codes.
  - destruct (decide (v < 24)) as [Hlt|].
    + assert (v = 0 ∨ v = 1 ∨ v = 2 ∨ v = 3 ∨ v = 4 ∨ v = 5 ∨ v = 6 ∨ v = 7 ∨ v = 8 ∨ v = 9 ∨ v =
        10 ∨ v = 11 ∨ v = 12 ∨ v = 13 ∨ v = 14 ∨ v = 15 ∨ v = 16 ∨ v = 17 ∨ v = 18 ∨ v = 19
        ∨ v = 20 ∨ v = 21 ∨ v = 22 ∨ v = 23)
        as Hin by lia.
      repeat (destruct Hin as [->|Hin]; [by (split; [discriminate || lia|lia || done])|]).
      by subst; split; [discriminate|lia].
    + split; [lia|]. intros _. unfold ResponseCode_from_u16. repeat (case_match; try done); lia.
Qed.

Lemma ResponseCode_halves_witness :
  ResponseCode_from (E:=()) 0 3 = Ok ResponseCode.NXDomain ∧
  ResponseCode_low ResponseCode.NXDomain = 3 ∧
  ResponseCode_from (E:=()) 0 11 = Panic.
Proof.
  split; [reflexivity|]. split.
  - apply (ResponseCode_halves (E:=()) 0 3 ResponseCode.NXDomain);
      [unfold u8; lia|unfold u8; lia|reflexivity].
  - apply (ResponseCode_halves (E:=()) 0 11 ResponseCode.NXDomain);
      [unfold u8; lia|unfold u8; lia|left; split; reflexivity].
Defined.

(** The bit map is the set of algorithms it is meant to be: setting adds one
    element, the iterator lists the elements without repetition, and the option
    bytes rebuild the set. *)
Theorem SupportedAlgorithms_set_spec s a b :
  u8 (bit_map s) →
  (SupportedAlgorithms_has (SupportedAlgorithms_set s a) b = true ↔
     b = a ∨ SupportedAlgorithms_has s b = true) ∧
  (b ∈ SupportedAlgorithms_iter s ↔ SupportedAlgorithms_has s b = true) ∧
  NoDup (SupportedAlgorithms_iter s) ∧
  (bit_map s < 128 → SupportedAlgorithms_from_bytes (SupportedAlgorithms_to_bytes s) = s).
Proof.
  intros Hs. rewrite (iter_filter s Hs). split_and!.
  - rewrite has_set, orb_true_iff, bool_decide_eq_true. split; (intros [->|?]; [by left|by right]).
  - rewrite list_elem_of_filter. split; [by intros [? _]|]. intros Hb. split; [done|].
    by destruct b; apply (bool_decide_unpack _); vm_compute.
  - apply NoDup_filter. by_decision.
  - intros. apply supported_bytes_roundtrip. unfold u8 in Hs. lia.
Qed.

Lemma SupportedAlgorithms_set_spec_witness :
  SupportedAlgorithms_from_bytes (SupportedAlgorithms_to_bytes SupportedAlgorithms_all) =
  SupportedAlgorithms_all.
Proof.
  apply (SupportedAlgorithms_set_spec SupportedAlgorithms_all Algorithm.RSASHA1 Algorithm.RSASHA1);
    [unfold u8; vm_compute; split; [discriminate|reflexivity]|vm_compute; reflexivity].
Defined.
