(* ===== verification/Header.v ===== *)
(** * The message header and the question

    Models [client/src/op/header.rs] and [client/src/op/query.rs]: the twelve
    bytes every message starts with, as a record with the builder methods of the
    source (a getter is the field itself), and the entries of the question
    section. *)

From S2P Require Import Prelude Codec Wire Domain Enums.

Open Scope Z_scope.

(** ** [Header] *)

Module MessageType.
Inductive MessageType : Type := Query | Response.
End MessageType.
Abbreviation MessageType := MessageType.MessageType.

#[global] Instance MessageType_eq_dec : EqDecision MessageType.
Proof. solve_decision. Defined.

Record Header : Type := mkHeader {
  h_id : Z;
  h_message_type : MessageType;
  h_op_code : OpCode;
  h_authoritative : bool;
  h_truncation : bool;
  h_recursion_desired : bool;
  h_recursion_available : bool;
  h_authentic_data : bool;
  h_checking_disabled : bool;
  h_response_code : Z;
  h_query_count : Z;
  h_answer_count : Z;
  h_name_server_count : Z;
  h_additional_count : Z;
}.

#[global] Instance Header_eq_dec : EqDecision Header.
Proof. solve_decision. Defined.

Definition Header_new : Header :=
  mkHeader 0 MessageType.Query OpCode.Query false false false false false false 0 0 0 0 0.

Definition Header_len : nat := 12.

Definition Header_id (self : Header) (id : Z) : Header :=
  mkHeader id (h_message_type self) (h_op_code self) (h_authoritative self) (h_truncation
    self) (h_recursion_desired self) (h_recursion_available self) (h_authentic_data self)
    (h_checking_disabled self) (h_response_code self) (h_query_count self) (h_answer_count self)
    (h_name_server_count self) (h_additional_count self).

Definition Header_message_type (self : Header) (message_type : MessageType) : Header :=
  mkHeader (h_id self) message_type (h_op_code self) (h_authoritative self) (h_truncation
    self) (h_recursion_desired self) (h_recursion_available self) (h_authentic_data self)
    (h_checking_disabled self) (h_response_code self) (h_query_count self) (h_answer_count self)
    (h_name_server_count self) (h_additional_count self).

Definition Header_op_code (self : Header) (op_code : OpCode) : Header :=
  mkHeader (h_id self) (h_message_type self) op_code (h_authoritative self) (h_truncation
    self) (h_recursion_desired self) (h_recursion_available self) (h_authentic_data self)
    (h_checking_disabled self) (h_response_code self) (h_query_count self) (h_answer_count self)
    (h_name_server_count self) (h_additional_count self).

Definition Header_authoritative (self : Header) (authoritative : bool) : Header :=
  mkHeader (h_id self) (h_message_type self) (h_op_code self) authoritative (h_truncation
    self) (h_recursion_desired self) (h_recursion_available self) (h_authentic_data self)
    (h_checking_disabled self) (h_response_code self) (h_query_count self) (h_answer_count self)
    (h_name_server_count self) (h_additional_count self).

Definition Header_truncated (self : Header) (truncated : bool) : Header :=
  mkHeader (h_id self) (h_message_type self) (h_op_code self) (h_authoritative self) truncated
    (h_recursion_desired self) (h_recursion_available self) (h_authentic_data self)
    (h_checking_disabled self) (h_response_code self) (h_query_count self) (h_answer_count self)
    (h_name_server_count self) (h_additional_count self).

Definition Header_recursion_desired (self : Header) (recursion_desired : bool) : Header :=
  mkHeader (h_id self) (h_message_type self) (h_op_code self) (h_authoritative self)
    (h_truncation self) recursion_desired (h_recursion_available self) (h_authentic_data self)
    (h_checking_disabled self) (h_response_code self) (h_query_count self) (h_answer_count self)
    (h_name_server_count self) (h_additional_count self).

Definition Header_recursion_available (self : Header) (recursion_available : bool) : Header :=
  mkHeader (h_id self) (h_message_type self) (h_op_code self) (h_authoritative self)
    (h_truncation self) (h_recursion_desired self) recursion_available (h_authentic_data self)
    (h_checking_disabled self) (h_response_code self) (h_query_count self) (h_answer_count self)
    (h_name_server_count self) (h_additional_count self).

Definition Header_authentic_data (self : Header) (authentic_data : bool) : Header :=
  mkHeader (h_id self) (h_message_type self) (h_op_code self) (h_authoritative self)
    (h_truncation self) (h_recursion_desired self) (h_recursion_available self) authentic_data
    (h_checking_disabled self) (h_response_code self) (h_query_count self) (h_answer_count self)
    (h_name_server_count self) (h_additional_count self).

Definition Header_checking_disabled (self : Header) (checking_disabled : bool) : Header :=
  mkHeader (h_id self) (h_message_type self) (h_op_code self) (h_authoritative self)
    (h_truncation self) (h_recursion_desired self) (h_recursion_available self)
    (h_authentic_data self) checking_disabled (h_response_code self) (h_query_count self)
    (h_answer_count self) (h_name_server_count self) (h_additional_count self).

Definition Header_response_code (self : Header) (response_code : ResponseCode) : Header :=
  mkHeader (h_id self) (h_message_type self) (h_op_code self) (h_authoritative self)
    (h_truncation self) (h_recursion_desired self) (h_recursion_available self)
    (h_authentic_data self) (h_checking_disabled self) (ResponseCode_low response_code)
    (h_query_count self) (h_answer_count self) (h_name_server_count self) (h_additional_count
    self).

Definition Header_query_count (self : Header) (query_count : Z) : Header :=
  mkHeader (h_id self) (h_message_type self) (h_op_code self) (h_authoritative self)
    (h_truncation self) (h_recursion_desired self) (h_recursion_available self)
    (h_authentic_data self) (h_checking_disabled self) (h_response_code self) query_count
    (h_answer_count self) (h_name_server_count self) (h_additional_count self).

Definition Header_answer_count (self : Header) (answer_count : Z) : Header :=
  mkHeader (h_id self) (h_message_type self) (h_op_code self) (h_authoritative self)
    (h_truncation self) (h_recursion_desired self) (h_recursion_available self)
    (h_authentic_data self) (h_checking_disabled self) (h_response_code self) (h_query_count
    self) answer_count (h_name_server_count self) (h_additional_count self).

Definition Header_name_server_count (self : Header) (name_server_count : Z) : Header :=
  mkHeader (h_id self) (h_message_type self) (h_op_code self) (h_authoritative self)
    (h_truncation self) (h_recursion_desired self) (h_recursion_available self)
    (h_authentic_data self) (h_checking_disabled self) (h_response_code self) (h_query_count
    self) (h_answer_count self) name_server_count (h_additional_count self).

Definition Header_additional_count (self : Header) (additional_count : Z) : Header :=
  mkHeader (h_id self) (h_message_type self) (h_op_code self) (h_authoritative self)
    (h_truncation self) (h_recursion_desired self) (h_recursion_available self)
    (h_authentic_data self) (h_checking_disabled self) (h_response_code self) (h_query_count
    self) (h_answer_count self) (h_name_server_count self) additional_count.

(** [Header::clone]: everything but the counts. *)
Definition Header_clone (self : Header)
    (query_count answer_count name_server_count additional_count : Z) : Header :=
  mkHeader (h_id self) (h_message_type self) (h_op_code self) (h_authoritative self)
    (h_truncation self) (h_recursion_desired self) (h_recursion_available self)
    (h_authentic_data self) (h_checking_disabled self) (h_response_code self)
    query_count answer_count name_server_count additional_count.

Definition Header_read : D Header :=
  let* id := BinDecoder_read_u16 in
  let* q_opcd_a_t_r := BinDecoder_pop in
  let message_type :=
    if Z.land 128 q_opcd_a_t_r =? 128 then MessageType.Response else MessageType.Query in
  let* op_code := OpCode_from_u8 (Z.shiftr (Z.land 120 q_opcd_a_t_r) 3) in
  let authoritative := Z.land 4 q_opcd_a_t_r =? 4 in
  let truncation := Z.land 2 q_opcd_a_t_r =? 2 in
  let recursion_desired := Z.land 1 q_opcd_a_t_r =? 1 in
  let* r_z_ad_cd_rcod := BinDecoder_pop in
  let recursion_available := Z.land 128 r_z_ad_cd_rcod =? 128 in
  let authentic_data := Z.land 32 r_z_ad_cd_rcod =? 32 in
  let checking_disabled := Z.land 16 r_z_ad_cd_rcod =? 16 in
  let response_code := Z.land 15 r_z_ad_cd_rcod in
  let* query_count := BinDecoder_read_u16 in
  let* answer_count := BinDecoder_read_u16 in
  let* name_server_count := BinDecoder_read_u16 in
  let* additional_count := BinDecoder_read_u16 in
  ret (mkHeader id message_type op_code authoritative truncation recursion_desired
         recursion_available authentic_data checking_disabled response_code
         query_count answer_count name_server_count additional_count).

(** The two bytes of flags. *)
Definition Header_flags1 (self : Header) : Z :=
  let q_opcd_a_t_r :=
    match h_message_type self with MessageType.Response => 128 | _ => 0 end in
  let q_opcd_a_t_r := Z.lor q_opcd_a_t_r (as_u8 (Z.shiftl (OpCode_to_u8 (h_op_code self)) 3)) in
  let q_opcd_a_t_r := Z.lor q_opcd_a_t_r (if h_authoritative self then 4 else 0) in
  let q_opcd_a_t_r := Z.lor q_opcd_a_t_r (if h_truncation self then 2 else 0) in
  Z.lor q_opcd_a_t_r (if h_recursion_desired self then 1 else 0).

Definition Header_flags2 (self : Header) : Z :=
  let r_z_ad_cd_rcod := if h_recursion_available self then 128 else 0 in
  let r_z_ad_cd_rcod := Z.lor r_z_ad_cd_rcod (if h_authentic_data self then 32 else 0) in
  let r_z_ad_cd_rcod := Z.lor r_z_ad_cd_rcod (if h_checking_disabled self then 16 else 0) in
  Z.lor r_z_ad_cd_rcod (h_response_code self).

Definition Header_emit (self : Header) : X () :=
  BinEncoder_emit_u16 (h_id self) ;;;
  BinEncoder_emit (Header_flags1 self) ;;;
  BinEncoder_emit (Header_flags2 self) ;;;
  BinEncoder_emit_u16 (h_query_count self) ;;;
  BinEncoder_emit_u16 (h_answer_count self) ;;;
  BinEncoder_emit_u16 (h_name_server_count self) ;;;
  BinEncoder_emit_u16 (h_additional_count self).

(** ** [Query] *)

Record Query : Type := mkQuery {
  q_name : Name;
  q_query_type : RecordType;
  q_query_class : DNSClass;
}.

#[global] Instance Query_eq_dec : EqDecision Query.
Proof. solve_decision. Defined.

Definition Query_new : Query := mkQuery Name_new RecordType.A DNSClass.IN.
Definition Query_name (self : Query) (name : Name) : Query :=
  mkQuery name (q_query_type self) (q_query_class self).
Definition Query_query_type (self : Query) (query_type : RecordType) : Query :=
  mkQuery (q_name self) query_type (q_query_class self).
Definition Query_query_class (self : Query) (query_class : DNSClass) : Query :=
  mkQuery (q_name self) (q_query_type self) query_class.

Definition Query_read : D Query :=
  let* name := Name_read in
  let* query_type := RecordType_read in
  let* query_class := DNSClass_read in
  ret (mkQuery name query_type query_class).

Definition Query_emit (self : Query) : X () :=
  Name_emit (q_name self) ;;;
  RecordType_emit (q_query_type self) ;;;
  DNSClass_emit (q_query_class self).

(** ** Round trips *)

(** A header whose fields are within the widths of the format. *)
Record header_ok (h : Header) : Prop := {
  ho_id : u16 (h_id h);
  ho_response_code : 0 ≤ h_response_code h < 16;
  ho_query_count : u16 (h_query_count h);
  ho_answer_count : u16 (h_answer_count h);
  ho_name_server_count : u16 (h_name_server_count h);
  ho_additional_count : u16 (h_additional_count h);
}.

Lemma RT_header c h : header_ok h → RT c (Header_emit h) Header_read h.
Proof.
  intros [Hid Hrc Hq Ha Hn Hr]. unfold Header_emit, Header_read.
  eapply RT_bind; [by apply RT_u16|]. eapply RT_bind; [apply RT_emit|].
  eapply RT_bind_pure.
  { intros d. rewrite <-(OpCode_from_to (h_op_code h) d). f_equal.
    destruct h as [? [] [] [] [] [] ???? ????]; vm_compute; reflexivity. }
  eapply RT_bind; [apply RT_emit|].
  do 3 (eapply RT_bind; [by apply RT_u16|]). eapply RT_last; [by apply RT_u16|].
  intros d. unfold ret. do 2 f_equal. destruct h as [id mt op aa tc rd ra ad cd rc qc ac nc xc].
  simpl in *. f_equal.
  1-4: by destruct mt, op, aa, tc, rd.
  all: assert (u8 rc) as Hrc8 by (unfold u8; lia); apply proj2 in Hrc; revert rc Hrc8 Hrc;
    unfold Header_flags2; simpl.
  all: destruct ra, ad, cd; by_all_bytes.
Qed.

Lemma TOT_header c h : TOT c (Header_emit h) 12.
Proof.
  unfold Header_emit. apply (TOT_bind _ _ _ 2 10); [auto with dns|].
  apply (TOT_bind _ _ _ 1 9); [auto with dns|]. apply (TOT_bind _ _ _ 1 8); [auto with dns|].
  apply (TOT_bind _ _ _ 2 6); [auto with dns|]. apply (TOT_bind _ _ _ 2 4); [auto with dns|].
  apply (TOT_bind _ _ _ 2 2); auto with dns.
Qed.

(** A question that can be written and read back: [IXFR] and the [OPT] class
    are not readable. *)
Record query_ok (q : Query) : Prop := {
  qo_name : name_ok (q_name q);
  qo_type : q_query_type q ≠ RecordType.IXFR;
  qo_class o : q_query_class q ≠ DNSClass.OPT o;
}.

Lemma RT_query c q : query_ok q → RT c (Query_emit q) Query_read q.
Proof.
  intros [[Hn _] Ht Hc]. unfold Query_emit, Query_read.
  eapply RT_bind; [by apply RT_name|]. eapply RT_bind; [by apply RT_record_type|].
  eapply RT_last; [by apply RT_dns_class|]. by destruct q.
Qed.

Lemma TOT_query c q : query_ok q → TOT c (Query_emit q) 259.
Proof.
  intros [Hn _ _]. unfold Query_emit. apply (TOT_bind _ _ _ 255 4).
  - eapply TOT_weaken; [by apply TOT_name|]. apply Hn.
  - apply (TOT_bind _ _ _ 2 2); auto with dns.
Qed.
