(* ===== verification/RData.v ===== *)
(** * Record data

    Models [client/src/rr/record_data.rs] and [client/src/rr/rdata/*.rs]: the
    data of each type of resource record, its wire form in both directions, and
    equality.  The getters of the source are the record fields. *)

From S2P Require Import Prelude Codec Wire Domain Enums.

Open Scope Z_scope.

(** [HashMap] iterates in an order that is not specified: any listing of the
    entries.  In Rust the order belongs to the instance of the map; here it is an
    arbitrary function of the content, so the two walks over one map agree, and
    nothing is assumed of the order of two maps that differ. *)
Class HashOrder : Type := {
  hash_order {K V} `{Countable K} : gmap K V → list (K * V);
  hash_order_perm {K V} `{Countable K} (m : gmap K V) : hash_order m ≡ₚ map_to_list m;
}.

Definition list_hash_order : HashOrder.
Proof. refine {| hash_order K V _ _ m := map_to_list m |}. done. Defined.

(** ** [a.rs], [aaaa.rs] *)

Record Ipv4Addr : Type := mkIpv4 { v4_0 : Z; v4_1 : Z; v4_2 : Z; v4_3 : Z }.
Record Ipv6Addr : Type := mkIpv6 {
  v6_0 : Z; v6_1 : Z; v6_2 : Z; v6_3 : Z; v6_4 : Z; v6_5 : Z; v6_6 : Z; v6_7 : Z }.

#[global] Instance Ipv4Addr_eq_dec : EqDecision Ipv4Addr.
Proof. solve_decision. Defined.
#[global] Instance Ipv6Addr_eq_dec : EqDecision Ipv6Addr.
Proof. solve_decision. Defined.

Definition a_read : D Ipv4Addr :=
  let* a := BinDecoder_pop in
  let* b := BinDecoder_pop in
  let* c := BinDecoder_pop in
  let* d := BinDecoder_pop in
  ret (mkIpv4 a b c d).

Definition a_emit (address : Ipv4Addr) : X () :=
  BinEncoder_emit (v4_0 address) ;;;
  BinEncoder_emit (v4_1 address) ;;;
  BinEncoder_emit (v4_2 address) ;;;
  BinEncoder_emit (v4_3 address).

Definition aaaa_read : D Ipv6Addr :=
  let* a := BinDecoder_read_u16 in
  let* b := BinDecoder_read_u16 in
  let* c := BinDecoder_read_u16 in
  let* d := BinDecoder_read_u16 in
  let* e := BinDecoder_read_u16 in
  let* f := BinDecoder_read_u16 in
  let* g := BinDecoder_read_u16 in
  let* h := BinDecoder_read_u16 in
  ret (mkIpv6 a b c d e f g h).

Definition aaaa_emit (address : Ipv6Addr) : X () :=
  BinEncoder_emit_u16 (v6_0 address) ;;;
  BinEncoder_emit_u16 (v6_1 address) ;;;
  BinEncoder_emit_u16 (v6_2 address) ;;;
  BinEncoder_emit_u16 (v6_3 address) ;;;
  BinEncoder_emit_u16 (v6_4 address) ;;;
  BinEncoder_emit_u16 (v6_5 address) ;;;
  BinEncoder_emit_u16 (v6_6 address) ;;;
  BinEncoder_emit_u16 (v6_7 address).

(** ** [null.rs] *)

Record NULL : Type := mkNULL { null_anything : option bytes }.

#[global] Instance NULL_eq_dec : EqDecision NULL.
Proof. solve_decision. Defined.

Definition NULL_new : NULL := mkNULL None.
Definition NULL_with (anything : bytes) : NULL := mkNULL (Some anything).

(** The loop pops [rdata_length] bytes; a failing [pop] is reported with the
    same message. *)
Definition null_read (rdata_length : Z) : D NULL :=
  if 0 <? rdata_length then
    let* anything := BinDecoder_read_vec (Z.to_nat rdata_length) in
    ret (NULL_with anything)
  else ret NULL_new.

Definition null_emit (nil : NULL) : X () :=
  match null_anything nil with
  | Some anything => for_each BinEncoder_emit anything
  | None => ret ()
  end.

(** ** [txt.rs] *)

Record TXT : Type := mkTXT { txt_data : list bytes }.

#[global] Instance TXT_eq_dec : EqDecision TXT.
Proof. solve_decision. Defined.

(** [while data_len - decoder.len() < rdata_length]: every turn reads at least
    the length byte of a string, so [rdata_length + 1] turns are enough. *)
Fixpoint txt_read_loop (fuel : nat) (data_len : nat) (rdata_length : Z) (strings : list bytes) :
    D TXT :=
  match fuel with
  | O => diverge
  | S fuel =>
      let* len := BinDecoder_len in
      let* read := checked_sub data_len len in
      if Z.of_nat read <? rdata_length then
        let* s := BinDecoder_read_character_data in
        txt_read_loop fuel data_len rdata_length (strings ++ [s])
      else ret (mkTXT strings)
  end.

Definition txt_read (rdata_length : Z) : D TXT :=
  let* data_len := BinDecoder_len in
  txt_read_loop (S (Z.to_nat rdata_length)) data_len rdata_length [].

Definition txt_emit (txt : TXT) : X () :=
  for_each BinEncoder_emit_character_data (txt_data txt).

(** ** [ds.rs] *)

Record DS : Type := mkDS {
  ds_key_tag : Z;
  ds_algorithm : Algorithm;
  ds_digest_type : DigestType;
  ds_digest : bytes;
}.

#[global] Instance DS_eq_dec : EqDecision DS.
Proof. solve_decision. Defined.

(** [rdata_length as usize - (decoder.index() - start_idx)] *)
Definition rdata_left (start_idx : nat) (rdata_length : Z) : D nat :=
  let* index := gets BinDecoder_index in
  let* read := checked_sub index start_idx in
  checked_sub (Z.to_nat rdata_length) read.

Definition ds_read (rdata_length : Z) : D DS :=
  let* start_idx := gets BinDecoder_index in
  let* key_tag := BinDecoder_read_u16 in
  let* algorithm := Algorithm_read in
  let* digest_id := BinDecoder_read_u8 in
  let* digest_type := DigestType_from_u8 digest_id in
  let* left_ := rdata_left start_idx rdata_length in
  let* digest := BinDecoder_read_vec left_ in
  ret (mkDS key_tag algorithm digest_type digest).

Definition ds_emit (rdata : DS) : X () :=
  BinEncoder_emit_u16 (ds_key_tag rdata) ;;;
  Algorithm_emit (ds_algorithm rdata) ;;;
  BinEncoder_emit (DigestType_to_u8 (ds_digest_type rdata)) ;;;
  BinEncoder_emit_vec (ds_digest rdata).

(** ** [dnskey.rs] *)

Record DNSKEY : Type := mkDNSKEY {
  dk_zone_key : bool;
  dk_secure_entry_point : bool;
  dk_revoke : bool;
  dk_algorithm : Algorithm;
  dk_public_key : bytes;
}.

#[global] Instance DNSKEY_eq_dec : EqDecision DNSKEY.
Proof. solve_decision. Defined.

(** [rdata_length - 4] is a [u16] subtraction. *)
Definition dnskey_read (rdata_length : Z) : D DNSKEY :=
  let* flags := BinDecoder_read_u16 in
  let zone_key := Z.land flags 256 =? 256 in
  let secure_entry_point := Z.land flags 1 =? 1 in
  let revoke := Z.land flags 128 =? 128 in
  let* protocol := BinDecoder_read_u8 in
  if negb (protocol =? 3) then fail (DnsKeyProtocolNot3 protocol)
  else
    let* algorithm := Algorithm_read in
    let* left_ := checked_sub (Z.to_nat rdata_length) 4 in
    let* public_key := BinDecoder_read_vec left_ in
    ret (mkDNSKEY zone_key secure_entry_point revoke algorithm public_key).

Definition dnskey_flags (rdata : DNSKEY) : Z :=
  let flags := 0 in
  let flags := if dk_zone_key rdata then Z.lor flags 256 else flags in
  let flags := if dk_secure_entry_point rdata then Z.lor flags 1 else flags in
  if dk_revoke rdata then Z.lor flags 128 else flags.

Definition dnskey_emit (rdata : DNSKEY) : X () :=
  BinEncoder_emit_u16 (dnskey_flags rdata) ;;;
  BinEncoder_emit 3 ;;;
  Algorithm_emit (dk_algorithm rdata) ;;;
  BinEncoder_emit_vec (dk_public_key rdata).

(** ** [mx.rs], [srv.rs], [soa.rs], [sig.rs], [nsec.rs]: the data with names *)

Record MX : Type := mkMX { mx_preference : Z; mx_exchange : Name }.
Record SRV : Type := mkSRV {
  srv_priority : Z; srv_weight : Z; srv_port : Z; srv_target : Name }.

Record SOA : Type := mkSOA {
  soa_mname : Name;
  soa_rname : Name;
  soa_serial : Z;
  soa_refresh : Z;
  soa_retry : Z;
  soa_expire : Z;
  soa_minimum : Z;
}.

Record SIG : Type := mkSIG {
  sig_type_covered : RecordType;
  sig_algorithm : Algorithm;
  sig_num_labels : Z;
  sig_original_ttl : Z;
  sig_expiration : Z;
  sig_inception : Z;
  sig_key_tag : Z;
  sig_signer_name : Name;
  sig_sig : bytes;
}.

Record NSEC : Type := mkNSEC {
  nsec_next_domain_name : Name;
  nsec_type_bit_maps : list RecordType;
}.

#[global] Instance MX_eq_dec : EqDecision MX.
Proof. solve_decision. Defined.
#[global] Instance SRV_eq_dec : EqDecision SRV.
Proof. solve_decision. Defined.
#[global] Instance SOA_eq_dec : EqDecision SOA.
Proof. solve_decision. Defined.
#[global] Instance SIG_eq_dec : EqDecision SIG.
Proof. solve_decision. Defined.
#[global] Instance NSEC_eq_dec : EqDecision NSEC.
Proof. solve_decision. Defined.

Definition mx_read : D MX :=
  let* preference := BinDecoder_read_u16 in
  let* exchange := Name_read in
  ret (mkMX preference exchange).

Definition srv_read : D SRV :=
  let* priority := BinDecoder_read_u16 in
  let* weight := BinDecoder_read_u16 in
  let* port := BinDecoder_read_u16 in
  let* target := Name_read in
  ret (mkSRV priority weight port target).

Definition soa_read : D SOA :=
  let* mname := Name_read in
  let* rname := Name_read in
  let* serial := BinDecoder_read_u32 in
  let* refresh := BinDecoder_read_i32 in
  let* retry := BinDecoder_read_i32 in
  let* expire := BinDecoder_read_i32 in
  let* minimum := BinDecoder_read_u32 in
  ret (mkSOA mname rname serial refresh retry expire minimum).

(** [self.serial += 1] on a [u32]. *)
Definition SOA_increment_serial {E} (self : SOA) : res E SOA :=
  if soa_serial self <? u32_max then
    Ok (mkSOA (soa_mname self) (soa_rname self) (soa_serial self + 1) (soa_refresh self)
          (soa_retry self) (soa_expire self) (soa_minimum self))
  else Panic.

Definition sig_read (rdata_length : Z) : D SIG :=
  let* start_idx := gets BinDecoder_index in
  let* type_covered := RecordType_read in
  let* algorithm := Algorithm_read in
  let* num_labels := BinDecoder_read_u8 in
  let* original_ttl := BinDecoder_read_u32 in
  let* expiration := BinDecoder_read_u32 in
  let* inception := BinDecoder_read_u32 in
  let* key_tag := BinDecoder_read_u16 in
  let* signer_name := Name_read in
  let* left_ := rdata_left start_idx rdata_length in
  let* sig := BinDecoder_read_vec left_ in
  ret (mkSIG type_covered algorithm num_labels original_ttl expiration inception key_tag
         signer_name sig).

(** ** Type bit maps ([nsec3.rs]) *)

Inductive BitMapState : Type :=
  | ReadWindow
  | ReadLen (window : Z)
  | ReadType (window len left_ : Z).

(** One of the eight turns of the inner loop: the arithmetic is on [u8]. *)
Definition decode_bit (window len left_ bit_map i : Z) (record_types : list RecordType) :
    D (list RecordType) :=
  if Z.land bit_map 128 =? 128 then
    if (len - left_) * 8 + i <=? u8_max then
      let low_byte := (len - left_) * 8 + i in
      let rr_type := Z.lor (Z.shiftl window 8) low_byte in
      let* t := RecordType_from_u16 rr_type in
      ret (record_types ++ [t])
    else panic
  else ret record_types.

Fixpoint decode_bits (n : nat) (window len left_ bit_map i : Z) (record_types : list RecordType) :
    D (list RecordType) :=
  match n with
  | O => ret record_types
  | S n =>
      let* record_types := decode_bit window len left_ bit_map i record_types in
      decode_bits n window len left_ (as_u8 (Z.shiftl bit_map 1)) (i + 1) record_types
  end.

Definition decode_bit_maps_step (state : BitMapState) (record_types : list RecordType) :
    D (BitMapState * list RecordType) :=
  let* current_byte := BinDecoder_read_u8 in
  match state with
  | ReadWindow => ret (ReadLen current_byte, record_types)
  | ReadLen window => ret (ReadType window current_byte current_byte, record_types)
  | ReadType window len left_ =>
      let* record_types := decode_bits 8 window len left_ current_byte 0 record_types in
      if left_ =? 0 then panic
      else if left_ - 1 =? 0 then ret (ReadWindow, record_types)
      else ret (ReadType window len (left_ - 1), record_types)
  end.

Fixpoint decode_bit_maps_loop (n : nat) (state : BitMapState) (record_types : list RecordType) :
    D (list RecordType) :=
  match n with
  | O => ret record_types
  | S n =>
      let* r := decode_bit_maps_step state record_types in
      decode_bit_maps_loop n r.1 r.2
  end.

Definition decode_type_bit_maps (bit_map_len : nat) : D (list RecordType) :=
  decode_bit_maps_loop bit_map_len ReadWindow [].

(** [hash.entry(window).or_insert(Vec::new())], the padding loop, whose bound
    underflows when the bit map is already longer, and the bit. *)
Definition encode_bit_maps_step {E} (hash : gmap Z bytes) (rr_type : RecordType) :
    res E (gmap Z bytes) :=
  let code := RecordType_to_u16 rr_type in
  let window := as_u8 (Z.shiftr code 8) in
  let low := as_u8 (Z.land code 255) in
  let bit_map := default [] (hash !! window) in
  let index := low / 8 in
  let bit := Z.shiftr 128 (low `mod` 8) in
  if decide (length bit_map ≤ Z.to_nat index + 1)%nat then
    let bit_map := bit_map ++ replicate (Z.to_nat index + 1 - length bit_map) 0 in
    match bit_map !! Z.to_nat index with
    | Some b => Ok (<[window := <[Z.to_nat index := Z.lor b bit]> bit_map]> hash)
    | None => Panic
    end
  else Panic.

Fixpoint encode_bit_maps_loop {E} (hash : gmap Z bytes) (type_bit_maps : list RecordType) :
    res E (gmap Z bytes) :=
  match type_bit_maps with
  | [] => Ok hash
  | rr_type :: rest =>
      try* hash := encode_bit_maps_step hash rr_type in
      encode_bit_maps_loop hash rest
  end.

Definition encode_bit_maps `{HashOrder} (type_bit_maps : list RecordType) : X () :=
  let* hash := lift (encode_bit_maps_loop ∅ type_bit_maps) in
  for_each (λ '(window, bitmap),
              BinEncoder_emit window ;;;
              BinEncoder_emit (as_u8 (Z.of_nat (length bitmap))) ;;;
              for_each BinEncoder_emit bitmap) (hash_order hash).

Definition nsec_read (rdata_length : Z) : D NSEC :=
  let* start_idx := gets BinDecoder_index in
  let* next_domain_name := Name_read in
  let* bit_map_len := rdata_left start_idx rdata_length in
  let* record_types := decode_type_bit_maps bit_map_len in
  ret (mkNSEC next_domain_name record_types).

Definition nsec_emit `{HashOrder} (rdata : NSEC) : X () :=
  let* is_canonical_names := gets BinEncoder_is_canonical_names in
  BinEncoder_set_canonical_names true ;;;
  Name_emit (nsec_next_domain_name rdata) ;;;
  encode_bit_maps (nsec_type_bit_maps rdata) ;;;
  BinEncoder_set_canonical_names is_canonical_names.

(** ** [nsec3.rs], [nsec3param.rs] *)

Record NSEC3 : Type := mkNSEC3 {
  n3_hash_algorithm : Nsec3HashAlgorithm;
  n3_opt_out : bool;
  n3_iterations : Z;
  n3_salt : bytes;
  n3_next_hashed_owner_name : bytes;
  n3_type_bit_maps : list RecordType;
}.

Record NSEC3PARAM : Type := mkNSEC3PARAM {
  n3p_hash_algorithm : Nsec3HashAlgorithm;
  n3p_opt_out : bool;
  n3p_iterations : Z;
  n3p_salt : bytes;
}.

#[global] Instance NSEC3_eq_dec : EqDecision NSEC3.
Proof. solve_decision. Defined.
#[global] Instance NSEC3PARAM_eq_dec : EqDecision NSEC3PARAM.
Proof. solve_decision. Defined.

Definition nsec3_read (rdata_length : Z) : D NSEC3 :=
  let* start_idx := gets BinDecoder_index in
  let* hash_id := BinDecoder_read_u8 in
  let* hash_algorithm := Nsec3HashAlgorithm_from_u8 hash_id in
  let* flags := BinDecoder_read_u8 in
  if negb (Z.land flags 254 =? 0) then fail (UnrecognizedNsec3Flags flags)
  else
    let opt_out := Z.land flags 1 =? 1 in
    let* iterations := BinDecoder_read_u16 in
    let* salt_len := BinDecoder_read_u8 in
    let* salt := BinDecoder_read_vec (Z.to_nat salt_len) in
    let* hash_len := BinDecoder_read_u8 in
    let* next_hashed_owner_name := BinDecoder_read_vec (Z.to_nat hash_len) in
    let* bit_map_len := rdata_left start_idx rdata_length in
    let* record_types := decode_type_bit_maps bit_map_len in
    ret (mkNSEC3 hash_algorithm opt_out iterations salt next_hashed_owner_name record_types).

Definition nsec3_emit `{HashOrder} (rdata : NSEC3) : X () :=
  BinEncoder_emit (Nsec3HashAlgorithm_to_u8 (n3_hash_algorithm rdata)) ;;;
  BinEncoder_emit (if n3_opt_out rdata then 1 else 0) ;;;
  BinEncoder_emit_u16 (n3_iterations rdata) ;;;
  BinEncoder_emit (as_u8 (Z.of_nat (length (n3_salt rdata)))) ;;;
  BinEncoder_emit_vec (n3_salt rdata) ;;;
  BinEncoder_emit (as_u8 (Z.of_nat (length (n3_next_hashed_owner_name rdata)))) ;;;
  BinEncoder_emit_vec (n3_next_hashed_owner_name rdata) ;;;
  encode_bit_maps (n3_type_bit_maps rdata).

Definition nsec3param_read : D NSEC3PARAM :=
  let* hash_id := BinDecoder_read_u8 in
  let* hash_algorithm := Nsec3HashAlgorithm_from_u8 hash_id in
  let* flags := BinDecoder_read_u8 in
  if negb (Z.land flags 254 =? 0) then fail (UnrecognizedNsec3Flags flags)
  else
    let opt_out := Z.land flags 1 =? 1 in
    let* iterations := BinDecoder_read_u16 in
    let* salt_len := BinDecoder_read_u8 in
    let* salt := BinDecoder_read_vec (Z.to_nat salt_len) in
    ret (mkNSEC3PARAM hash_algorithm opt_out iterations salt).

Definition nsec3param_emit (rdata : NSEC3PARAM) : X () :=
  BinEncoder_emit (Nsec3HashAlgorithm_to_u8 (n3p_hash_algorithm rdata)) ;;;
  BinEncoder_emit (if n3p_opt_out rdata then 1 else 0) ;;;
  BinEncoder_emit_u16 (n3p_iterations rdata) ;;;
  BinEncoder_emit (as_u8 (Z.of_nat (length (n3p_salt rdata)))) ;;;
  BinEncoder_emit_vec (n3p_salt rdata).

(** ** [opt.rs] *)

Module EdnsCode.
Inductive EdnsCode : Type :=
  | Zero | LLQ | UL | NSID | DAU | DHU | N3U | Subnet | Expire | Cookie | Keepalive | Padding
  | Chain | Unknown (value : Z).
End EdnsCode.
Abbreviation EdnsCode := EdnsCode.EdnsCode.

#[global] Instance EdnsCode_eq_dec : EqDecision EdnsCode.
Proof. solve_decision. Defined.

Definition EdnsCode_from_u16 (value : Z) : EdnsCode :=
  match value with
  | 0 => EdnsCode.Zero
  | 1 => EdnsCode.LLQ
  | 2 => EdnsCode.UL
  | 3 => EdnsCode.NSID
  | 5 => EdnsCode.DAU
  | 6 => EdnsCode.DHU
  | 7 => EdnsCode.N3U
  | 8 => EdnsCode.Subnet
  | 9 => EdnsCode.Expire
  | 10 => EdnsCode.Cookie
  | 11 => EdnsCode.Keepalive
  | 12 => EdnsCode.Padding
  | 13 => EdnsCode.Chain
  | _ => EdnsCode.Unknown value
  end.

Definition EdnsCode_to_u16 (value : EdnsCode) : Z :=
  match value with
  | EdnsCode.Zero => 0
  | EdnsCode.LLQ => 1
  | EdnsCode.UL => 2
  | EdnsCode.NSID => 3
  | EdnsCode.DAU => 5
  | EdnsCode.DHU => 6
  | EdnsCode.N3U => 7
  | EdnsCode.Subnet => 8
  | EdnsCode.Expire => 9
  | EdnsCode.Cookie => 10
  | EdnsCode.Keepalive => 11
  | EdnsCode.Padding => 12
  | EdnsCode.Chain => 13
  | EdnsCode.Unknown value => value
  end.

(** A key of a finite map: the named codes and the unknown ones apart. *)
#[global] Instance EdnsCode_countable : Countable EdnsCode.
Proof.
  refine (inj_countable'
    (λ c, match c with EdnsCode.Unknown v => inr v | _ => inl (EdnsCode_to_u16 c) end)
    (λ k : Z + Z, match k with inr v => EdnsCode.Unknown v | inl v => EdnsCode_from_u16 v end) _).
  by intros [].
Defined.

Module EdnsOption.
Inductive EdnsOption : Type :=
  | DAU (algorithms : SupportedAlgorithms)
  | DHU (algorithms : SupportedAlgorithms)
  | N3U (algorithms : SupportedAlgorithms)
  | Unknown (code : Z) (data : bytes).
End EdnsOption.
Abbreviation EdnsOption := EdnsOption.EdnsOption.

#[global] Instance EdnsOption_eq_dec : EqDecision EdnsOption.
Proof. solve_decision. Defined.

Definition EdnsOption_len (self : EdnsOption) : Z :=
  match self with
  | EdnsOption.DAU algorithms | EdnsOption.DHU algorithms | EdnsOption.N3U algorithms =>
      SupportedAlgorithms_len algorithms
  | EdnsOption.Unknown _ data => as_u16 (Z.of_nat (length data))
  end.

(** [impl From<(EdnsCode, &[u8])> for EdnsOption] and its inverses *)
Definition EdnsOption_from (code : EdnsCode) (data : bytes) : EdnsOption :=
  match code with
  | EdnsCode.DAU => EdnsOption.DAU (SupportedAlgorithms_from_bytes data)
  | EdnsCode.DHU => EdnsOption.DHU (SupportedAlgorithms_from_bytes data)
  | EdnsCode.N3U => EdnsOption.N3U (SupportedAlgorithms_from_bytes data)
  | _ => EdnsOption.Unknown (EdnsCode_to_u16 code) data
  end.

Definition EdnsOption_to_bytes (value : EdnsOption) : bytes :=
  match value with
  | EdnsOption.DAU algorithms | EdnsOption.DHU algorithms | EdnsOption.N3U algorithms =>
      SupportedAlgorithms_to_bytes algorithms
  | EdnsOption.Unknown _ data => data
  end.

Definition EdnsOption_code (value : EdnsOption) : EdnsCode :=
  match value with
  | EdnsOption.DAU _ => EdnsCode.DAU
  | EdnsOption.DHU _ => EdnsCode.DHU
  | EdnsOption.N3U _ => EdnsCode.N3U
  | EdnsOption.Unknown code _ => EdnsCode.Unknown code
  end.

Record OPT : Type := mkOPT { opt_options : gmap EdnsCode EdnsOption }.

#[global] Instance OPT_eq_dec : EqDecision OPT.
Proof. solve_decision. Defined.

Definition OPT_new (options : gmap EdnsCode EdnsOption) : OPT := mkOPT options.
Definition OPT_get (self : OPT) (code : EdnsCode) : option EdnsOption := opt_options self !! code.
Definition OPT_insert (self : OPT) (option : EdnsOption) : OPT :=
  mkOPT (<[EdnsOption_code option := option]> (opt_options self)).

Inductive OptReadState : Type :=
  | ReadCode
  | Code (code : EdnsCode)
  | Data (code : EdnsCode) (length : nat) (collected : bytes).

(** [while rdata_length as usize > decoder.index() - start_idx]: every turn reads
    at least one byte, so [rdata_length + 1] turns are enough. *)
Fixpoint opt_read_loop (fuel : nat) (start_idx : nat) (rdata_length : Z) (state : OptReadState)
    (options : gmap EdnsCode EdnsOption) : D (OptReadState * gmap EdnsCode EdnsOption) :=
  match fuel with
  | O => diverge
  | S fuel =>
      let* index := gets BinDecoder_index in
      let* read := checked_sub index start_idx in
      if Z.of_nat read <? rdata_length then
        match state with
        | ReadCode =>
            let* code := BinDecoder_read_u16 in
            opt_read_loop fuel start_idx rdata_length (Code (EdnsCode_from_u16 code)) options
        | Code code =>
            let* length := BinDecoder_read_u16 in
            opt_read_loop fuel start_idx rdata_length (Data code (Z.to_nat length) []) options
        | Data code len collected =>
            let* b := BinDecoder_pop in
            let collected := collected ++ [b] in
            if decide (len = length collected) then
              opt_read_loop fuel start_idx rdata_length ReadCode
                (<[code := EdnsOption_from code collected]> options)
            else opt_read_loop fuel start_idx rdata_length (Data code len collected) options
        end
      else ret (state, options)
  end.

Definition opt_read (rdata_length : Z) : D OPT :=
  let* start_idx := gets BinDecoder_index in
  let* r := opt_read_loop (S (Z.to_nat rdata_length)) start_idx rdata_length ReadCode ∅ in
  ret (OPT_new (match r.1 with ReadCode => r.2 | _ => ∅ end)).

Definition opt_emit `{HashOrder} (opt : OPT) : X () :=
  for_each (λ '(edns_code, edns_option),
              BinEncoder_emit_u16 (EdnsCode_to_u16 edns_code) ;;;
              BinEncoder_emit_u16 (EdnsOption_len edns_option) ;;;
              BinEncoder_emit_vec (EdnsOption_to_bytes edns_option))
    (hash_order (opt_options opt)).

(** ** [RData] *)

Module RData.
Inductive RData : Type :=
  | A (address : Ipv4Addr)
  | AAAA (address : Ipv6Addr)
  | CNAME (name : Name)
  | DNSKEY (dnskey : DNSKEY)
  | DS (ds : DS)
  | KEY (key : DNSKEY)
  | MX (mx : MX)
  | NULL (null : NULL)
  | NS (name : Name)
  | NSEC (nsec : NSEC)
  | NSEC3 (nsec3 : NSEC3)
  | NSEC3PARAM (nsec3param : NSEC3PARAM)
  | OPT (opt : OPT)
  | PTR (name : Name)
  | SIG (sig : SIG)
  | SOA (soa : SOA)
  | SRV (srv : SRV)
  | TXT (txt : TXT).
End RData.
Abbreviation RData := RData.RData.

#[global] Instance RData_eq_dec : EqDecision RData.
Proof. solve_decision. Defined.

Definition RData_to_record_type (self : RData) : RecordType :=
  match self with
  | RData.A _ => RecordType.A
  | RData.AAAA _ => RecordType.AAAA
  | RData.CNAME _ => RecordType.CNAME
  | RData.DS _ => RecordType.DS
  | RData.KEY _ => RecordType.KEY
  | RData.DNSKEY _ => RecordType.DNSKEY
  | RData.MX _ => RecordType.MX
  | RData.NS _ => RecordType.NS
  | RData.NSEC _ => RecordType.NSEC
  | RData.NSEC3 _ => RecordType.NSEC3
  | RData.NSEC3PARAM _ => RecordType.NSEC3PARAM
  | RData.NULL _ => RecordType.NULL
  | RData.OPT _ => RecordType.OPT
  | RData.PTR _ => RecordType.PTR
  | RData.SIG _ => RecordType.SIG
  | RData.SOA _ => RecordType.SOA
  | RData.SRV _ => RecordType.SRV
  | RData.TXT _ => RecordType.TXT
  end.

(** The match of [RData::read]. *)
Definition RData_read_type (record_type : RecordType) (rdata_length : Z) : D RData :=
  match record_type with
  | RecordType.A => let* r := a_read in ret (RData.A r)
  | RecordType.AAAA => let* r := aaaa_read in ret (RData.AAAA r)
  | RecordType.ANY | RecordType.AXFR | RecordType.IXFR =>
      fail (UnknownRecordTypeValue (RecordType_to_u16 record_type))
  | RecordType.CNAME => let* r := Name_read in ret (RData.CNAME r)
  | RecordType.KEY => let* r := dnskey_read rdata_length in ret (RData.KEY r)
  | RecordType.DNSKEY => let* r := dnskey_read rdata_length in ret (RData.DNSKEY r)
  | RecordType.DS => let* r := ds_read rdata_length in ret (RData.DS r)
  | RecordType.MX => let* r := mx_read in ret (RData.MX r)
  | RecordType.NULL => let* r := null_read rdata_length in ret (RData.NULL r)
  | RecordType.NS => let* r := Name_read in ret (RData.NS r)
  | RecordType.NSEC => let* r := nsec_read rdata_length in ret (RData.NSEC r)
  | RecordType.NSEC3 => let* r := nsec3_read rdata_length in ret (RData.NSEC3 r)
  | RecordType.NSEC3PARAM => let* r := nsec3param_read in ret (RData.NSEC3PARAM r)
  | RecordType.OPT => let* r := opt_read rdata_length in ret (RData.OPT r)
  | RecordType.PTR => let* r := Name_read in ret (RData.PTR r)
  | RecordType.RRSIG | RecordType.SIG => let* r := sig_read rdata_length in ret (RData.SIG r)
  | RecordType.SOA => let* r := soa_read in ret (RData.SOA r)
  | RecordType.SRV => let* r := srv_read in ret (RData.SRV r)
  | RecordType.TXT => let* r := txt_read rdata_length in ret (RData.TXT r)
  end.

Definition RData_read (record_type : RecordType) (rdata_length : Z) : D RData :=
  let* start_idx := gets BinDecoder_index in
  let* result := RData_read_type record_type rdata_length in
  let* index := gets BinDecoder_index in
  let* read := checked_sub index start_idx in
  if decide (Z.of_nat read = rdata_length) then ret result
  else fail (IncorrectRDataLengthRead read (Z.to_nat rdata_length)).

Section emit.
Context `{L : Lowercase} `{HO : HashOrder}.

(** [name.rs]: names in RDATA are lowercased in canonical form. *)
Definition name_emit (name_data : Name) : X () :=
  let* is_canonical_names := gets BinEncoder_is_canonical_names in
  Name_emit_with_lowercase name_data is_canonical_names.

Definition mx_emit (mx : MX) : X () :=
  let* is_canonical_names := gets BinEncoder_is_canonical_names in
  BinEncoder_emit_u16 (mx_preference mx) ;;;
  Name_emit_with_lowercase (mx_exchange mx) is_canonical_names.

Definition srv_emit (srv : SRV) : X () :=
  let* is_canonical_names := gets BinEncoder_is_canonical_names in
  BinEncoder_emit_u16 (srv_priority srv) ;;;
  BinEncoder_emit_u16 (srv_weight srv) ;;;
  BinEncoder_emit_u16 (srv_port srv) ;;;
  Name_emit_with_lowercase (srv_target srv) is_canonical_names.

Definition soa_emit (soa : SOA) : X () :=
  let* is_canonical_names := gets BinEncoder_is_canonical_names in
  Name_emit_with_lowercase (soa_mname soa) is_canonical_names ;;;
  Name_emit_with_lowercase (soa_rname soa) is_canonical_names ;;;
  BinEncoder_emit_u32 (soa_serial soa) ;;;
  BinEncoder_emit_i32 (soa_refresh soa) ;;;
  BinEncoder_emit_i32 (soa_retry soa) ;;;
  BinEncoder_emit_i32 (soa_expire soa) ;;;
  BinEncoder_emit_u32 (soa_minimum soa).

Definition sig_emit (sig : SIG) : X () :=
  let* is_canonical_names := gets BinEncoder_is_canonical_names in
  RecordType_emit (sig_type_covered sig) ;;;
  Algorithm_emit (sig_algorithm sig) ;;;
  BinEncoder_emit (sig_num_labels sig) ;;;
  BinEncoder_emit_u32 (sig_original_ttl sig) ;;;
  BinEncoder_emit_u32 (sig_expiration sig) ;;;
  BinEncoder_emit_u32 (sig_inception sig) ;;;
  BinEncoder_emit_u16 (sig_key_tag sig) ;;;
  Name_emit_with_lowercase (sig_signer_name sig) is_canonical_names ;;;
  BinEncoder_emit_vec (sig_sig sig).

(** What a signature covers: the data without the signature, in canonical form. *)
Definition emit_pre_sig (type_covered : RecordType) (algorithm : Algorithm)
    (num_labels original_ttl expiration inception key_tag : Z) (signer_name : Name) : X () :=
  RecordType_emit type_covered ;;;
  Algorithm_emit algorithm ;;;
  BinEncoder_emit num_labels ;;;
  BinEncoder_emit_u32 original_ttl ;;;
  BinEncoder_emit_u32 expiration ;;;
  BinEncoder_emit_u32 inception ;;;
  BinEncoder_emit_u16 key_tag ;;;
  Name_emit_as_canonical signer_name true.

Definition RData_emit (self : RData) : X () :=
  match self with
  | RData.A address => a_emit address
  | RData.AAAA address => aaaa_emit address
  | RData.CNAME name => name_emit name
  | RData.DS ds => ds_emit ds
  | RData.KEY key => dnskey_emit key
  | RData.DNSKEY dnskey => dnskey_emit dnskey
  | RData.MX mx => mx_emit mx
  | RData.NULL null => null_emit null
  | RData.NS name => name_emit name
  | RData.NSEC nsec => nsec_emit nsec
  | RData.NSEC3 nsec3 => nsec3_emit nsec3
  | RData.NSEC3PARAM nsec3param => nsec3param_emit nsec3param
  | RData.OPT opt => opt_emit opt
  | RData.PTR name => name_emit name
  | RData.SIG sig => sig_emit sig
  | RData.SOA soa => soa_emit soa
  | RData.SRV srv => srv_emit srv
  | RData.TXT txt => txt_emit txt
  end.

(** The bytes written so far are kept when the data cannot be encoded. *)
Definition RData_to_bytes {E} (self : RData) : res E bytes :=
  match RData_emit self (BinEncoder_new []) with
  | (Ok _, e) | (Err _, e) => Ok (ebuf e)
  | (Panic, _) => Panic
  | (Diverge, _) => Diverge
  end.

Definition RData_cmp {E} (self other : RData) : res E comparison :=
  try* b1 := RData_to_bytes self in
  try* b2 := RData_to_bytes other in
  Ok (cmp b1 b2).

(** The derived [PartialEq]: names inside the data compare as [Name]s do. *)
Definition RData_eq (self other : RData) : bool :=
  match self, other with
  | RData.A x, RData.A y => bool_decide (x = y)
  | RData.AAAA x, RData.AAAA y => bool_decide (x = y)
  | RData.CNAME x, RData.CNAME y | RData.NS x, RData.NS y | RData.PTR x, RData.PTR y =>
      Name_eq x y
  | RData.DNSKEY x, RData.DNSKEY y | RData.KEY x, RData.KEY y => bool_decide (x = y)
  | RData.DS x, RData.DS y => bool_decide (x = y)
  | RData.MX x, RData.MX y =>
      bool_decide (mx_preference x = mx_preference y) && Name_eq (mx_exchange x) (mx_exchange y)
  | RData.NULL x, RData.NULL y => bool_decide (x = y)
  | RData.NSEC x, RData.NSEC y =>
      Name_eq (nsec_next_domain_name x) (nsec_next_domain_name y) &&
      bool_decide (nsec_type_bit_maps x = nsec_type_bit_maps y)
  | RData.NSEC3 x, RData.NSEC3 y => bool_decide (x = y)
  | RData.NSEC3PARAM x, RData.NSEC3PARAM y => bool_decide (x = y)
  | RData.OPT x, RData.OPT y => bool_decide (x = y)
  | RData.SIG x, RData.SIG y =>
      bool_decide (sig_type_covered x = sig_type_covered y ∧ sig_algorithm x = sig_algorithm y ∧
        sig_num_labels x = sig_num_labels y ∧ sig_original_ttl x = sig_original_ttl y ∧
        sig_expiration x = sig_expiration y ∧ sig_inception x = sig_inception y ∧
        sig_key_tag x = sig_key_tag y) &&
      Name_eq (sig_signer_name x) (sig_signer_name y) && bool_decide (sig_sig x = sig_sig y)
  | RData.SOA x, RData.SOA y =>
      Name_eq (soa_mname x) (soa_mname y) && Name_eq (soa_rname x) (soa_rname y) &&
      bool_decide (soa_serial x = soa_serial y ∧ soa_refresh x = soa_refresh y ∧
        soa_retry x = soa_retry y ∧ soa_expire x = soa_expire y ∧ soa_minimum x = soa_minimum y)
  | RData.SRV x, RData.SRV y =>
      bool_decide (srv_priority x = srv_priority y ∧ srv_weight x = srv_weight y ∧
        srv_port x = srv_port y) && Name_eq (srv_target x) (srv_target y)
  | RData.TXT x, RData.TXT y => bool_decide (x = y)
  | _, _ => false
  end.
End emit.
