(* ===== verification/RDataWire.v ===== *)
(** * Record data: the round trip

    What [RData::emit] writes for a record's data, [RData::read] reads back when
    it is given the record's type and the number of bytes written.  The data
    formats that run to the end of the data ([DS], [DNSKEY], [SIG], [TXT], [OPT],
    [NSEC], [NSEC3], [NULL]) need the number of bytes, so the judgement [RT] of
    [Wire] is extended with it. *)

From S2P Require Import Prelude Codec Wire Domain Enums RData.

Open Scope Z_scope.

(** ** Reading to the end of the data *)

(** [RTE c em rd a]: as [RT], for a reader that knows where the data started and
    its length. *)
Definition RTE {A} (c : bool) (em : X ()) (rd : nat → nat → D A) (a : A) : Prop :=
  ∀ pre e e',
    enc_ok no_pending pre e → canonical_names e = c → em e = (Ok (), e') →
    enc_ok no_pending pre e' ∧ extends e e' ∧
    ∀ suf start, (start ≤ length pre + length (ebuf e))%nat →
      rd start (length pre + length (ebuf e') - start)%nat
         (dec_at (pre ++ ebuf e' ++ suf) (length pre + length (ebuf e))) =
      (Ok a, dec_at (pre ++ ebuf e' ++ suf) (length pre + length (ebuf e'))).

(** [RTN c em rd a]: as [RT], for a reader that is told how many bytes [em] wrote. *)
Definition RTN {A} (c : bool) (em : X ()) (rd : nat → D A) (a : A) : Prop :=
  ∀ pre e e',
    enc_ok no_pending pre e → canonical_names e = c → em e = (Ok (), e') →
    enc_ok no_pending pre e' ∧ extends e e' ∧
    ∀ suf, rd (length (ebuf e') - length (ebuf e))%nat
              (dec_at (pre ++ ebuf e' ++ suf) (length pre + length (ebuf e))) =
           (Ok a, dec_at (pre ++ ebuf e' ++ suf) (length pre + length (ebuf e'))).

Lemma extends_len e e' : extends e e' → (length (ebuf e) ≤ length (ebuf e'))%nat.
Proof. intros [[w ->] _ _]. rewrite length_app. lia. Qed.

Lemma emit_u16_len P pre e e' z :
  enc_ok P pre e → BinEncoder_emit_u16 z e = (Ok (), e') →
  length (ebuf e') = (length (ebuf e) + 2)%nat.
Proof.
  intros Hok H. unfold BinEncoder_emit_u16 in H. inv_ok.
  apply (enc_ok_emit P pre) in Hm as (Hok' & _ & Hb0 & _); [|done].
  apply (enc_ok_emit P pre) in Hk as (_ & _ & Hb1 & _); [|done].
  rewrite Hb1, Hb0, !length_app. simpl. lia.
Qed.

Section rte.
Context (c : bool).

Lemma RTE_of_RT {A} em (rd : D A) a : RT c em rd a → RTE c em (λ _ _, rd) a.
Proof. intros H pre e e' Hok Hc He. destruct (H _ _ _ Hok Hc He) as (? & ? & ?). eauto. Qed.

Lemma RTN_of_RT {A} em (rd : D A) a : RT c em rd a → RTN c em (λ _, rd) a.
Proof. intros H pre e e' Hok Hc He. destruct (H _ _ _ Hok Hc He) as (? & ? & ?). eauto. Qed.

Lemma RTE_bind {A B} em1 em2 (rd1 : D A) (rd2 : A → nat → nat → D B) a b :
  RT c em1 rd1 a → RTE c em2 (rd2 a) b →
  RTE c (em1 ;;; em2) (λ st len, bind rd1 (λ x, rd2 x st len)) b.
Proof.
  intros H1 H2 pre e e' Hok Hc H. inv_ok.
  destruct (H1 _ _ _ Hok Hc Hm) as (Hok1 & Hex1 & Hr1).
  destruct (H2 _ _ _ Hok1 ltac:(by rewrite (ex_canonical _ _ Hex1)) Hk) as (Hok2 & Hex2 & Hr2).
  split_and!; [done|by etrans|]. intros suf start Hst. pose proof (extends_len _ _ Hex1).
  destruct (ex_buf _ _ Hex2) as [w Hw].
  rewrite (bind_Ok _ _ a _ (dec_at (pre ++ ebuf e' ++ suf) (length pre + length (ebuf s)))).
  - apply Hr2. lia.
  - rewrite Hw, <-app_assoc. apply Hr1.
Qed.

Lemma RTE_bind_pure {A B} em (rd : D A) (k : A → nat → nat → D B) a b :
  (∀ d, rd d = (Ok a, d)) → RTE c em (k a) b →
  RTE c em (λ st len, bind rd (λ x, k x st len)) b.
Proof.
  intros Hrd H pre e e' Hok Hc He. destruct (H _ _ _ Hok Hc He) as (? & ? & Hr).
  split_and!; [done..|]. intros suf start Hst.
  rewrite (bind_Ok _ _ _ _ _ (Hrd _)). by apply Hr.
Qed.

(** [rdata_left] is what is left to read. *)
Lemma RTE_left {A} em (rd : nat → D A) a :
  RTN c em rd a →
  RTE c em (λ st n, let* left_ := rdata_left st (Z.of_nat n) in rd left_) a.
Proof.
  intros H pre e e' Hok Hc He. destruct (H _ _ _ Hok Hc He) as (? & Hex & Hr).
  split_and!; [done..|]. intros suf start Hst. pose proof (extends_len _ _ Hex).
  rewrite (bind_Ok _ _ (length (ebuf e') - length (ebuf e))%nat _
             (dec_at (pre ++ ebuf e' ++ suf) (length pre + length (ebuf e)))); [apply Hr|].
  unfold rdata_left, bind at 1, gets, BinDecoder_index. cbn [dindex].
  rewrite bind_checked_sub, checked_sub_Ok by lia.
  do 2 f_equal. lia.
Qed.

Lemma RTN_start {A} em (rd : nat → nat → D A) a :
  RTE c em rd a →
  RTN c em (λ n, let* start_idx := gets BinDecoder_index in rd start_idx n) a.
Proof.
  intros H pre e e' Hok Hc He. destruct (H _ _ _ Hok Hc He) as (? & Hex & Hr).
  split_and!; [done..|]. intros suf. unfold bind, gets, BinDecoder_index. cbn [dindex].
  rewrite <-(Hr suf (length pre + length (ebuf e))%nat) by lia. f_equal. lia.
Qed.

Lemma RTN_last {A B} em (rd : nat → D A) (k : A → D B) a b :
  RTN c em rd a → (∀ d, k a d = (Ok b, d)) → RTN c em (λ n, bind (rd n) k) b.
Proof.
  intros H Hk pre e e' Hok Hc He. destruct (H _ _ _ Hok Hc He) as (? & ? & Hr).
  split_and!; [done..|]. intros suf. rewrite (bind_Ok _ _ _ _ _ (Hr suf)). apply Hk.
Qed.

Lemma RTN_emit_vec bs : RTN c (BinEncoder_emit_vec bs) BinDecoder_read_vec bs.
Proof.
  intros pre e e' Hok Hc He. destruct (RT_emit_vec c bs _ _ _ Hok Hc He) as (? & ? & Hr).
  split_and!; [done..|]. intros suf. rewrite <-(Hr suf).
  apply (enc_ok_emit_vec no_pending pre) in He as (_ & _ & -> & _); [|done].
  rewrite length_app. do 2 f_equal. lia.
Qed.
End rte.

(** ** The formats without names *)

Lemma RT_a c x : RT c (a_emit x) a_read x.
Proof.
  destruct x. unfold a_emit, a_read. do 3 (eapply RT_bind; [apply RT_emit|]).
  by eapply RT_last; [apply RT_emit|].
Qed.

Definition ipv6_ok (x : Ipv6Addr) : Prop :=
  u16 (v6_0 x) ∧ u16 (v6_1 x) ∧ u16 (v6_2 x) ∧ u16 (v6_3 x) ∧
  u16 (v6_4 x) ∧ u16 (v6_5 x) ∧ u16 (v6_6 x) ∧ u16 (v6_7 x).

Lemma RT_aaaa c x : ipv6_ok x → RT c (aaaa_emit x) aaaa_read x.
Proof.
  destruct x. unfold ipv6_ok, aaaa_emit, aaaa_read. simpl. intros (?&?&?&?&?&?&?&?).
  do 7 (eapply RT_bind; [by apply RT_u16|]). by eapply RT_last; [by apply RT_u16|].
Qed.

(** An absent value and an empty one are both written as no bytes. *)
Definition null_ok (x : NULL) : Prop := null_anything x ≠ Some [].

Lemma RTN_null c x : null_ok x → RTN c (null_emit x) (λ n, null_read (Z.of_nat n)) x.
Proof.
  destruct x as [[bs|]]; unfold null_ok; simpl; intros Hx pre e e' Hok Hc He.
  - destruct (RTN_emit_vec c bs _ _ _ Hok Hc He) as (? & Hex & Hr). split_and!; [done..|].
    intros suf. pose proof (enc_ok_emit_vec no_pending pre _ _ _ Hok He) as (_ & _ & Hb & _).
    assert (0 < length bs)%nat by (destruct bs; simpl; [congruence|lia]).
    unfold null_read. rewrite (proj2 (Z.ltb_lt _ _)) by (rewrite Hb, length_app; lia).
    rewrite Nat2Z.id. by rewrite (bind_Ok _ _ _ _ _ (Hr suf)).
  - simpl in He. unfold null_emit in He. simpl in He. inv_ok. split_and!; [done..|]. intros suf.
    by rewrite Nat.sub_diag.
Qed.

Definition ds_ok (x : DS) : Prop :=
  u16 (ds_key_tag x) ∧ ds_digest_type x ≠ DigestType.SHA512.

Lemma RTN_ds c x : ds_ok x → RTN c (ds_emit x) (λ n, ds_read (Z.of_nat n)) x.
Proof.
  intros [Ht Hd]. unfold ds_emit, ds_read. apply RTN_start.
  eapply RTE_bind; [by apply RT_u16|]. eapply RTE_bind; [apply RT_algorithm|].
  eapply RTE_bind; [apply RT_emit|].
  eapply RTE_bind_pure; [intros d; by apply DigestType_from_to|].
  apply RTE_left. eapply RTN_last; [apply RTN_emit_vec|]. by destruct x.
Qed.

Lemma dnskey_flags_u16 x : u16 (dnskey_flags x).
Proof. destruct x as [[] [] [] ? ?]; vm_compute; split; congruence. Qed.

(** [rdata_length - 4]: the four bytes read before. *)
Lemma RTN_dnskey c x : RTN c (dnskey_emit x) (λ n, dnskey_read (Z.of_nat n)) x.
Proof.
  intros pre e e' Hok Hc He. unfold dnskey_emit in He. inv_ok.
  destruct (RT_u16 c _ (dnskey_flags_u16 x) _ _ _ Hok Hc Hm) as (Hok1 & Hex1 & Hr1).
  assert (canonical_names s = c) as Hc1 by (by rewrite (ex_canonical _ _ Hex1)).
  destruct (RT_emit c _ _ _ _ Hok1 Hc1 Hm0) as (Hok2 & Hex2 & Hr2).
  assert (canonical_names s0 = c) as Hc2 by (by rewrite (ex_canonical _ _ Hex2)).
  destruct (RT_algorithm c _ _ _ _ Hok2 Hc2 Hm1) as (Hok3 & Hex3 & Hr3).
  assert (canonical_names s1 = c) as Hc3 by (by rewrite (ex_canonical _ _ Hex3)).
  destruct (RTN_emit_vec c _ _ _ _ Hok3 Hc3 Hk) as (Hok4 & Hex4 & Hr4).
  split_and!; [done|by etrans; [|etrans; [|etrans]]|]. intros suf.
  assert (Hlen : length (ebuf s1) = (length (ebuf e) + 4)%nat).
  { apply (enc_ok_emit no_pending pre) in Hm1 as (_ & _ & Hb3 & _); [|done].
    apply (enc_ok_emit no_pending pre) in Hm0 as (_ & _ & Hb2 & _); [|done].
    apply (emit_u16_len no_pending pre) in Hm; [|done].
    rewrite Hb3, Hb2, !length_app. simpl. lia. }
  destruct (ex_buf _ _ Hex2) as [w2 Hw2]. destruct (ex_buf _ _ Hex3) as [w3 Hw3].
  destruct (ex_buf _ _ Hex4) as [w4 Hw4]. pose proof (extends_len _ _ Hex4).
  assert (E4 : ∀ sfx, pre ++ ebuf e' ++ sfx = pre ++ ebuf s1 ++ (w4 ++ sfx))
    by (intros; by rewrite Hw4, <-app_assoc).
  assert (E3 : ∀ sfx, pre ++ ebuf s1 ++ sfx = pre ++ ebuf s0 ++ (w3 ++ sfx))
    by (intros; by rewrite Hw3, <-app_assoc).
  assert (E2 : ∀ sfx, pre ++ ebuf s0 ++ sfx = pre ++ ebuf s ++ (w2 ++ sfx))
    by (intros; by rewrite Hw2, <-app_assoc).
  specialize (Hr1 (w2 ++ w3 ++ w4 ++ suf)). specialize (Hr2 (w3 ++ w4 ++ suf)).
  specialize (Hr3 (w4 ++ suf)). specialize (Hr4 suf).
  rewrite <-E2, <-E3, <-E4 in Hr1. rewrite <-E3, <-E4 in Hr2. rewrite <-E4 in Hr3.
  unfold dnskey_read, BinDecoder_read_u8. rewrite (bind_Ok _ _ _ _ _ Hr1), (bind_Ok _ _ _ _ _ Hr2).
  cbv beta. change (negb (3 =? 3)) with false. cbv iota. rewrite (bind_Ok _ _ _ _ _ Hr3).
  rewrite Nat2Z.id, bind_checked_sub by lia.
  replace (_ - 4)%nat with (length (ebuf e') - length (ebuf s1))%nat by lia.
  rewrite (bind_Ok _ _ _ _ _ Hr4). unfold ret. do 2 f_equal. by destruct x as [[] [] [] ? ?].
Qed.

Lemma RT_flags_n3 c (opt_out : bool) {A} em (k : D A) a :
  RT c em k a →
  RT c (BinEncoder_emit (if opt_out then 1 else 0) ;;; em)
    (let* flags := BinDecoder_read_u8 in
     if negb (Z.land flags 254 =? 0) then fail (UnrecognizedNsec3Flags flags) else k) a.
Proof. intros H. eapply RT_bind; [apply RT_emit|]. by destruct opt_out. Qed.

(** A length byte and that many bytes. *)
Lemma RT_counted c bs {A} em (k : bytes → D A) a :
  (length bs ≤ 255)%nat → RT c em (k bs) a →
  RT c (BinEncoder_emit (as_u8 (Z.of_nat (length bs))) ;;; BinEncoder_emit_vec bs ;;; em)
    (let* n := BinDecoder_read_u8 in let* x := BinDecoder_read_vec (Z.to_nat n) in k x) a.
Proof.
  intros Hlen H. eapply RT_bind; [apply RT_emit|].
  replace (Z.to_nat (as_u8 (Z.of_nat (length bs)))) with (length bs)
    by (unfold as_u8; rewrite Z.mod_small by lia; lia).
  by eapply RT_bind; [apply RT_emit_vec|].
Qed.

Definition nsec3param_ok (x : NSEC3PARAM) : Prop :=
  u16 (n3p_iterations x) ∧ (length (n3p_salt x) ≤ 255)%nat.

Lemma RT_nsec3param c x : nsec3param_ok x → RT c (nsec3param_emit x) nsec3param_read x.
Proof.
  intros [Hi Hs]. unfold nsec3param_emit, nsec3param_read.
  eapply RT_bind; [apply RT_emit|].
  eapply RT_bind_pure; [intros d; by destruct (n3p_hash_algorithm x)|].
  eapply RT_bind; [apply RT_emit|]. destruct x as [h o it salt]. simpl in *.
  assert (Ho : (Z.land (if o then 1 else 0) 1 =? 1) = o) by (by destruct o). rewrite Ho.
  replace (negb _) with false by (by destruct o).
  eapply RT_bind; [by apply RT_u16|].
  eapply RT_bind; [apply RT_emit|].
  replace (Z.to_nat (as_u8 (Z.of_nat (length salt)))) with (length salt)
    by (unfold as_u8; rewrite Z.mod_small by lia; lia).
  eapply RT_last; [apply RT_emit_vec|]. by destruct h.
Qed.

(** ** The formats with names, outside canonical form *)

Section names.
Context `{L : Lowercase}.

Abbreviation name_labels_ok n := (Forall label_ok (labels n)).

Lemma RT_name_data n : name_labels_ok n → RT false (name_emit n) Name_read n.
Proof. intros Hn. apply RT_gets_canonical. by apply RT_name_rdata. Qed.

Lemma RT_mx x :
  u16 (mx_preference x) → name_labels_ok (mx_exchange x) → RT false (mx_emit x) mx_read x.
Proof.
  intros Hp Hn. apply RT_gets_canonical. eapply RT_bind; [by apply RT_u16|].
  eapply RT_last; [by apply RT_name_rdata|]. by destruct x.
Qed.

Lemma RT_srv x :
  u16 (srv_priority x) → u16 (srv_weight x) → u16 (srv_port x) → name_labels_ok (srv_target x) →
  RT false (srv_emit x) srv_read x.
Proof.
  intros Hp Hw Ht Hn. apply RT_gets_canonical. do 3 (eapply RT_bind; [by apply RT_u16|]).
  eapply RT_last; [by apply RT_name_rdata|]. by destruct x.
Qed.

Record soa_ok (x : SOA) : Prop := {
  so_mname : name_ok (soa_mname x);
  so_rname : name_ok (soa_rname x);
  so_serial : u32 (soa_serial x);
  so_refresh : i32 (soa_refresh x);
  so_retry : i32 (soa_retry x);
  so_expire : i32 (soa_expire x);
  so_minimum : u32 (soa_minimum x);
}.

Lemma RT_soa x : soa_ok x → RT false (soa_emit x) soa_read x.
Proof.
  intros [[? _] [? _] ?????]. apply RT_gets_canonical.
  do 2 (eapply RT_bind; [by apply RT_name_rdata|]). eapply RT_bind; [by apply RT_u32|].
  do 3 (eapply RT_bind; [by apply RT_i32|]). eapply RT_last; [by apply RT_u32|]. by destruct x.
Qed.

Record sig_ok (x : SIG) : Prop := {
  sg_type : sig_type_covered x ≠ RecordType.IXFR;
  sg_ttl : u32 (sig_original_ttl x);
  sg_expiration : u32 (sig_expiration x);
  sg_inception : u32 (sig_inception x);
  sg_key_tag : u16 (sig_key_tag x);
  sg_signer : name_ok (sig_signer_name x);
}.

Lemma RTE_gets_canonical {A} c (em : bool → X ()) (rd : nat → nat → D A) a :
  RTE c (em c) rd a → RTE c (let* c' := gets BinEncoder_is_canonical_names in em c') rd a.
Proof. intros H pre e e' Hok Hc He. apply H; [done..|]. by rewrite <-Hc. Qed.

Lemma RTN_sig x : sig_ok x → RTN false (sig_emit x) (λ n, sig_read (Z.of_nat n)) x.
Proof.
  intros [? ? ? ? ? [? _]]. apply RTN_start, RTE_gets_canonical.
  eapply RTE_bind; [by apply RT_record_type|]. eapply RTE_bind; [apply RT_algorithm|].
  eapply RTE_bind; [apply RT_emit|]. do 3 (eapply RTE_bind; [by apply RT_u32|]).
  eapply RTE_bind; [by apply RT_u16|]. eapply RTE_bind; [by apply RT_name_rdata|].
  apply RTE_left. eapply RTN_last; [apply RTN_emit_vec|]. by destruct x.
Qed.
End names.

(** ** [TXT] *)

(** The loop from the [k]th string on. *)
Lemma txt_loop c ss pre e e' suf start acc fuel :
  Forall char_data_ok ss → enc_ok no_pending pre e → canonical_names e = c →
  for_each BinEncoder_emit_character_data ss e = (Ok (), e') →
  (start ≤ length pre + length (ebuf e))%nat →
  (length (ebuf e') - length (ebuf e) < fuel)%nat →
  enc_ok no_pending pre e' ∧ extends e e' ∧
  txt_read_loop fuel (length (pre ++ ebuf e' ++ suf) - start)
    (Z.of_nat (length pre + length (ebuf e') - start)) acc
    (dec_at (pre ++ ebuf e' ++ suf) (length pre + length (ebuf e))) =
  (Ok (mkTXT (acc ++ ss)), dec_at (pre ++ ebuf e' ++ suf) (length pre + length (ebuf e'))).
Proof.
  revert e acc fuel. induction ss as [|s ss IH]; intros e acc fuel Hss Hok Hc He Hst Hf; simpl in He.
  - inv_ok. split_and!; [done..|]. destruct fuel as [|fuel]; [lia|]. cbn [txt_read_loop].
    unfold bind at 1, BinDecoder_len. cbn [dbuf dindex].
    rewrite checked_sub_Ok by (rewrite !length_app; lia).
    rewrite bind_checked_sub by (rewrite !length_app; lia).
    rewrite (proj2 (Z.ltb_ge _ _)) by (rewrite !length_app; lia). by rewrite app_nil_r.
  - inv_ok. apply Forall_cons in Hss as [Hs Hss].
    destruct (RT_character_data c s Hs _ _ _ Hok Hc Hm) as (Hok1 & Hex1 & Hr1).
    assert (canonical_names s0 = c) as Hc1 by (by rewrite (ex_canonical _ _ Hex1)).
    pose proof (extends_len _ _ Hex1). assert (length (ebuf e) < length (ebuf s0))%nat as Hlt.
    { unfold BinEncoder_emit_character_data in Hm. destruct Hs.
      rewrite decide_False in Hm by lia. inv_ok.
      apply (enc_ok_emit no_pending pre) in Hm0 as (Hok2 & _ & Hb & _); [|done].
      apply (enc_ok_emit_vec no_pending pre) in Hk0 as (_ & _ & Hb2 & _); [|done].
      rewrite Hb2, Hb, !length_app. simpl. lia. }
    destruct fuel as [|fuel]; [lia|].
    destruct (RT_for_each c BinEncoder_emit_character_data BinDecoder_read_character_data ss)
      with pre s0 e' as (_ & Hex2 & _); [|done..|].
    { intros x Hx. apply RT_character_data. rewrite Forall_forall in Hss. auto. }
    pose proof (extends_len _ _ Hex2).
    destruct (IH s0 (acc ++ [s]) fuel Hss Hok1 Hc1 Hk) as (Hok2 & _ & Hr2); [lia..|].
    split_and!; [done|by etrans|]. cbn [txt_read_loop].
    unfold bind at 1, BinDecoder_len. cbn [dbuf dindex].
    rewrite checked_sub_Ok by (rewrite !length_app; lia).
    rewrite bind_checked_sub by (rewrite !length_app; lia).
    rewrite (proj2 (Z.ltb_lt _ _)) by (rewrite !length_app; lia).
    destruct (ex_buf _ _ Hex2) as [w Hw]. specialize (Hr1 (w ++ suf)).
    rewrite (app_assoc (ebuf s0)), <-Hw in Hr1.
    rewrite (bind_Ok _ _ _ _ _ Hr1), Hr2. by rewrite <-app_assoc.
Qed.

Lemma RTN_txt c x :
  Forall char_data_ok (txt_data x) → RTN c (txt_emit x) (λ n, txt_read (Z.of_nat n)) x.
Proof.
  intros Hss pre e e' Hok Hc He. destruct x as [ss]. simpl in *.
  destruct (txt_loop c ss pre e e' [] (length pre + length (ebuf e)) []
              (S (length (ebuf e') - length (ebuf e))) Hss Hok Hc He) as (? & Hex & _); [lia..|].
  split_and!; [done..|]. intros suf. unfold txt_read, bind at 1, BinDecoder_len. cbn [dbuf dindex].
  pose proof (extends_len _ _ Hex). rewrite checked_sub_Ok by (rewrite !length_app; lia).
  destruct (txt_loop c ss pre e e' suf (length pre + length (ebuf e)) []
              (S (length (ebuf e') - length (ebuf e))) Hss Hok Hc He) as (_ & _ & Hr); [lia..|].
  rewrite Nat2Z.id.
  replace (length pre + length (ebuf e') - (length pre + length (ebuf e)))%nat
    with (length (ebuf e') - length (ebuf e))%nat in Hr by lia.
  exact Hr.
Qed.

(** ** [OPT] *)

Definition u16_bytes (z : Z) : bytes :=
  [as_u8 (Z.land (Z.shiftr z 8) 255); as_u8 (Z.land z 255)].

Lemma enc_ok_emit_u16 P pre e e' z :
  enc_ok P pre e → BinEncoder_emit_u16 z e = (Ok (), e') →
  enc_ok P pre e' ∧ extends e e' ∧ ebuf e' = ebuf e ++ u16_bytes z.
Proof.
  intros Hok H. unfold BinEncoder_emit_u16 in H. inv_ok.
  apply (enc_ok_emit P pre) in Hm as (Hok1 & Hex1 & Hb1 & _); [|done].
  apply (enc_ok_emit P pre) in Hk as (Hok2 & Hex2 & Hb2 & _); [|done].
  split_and!; [done|by etrans|]. by rewrite Hb2, Hb1, <-app_assoc.
Qed.

Lemma drop_cons_inv (buf : bytes) p x r :
  drop p buf = x :: r → buf !! p = Some x ∧ drop (S p) buf = r.
Proof.
  intros H. assert (buf !! p = Some x) as Hx.
  { rewrite <-(Nat.add_0_r p), <-lookup_drop, H. done. }
  split; [done|]. rewrite (drop_S _ _ _ Hx) in H. by simplify_eq.
Qed.

Lemma read_u16_bytes buf p z r :
  u16 z → drop p buf = u16_bytes z ++ r →
  BinDecoder_read_u16 (dec_at buf p) = (Ok z, dec_at buf (S (S p))) ∧ drop (S (S p)) buf = r.
Proof.
  intros Hz H. apply drop_cons_inv in H as [H1 H]. apply drop_cons_inv in H as [H2 H].
  split; [|done]. rewrite (read_u16_at _ _ _ _ H1 H2). do 2 f_equal. solve_bytes.
Qed.

(** An option as it is written. *)
Definition option_bytes (kv : EdnsCode * EdnsOption) : bytes :=
  u16_bytes (EdnsCode_to_u16 kv.1) ++ u16_bytes (EdnsOption_len kv.2) ++ EdnsOption_to_bytes kv.2.

(** An option that is read back under its key: the key is the one its code
    number is read as, the value the one its bytes are read as, and the bytes
    are not empty. *)
Record option_ok (k : EdnsCode) (o : EdnsOption) : Prop := {
  oo_code : u16 (EdnsCode_to_u16 k);
  oo_key : EdnsCode_from_u16 (EdnsCode_to_u16 k) = k;
  oo_value : EdnsOption_from k (EdnsOption_to_bytes o) = o;
  oo_len : 0 < Z.of_nat (length (EdnsOption_to_bytes o)) < 65536;
  oo_len_eq : EdnsOption_len o = Z.of_nat (length (EdnsOption_to_bytes o));
}.

Section opt.
Context (buf : bytes) (start : nat) (total : Z).

Lemma opt_loop_step fuel state options p :
  (start ≤ p)%nat → Z.of_nat (p - start) < total →
  opt_read_loop (S fuel) start total state options (dec_at buf p) =
  match state with
  | ReadCode =>
      (let* code := BinDecoder_read_u16 in
       opt_read_loop fuel start total (Code (EdnsCode_from_u16 code)) options) (dec_at buf p)
  | Code code =>
      (let* length := BinDecoder_read_u16 in
       opt_read_loop fuel start total (Data code (Z.to_nat length) []) options) (dec_at buf p)
  | Data code len collected =>
      (let* b := BinDecoder_pop in
       if decide (len = length (collected ++ [b])) then
         opt_read_loop fuel start total ReadCode
           (<[code := EdnsOption_from code (collected ++ [b])]> options)
       else opt_read_loop fuel start total (Data code len (collected ++ [b])) options)
      (dec_at buf p)
  end.
Proof.
  intros Hs Ht. cbn [opt_read_loop]. unfold bind at 1, gets, BinDecoder_index. cbn [dindex].
  rewrite bind_checked_sub by done. rewrite (proj2 (Z.ltb_lt _ _)) by done. by destruct state.
Qed.

Lemma opt_loop_data rest fuel code len collected options p suf :
  rest ≠ [] → len = (length collected + length rest)%nat →
  drop p buf = rest ++ suf → (start ≤ p)%nat →
  Z.of_nat (p + length rest - start) ≤ total →
  opt_read_loop (length rest + fuel) start total (Data code len collected) options (dec_at buf p) =
  opt_read_loop fuel start total ReadCode
    (<[code := EdnsOption_from code (collected ++ rest)]> options) (dec_at buf (p + length rest)) ∧
  drop (p + length rest) buf = suf.
Proof.
  revert collected p. induction rest as [|b rest IH]; intros collected p Hne Hlen Hd Hs Ht; [done|].
  simpl in Hd, Ht, Hlen. apply drop_cons_inv in Hd as [Hb Hd].
  cbn [length Nat.add]. rewrite opt_loop_step by lia. rewrite (bind_Ok _ _ _ _ _ (pop_at _ _ _ Hb)).
  destruct rest as [|b' rest].
  - rewrite decide_True by (rewrite length_app; simpl in *; lia). simpl.
    by replace (p + 1)%nat with (S p) by lia.
  - rewrite decide_False by (rewrite length_app; simpl in *; lia).
    destruct (IH (collected ++ [b]) (S p)) as [-> Hsuf]; [done| |done|lia|lia|].
    { rewrite length_app. simpl in *. lia. }
    rewrite <-app_assoc. replace (p + S (length (b' :: rest)))%nat
      with (S p + length (b' :: rest))%nat by lia. done.
Qed.

Lemma opt_loop kvs fuel options p suf :
  Forall (λ kv, option_ok kv.1 kv.2) kvs →
  drop p buf = concat (option_bytes <$> kvs) ++ suf → (start ≤ p)%nat →
  total = Z.of_nat (p + length (concat (option_bytes <$> kvs)) - start) →
  (length (concat (option_bytes <$> kvs)) < fuel)%nat →
  opt_read_loop fuel start total ReadCode options (dec_at buf p) =
  (Ok (ReadCode, foldl (λ m kv, <[kv.1 := kv.2]> m) options kvs),
   dec_at buf (p + length (concat (option_bytes <$> kvs)))).
Proof.
  revert fuel options p. induction kvs as [|[k o] kvs IH]; intros fuel options p Hok Hd Hs Ht Hf.
  - destruct fuel as [|fuel]; [simpl in Hf; lia|]. cbn [opt_read_loop].
    unfold bind at 1, gets, BinDecoder_index. cbn [dindex].
    rewrite bind_checked_sub by done. rewrite (proj2 (Z.ltb_ge _ _)) by (simpl in Ht; lia).
    simpl. by rewrite Nat.add_0_r.
  - apply Forall_cons in Hok as [[Hc Hkey Hval Hl Hle] Hok]. simpl in Hc, Hkey, Hval, Hl, Hle.
    set (data := EdnsOption_to_bytes o) in *.
    assert (Hlen : length (concat (option_bytes <$> (k, o) :: kvs)) =
                   (4 + length data + length (concat (option_bytes <$> kvs)))%nat).
    { rewrite fmap_cons. simpl. rewrite !length_app. fold data. lia. }
    rewrite fmap_cons in Hd. cbn [concat] in Hd. unfold option_bytes at 1 in Hd.
    cbn [fst snd] in Hd. rewrite <-!app_assoc in Hd.
    apply read_u16_bytes in Hd as [Hr1 Hd]; [|done].
    apply read_u16_bytes in Hd as [Hr2 Hd]; [|unfold u16; rewrite Hle; lia].
    rewrite Hlen in *. destruct fuel as [|[|fuel]]; [lia..|].
    rewrite opt_loop_step, (bind_Ok _ _ _ _ _ Hr1) by lia.
    rewrite opt_loop_step, (bind_Ok _ _ _ _ _ Hr2) by lia. fold data in Hd.
    replace fuel with (length data + (fuel - length data))%nat by lia.
    assert (data ≠ []) by (intros E; rewrite E in Hl; simpl in Hl; lia).
    destruct (opt_loop_data data (fuel - length data) (EdnsCode_from_u16 (EdnsCode_to_u16 k))
                (Z.to_nat (EdnsOption_len o)) [] options (S (S (S (S p)))) _
                ltac:(done) ltac:(rewrite Hle; simpl; lia) Hd ltac:(lia) ltac:(lia)) as [-> Hd'].
    rewrite Hkey. cbn [app]. rewrite Hval.
    rewrite (IH _ _ _ Hok Hd') by lia. simpl. do 2 f_equal. lia.
Qed.
End opt.

Lemma foldl_insert_perm {K V} `{Countable K} (m : gmap K V) l :
  l ≡ₚ map_to_list m → foldl (λ m kv, <[kv.1 := kv.2]> m) ∅ l = m.
Proof.
  intros Hl. assert (∀ k, foldl (λ m kv, <[kv.1 := kv.2]> m) (∅ : gmap K V) k =
                          list_to_map (reverse k)) as ->.
  { intros k. induction k as [|x k IH] using rev_ind; [done|].
    rewrite foldl_app, reverse_app, IH. by destruct x. }
  assert (Hp : reverse l ≡ₚ map_to_list m) by (by rewrite reverse_Permutation).
  rewrite (list_to_map_proper _ (map_to_list m)); [apply list_to_map_to_list| |done].
  rewrite Hp. apply NoDup_fst_map_to_list.
Qed.

Section opt_wire.
Context `{HO : HashOrder}.

Lemma opt_emit_bytes P pre kvs e e' :
  enc_ok P pre e →
  for_each (λ '(edns_code, edns_option),
              BinEncoder_emit_u16 (EdnsCode_to_u16 edns_code) ;;;
              BinEncoder_emit_u16 (EdnsOption_len edns_option) ;;;
              BinEncoder_emit_vec (EdnsOption_to_bytes edns_option)) kvs e = (Ok (), e') →
  enc_ok P pre e' ∧ extends e e' ∧ ebuf e' = ebuf e ++ concat (option_bytes <$> kvs).
Proof.
  revert e. induction kvs as [|[k o] kvs IH]; intros e Hok H; simpl in H; inv_ok.
  - split_and!; [done..|]. by rewrite app_nil_r.
  - apply (enc_ok_emit_u16 P pre) in Hm0 as (Hok1 & Hex1 & Hb1); [|done].
    apply (enc_ok_emit_u16 P pre) in Hm as (Hok2 & Hex2 & Hb2); [|done].
    apply (enc_ok_emit_vec P pre) in Hk1 as (Hok3 & Hex3 & Hb3 & _); [|done].
    destruct (IH _ Hok3 Hk) as (Hok4 & Hex4 & Hb4).
    split_and!; [done|by etrans; [|etrans; [|etrans]]|].
    rewrite fmap_cons. cbn [concat]. unfold option_bytes at 1. cbn [fst snd].
    by rewrite Hb4, Hb3, Hb2, Hb1, <-!app_assoc.
Qed.

Definition opt_ok (x : OPT) : Prop := map_Forall option_ok (opt_options x).

Lemma RTN_opt c x : opt_ok x → RTN c (opt_emit x) (λ n, opt_read (Z.of_nat n)) x.
Proof.
  intros Hx pre e e' Hok Hc He. apply (opt_emit_bytes no_pending pre) in He as (? & Hex & Hb); [|done].
  split_and!; [done..|]. intros suf. unfold opt_read, bind at 1, gets, BinDecoder_index. cbn [dindex].
  set (l := hash_order (opt_options x)) in *.
  assert (Hl : (length (ebuf e') - length (ebuf e))%nat = length (concat (option_bytes <$> l)))
    by (rewrite Hb, length_app; lia).
  rewrite Hl, Nat2Z.id.
  assert (Hloop : opt_read_loop (S (length (concat (option_bytes <$> l))))
    (length pre + length (ebuf e)) (Z.of_nat (length (concat (option_bytes <$> l)))) ReadCode ∅
    (dec_at (pre ++ ebuf e' ++ suf) (length pre + length (ebuf e))) =
    (Ok (ReadCode, foldl (λ m kv, <[kv.1 := kv.2]> m) ∅ l),
     dec_at (pre ++ ebuf e' ++ suf) (length pre + length (ebuf e) + length (concat (option_bytes <$> l))))).
  { apply (opt_loop _ _ _ l _ _ _ suf); [| |lia..].
    - rewrite Forall_forall. intros [k o] Hin. apply Hx. simpl.
      unfold l in Hin. rewrite hash_order_perm in Hin. by apply elem_of_map_to_list.
    - rewrite Hb, <-app_assoc, app_assoc, <-length_app. by rewrite drop_app_length. }
  rewrite (bind_Ok _ _ _ _ _ Hloop). cbn [fst snd]. unfold ret, OPT_new.
  rewrite (foldl_insert_perm (opt_options x)) by apply hash_order_perm. destruct x. do 2 f_equal.
  rewrite Hb, length_app. lia.
Qed.
End opt_wire.

(** ** The properties of EDNS options *)

(** A list of options in which every one is non-empty is read back option by
    option, whatever order it was written in. *)
Theorem opt_roundtrip `{HO : HashOrder} x e :
  opt_ok x → opt_emit x (BinEncoder_new []) = (Ok (), e) →
  opt_read (Z.of_nat (length (ebuf e))) (BinDecoder_new (ebuf e)) =
  (Ok x, dec_at (ebuf e) (length (ebuf e))).
Proof.
  intros Hx He. destruct (RTN_opt false x Hx [] _ e (enc_ok_new [] Normal) eq_refl He)
    as (_ & _ & Hr).
  specialize (Hr []). simpl in Hr. by rewrite app_nil_r, Nat.sub_0_r in Hr.
Qed.

Lemma opt_roundtrip_witness :
  ∃ e, opt_emit (H:=list_hash_order)
         (mkOPT {[EdnsCode.NSID := EdnsOption.Unknown 3 [7]]}) (BinEncoder_new []) = (Ok (), e) ∧
       opt_read 5 (BinDecoder_new (ebuf e)) =
         (Ok (mkOPT {[EdnsCode.NSID := EdnsOption.Unknown 3 [7]]}), dec_at (ebuf e) 5).
Proof.
  eexists. split; [vm_compute; reflexivity|].
  apply (opt_roundtrip (HO:=list_hash_order) (mkOPT {[EdnsCode.NSID := EdnsOption.Unknown 3 [7]]})).
  - apply map_Forall_singleton. split; try reflexivity; vm_compute; split; congruence.
  - vm_compute. reflexivity.
Defined.

(** The bytes after a zero length are collected and never complete. *)
Lemma opt_loop_zero buf start total rest fuel code collected options p :
  drop p buf = rest → (start ≤ p)%nat → total = Z.of_nat (p + length rest - start) →
  (length rest < fuel)%nat →
  opt_read_loop fuel start total (Data code 0 collected) options (dec_at buf p) =
  (Ok (Data code 0 (collected ++ rest), options), dec_at buf (p + length rest)).
Proof.
  revert fuel collected p. induction rest as [|b rest IH]; intros fuel collected p Hd Hs Ht Hf;
    (destruct fuel as [|fuel]; [simpl in Hf; lia|]).
  - cbn [opt_read_loop]. unfold bind at 1, gets, BinDecoder_index. cbn [dindex].
    rewrite bind_checked_sub by done. rewrite (proj2 (Z.ltb_ge _ _)) by (simpl in Ht; lia).
    simpl. by rewrite app_nil_r, Nat.add_0_r.
  - apply drop_cons_inv in Hd as [Hb Hd]. simpl in Ht, Hf. rewrite opt_loop_step by lia.
    rewrite (bind_Ok _ _ _ _ _ (pop_at _ _ _ Hb)).
    rewrite decide_False by (rewrite length_app; simpl; lia).
    rewrite (IH fuel (collected ++ [b]) (S p)) by (done || lia).
    rewrite <-app_assoc. do 2 f_equal. simpl. lia.
Qed.

(** An option of length zero swallows the options after it, and then all
    options are dropped: data that starts with such an option is read as no
    options at all. *)
Theorem opt_zero_length_drops_all code rest :
  u16 code →
  opt_read (Z.of_nat (4 + length rest)) (BinDecoder_new (u16_bytes code ++ u16_bytes 0 ++ rest)) =
  (Ok (mkOPT ∅), dec_at (u16_bytes code ++ u16_bytes 0 ++ rest) (4 + length rest)).
Proof.
  intros Hc. unfold opt_read, bind at 1, gets, BinDecoder_index, BinDecoder_new. cbn [dindex].
  rewrite Nat2Z.id. set (buf := u16_bytes code ++ u16_bytes 0 ++ rest).
  destruct (read_u16_bytes buf 0 code (u16_bytes 0 ++ rest)) as [H1 Hd]; [done|done|].
  destruct (read_u16_bytes buf 2 0 rest) as [H2 Hd2]; [unfold u16; lia|done|].
  assert (Hloop : opt_read_loop (S (4 + length rest)) 0 (Z.of_nat (4 + length rest)) ReadCode ∅
    (dec_at buf 0) = (Ok (Data (EdnsCode_from_u16 code) 0 rest, ∅), dec_at buf (4 + length rest))).
  { rewrite opt_loop_step, (bind_Ok _ _ _ _ _ H1) by lia.
    cbn [Nat.add]. rewrite opt_loop_step, (bind_Ok _ _ _ _ _ H2) by lia.
    by apply (opt_loop_zero buf 0 _ rest); [|lia|lia|lia]. }
  by rewrite (bind_Ok _ _ _ _ _ Hloop).
Qed.

Lemma opt_zero_length_drops_all_witness :
  opt_read 9 (BinDecoder_new [0; 3; 0; 0; 0; 10; 0; 1; 5]) =
  (Ok (mkOPT ∅), dec_at [0; 3; 0; 0; 0; 10; 0; 1; 5] 9).
Proof. apply (opt_zero_length_drops_all 3 [0; 10; 0; 1; 5]). unfold u16. lia. Defined.
