(* ===== verification/BitMaps.v ===== *)
(** * Type bit maps

    The bit maps of [NSEC] and [NSEC3] ([client/src/rr/rdata/nsec3.rs]):
    [encode_bit_maps] writes the set of a sorted list of types, and
    [decode_type_bit_maps] lists a written set in increasing order; together
    they are the identity on strictly increasing lists. *)

From S2P Require Import Prelude Codec Wire Domain Enums RData RDataWire.

Open Scope Z_scope.

(** ** The set a bit map stands for *)

(** Bit [j], counted from the high end of the first byte. *)
Definition bit_at (bm : bytes) (j : Z) : bool :=
  match bm !! Z.to_nat (j / 8) with
  | Some b => Z.testbit b (7 - j `mod` 8)
  | None => false
  end.

Abbreviation code t := (RecordType_to_u16 t).

Lemma code_range t : 0 ≤ code t < 256.
Proof. destruct t; simpl; lia. Qed.

(** ** Encoding *)

(** One step on the bit map of the only window there is. *)
Definition bm_add (bm : bytes) (c : Z) : bytes :=
  let index := Z.to_nat (c / 8) in
  let padded := bm ++ replicate (index + 1 - length bm) 0 in
  <[index := Z.lor (default 0 (padded !! index)) (2 ^ (7 - c `mod` 8))]> padded.

Lemma encode_step {E} bm t :
  (length bm ≤ Z.to_nat (code t / 8) + 1)%nat →
  encode_bit_maps_step (E:=E) {[0 := bm]} t = Ok {[0 := bm_add bm (code t)]} ∧
  (bm = [] → encode_bit_maps_step (E:=E) ∅ t = Ok {[0 := bm_add bm (code t)]}).
Proof.
  intros Hlen. pose proof (code_range t) as Hc. unfold encode_bit_maps_step.
  assert (Hw : as_u8 (Z.shiftr (code t) 8) = 0) by solve_bytes.
  assert (Hl : as_u8 (Z.land (code t) 255) = code t) by solve_bytes.
  rewrite Hw, Hl. cbv zeta.
  assert (Hbit : Z.shiftr 128 (code t `mod` 8) = 2 ^ (7 - code t `mod` 8)).
  { assert (code t `mod` 8 ∈ seqZ 0 8) as Hin
      by (apply elem_of_seqZ; pose proof (Z.mod_pos_bound (code t) 8); lia).
    revert Hin. generalize (code t `mod` 8). intros r Hr. apply elem_of_seqZ in Hr.
    assert (r = 0 ∨ r = 1 ∨ r = 2 ∨ r = 3 ∨ r = 4 ∨ r = 5 ∨ r = 6 ∨ r = 7) as Hcases by lia.
    by destruct_or! Hcases; subst. }
  rewrite Hbit, lookup_singleton_eq. cbn [from_option id].
  assert (Hsome : is_Some ((bm ++ replicate (Z.to_nat (code t / 8) + 1 - length bm) 0)
                             !! Z.to_nat (code t / 8))).
  { apply lookup_lt_is_Some. rewrite length_app, length_replicate. lia. }
  destruct Hsome as [b Hb]. unfold bm_add. cbv zeta. rewrite Hb. cbn [from_option id].
  rewrite decide_True by done. split; [by rewrite insert_singleton_eq|].
  intros ->. rewrite lookup_empty. cbn [from_option id]. rewrite decide_True by (simpl; lia).
  rewrite Hb. by rewrite insert_empty.
Qed.

Lemma bm_add_u8 bm c : Forall u8 bm → 0 ≤ c → Forall u8 (bm_add bm c).
Proof.
  intros Hbm Hc. unfold bm_add. cbv zeta. apply Forall_insert.
  - apply Forall_app. split; [done|]. apply Forall_replicate. unfold u8. lia.
  - assert (u8 (default 0 ((bm ++ replicate (Z.to_nat (c / 8) + 1 - length bm) 0)
                              !! Z.to_nat (c / 8)))) as Hb.
    { destruct (_ !! _) as [b|] eqn:Hb; [|unfold u8; simpl; lia].
      eapply (Forall_lookup_1 u8); [|done]. apply Forall_app. split; [done|].
      apply Forall_replicate. unfold u8. lia. }
    revert Hb. generalize (default 0 ((bm ++ replicate (Z.to_nat (c / 8) + 1 - length bm) 0)
                              !! Z.to_nat (c / 8))). intros b Hb.
    pose proof (Z.mod_pos_bound c 8 ltac:(lia)). unfold u8 in *.
    assert (0 ≤ Z.lor b (2 ^ (7 - c `mod` 8))) by (apply Z.lor_nonneg; lia).
    split; [done|]. apply Z.log2_lt_cancel. rewrite Z.log2_pow2, Z.log2_lor by lia.
    apply Z.max_lub_lt; [|rewrite Z.log2_pow2; lia].
    destruct (decide (b = 0)) as [->|]; [simpl; lia|]. apply Z.log2_lt_pow2; lia.
Qed.

Lemma bm_add_len bm c :
  (length bm ≤ Z.to_nat (c / 8) + 1)%nat → length (bm_add bm c) = (Z.to_nat (c / 8) + 1)%nat.
Proof.
  intros. unfold bm_add. cbv zeta. rewrite length_insert, length_app, length_replicate. lia.
Qed.

Lemma bit_at_add bm c j :
  (length bm ≤ Z.to_nat (c / 8) + 1)%nat → 0 ≤ c → 0 ≤ j →
  bit_at (bm_add bm c) j = bool_decide (j = c) || bit_at bm j.
Proof.
  intros Hlen Hc Hj. unfold bit_at, bm_add. cbv zeta.
  set (i := Z.to_nat (c / 8)) in *. set (padded := bm ++ replicate (i + 1 - length bm) 0).
  assert (Hpad : ∀ k, (k < length padded)%nat → padded !! k = Some (default 0 (bm !! k))).
  { intros k Hk. unfold padded in *. rewrite length_app, length_replicate in Hk.
    destruct (decide (k < length bm)%nat).
    - rewrite lookup_app_l by done. by destruct (lookup_lt_is_Some_2 bm k l) as [? ->].
    - rewrite lookup_app_r by lia. rewrite (lookup_ge_None_2 bm k) by lia.
      apply lookup_replicate_2. lia. }
  assert (Hpl : length padded = (i + 1)%nat)
    by (unfold padded; rewrite length_app, length_replicate; lia).
  destruct (decide (Z.to_nat (j / 8) = i)) as [E|Hne].
  - rewrite E, list_lookup_insert_eq by lia. rewrite Hpad by lia. cbn [from_option id].
    pose proof (Z.mod_pos_bound c 8 ltac:(lia)). pose proof (Z.mod_pos_bound j 8 ltac:(lia)).
    rewrite Z.lor_spec, Z.pow2_bits_eqb by lia.
    assert ((7 - c `mod` 8 =? 7 - j `mod` 8) = bool_decide (j = c)) as ->.
    { apply Bool.eq_iff_eq_true. rewrite bool_decide_eq_true, Z.eqb_eq.
      assert (j / 8 = c / 8) by (unfold i in E; apply Z2Nat.inj in E; [done|..];
        apply Z.div_pos; lia).
      pose proof (Z.div_mod j 8 ltac:(lia)). pose proof (Z.div_mod c 8 ltac:(lia)).
      split; [lia|by intros ->]. }
    rewrite orb_comm. f_equal. destruct (bm !! i); simpl; [done|]. apply Z.bits_0.
  - rewrite list_lookup_insert_ne by done. rewrite bool_decide_eq_false_2 by (by intros ->).
    simpl. destruct (decide (Z.to_nat (j / 8) < length padded)%nat) as [Hlt|].
    + rewrite Hpad by done. destruct (bm !! _); simpl; [done|]. apply Z.bits_0.
    + rewrite lookup_ge_None_2 by lia. rewrite lookup_ge_None_2 by lia. done.
Qed.

Lemma encode_loop {E} ts bm :
  StronglySorted Z.lt (RecordType_to_u16 <$> ts) → Forall u8 bm → (length bm ≤ 32)%nat →
  (∀ t, t ∈ ts → (length bm ≤ Z.to_nat (code t / 8) + 1)%nat) →
  ∃ bm', encode_bit_maps_loop (E:=E) {[0 := bm]} ts = Ok {[0 := bm']} ∧
         Forall u8 bm' ∧ (length bm' ≤ 32)%nat ∧
         ∀ j, 0 ≤ j → bit_at bm' j = true ↔ bit_at bm j = true ∨ j ∈ RecordType_to_u16 <$> ts.
Proof.
  revert bm. induction ts as [|t ts IH]; intros bm Hs Hu Hl Hlen.
  - exists bm. split_and!; [done..|]. intros j _. simpl. rewrite elem_of_nil. tauto.
  - apply StronglySorted_inv in Hs as [Hs Hall]. pose proof (code_range t).
    pose proof (Hlen t ltac:(by left)) as Ht.
    assert (Hd : code t / 8 ≤ 31) by (Z.div_mod_to_equations; lia).
    pose proof (bm_add_len _ _ Ht) as Hadd.
    destruct (IH (bm_add bm (code t))) as (bm' & Hbm' & Hu' & Hl' & Hbits); [done|..].
    { apply bm_add_u8; [done|lia]. }
    { rewrite Hadd. pose proof (Z.div_pos (code t) 8). lia. }
    { intros t' Ht'. rewrite Hadd. rewrite Forall_forall in Hall.
      pose proof (Hall (code t') ltac:(by apply list_elem_of_fmap_2)).
      apply Nat.add_le_mono_r, Z2Nat.inj_le; [apply Z.div_pos; lia..|]. apply Z.div_le_mono; lia. }
    exists bm'. cbn [encode_bit_maps_loop]. rewrite (proj1 (encode_step bm t Ht)). cbn [rbind].
    split_and!; [done..|]. intros j Hj. rewrite Hbits, bit_at_add by (done || lia).
    rewrite orb_true_iff, bool_decide_eq_true, fmap_cons, elem_of_cons. tauto.
Qed.

(** ** Decoding *)

Abbreviation reads_as := (λ j t, code t = j ∧ t ≠ RecordType.IXFR).

(** The codes of a byte whose first bit is code [o]. *)
Definition byte_codes (o b : Z) : list Z :=
  filter (λ j, Z.testbit b (7 - (j - o)) = true) (seqZ o 8).

Fixpoint bm_codes (o : Z) (bs : bytes) : list Z :=
  match bs with
  | [] => []
  | b :: bs => byte_codes o b ++ bm_codes (o + 8) bs
  end.

Lemma shifted_bit b n k : 0 ≤ n → 0 ≤ k < 7 →
  Z.testbit (as_u8 (Z.shiftl b 1)) (7 - k) = Z.testbit b (7 - (k + 1)).
Proof.
  intros Hn Hk. unfold as_u8. rewrite Z.mod_pow2_bits_low by lia.
  rewrite Z.shiftl_spec by lia. f_equal. lia.
Qed.

Lemma decode_bits_spec n len left_ b bm i acc ts (d : BinDecoder) :
  let o := (len - left_) * 8 in
  0 ≤ o → o + 8 ≤ 256 → 0 ≤ i → i + Z.of_nat n = 8 →
  (∀ k, 0 ≤ k < Z.of_nat n → Z.testbit bm (7 - k) = Z.testbit b (7 - (i + k))) →
  Forall2 reads_as (filter (λ j, Z.testbit b (7 - (j - o)) = true) (seqZ (o + i) (Z.of_nat n))) ts →
  decode_bits n 0 len left_ bm i acc d = (Ok (acc ++ ts), d).
Proof.
  cbv zeta. revert bm i acc ts. induction n as [|n IH]; intros bm i acc ts Ho1 Ho2 Hi Hn Hbits Hts.
  { simpl in Hts. inversion Hts; subst. simpl. by rewrite app_nil_r. }
  rewrite seqZ_cons in Hts by lia. rewrite filter_cons in Hts.
  replace (Z.pred (Z.of_nat (S n))) with (Z.of_nat n) in Hts by lia.
  replace (Z.succ ((len - left_) * 8 + i)) with ((len - left_) * 8 + (i + 1)) in Hts by lia.
  cbn [decode_bits]. unfold decode_bit.
  assert (Hb0 : (Z.land bm 128 =? 128) = Z.testbit b (7 - i)).
  { rewrite Z.land_comm. change 128 with (2 ^ 7). rewrite land_pow2 by lia.
    specialize (Hbits 0 ltac:(lia)). by rewrite Z.sub_0_r, Z.add_0_r in Hbits. }
  rewrite Hb0. replace ((len - left_) * 8 + i - (len - left_) * 8) with i in Hts by lia.
  assert (Hnext : ∀ k, 0 ≤ k < Z.of_nat n →
    Z.testbit (as_u8 (Z.shiftl bm 1)) (7 - k) = Z.testbit b (7 - (i + 1 + k))).
  { intros k Hk. rewrite (shifted_bit bm 0) by lia. rewrite Hbits by lia. f_equal. lia. }
  destruct (Z.testbit b (7 - i)) eqn:Htb.
  - rewrite decide_True in Hts by done.
    apply Forall2_cons_inv_l in Hts as (t & ts' & [Ht Hne] & Hts & ->).
    rewrite (proj2 (Z.leb_le _ _)) by (unfold u8_max; lia).
    rewrite Z.shiftl_0_l, Z.lor_0_l, <-Ht.
    rewrite bind_assoc, (bind_Ok _ _ _ _ _ (RecordType_from_to t d Hne)).
    unfold bind at 1, ret at 1.
    rewrite (IH _ (i + 1) (acc ++ [t]) ts') by (done || lia). by rewrite <-app_assoc.
  - rewrite decide_False in Hts by done. unfold bind at 1, ret at 1.
    by rewrite (IH _ (i + 1) acc ts) by (done || lia).
Qed.

Lemma decode_bytes len bs buf p acc ts :
  (0 < length bs)%nat → len ≤ 32 → Z.of_nat (length bs) ≤ len →
  take (length bs) (drop p buf) = bs →
  Forall2 reads_as (bm_codes ((len - Z.of_nat (length bs)) * 8) bs) ts →
  decode_bit_maps_loop (length bs) (ReadType 0 len (Z.of_nat (length bs))) acc (dec_at buf p) =
  (Ok (acc ++ ts), dec_at buf (p + length bs)).
Proof.
  revert p acc ts. induction bs as [|b bs IH]; intros p acc ts Hne Hlen Hle Ht Hts; [simpl in Hne; lia|].
  destruct (drop p buf) as [|y r] eqn:Ed; [done|]. simpl in Ht. injection Ht as -> Ht.
  apply drop_cons_inv in Ed as [Hb Hr]. cbn [bm_codes] in Hts.
  apply Forall2_app_inv_l in Hts as (ts1 & ts2 & Hts1 & Hts2 & ->).
  cbn [decode_bit_maps_loop length]. unfold decode_bit_maps_step.
  rewrite bind_assoc. unfold BinDecoder_read_u8. rewrite (bind_Ok _ _ _ _ _ (pop_at _ _ _ Hb)).
  rewrite bind_assoc.
  assert (Hbits : decode_bits 8 0 len (Z.of_nat (S (length bs))) b 0 acc (dec_at buf (S p)) =
                  (Ok (acc ++ ts1), dec_at buf (S p))).
  { simpl length in *. apply (decode_bits_spec 8 _ _ b); [lia|lia|lia|lia|done|].
    by rewrite Z.add_0_r. }
  rewrite (bind_Ok _ _ _ _ _ Hbits).
  rewrite (proj2 (Z.eqb_neq _ _)) by lia.
  replace (Z.of_nat (S (length bs)) - 1) with (Z.of_nat (length bs)) by lia.
  destruct bs as [|b' bs].
  - simpl. inversion Hts2; subst. unfold ret. rewrite app_nil_r. do 2 f_equal. lia.
  - rewrite (proj2 (Z.eqb_neq _ _)) by (simpl; lia). unfold bind at 1, ret at 1. cbn [fst snd].
    rewrite (IH (S p) (acc ++ ts1) ts2); [|simpl; lia|done|simpl in *; lia|by rewrite Hr|].
    + rewrite <-app_assoc. do 2 f_equal. simpl. lia.
    + replace ((len - Z.of_nat (length (b' :: bs))) * 8) with
        ((len - Z.of_nat (length (b :: b' :: bs))) * 8 + 8) by (simpl length; lia). done.
Qed.

(** ** The codes of a bit map, in order *)

Lemma StronglySorted_filter {A} (R : relation A) (P : A → Prop) `{∀ x, Decision (P x)} l :
  StronglySorted R l → StronglySorted R (filter P l).
Proof.
  induction 1 as [|x l Hs IH Hx]; [constructor|]. rewrite filter_cons.
  destruct (decide (P x)); [|done]. constructor; [done|].
  rewrite Forall_forall in *. intros y Hy. apply list_elem_of_filter in Hy as [_ Hy]. auto.
Qed.

Lemma StronglySorted_seqZ o n : StronglySorted Z.lt (seqZ o n).
Proof.
  destruct (Z.le_gt_cases 0 n) as [Hn|]; [|rewrite seqZ_nil by lia; constructor].
  revert o. pattern n. apply natlike_ind; [|clear n Hn; intros n Hn IH o|done].
  - intros o. rewrite seqZ_nil by lia. constructor.
  - rewrite seqZ_cons by lia. replace (Z.pred (Z.succ n)) with n by lia.
    constructor; [apply IH|]. rewrite Forall_forall. intros j Hj.
    apply elem_of_seqZ in Hj. lia.
Qed.

Lemma StronglySorted_lt_NoDup l : StronglySorted Z.lt l → NoDup l.
Proof.
  induction 1 as [|x l Hs IH Hx]; [constructor|]. constructor; [|done].
  intros Hin. rewrite Forall_forall in Hx. specialize (Hx _ Hin). lia.
Qed.

Lemma elem_of_byte_codes o b j :
  j ∈ byte_codes o b ↔ Z.testbit b (7 - (j - o)) = true ∧ o ≤ j < o + 8.
Proof. unfold byte_codes. by rewrite list_elem_of_filter, elem_of_seqZ. Qed.

Lemma elem_of_bm_codes bs o j :
  j ∈ bm_codes o bs ↔ o ≤ j ∧ bit_at bs (j - o) = true.
Proof.
  revert o. induction bs as [|b bs IH]; intros o; cbn [bm_codes].
  - rewrite elem_of_nil. unfold bit_at. rewrite lookup_nil. by split; [|intros [_ ?]].
  - rewrite elem_of_app, elem_of_byte_codes, IH. unfold bit_at.
    destruct (Z.lt_ge_cases j o) as [|Hjo]; [lia|].
    destruct (Z.lt_ge_cases j (o + 8)) as [Hj|Hj].
    + rewrite (Z.div_small (j - o)), (Z.mod_small (j - o)) by lia. simpl. intuition lia.
    + replace (j - o) with (j - (o + 8) + 1 * 8) by lia.
      rewrite Z.div_add, Z.mod_add by lia.
      assert (0 ≤ (j - (o + 8)) / 8) by (apply Z.div_pos; lia).
      replace (Z.to_nat ((j - (o + 8)) / 8 + 1)) with (S (Z.to_nat ((j - (o + 8)) / 8))) by lia.
      simpl. intuition lia.
Qed.

Lemma sorted_bm_codes bs o : StronglySorted Z.lt (bm_codes o bs).
Proof.
  revert o. induction bs as [|b bs IH]; intros o; cbn [bm_codes]; [constructor|].
  rewrite StronglySorted_app. split_and!; [|apply StronglySorted_filter, StronglySorted_seqZ|done].
  intros x1 x2 H1 H2. apply elem_of_byte_codes in H1 as [_ H1].
  apply elem_of_bm_codes in H2 as [H2 _]. lia.
Qed.

(** ** The round trip *)

(** The types a bit map can hold: strictly increasing, and each one readable. *)
Definition type_list_ok (ts : list RecordType) : Prop :=
  StronglySorted Z.lt (RecordType_to_u16 <$> ts) ∧ Forall (λ t, t ≠ RecordType.IXFR) ts.

#[global] Instance type_list_ok_dec ts : Decision (type_list_ok ts).
Proof. unfold type_list_ok. apply _. Defined.

(** What encoding leaves in the table: nothing, or the one window, whose codes
    are the types'. *)
Lemma encode_types {E} ts :
  type_list_ok ts →
  (ts = [] ∧ encode_bit_maps_loop (E:=E) ∅ ts = Ok ∅) ∨
  ∃ bm, encode_bit_maps_loop (E:=E) ∅ ts = Ok {[0 := bm]} ∧ (0 < length bm ≤ 32)%nat ∧
        bm_codes 0 bm = RecordType_to_u16 <$> ts.
Proof.
  intros [Hs Hne]. destruct ts as [|t ts]; [by left|right].
  destruct (encode_loop (E:=E) (t :: ts) []) as (bm & Hbm & Hu & Hl & Hbits);
    [done|constructor|simpl; lia|intros; simpl; lia|].
  exists bm. split_and!; [| |done|].
  - rewrite <-Hbm. cbn [encode_bit_maps_loop].
    destruct (encode_step (E:=E) [] t ltac:(simpl; lia)) as [-> H0]. by rewrite (H0 eq_refl).
  - assert (bit_at bm (code t) = true) as Hb.
    { apply Hbits; [apply code_range|]. right. by left. }
    unfold bit_at in Hb. destruct (bm !! _) eqn:Hb'; [|done]. apply lookup_lt_Some in Hb'. lia.
  - apply (StronglySorted_unique_strong Z.lt); [lia|apply sorted_bm_codes|done|].
    apply NoDup_Permutation; [apply StronglySorted_lt_NoDup, sorted_bm_codes|
      by apply StronglySorted_lt_NoDup|].
    intros j. rewrite elem_of_bm_codes, Z.sub_0_r. split.
    + intros [Hj Hb]. apply Hbits in Hb as [Hb|Hb]; [|done|done]. unfold bit_at in Hb.
      by rewrite lookup_nil in Hb.
    + intros Hj. assert (0 ≤ j).
      { apply list_elem_of_fmap in Hj as (t' & -> & _). apply code_range. }
      split; [done|]. apply Hbits; auto.
Qed.

Lemma reads_as_codes ts :
  Forall (λ t, t ≠ RecordType.IXFR) ts → Forall2 reads_as (RecordType_to_u16 <$> ts) ts.
Proof. induction 1; constructor; auto. Qed.

(** One window, as it is written, is read as its codes. *)
Lemma decode_written bm pre b b' suf ts :
  (0 < length bm ≤ 32)%nat → b' = b ++ 0 :: Z.of_nat (length bm) :: bm →
  Forall2 reads_as (bm_codes 0 bm) ts →
  decode_type_bit_maps (length b' - length b) (dec_at (pre ++ b' ++ suf) (length pre + length b)) =
  (Ok ts, dec_at (pre ++ b' ++ suf) (length pre + length b')).
Proof.
  intros Hlen -> Hts. set (buf := pre ++ _ ++ suf). set (p := (length pre + length b)%nat).
  assert (Hd : drop p buf = 0 :: Z.of_nat (length bm) :: bm ++ suf).
  { unfold buf, p. rewrite <-app_assoc, app_assoc, <-length_app. by rewrite drop_app_length. }
  apply drop_cons_inv in Hd as [H0 Hd]. apply drop_cons_inv in Hd as [H1 Hd].
  rewrite length_app. cbn [length]. replace (_ - _)%nat with (S (S (length bm))) by lia.
  unfold decode_type_bit_maps. cbn [decode_bit_maps_loop]. unfold decode_bit_maps_step, BinDecoder_read_u8.
  rewrite bind_assoc, (bind_Ok _ _ _ _ _ (pop_at _ _ _ H0)). unfold bind at 1, ret at 1. cbn [fst snd].
  rewrite bind_assoc, (bind_Ok _ _ _ _ _ (pop_at _ _ _ H1)). unfold bind at 1, ret at 1. cbn [fst snd].
  rewrite (decode_bytes (Z.of_nat (length bm)) bm buf _ [] ts); [|lia|lia|lia| |].
  - do 2 f_equal. unfold p. lia.
  - by rewrite Hd, take_app_length.
  - by rewrite Z.sub_diag.
Qed.

Section wire.
Context `{HO : HashOrder}.

Lemma RTN_bit_maps c ts :
  type_list_ok ts → RTN c (encode_bit_maps ts) decode_type_bit_maps ts.
Proof.
  intros Hts pre e e' Hok Hc He. unfold encode_bit_maps, bind at 1, lift in He.
  destruct (encode_types (E:=encode_error) ts Hts) as [[-> Hen]|(bm & Hen & Hlen & Hcodes)];
    rewrite Hen in He.
  - pose proof (hash_order_perm (∅ : gmap Z bytes)) as Hp.
    rewrite map_to_list_empty in Hp. apply Permutation_nil_r in Hp. rewrite Hp in He. simpl in He.
    inv_ok. split_and!; [done..|]. intros suf. by rewrite Nat.sub_diag.
  - pose proof (hash_order_perm ({[0 := bm]} : gmap Z bytes)) as Hp.
    rewrite map_to_list_singleton in Hp. apply Permutation_singleton_r in Hp. rewrite Hp in He.
    cbn [for_each] in He. apply bind_Ok_inv in He as ([] & e3 & Hm & [= <-]).
    apply bind_Ok_inv in Hm as ([] & e1 & Hm1 & Hm).
    apply bind_Ok_inv in Hm as ([] & e2 & Hm2 & Hm3).
    apply (enc_ok_emit no_pending pre) in Hm1 as (Hok1 & Hex1 & Hb1 & _); [|done].
    apply (enc_ok_emit no_pending pre) in Hm2 as (Hok2 & Hex2 & Hb2 & _); [|done].
    apply (enc_ok_emit_vec no_pending pre) in Hm3 as (Hok3 & Hex3 & Hb3 & _); [|done].
    split_and!; [done|by etrans; [|etrans]|]. intros suf.
    assert (Hbuf : ebuf e3 = ebuf e ++ 0 :: Z.of_nat (length bm) :: bm).
    { rewrite Hb3, Hb2, Hb1, <-!app_assoc. unfold as_u8. by rewrite Z.mod_small by lia. }
    apply (decode_written bm); [done|done|by rewrite Hcodes; apply reads_as_codes, Hts].
Qed.
End wire.

(** ** The properties of type bit maps *)

(** Encoding a strictly increasing list of types and decoding the bytes gives
    the list back, whatever order the hash map iterates in. *)
Theorem bit_maps_roundtrip `{HO : HashOrder} ts e :
  type_list_ok ts → encode_bit_maps ts (BinEncoder_new []) = (Ok (), e) →
  decode_type_bit_maps (length (ebuf e)) (BinDecoder_new (ebuf e)) =
  (Ok ts, dec_at (ebuf e) (length (ebuf e))).
Proof.
  intros Hts He. destruct (RTN_bit_maps false ts Hts [] _ e (enc_ok_new [] Normal) eq_refl He)
    as (_ & _ & Hr).
  specialize (Hr []). simpl in Hr. by rewrite app_nil_r, Nat.sub_0_r in Hr.
Qed.

Lemma bit_maps_roundtrip_witness :
  ∃ e, encode_bit_maps (H:=list_hash_order) [RecordType.A; RecordType.NSEC] (BinEncoder_new []) =
         (Ok (), e) ∧
       ebuf e = [0; 6; 64; 0; 0; 0; 0; 1] ∧
       decode_type_bit_maps (length (ebuf e)) (BinDecoder_new (ebuf e)) =
         (Ok [RecordType.A; RecordType.NSEC], dec_at (ebuf e) (length (ebuf e))).
Proof.
  eexists. split; [vm_compute; reflexivity|]. split; [reflexivity|].
  apply (bit_maps_roundtrip (HO:=list_hash_order) [RecordType.A; RecordType.NSEC]).
  - by_decision.
  - vm_compute. reflexivity.
Defined.

(** A list of types that is not sorted by byte panics: after a type, one
    whose bit lies in an earlier byte of the map underflows the padding count. *)
Theorem encode_bit_maps_unsorted_panics `{HO : HashOrder} t1 t2 ts e :
  code t2 / 8 < code t1 / 8 → encode_bit_maps (t1 :: t2 :: ts) e = (Panic, e).
Proof.
  intros Hlt. pose proof (code_range t1). pose proof (code_range t2).
  unfold encode_bit_maps, bind, lift. cbn [encode_bit_maps_loop].
  destruct (encode_step (E:=encode_error) [] t1) as [_ Hs]; [simpl; lia|].
  rewrite (Hs eq_refl). cbn [rbind].
  assert (encode_bit_maps_step (E:=encode_error) {[0 := bm_add [] (code t1)]} t2 = Panic) as ->;
    [|done].
  unfold encode_bit_maps_step.
  assert (Hw : as_u8 (Z.shiftr (code t2) 8) = 0) by solve_bytes.
  assert (Hl : as_u8 (Z.land (code t2) 255) = code t2) by solve_bytes.
  rewrite Hw, Hl, lookup_singleton_eq. cbn [from_option id].
  rewrite decide_False; [done|]. rewrite bm_add_len by (simpl; lia).
  assert (0 ≤ code t2 / 8) by (apply Z.div_pos; lia). lia.
Qed.

Lemma encode_bit_maps_unsorted_panics_witness :
  encode_bit_maps (H:=list_hash_order) [RecordType.NSEC; RecordType.A] (BinEncoder_new []) =
  (Panic, BinEncoder_new []).
Proof. apply (encode_bit_maps_unsorted_panics (HO:=list_hash_order)). reflexivity. Defined.
