(* ===== verification/RDataProps.v ===== *)
(** * Record data: properties

    Every kind of record data that is well formed is written within a bound on
    its size, and read back from its type and length. *)

From S2P Require Import Prelude Codec Wire Domain Enums RData RDataWire BitMaps.

Open Scope Z_scope.

(** ** Writing part of the data in canonical form *)

Lemma enc_ok_set_canonical P pre e c :
  enc_ok P pre e →
  enc_ok P pre (mk_encoder (eoffset e) (ebuf e) (name_pointers e) (emode e) c).
Proof. intros [? ?]. by split. Qed.

Lemma RTN_canonical_block {A} c (em1 em2 : X ()) (rd : nat → D A) a :
  RTN true (em1 ;;; em2) rd a →
  RTN c (let* c' := gets BinEncoder_is_canonical_names in
         BinEncoder_set_canonical_names true ;;; em1 ;;; em2 ;;;
         BinEncoder_set_canonical_names c') rd a.
Proof.
  intros H pre e e' Hok Hc He. unfold bind at 1, gets, BinEncoder_is_canonical_names in He.
  apply bind_Ok_inv in He as ([] & e1 & [= <-] & He).
  apply bind_Ok_inv in He as ([] & e2 & H1 & He).
  apply bind_Ok_inv in He as ([] & e3 & H2 & [= <-]).
  destruct (H pre _ e3 (enc_ok_set_canonical _ _ _ true Hok)) as (Hok3 & Hex & Hr);
    [done|by rewrite (bind_Ok _ _ _ _ _ H1)|].
  split_and!; [by apply enc_ok_set_canonical| |done].
  destruct Hex as [[w Hw] Hm _]. split; [by exists w|done|done].
Qed.

Lemma TOT_canonical_block c (em1 em2 : X ()) n m :
  TOT true em1 n → TOT true em2 m →
  TOT c (let* c' := gets BinEncoder_is_canonical_names in
         BinEncoder_set_canonical_names true ;;; em1 ;;; em2 ;;;
         BinEncoder_set_canonical_names c') (n + m).
Proof.
  intros H1 H2 e Hc He. unfold bind at 1, gets, BinEncoder_is_canonical_names.
  rewrite (bind_Ok _ _ () e
    (mk_encoder (eoffset e) (ebuf e) (name_pointers e) (emode e) true)) by done.
  destruct (H1 (mk_encoder (eoffset e) (ebuf e) (name_pointers e) (emode e) true))
    as (e1 & E1 & G1); [done|simpl; lia|].
  rewrite (bind_Ok _ _ _ _ _ E1). pose proof (grown_offset _ _ _ G1). simpl in *.
  destruct (H2 e1) as (e2 & E2 & G2); [by rewrite (gr_canonical _ _ _ G1)|lia|].
  rewrite (bind_Ok _ _ _ _ _ E2). eexists. split; [done|].
  destruct (grown_trans _ _ _ _ _ G1 G2) as [(w & Hw & Hl & Ho) Hmode _].
  split; [by exists w|done|done].
Qed.

Section props.
Context `{L : Lowercase} `{HO : HashOrder}.

Definition nsec_ok (x : NSEC) : Prop :=
  name_ok (nsec_next_domain_name x) ∧ type_list_ok (nsec_type_bit_maps x).

Lemma RTN_nsec c x : nsec_ok x → RTN c (nsec_emit x) (λ n, nsec_read (Z.of_nat n)) x.
Proof.
  intros [[Hn _] Ht]. apply RTN_canonical_block, RTN_start.
  eapply RTE_bind; [by apply RT_name|]. apply RTE_left.
  eapply RTN_last; [by apply RTN_bit_maps|]. by destruct x.
Qed.

Record nsec3_ok (x : NSEC3) : Prop := {
  n3_iterations_ok : u16 (n3_iterations x);
  n3_salt_ok : (length (n3_salt x) ≤ 255)%nat;
  n3_hash_ok : (length (n3_next_hashed_owner_name x) ≤ 255)%nat;
  n3_types_ok : type_list_ok (n3_type_bit_maps x);
}.

Lemma counted_len (bs : bytes) :
  (length bs ≤ 255)%nat → Z.to_nat (as_u8 (Z.of_nat (length bs))) = length bs.
Proof. intros. unfold as_u8. rewrite Z.mod_small by lia. lia. Qed.

Lemma RTN_nsec3 c x : nsec3_ok x → RTN c (nsec3_emit x) (λ n, nsec3_read (Z.of_nat n)) x.
Proof.
  intros [Hi Hs Hh Ht]. unfold nsec3_emit, nsec3_read. apply RTN_start.
  eapply RTE_bind; [apply RT_emit|].
  eapply RTE_bind_pure; [intros d; by destruct (n3_hash_algorithm x)|].
  eapply RTE_bind; [apply RT_emit|]. destruct x as [h o it salt hash ts]. simpl in *.
  assert (Ho : (Z.land (if o then 1 else 0) 1 =? 1) = o) by (by destruct o). rewrite Ho.
  replace (negb _) with false by (by destruct o).
  eapply RTE_bind; [by apply RT_u16|]. eapply RTE_bind; [apply RT_emit|].
  rewrite (counted_len salt) by done. eapply RTE_bind; [apply RT_emit_vec|].
  eapply RTE_bind; [apply RT_emit|].
  rewrite (counted_len hash) by done. eapply RTE_bind; [apply RT_emit_vec|].
  apply RTE_left. eapply RTN_last; [by apply RTN_bit_maps|]. by destruct h.
Qed.

(** ** The size of the data *)

Definition rdata_size (r : RData) : nat :=
  match r with
  | RData.A _ => 4
  | RData.AAAA _ => 16
  | RData.CNAME n | RData.NS n | RData.PTR n => wire_len (labels n)
  | RData.DNSKEY k | RData.KEY k => 4 + length (dk_public_key k)
  | RData.DS d => 4 + length (ds_digest d)
  | RData.MX x => 2 + wire_len (labels (mx_exchange x))
  | RData.NULL x => length (default [] (null_anything x))
  | RData.NSEC x => wire_len (labels (nsec_next_domain_name x)) + 34
  | RData.NSEC3 x => 6 + length (n3_salt x) + length (n3_next_hashed_owner_name x) + 34
  | RData.NSEC3PARAM x => 5 + length (n3p_salt x)
  | RData.OPT x => sum_list_with (λ kv, 4 + length (EdnsOption_to_bytes kv.2))%nat
                     (map_to_list (opt_options x))
  | RData.SIG x => 18 + wire_len (labels (sig_signer_name x)) + length (sig_sig x)
  | RData.SOA x => wire_len (labels (soa_mname x)) + wire_len (labels (soa_rname x)) + 20
  | RData.SRV x => 6 + wire_len (labels (srv_target x))
  | RData.TXT x => sum_list_with (λ s, S (length s)) (txt_data x)
  end.

(** Data within the widths of its format and readable by it. *)
Definition rdata_fields_ok (r : RData) : Prop :=
  match r with
  | RData.A _ => True
  | RData.AAAA x => ipv6_ok x
  | RData.CNAME n | RData.NS n | RData.PTR n => name_ok n
  | RData.DNSKEY _ | RData.KEY _ => True
  | RData.DS x => ds_ok x
  | RData.MX x => u16 (mx_preference x) ∧ name_ok (mx_exchange x)
  | RData.NULL x => null_ok x
  | RData.NSEC x => nsec_ok x
  | RData.NSEC3 x => nsec3_ok x
  | RData.NSEC3PARAM x => nsec3param_ok x
  | RData.OPT x => opt_ok x
  | RData.SIG x => sig_ok x
  | RData.SOA x => soa_ok x
  | RData.SRV x =>
      u16 (srv_priority x) ∧ u16 (srv_weight x) ∧ u16 (srv_port x) ∧ name_ok (srv_target x)
  | RData.TXT x => Forall char_data_ok (txt_data x)
  end.

(** The type a record of this data has on the wire: an [RRSIG] is read into the
    same data as a [SIG]. *)
Definition type_matches (t : RecordType) (r : RData) : Prop :=
  t = RData_to_record_type r ∨ (t = RecordType.RRSIG ∧ RData_to_record_type r = RecordType.SIG).

Lemma RTN_rdata_type t r :
  type_matches t r → rdata_fields_ok r →
  RTN false (RData_emit r) (λ n, RData_read_type t (Z.of_nat n)) r.
Proof.
  intros Ht Hr.
  assert (Hmap : ∀ {A} em (rd : nat → D A) a (k : A → RData),
    RTN false em rd a → RTN false em (λ n, let* x := rd n in ret (k x)) (k a)).
  { intros A em rd a k H. by eapply RTN_last. }
  destruct Ht as [->|[-> Ht]].
  - destruct r; simpl in *; apply Hmap;
      first [apply RTN_of_RT | idtac]; eauto using RT_a, RT_aaaa, RTN_dnskey, RTN_ds, RTN_null,
        RTN_nsec, RTN_nsec3, RT_nsec3param, RTN_opt, RTN_sig, RT_soa, RTN_txt;
      try (by apply RT_name_data; destruct Hr);
      try (by destruct Hr as (? & ? & _); apply RT_mx).
    by destruct Hr as (? & ? & ? & ? & _); apply RT_srv.
  - destruct r; simpl in *; try done. apply Hmap. by apply RTN_sig.
Qed.

(** [RData::read] checks that exactly the announced bytes were read. *)
Lemma RTN_rdata t r :
  type_matches t r → rdata_fields_ok r →
  RTN false (RData_emit r) (λ n, RData_read t (Z.of_nat n)) r.
Proof.
  intros Ht Hr pre e e' Hok Hc He.
  destruct (RTN_rdata_type t r Ht Hr _ _ _ Hok Hc He) as (Hok' & Hex & Hrd).
  split_and!; [done..|]. intros suf. unfold RData_read, bind at 1, gets, BinDecoder_index.
  cbn [dindex]. rewrite (bind_Ok _ _ _ _ _ (Hrd suf)). unfold bind at 1. cbn [dindex].
  pose proof (extends_len _ _ Hex). rewrite bind_checked_sub by lia.
  by rewrite decide_True by lia.
Qed.

Ltac solve_tot :=
  eapply TOT_weaken; [repeat (eapply TOT_bind; [eauto with dns|]); eauto with dns|simpl; lia].

Lemma TOT_bit_maps c ts : type_list_ok ts → TOT c (encode_bit_maps ts) 34.
Proof.
  intros Hts e Hc He. unfold encode_bit_maps, bind at 1, lift.
  destruct (encode_types (E:=encode_error) ts Hts) as [[-> Hen]|(bm & Hen & Hlen & _)]; rewrite Hen.
  - pose proof (hash_order_perm (∅ : gmap Z bytes)) as Hp.
    rewrite map_to_list_empty in Hp. apply Permutation_nil_r in Hp. rewrite Hp.
    exists e. split; [done|]. eapply grown_weaken; [apply grown_refl|lia].
  - pose proof (hash_order_perm ({[0 := bm]} : gmap Z bytes)) as Hp.
    rewrite map_to_list_singleton in Hp. apply Permutation_singleton_r in Hp. rewrite Hp.
    revert e Hc He. cbn [for_each].
    eapply TOT_weaken; [apply TOT_bind; [|apply TOT_ret]|].
    + do 2 (eapply TOT_bind; [apply TOT_emit|]). apply TOT_emit_vec.
    + lia.
Qed.

Lemma sum_list_with_perm {A} (f : A → nat) l k :
  l ≡ₚ k → sum_list_with f l = sum_list_with f k.
Proof. induction 1; simpl; lia. Qed.

Lemma TOT_opt c x :
  TOT c (opt_emit x) (sum_list_with (λ kv, 4 + length (EdnsOption_to_bytes kv.2))%nat
                        (map_to_list (opt_options x))).
Proof.
  rewrite <-(sum_list_with_perm _ _ _ (hash_order_perm (opt_options x))).
  unfold opt_emit. apply TOT_for_each. intros [k o] _. simpl. solve_tot.
Qed.

Lemma TOT_rdata r : rdata_fields_ok r → TOT false (RData_emit r) (rdata_size r).
Proof.
  destruct r; cbn -[sum_list_with]; intros Hr.
  - unfold a_emit. solve_tot.
  - unfold aaaa_emit. solve_tot.
  - apply TOT_gets_canonical. by apply TOT_name_rdata.
  - unfold dnskey_emit. solve_tot.
  - unfold ds_emit. solve_tot.
  - unfold dnskey_emit. solve_tot.
  - apply TOT_gets_canonical. destruct Hr as [_ ?]. solve_tot.
  - unfold null_emit. destruct null as [[bs|]]; [apply TOT_emit_vec|apply TOT_ret].
  - apply TOT_gets_canonical. by apply TOT_name_rdata.
  - destruct Hr. apply TOT_canonical_block; [by apply TOT_name|by apply TOT_bit_maps].
  - destruct Hr. unfold nsec3_emit. pose proof TOT_bit_maps. solve_tot.
  - unfold nsec3param_emit. solve_tot.
  - apply TOT_opt.
  - apply TOT_gets_canonical. by apply TOT_name_rdata.
  - apply TOT_gets_canonical. destruct Hr. solve_tot.
  - apply TOT_gets_canonical. destruct Hr. solve_tot.
  - apply TOT_gets_canonical. destruct Hr as (_ & _ & _ & ?). solve_tot.
  - apply TOT_for_each. intros s Hs. rewrite Forall_forall in Hr.
    destruct (Hr s Hs). by apply TOT_character_data.
Qed.
End props.
