(* ===== verification/Resource.v ===== *)
(** * Resource records

    Models [client/src/rr/resource.rs]: [Record], its builders, equality and
    order, and its wire form, in which the data is written by a temporary
    encoder that starts where the data will be. *)

From S2P Require Import Prelude Codec Wire Domain Enums RData RDataWire BitMaps RDataProps.

Open Scope Z_scope.

(** ** [Record] *)

(** [Record] is a keyword of Rocq. *)
Record RRecord : Type := mkRecord {
  r_name_labels : Name;
  r_rr_type : RecordType;
  r_dns_class : DNSClass;
  r_ttl : Z;
  r_rdata : RData;
}.

#[global] Instance RRecord_eq_dec : EqDecision RRecord.
Proof. solve_decision. Defined.

Definition Record_new : RRecord :=
  mkRecord Name_new RecordType.A DNSClass.IN 0 (RData.NULL NULL_new).
Definition Record_with (name : Name) (rr_type : RecordType) (ttl : Z) : RRecord :=
  mkRecord name rr_type DNSClass.IN ttl (RData.NULL NULL_new).
Definition Record_from_rdata (name : Name) (ttl : Z) (record_type : RecordType) (rdata : RData) :
    RRecord :=
  mkRecord name record_type DNSClass.IN ttl rdata.

Definition Record_name (self : RRecord) (name : Name) : RRecord :=
  mkRecord name (r_rr_type self) (r_dns_class self) (r_ttl self) (r_rdata self).
Definition Record_rr_type (self : RRecord) (rr_type : RecordType) : RRecord :=
  mkRecord (r_name_labels self) rr_type (r_dns_class self) (r_ttl self) (r_rdata self).
Definition Record_dns_class (self : RRecord) (dns_class : DNSClass) : RRecord :=
  mkRecord (r_name_labels self) (r_rr_type self) dns_class (r_ttl self) (r_rdata self).
Definition Record_ttl (self : RRecord) (ttl : Z) : RRecord :=
  mkRecord (r_name_labels self) (r_rr_type self) (r_dns_class self) ttl (r_rdata self).
Definition Record_rdata (self : RRecord) (rdata : RData) : RRecord :=
  mkRecord (r_name_labels self) (r_rr_type self) (r_dns_class self) (r_ttl self) rdata.
Definition Record_add_name {E} (self : RRecord) (l : label) : res E RRecord :=
  try* n := Name_add_label (r_name_labels self) l in Ok (Record_name self n).

(** [compare_or_equal!]: the first field that differs decides. *)
Definition then_cmp {E} (o : res E comparison) (k : res E comparison) : res E comparison :=
  try* c := o in match c with Eq => k | _ => Ok c end.

Section record.
Context `{L : Lowercase} `{HO : HashOrder}.

(** [PartialEq]: the time to live does not count. *)
Definition Record_eq (self other : RRecord) : bool :=
  Name_eq (r_name_labels self) (r_name_labels other) &&
  bool_decide (r_rr_type self = r_rr_type other) &&
  bool_decide (r_dns_class self = r_dns_class other) &&
  RData_eq (r_rdata self) (r_rdata other).

Definition Record_partial_cmp {E} (self other : RRecord) : res E comparison :=
  then_cmp (Ok (cmp (r_name_labels self) (r_name_labels other)))
  (then_cmp (Ok (cmp (r_rr_type self) (r_rr_type other)))
  (then_cmp (Ok (cmp (r_dns_class self) (r_dns_class other)))
  (then_cmp (Ok (cmp (r_ttl self) (r_ttl other)))
  (then_cmp (RData_cmp (r_rdata self) (r_rdata other)) (Ok Eq))))).

Definition Record_read : D RRecord :=
  let* name_labels := Name_read in
  let* record_type := RecordType_read in
  let* class :=
    (if decide (record_type = RecordType.OPT) then
       if negb (Name_is_root name_labels) then fail (EdnsNameNotRoot (labels name_labels))
       else let* v := BinDecoder_read_u16 in ret (DNSClass_for_opt v)
     else DNSClass_read) in
  let* ttl := BinDecoder_read_u32 in
  let* rd_length := BinDecoder_read_u16 in
  let* rdata :=
    (if rd_length =? 0 then ret (RData.NULL NULL_new) else RData_read record_type rd_length) in
  ret (mkRecord name_labels record_type class ttl rdata).

(** The data written by the temporary encoder, at [encoder.offset() + 2]. *)
Definition emit_tmp (rdata : RData) : X bytes := λ e,
  if eoffset e + 2 <=? u32_max then
    let '(r, tmp) := RData_emit rdata (BinEncoder_with_offset [] (eoffset e + 2) Normal) in
    (match r with
     | Ok _ => Ok (ebuf tmp)
     | Err x => Err x
     | Panic => Panic
     | Diverge => Diverge
     end, e)
  else (Panic, e).

Definition Record_emit (self : RRecord) : X () :=
  Name_emit (r_name_labels self) ;;;
  RecordType_emit (r_rr_type self) ;;;
  DNSClass_emit (r_dns_class self) ;;;
  BinEncoder_emit_u32 (r_ttl self) ;;;
  let* tmp_buf := emit_tmp (r_rdata self) in
  assert_ (Z.of_nat (length tmp_buf) <=? u16_max) ;;;
  BinEncoder_emit_u16 (as_u16 (Z.of_nat (length tmp_buf))) ;;;
  for_each BinEncoder_emit tmp_buf.

(** ** Reading back what was written *)

(** Data that is written as no bytes at all is read back as [NULL], whatever
    the type of the record. *)
Definition rdata_norm (r : RData) : RData :=
  match r with
  | RData.TXT (mkTXT []) => RData.NULL NULL_new
  | RData.OPT (mkOPT m) => if decide (m = ∅) then RData.NULL NULL_new else r
  | _ => r
  end.

Definition record_norm (r : RRecord) : RRecord :=
  mkRecord (r_name_labels r) (r_rr_type r) (r_dns_class r) (r_ttl r) (rdata_norm (r_rdata r)).

(** A record with a wire form: its data is of its type, or absent. *)
Record record_ok (r : RRecord) : Prop := {
  ro_name : name_ok (r_name_labels r);
  ro_type : r_rr_type r ≠ RecordType.IXFR;
  ro_class :
    if decide (r_rr_type r = RecordType.OPT)
    then labels (r_name_labels r) = [] ∧ ∃ v, r_dns_class r = DNSClass.OPT v ∧ u16 v
    else ∀ v, r_dns_class r ≠ DNSClass.OPT v;
  ro_ttl : u32 (r_ttl r);
  ro_rdata :
    r_rdata r = RData.NULL NULL_new ∨
    type_matches (r_rr_type r) (r_rdata r) ∧ rdata_fields_ok (r_rdata r);
  ro_size : Z.of_nat (rdata_size (r_rdata r)) ≤ u16_max;
}.

Lemma RT_class r :
  record_ok r → 
  RT false (DNSClass_emit (r_dns_class r))
    (if decide (r_rr_type r = RecordType.OPT) then
       if negb (Name_is_root (r_name_labels r)) then fail (EdnsNameNotRoot (labels (r_name_labels r)))
       else let* v := BinDecoder_read_u16 in ret (DNSClass_for_opt v)
     else DNSClass_read) (r_dns_class r).
Proof.
  intros [_ _ Hc _ _ _]. destruct (decide (r_rr_type r = RecordType.OPT)); [|by apply RT_dns_class].
  destruct Hc as (Hroot & v & -> & Hv). unfold Name_is_root.
  rewrite bool_decide_eq_true_2 by done. simpl negb. cbv iota.
  by eapply RT_last; [by apply RT_u16|].
Qed.

(** Reading at the end of the input fails in every format that has a first byte. *)
Definition fails_at_end {A} (m : D A) : Prop :=
  ∀ buf, ∃ e d, m (dec_at buf (length buf)) = (Err e, d).

Lemma fails_bind {A B} (m : D A) (k : A → D B) : fails_at_end m → fails_at_end (bind m k).
Proof. intros H buf. destruct (H buf) as (e & d & E). exists e, d. by apply bind_Err. Qed.

Lemma fails_index {A} (k : nat → D A) :
  (∀ n, fails_at_end (k n)) → fails_at_end (let* n := gets BinDecoder_index in k n).
Proof. intros H buf. apply H. Qed.

Lemma fails_fail {A} e : fails_at_end (A:=A) (fail e).
Proof. intros buf. by eexists _, _. Qed.

Lemma fails_pop : fails_at_end BinDecoder_pop.
Proof. intros buf. unfold BinDecoder_pop. simpl. rewrite lookup_ge_None_2 by lia. eauto. Qed.

Lemma fails_name : fails_at_end Name_read.
Proof.
  intros buf. unfold Name_read, Name_read_fuel. cbn [dbuf].
  replace (2 * length buf + 4)%nat with (S (S (2 * length buf + 2))) by lia.
  rewrite loop_two. rewrite lookup_ge_None_2 by lia. eauto.
Qed.

Lemma fails_rdata t :
  fails_at_end (RData_read_type t 0) ∨
  t = RecordType.TXT ∨ t = RecordType.OPT ∨ t = RecordType.NULL.
Proof.
  destruct t; auto; left; simpl;
    repeat first [apply fails_fail | apply fails_name | apply fails_pop
                 | apply fails_index; intros ? | apply fails_bind].
Qed.

Lemma opt_read_0 d : opt_read 0 d = (Ok (mkOPT ∅), d).
Proof.
  destruct d as [buf p]. unfold opt_read, bind at 1, gets, BinDecoder_index. cbn [dindex].
  cbn [Z.to_nat opt_read_loop]. rewrite bind_assoc. unfold bind at 1, gets, BinDecoder_index.
  cbn [dindex]. rewrite bind_assoc, bind_checked_sub by done. by rewrite Nat.sub_diag.
Qed.

Lemma txt_read_0 buf : txt_read 0 (dec_at buf (length buf)) =
  (Ok (mkTXT []), dec_at buf (length buf)).
Proof.
  unfold txt_read, BinDecoder_len. cbn [Z.to_nat txt_read_loop]. unfold bind at 1. cbn [dbuf dindex].
  rewrite checked_sub_Ok by done. unfold bind at 1, BinDecoder_len. cbn [dbuf dindex].
  rewrite checked_sub_Ok, bind_checked_sub by done. by rewrite Nat.sub_diag.
Qed.

(** So data that was written as no bytes is one of the three formats that may
    be empty. *)
Lemma empty_rdata t r pre e e' :
  type_matches t r → rdata_fields_ok r → enc_ok no_pending pre e → canonical_names e = false →
  RData_emit r e = (Ok (), e') → length (ebuf e') = length (ebuf e) →
  rdata_norm r = RData.NULL NULL_new.
Proof.
  intros Ht Hr Hok Hc He Hlen.
  destruct (RTN_rdata_type t r Ht Hr _ _ _ Hok Hc He) as (_ & _ & Hrd).
  specialize (Hrd []). rewrite app_nil_r, Hlen, Nat.sub_diag, <-Hlen, <-length_app in Hrd.
  change (Z.of_nat 0) with 0 in Hrd. set (buf := pre ++ ebuf e') in *.
  destruct (fails_rdata t) as [Hf|Ht'].
  { destruct (Hf buf) as (x & d & E). congruence. }
  destruct Ht as [->|[-> _]]; [|by destruct Ht' as [?|[?|?]]].
  destruct r; simpl in Ht'; try (by destruct Ht' as [?|[?|?]]); cbn [RData_to_record_type] in Hrd;
    unfold RData_read_type in Hrd.
  - by injection Hrd as <-.
  - rewrite (bind_Ok _ _ _ _ _ (opt_read_0 _)) in Hrd. injection Hrd as <-. simpl.
    by rewrite decide_True.
  - rewrite (bind_Ok _ _ _ _ _ (txt_read_0 _)) in Hrd. by injection Hrd as <-.
Qed.

Lemma rdata_norm_empty r e : rdata_norm r ≠ r → RData_emit r e = (Ok (), e).
Proof.
  destruct r as [| | | | | | | | | | | |[m]| | | | |[[|]]]; try done. simpl.
  destruct (decide (m = ∅)) as [->|]; [|done]. intros _. unfold opt_emit. cbn [opt_options].
  pose proof (hash_order_perm (∅ : gmap EdnsCode EdnsOption)) as Hp.
  rewrite map_to_list_empty in Hp. apply Permutation_nil_r in Hp. by rewrite Hp.
Qed.

(** The length and the data, read by [Record::read]. *)
Lemma RT_rdata_block r :
  record_ok r →
  RT false
    (let* tmp_buf := emit_tmp (r_rdata r) in
     assert_ (Z.of_nat (length tmp_buf) <=? u16_max) ;;;
     BinEncoder_emit_u16 (as_u16 (Z.of_nat (length tmp_buf))) ;;;
     for_each BinEncoder_emit tmp_buf)
    (let* rd_length := BinDecoder_read_u16 in
     if rd_length =? 0 then ret (RData.NULL NULL_new) else RData_read (r_rr_type r) rd_length)
    (rdata_norm (r_rdata r)).
Proof.
  intros Hr pre e e' Hok Hc He. apply bind_Ok_inv in He as (tmp & e1 & Htmp & He).
  unfold emit_tmp in Htmp. destruct (eoffset e + 2 <=? u32_max); [|done].
  destruct (RData_emit (r_rdata r) _) as [[[]|?| |] t] eqn:Hem; try done.
  injection Htmp as <- <-.
  apply bind_Ok_inv in He as ([] & e2 & [Hlen ->]%assert_Ok_inv & He). apply Z.leb_le in Hlen.
  unfold as_u16 in He. rewrite Z.mod_small in He by (unfold u16_max in Hlen; lia).
  apply bind_Ok_inv in He as ([] & e2 & H1 & H2).
  pose proof (enc_ok_emit_u16 no_pending pre _ _ _ Hok H1) as (Hok2 & Hex2 & Hb2).
  pose proof (enc_ok_emit_vec no_pending pre _ _ _ Hok2 H2) as (Hok3 & Hex3 & Hb3 & _).
  split_and!; [done|by etrans|]. intros suf.
  set (n := length (ebuf t)) in *.
  assert (Hbuf : pre ++ ebuf e' ++ suf = (pre ++ ebuf e ++ u16_bytes (Z.of_nat n)) ++ ebuf t ++ suf)
    by (by rewrite Hb3, Hb2, <-!app_assoc).
  destruct (read_u16_bytes (pre ++ ebuf e' ++ suf) (length pre + length (ebuf e)) (Z.of_nat n)
              (ebuf t ++ suf)) as [Hrd _].
  { unfold u16, u16_max in *. lia. }
  { by rewrite Hbuf, <-!app_assoc, app_assoc, <-length_app, drop_app_length. }
  rewrite (bind_Ok _ _ _ _ _ Hrd).
  set (pre' := pre ++ ebuf e ++ u16_bytes (Z.of_nat n)) in *.
  assert (Hpre : length pre' = S (S (length pre + length (ebuf e))))
    by (unfold pre'; rewrite !length_app; simpl; lia).
  replace (length pre + length (ebuf e'))%nat with (length pre' + n)%nat
    by (rewrite Hpre, Hb3, Hb2, !length_app; simpl; lia).
  assert (Hnew : enc_ok no_pending pre' (BinEncoder_with_offset [] (eoffset e + 2) Normal)).
  { replace (eoffset e + 2) with (Z.of_nat (length pre')); [apply enc_ok_new|].
    rewrite Hpre, (eo_offset _ _ _ Hok). lia. }
  destruct (Z.eqb_spec (Z.of_nat n) 0) as [Hz|Hnz].
  - replace n with 0%nat by lia. rewrite Nat.add_0_r, Hpre. unfold ret. do 2 f_equal. symmetry.
    destruct (ro_rdata _ Hr) as [->|[Ht Hf]]; [done|].
    apply (empty_rdata _ _ _ _ _ Ht Hf Hnew eq_refl Hem). fold n. simpl. lia.
  - assert (rdata_norm (r_rdata r) = r_rdata r) as ->.
    { destruct (decide (rdata_norm (r_rdata r) = r_rdata r)) as [|Hne]; [done|].
      rewrite (rdata_norm_empty _ _ Hne) in Hem. injection Hem as <-. done. }
    assert (type_matches (r_rr_type r) (r_rdata r) ∧ rdata_fields_ok (r_rdata r)) as [Ht Hf].
    { destruct (ro_rdata _ Hr) as [Hnull|?]; [|done]. rewrite Hnull in Hem.
      injection Hem as <-. done. }
    destruct (RTN_rdata _ _ Ht Hf _ _ _ Hnew eq_refl Hem) as (_ & _ & Hrt).
    specialize (Hrt suf). simpl in Hrt. rewrite Nat.sub_0_r, Nat.add_0_r in Hrt.
    fold n in Hrt. rewrite <-Hbuf, Hpre in Hrt. by rewrite Hrt, Hpre.
Qed.

Lemma RT_record r : record_ok r → RT false (Record_emit r) Record_read (record_norm r).
Proof.
  intros Hr. unfold Record_emit, Record_read.
  eapply RT_bind; [apply RT_name, (ro_name _ Hr)|].
  eapply RT_bind; [apply RT_record_type, (ro_type _ Hr)|].
  eapply RT_bind; [by apply RT_class|]. eapply RT_bind; [apply RT_u32, (ro_ttl _ Hr)|].
  eapply RT_ext; [done| |eapply RT_last; [by apply RT_rdata_block|]].
  - intros d. apply bind_assoc.
  - done.
Qed.

Definition record_size (r : RRecord) : nat :=
  wire_len (labels (r_name_labels r)) + 10 + rdata_size (r_rdata r).

Lemma TOT_record r : record_ok r → TOT false (Record_emit r) (record_size r).
Proof.
  intros Hr. unfold Record_emit, record_size.
  eapply TOT_weaken; [eapply TOT_bind; [apply TOT_name, (ro_name _ Hr)|];
    do 2 (eapply TOT_bind; [eauto with dns|]); eapply TOT_bind; [apply TOT_u32|]|].
  - instantiate (1 := (2 + rdata_size (r_rdata r))%nat). intros e Hc He.
    pose proof (ro_size _ Hr) as Hsz. unfold u16_max in Hsz.
    assert (Hf : r_rdata r = RData.NULL NULL_new ∨ rdata_fields_ok (r_rdata r))
      by (destruct (ro_rdata _ Hr) as [?|[_ ?]]; auto).
    destruct (TOT_rdata (r_rdata r)) with (BinEncoder_with_offset [] (eoffset e + 2) Normal)
      as (t & Ht & Hg); [|done|simpl; lia|].
    { destruct Hf as [->|?]; [|done]. by vm_compute. }
    rewrite (bind_Ok _ _ (ebuf t) _ e).
    2: { unfold emit_tmp. rewrite (proj2 (Z.leb_le _ _)) by lia. by rewrite Ht. }
    destruct (gr_buf _ _ _ Hg) as (w & Hw & Hwl & _). simpl in Hw. subst w.
    rewrite (bind_Ok _ _ () _ e).
    2: { unfold assert_, u16_max. by rewrite (proj2 (Z.leb_le _ _)) by lia. }
    destruct (TOT_bind false (BinEncoder_emit_u16 (as_u16 (Z.of_nat (length (ebuf t)))))
      (BinEncoder_emit_vec (ebuf t)) 2 (length (ebuf t))) with e as (e' & E & G);
      [apply TOT_u16|apply TOT_emit_vec|done|lia|].
    exists e'. split; [done|]. eapply grown_weaken; [done|lia].
  - lia.
Qed.

(** ** Deciding whether a record has a wire form *)

#[global] Instance soa_ok_dec x : Decision (soa_ok x).
Proof.
  refine (cast_if (decide (name_ok (soa_mname x) ∧ name_ok (soa_rname x) ∧ u32 (soa_serial x) ∧ i32 (soa_refresh x) ∧
    i32 (soa_retry x) ∧ i32 (soa_expire x) ∧ u32 (soa_minimum x)))); dec_fields.
Defined.
#[global] Instance sig_ok_dec x : Decision (sig_ok x).
Proof.
  refine (cast_if (decide (sig_type_covered x ≠ RecordType.IXFR ∧ u32 (sig_original_ttl x) ∧ u32 (sig_expiration x) ∧
    u32 (sig_inception x) ∧ u16 (sig_key_tag x) ∧ name_ok (sig_signer_name x)))); dec_fields.
Defined.
#[global] Instance nsec3_ok_dec x : Decision (nsec3_ok x).
Proof.
  refine (cast_if (decide (u16 (n3_iterations x) ∧ (length (n3_salt x) ≤ 255)%nat ∧
    (length (n3_next_hashed_owner_name x) ≤ 255)%nat ∧ type_list_ok (n3_type_bit_maps x))));
    dec_fields.
Defined.
#[global] Instance option_ok_dec k o : Decision (option_ok k o).
Proof.
  refine (cast_if (decide (u16 (EdnsCode_to_u16 k) ∧ EdnsCode_from_u16 (EdnsCode_to_u16 k) = k ∧
    EdnsOption_from k (EdnsOption_to_bytes o) = o ∧ 0 < Z.of_nat (length (EdnsOption_to_bytes o)) < 65536 ∧
    EdnsOption_len o = Z.of_nat (length (EdnsOption_to_bytes o))))); dec_fields.
Defined.
#[global] Instance rdata_fields_ok_dec r : Decision (rdata_fields_ok r).
Proof.
  destruct r; simpl; unfold ipv6_ok, ds_ok, null_ok, nsec_ok, nsec3param_ok, opt_ok, char_data_ok; apply _.
Defined.

#[local] Instance some_opt_class_dec c : Decision (∃ v, c = DNSClass.OPT v ∧ u16 v).
Proof.
  destruct c as [| | | | |o]; try (right; by intros (v & ? & _)). refine (cast_if (decide (u16 o))); naive_solver.
Defined.
#[global] Instance no_opt_class_dec c : Decision (∀ v, c ≠ DNSClass.OPT v).
Proof. destruct c as [| | | | |o]; first [by left|right; intros H; by destruct (H o)]. Defined.
#[local] Instance class_ok_dec r : Decision
  (if decide (r_rr_type r = RecordType.OPT)
   then labels (r_name_labels r) = [] ∧ ∃ v, r_dns_class r = DNSClass.OPT v ∧ u16 v
   else ∀ v, r_dns_class r ≠ DNSClass.OPT v).
Proof. case_decide; apply _. Defined.

#[global] Instance record_ok_dec r : Decision (record_ok r).
Proof.
  refine (cast_if (decide (name_ok (r_name_labels r) ∧ r_rr_type r ≠ RecordType.IXFR ∧
    (if decide (r_rr_type r = RecordType.OPT)
     then labels (r_name_labels r) = [] ∧ ∃ v, r_dns_class r = DNSClass.OPT v ∧ u16 v
     else ∀ v, r_dns_class r ≠ DNSClass.OPT v) ∧
    u32 (r_ttl r) ∧
    (r_rdata r = RData.NULL NULL_new ∨
     (r_rr_type r = RData_to_record_type (r_rdata r) ∨
      r_rr_type r = RecordType.RRSIG ∧ RData_to_record_type (r_rdata r) = RecordType.SIG) ∧ rdata_fields_ok (r_rdata r)) ∧
    Z.of_nat (rdata_size (r_rdata r)) ≤ u16_max))); dec_fields.
Defined.
End record.
