(* ===== verification/Message.v ===== *)
(** * Messages

    Models [client/src/op/message.rs] and [client/src/op/edns.rs]: the EDNS
    pseudo record, the message with its sections, its builders, and its wire
    form. *)

From S2P Require Import Prelude Codec Wire Domain Enums Header.
From S2P Require Import RData RDataWire BitMaps RDataProps Resource.

Open Scope Z_scope.

(** ** [Edns] *)

Record Edns : Type := mkEdns {
  e_rcode_high : Z;
  e_version : Z;
  e_dnssec_ok : bool;
  e_max_payload : Z;
  e_options : OPT;
}.

#[global] Instance Edns_eq_dec : EqDecision Edns.
Proof. solve_decision. Defined.

Definition Edns_new : Edns := mkEdns 0 0 false 512 (mkOPT ∅).
Definition Edns_get_option (self : Edns) (code : EdnsCode) : option EdnsOption :=
  OPT_get (e_options self) code.
Definition Edns_set_rcode_high (self : Edns) (rcode_high : Z) : Edns :=
  mkEdns rcode_high (e_version self) (e_dnssec_ok self) (e_max_payload self) (e_options self).
Definition Edns_set_version (self : Edns) (version : Z) : Edns :=
  mkEdns (e_rcode_high self) version (e_dnssec_ok self) (e_max_payload self) (e_options self).
Definition Edns_set_dnssec_ok (self : Edns) (dnssec_ok : bool) : Edns :=
  mkEdns (e_rcode_high self) (e_version self) dnssec_ok (e_max_payload self) (e_options self).
Definition Edns_set_max_payload (self : Edns) (max_payload : Z) : Edns :=
  mkEdns (e_rcode_high self) (e_version self) (e_dnssec_ok self) max_payload (e_options self).
Definition Edns_set_option (self : Edns) (option : EdnsOption) : Edns :=
  mkEdns (e_rcode_high self) (e_version self) (e_dnssec_ok self) (e_max_payload self)
    (OPT_insert (e_options self) option).

(** [impl From<&Record> for Edns] *)
Definition Edns_from_record {E} (value : RRecord) : res E Edns :=
  if decide (r_rr_type value = RecordType.OPT) then
    let rcode_high := as_u8 (Z.shiftr (Z.land (r_ttl value) 4278190080) 24) in
    let version := as_u8 (Z.shiftr (Z.land (r_ttl value) 16711680) 16) in
    let dnssec_ok := Z.land (r_ttl value) 32768 =? 32768 in
    let max_payload :=
      if DNSClass_to_u16 (r_dns_class value) <? 512 then 512
      else DNSClass_to_u16 (r_dns_class value) in
    try* options :=
      match r_rdata value with
      | RData.NULL _ => Ok (mkOPT ∅)
      | RData.OPT option_data => Ok option_data
      | _ => Panic
      end in
    Ok (mkEdns rcode_high version dnssec_ok max_payload options)
  else Panic.

(** [impl From<&Edns> for Record] *)
Definition Edns_ttl (value : Edns) : Z :=
  let ttl := as_u32 (Z.shiftl (e_rcode_high value) 24) in
  let ttl := Z.lor ttl (as_u32 (Z.shiftl (e_version value) 16)) in
  if e_dnssec_ok value then Z.lor ttl 32768 else ttl.

Definition Record_from_edns (value : Edns) : RRecord :=
  let record := Record_new in
  let record := Record_name record Name_root in
  let record := Record_rr_type record RecordType.OPT in
  let record := Record_dns_class record (DNSClass.OPT (e_max_payload value)) in
  let record := Record_ttl record (Edns_ttl value) in
  Record_rdata record (RData.OPT (e_options value)).

(** ** [Message] *)

Record Message : Type := mkMessage {
  m_header : Header;
  m_queries : list Query;
  m_answers : list RRecord;
  m_name_servers : list RRecord;
  m_additionals : list RRecord;
  m_sig0 : list RRecord;
  m_edns : option Edns;
}.

#[global] Instance Message_eq_dec : EqDecision Message.
Proof. solve_decision. Defined.

Definition Message_new : Message := mkMessage Header_new [] [] [] [] [] None.

Definition Message_with_header (self : Message) (header : Header) : Message :=
  mkMessage header (m_queries self) (m_answers self) (m_name_servers self) (m_additionals self)
    (m_sig0 self) (m_edns self).

Definition Message_id (self : Message) (id : Z) : Message :=
  Message_with_header self (Header_id (m_header self) id).
Definition Message_message_type (self : Message) (message_type : MessageType) : Message :=
  Message_with_header self (Header_message_type (m_header self) message_type).
Definition Message_op_code (self : Message) (op_code : OpCode) : Message :=
  Message_with_header self (Header_op_code (m_header self) op_code).
Definition Message_authoritative (self : Message) (authoritative : bool) : Message :=
  Message_with_header self (Header_authoritative (m_header self) authoritative).
Definition Message_truncated (self : Message) (truncated : bool) : Message :=
  Message_with_header self (Header_truncated (m_header self) truncated).
Definition Message_recursion_desired (self : Message) (recursion_desired : bool) : Message :=
  Message_with_header self (Header_recursion_desired (m_header self) recursion_desired).
Definition Message_recursion_available (self : Message) (recursion_available : bool) : Message :=
  Message_with_header self (Header_recursion_available (m_header self) recursion_available).
Definition Message_authentic_data (self : Message) (authentic_data : bool) : Message :=
  Message_with_header self (Header_authentic_data (m_header self) authentic_data).
Definition Message_checking_disabled (self : Message) (checking_disabled : bool) : Message :=
  Message_with_header self (Header_checking_disabled (m_header self) checking_disabled).
Definition Message_response_code (self : Message) (response_code : ResponseCode) : Message :=
  Message_with_header self (Header_response_code (m_header self) response_code).

Definition Message_add_query (self : Message) (query : Query) : Message :=
  mkMessage (m_header self) (m_queries self ++ [query]) (m_answers self) (m_name_servers self)
    (m_additionals self) (m_sig0 self) (m_edns self).
Definition Message_add_answer (self : Message) (record : RRecord) : Message :=
  mkMessage (m_header self) (m_queries self) (m_answers self ++ [record]) (m_name_servers
    self) (m_additionals self) (m_sig0 self) (m_edns self).
Definition Message_add_name_server (self : Message) (record : RRecord) : Message :=
  mkMessage (m_header self) (m_queries self) (m_answers self) (m_name_servers self ++
    [record]) (m_additionals self) (m_sig0 self) (m_edns self).
Definition Message_add_additional (self : Message) (record : RRecord) : Message :=
  mkMessage (m_header self) (m_queries self) (m_answers self) (m_name_servers self)
    (m_additionals self ++ [record]) (m_sig0 self) (m_edns self).

Definition Message_add_queries (self : Message) (queries : list Query) : Message :=
  foldl Message_add_query self queries.
Definition Message_add_answers (self : Message) (records : list RRecord) : Message :=
  foldl Message_add_answer self records.
Definition Message_add_name_servers (self : Message) (records : list RRecord) : Message :=
  foldl Message_add_name_server self records.

(** The deprecated methods, which clone what they are given. *)
Definition Message_add_all_queries (self : Message) (queries : list Query) : Message :=
  foldl Message_add_query self queries.
Definition Message_add_all_answers (self : Message) (vector : list RRecord) : Message :=
  foldl Message_add_answer self vector.
Definition Message_add_all_name_servers (self : Message) (vector : list RRecord) : Message :=
  foldl Message_add_name_server self vector.

(** The [insert_] methods assert that the section is empty. *)
Definition Message_insert_answers {E} (self : Message) (records : list RRecord) : res E Message :=
  if decide (m_answers self = []) then
    Ok (mkMessage (m_header self) (m_queries self) records (m_name_servers self) (m_additionals
    self) (m_sig0 self) (m_edns self))
  else Panic.
Definition Message_insert_name_servers {E} (self : Message) (records : list RRecord) : res E Message :=
  if decide (m_name_servers self = []) then
    Ok (mkMessage (m_header self) (m_queries self) (m_answers self) records (m_additionals self)
    (m_sig0 self) (m_edns self))
  else Panic.
Definition Message_insert_additionals {E} (self : Message) (records : list RRecord) : res E Message :=
  if decide (m_additionals self = []) then
    Ok (mkMessage (m_header self) (m_queries self) (m_answers self) (m_name_servers self) records
    (m_sig0 self) (m_edns self))
  else Panic.

Definition Message_set_edns (self : Message) (edns : Edns) : Message :=
  mkMessage (m_header self) (m_queries self) (m_answers self) (m_name_servers self)
    (m_additionals self) (m_sig0 self) (Some edns).

Definition Message_add_sig0 {E} (self : Message) (record : RRecord) : res E Message :=
  if decide (RecordType.SIG = r_rr_type record) then
    Ok (mkMessage (m_header self) (m_queries self) (m_answers self) (m_name_servers self)
    (m_additionals self) (m_sig0 self ++ [record]) (m_edns self))
  else Panic.

(** The [take_] methods leave the section empty. *)
Definition Message_take_answers (self : Message) : list RRecord * Message :=
  (m_answers self,
   mkMessage (m_header self) (m_queries self) [] (m_name_servers self) (m_additionals self)
    (m_sig0 self) (m_edns self)).
Definition Message_take_name_servers (self : Message) : list RRecord * Message :=
  (m_name_servers self,
   mkMessage (m_header self) (m_queries self) (m_answers self) [] (m_additionals self) (m_sig0
    self) (m_edns self)).
Definition Message_take_additionals (self : Message) : list RRecord * Message :=
  (m_additionals self,
   mkMessage (m_header self) (m_queries self) (m_answers self) (m_name_servers self) [] (m_sig0
    self) (m_edns self)).

Definition Message_get_edns_mut (self : Message) : Edns * Message :=
  match m_edns self with
  | Some edns => (edns, self)
  | None => (Edns_new, Message_set_edns self Edns_new)
  end.

Definition Message_get_response_code {E} (self : Message) : res E ResponseCode :=
  ResponseCode_from (match m_edns self with Some e => e_rcode_high e | None => 0 end)
    (h_response_code (m_header self)).

Definition Message_get_max_payload (self : Message) : Z :=
  let max_size := match m_edns self with Some e => e_max_payload e | None => 512 end in
  if max_size <? 512 then 512 else max_size.

Definition Message_get_version (self : Message) : Z :=
  match m_edns self with Some e => e_version e | None => 0 end.

Definition Message_error_msg (id : Z) (op_code : OpCode) (response_code : ResponseCode) : Message :=
  let message := Message_new in
  let message := Message_message_type message MessageType.Response in
  let message := Message_id message id in
  let message := Message_response_code message response_code in
  Message_op_code message op_code.

Definition Message_truncate {E} (self : Message) : res E Message :=
  let truncated := Message_new in
  let truncated := Message_id truncated (h_id (m_header self)) in
  let truncated := Message_message_type truncated (h_message_type (m_header self)) in
  let truncated := Message_op_code truncated (h_op_code (m_header self)) in
  let truncated := Message_authoritative truncated (h_authoritative (m_header self)) in
  let truncated := Message_truncated truncated true in
  let truncated := Message_recursion_desired truncated (h_recursion_desired (m_header self)) in
  let truncated := Message_recursion_available truncated (h_recursion_available (m_header self)) in
  try* response_code := Message_get_response_code self in
  let truncated := Message_response_code truncated response_code in
  Ok (match m_edns self with
      | Some edns => Message_set_edns truncated edns
      | None => truncated
      end).

(** ** Wire form *)

Definition Message_update_header_counts {E} (self : Message) (include_sig0 : bool) : res E Header :=
  if (Z.of_nat (length (m_queries self)) <=? u16_max) &&
     (Z.of_nat (length (m_answers self)) <=? u16_max) &&
     (Z.of_nat (length (m_name_servers self)) <=? u16_max) &&
     (Z.of_nat (length (m_additionals self) + length (m_sig0 self)) <=? u16_max) then
    let additional_count := length (m_additionals self) in
    let additional_count :=
      match m_edns self with Some _ => (additional_count + 1)%nat | None => additional_count end in
    let additional_count :=
      if include_sig0 then (additional_count + length (m_sig0 self))%nat else additional_count in
    Ok (Header_clone (m_header self)
          (as_u16 (Z.of_nat (length (m_queries self))))
          (as_u16 (Z.of_nat (length (m_answers self))))
          (as_u16 (Z.of_nat (length (m_name_servers self))))
          (as_u16 (Z.of_nat additional_count)))
  else Panic.

(** The loop of [read_records]. *)
Fixpoint read_records_loop (count : nat) (is_additional : bool) (records : list RRecord)
    (edns : option Edns) (sig0s : list RRecord) (saw_sig0 : bool) :
    D (list RRecord * option Edns * list RRecord) :=
  match count with
  | O => ret (records, edns, sig0s)
  | S count =>
      let* record := Record_read in
      if negb is_additional then
        if saw_sig0 then fail (Codec.Message "sig0 must be final resource record")
        else read_records_loop count is_additional (records ++ [record]) edns sig0s saw_sig0
      else
        match r_rr_type record with
        | RecordType.SIG =>
            read_records_loop count is_additional records edns (sig0s ++ [record]) true
        | RecordType.OPT =>
            if saw_sig0 then fail (Codec.Message "sig0 must be final resource record")
            else match edns with
            | Some _ => fail (Codec.Message "more than one edns record present")
            | None =>
                let* e := lift (Edns_from_record record) in
                read_records_loop count is_additional records (Some e) sig0s saw_sig0
            end
        | _ =>
            if saw_sig0 then fail (Codec.Message "sig0 must be final resource record")
            else read_records_loop count is_additional (records ++ [record]) edns sig0s saw_sig0
        end
  end.

Definition Message_read_records (count : nat) (is_additional : bool) :
    D (list RRecord * option Edns * list RRecord) :=
  read_records_loop count is_additional [] None [] false.

Definition Message_read : D Message :=
  let* header := Header_read in
  let* queries := repeat_m (Z.to_nat (h_query_count header)) Query_read in
  let answer_count := Z.to_nat (h_answer_count header) in
  let name_server_count := Z.to_nat (h_name_server_count header) in
  let additional_count := Z.to_nat (h_additional_count header) in
  let* answers := Message_read_records answer_count false in
  let* name_servers := Message_read_records name_server_count false in
  let* additionals := Message_read_records additional_count true in
  ret (mkMessage header queries answers.1.1 name_servers.1.1 additionals.1.1 additionals.2
         additionals.1.2).

Definition Message_from_vec (buffer : bytes) : res decode_error Message :=
  (Message_read (BinDecoder_new buffer)).1.

Section emit.
Context `{L : Lowercase} `{HO : HashOrder}.

Definition Message_emit_records (records : list RRecord) : X () := for_each Record_emit records.

Definition Message_emit (self : Message) : X () :=
  let* mode := gets BinEncoder_mode in
  let include_sig0 := bool_decide (mode ≠ Signing) in
  let* header := lift (Message_update_header_counts self include_sig0) in
  Header_emit header ;;;
  for_each Query_emit (m_queries self) ;;;
  Message_emit_records (m_answers self) ;;;
  Message_emit_records (m_name_servers self) ;;;
  Message_emit_records (m_additionals self) ;;;
  (match m_edns self with Some edns => Record_emit (Record_from_edns edns) | None => ret () end) ;;;
  (if include_sig0 then Message_emit_records (m_sig0 self) else ret ()).

Definition Message_to_vec (self : Message) : res encode_error bytes :=
  match Message_emit self (BinEncoder_new []) with
  | (Ok _, e) => Ok (ebuf e)
  | (Err x, _) => Err x
  | (Panic, _) => Panic
  | (Diverge, _) => Diverge
  end.
End emit.

(** ** The EDNS record *)

Lemma Edns_ttl_sum v :
  u8 (e_rcode_high v) → u8 (e_version v) →
  Edns_ttl v = e_rcode_high v * 2^24 + e_version v * 2^16 + (if e_dnssec_ok v then 32768 else 0).
Proof.
  unfold u8. intros Hr Hv. unfold Edns_ttl, as_u32. rewrite !shiftl_mul by lia.
  rewrite !Z.mod_small by lia. rewrite lor_low by lia. cbv zeta.
  destruct (e_dnssec_ok v); [|lia].
  replace (e_rcode_high v * 2^24 + e_version v * 2^16)
    with ((e_rcode_high v * 2^8 + e_version v) * 2^16) by lia.
  rewrite lor_low by lia. lia.
Qed.

Record edns_ok (v : Edns) : Prop := {
  eo_rcode_high : u8 (e_rcode_high v);
  eo_version : u8 (e_version v);
  eo_max_payload : 512 ≤ e_max_payload v < 65536;
  eo_options : opt_ok (e_options v);
  eo_size : Z.of_nat (rdata_size (RData.OPT (e_options v))) ≤ u16_max;
}.

Lemma edns_record_ok v : edns_ok v → record_ok (Record_from_edns v).
Proof.
  intros [Hr Hv Hm Ho Hs]. split; simpl.
  - split; [constructor|unfold wire_len; simpl; lia].
  - done.
  - split; [done|]. exists (e_max_payload v). split; [done|]. unfold u16. lia.
  - rewrite Edns_ttl_sum by done. unfold u32, u8 in *. destruct (e_dnssec_ok v); lia.
  - right. split; [by left|done].
  - done.
Qed.

Lemma Edns_roundtrip {E} v :
  edns_ok v → Edns_from_record (E:=E) (record_norm (Record_from_edns v)) = Ok v.
Proof.
  intros [Hr Hv Hm _ _]. unfold Edns_from_record. cbn [record_norm r_rr_type].
  rewrite decide_True by done. cbn [record_norm r_ttl r_dns_class r_rdata Record_from_edns].
  cbn -[Z.shiftr Z.land Edns_ttl rdata_norm rbind].
  assert (rbind (E:=E) match rdata_norm (RData.OPT (e_options v)) with
                | RData.NULL _ => Ok (mkOPT ∅)
                | RData.OPT option_data => Ok option_data
                | _ => Panic
                end = rbind (Ok (e_options v))) as ->.
  { destruct v as [? ? ? ? [m]]. simpl. by destruct (decide (m = ∅)) as [->|]. }
  simpl rbind. rewrite (proj2 (Z.ltb_ge _ _)) by lia.
  rewrite Edns_ttl_sum by done. unfold u8 in *. destruct v as [rh ve d mp o]. simpl in *.
  do 2 f_equal.
  - rewrite Z.shiftr_land. change (Z.shiftr 4278190080 24) with 255. destruct d; solve_bytes.
  - rewrite Z.shiftr_land. change (Z.shiftr 16711680 16) with 255. destruct d; solve_bytes.
  - rewrite Z.land_comm. change 32768 with (2^15) at 1 3. rewrite land_pow2 by lia.
    rewrite Z.testbit_eqb by lia. destruct d.
    + apply Z.eqb_eq. Z.div_mod_to_equations. lia.
    + apply Z.eqb_neq. Z.div_mod_to_equations. lia.
Qed.

(** ** Reading the sections back *)

Section wire.
Context `{L : Lowercase} `{HO : HashOrder}.

Lemma RT_section rs acc :
  Forall record_ok rs →
  RT false (Message_emit_records rs) (read_records_loop (length rs) false acc None [] false)
    (acc ++ (record_norm <$> rs), None, []).
Proof.
  unfold Message_emit_records. revert acc. induction rs as [|r rs IH]; intros acc Hrs.
  - simpl. rewrite app_nil_r. apply RT_ret.
  - apply Forall_cons in Hrs as [Hr Hrs]. simpl. eapply RT_bind; [by apply RT_record|]. simpl.
    specialize (IH (acc ++ [record_norm r]) Hrs). by rewrite <-app_assoc in IH.
Qed.

(** The additional section: plain records, then the EDNS record, then the
    signatures. *)
Lemma RT_sig0 rs recs edns acc saw :
  Forall record_ok rs → Forall (λ r, r_rr_type r = RecordType.SIG) rs →
  RT false (Message_emit_records rs) (read_records_loop (length rs) true recs edns acc saw)
    (recs, edns, acc ++ (record_norm <$> rs)).
Proof.
  unfold Message_emit_records. revert acc saw. induction rs as [|r rs IH]; intros acc saw Hrs Ht.
  - simpl. rewrite app_nil_r. apply RT_ret.
  - apply Forall_cons in Hrs as [Hr Hrs]. apply Forall_cons in Ht as [Htr Ht]. simpl.
    eapply RT_bind; [by apply RT_record|]. simpl. rewrite Htr.
    specialize (IH (acc ++ [record_norm r]) true Hrs Ht). by rewrite <-app_assoc in IH.
Qed.

Lemma RT_plain rs n acc (em : X ()) x :
  Forall record_ok rs →
  Forall (λ r, r_rr_type r ≠ RecordType.SIG ∧ r_rr_type r ≠ RecordType.OPT) rs →
  RT false em (read_records_loop n true (acc ++ (record_norm <$> rs)) None [] false) x →
  RT false (Message_emit_records rs ;;; em)
    (read_records_loop (length rs + n) true acc None [] false) x.
Proof.
  unfold Message_emit_records. revert acc. induction rs as [|r rs IH]; intros acc Hrs Ht Hem.
  - simpl in *. rewrite app_nil_r in Hem. by eapply RT_ext; [|done|exact Hem].
  - apply Forall_cons in Hrs as [Hr Hrs]. apply Forall_cons in Ht as [[Hs Ho] Ht].
    eapply (RT_ext _ (Record_emit r ;;; for_each Record_emit rs ;;; em));
      [intros e; simpl; by rewrite bind_assoc|done|].
    simpl. eapply RT_bind; [by apply RT_record|]. simpl.
    assert (RT false (for_each Record_emit rs ;;; em)
      (read_records_loop (length rs + n) true (acc ++ [record_norm r]) None [] false) x).
    { apply IH; [done..|]. by rewrite <-app_assoc. }
    by destruct (r_rr_type r).
Qed.

Record message_ok (m : Message) : Prop := {
  mo_id : u16 (h_id (m_header m));
  mo_response_code : 0 ≤ h_response_code (m_header m) < 16;
  mo_queries : Forall query_ok (m_queries m);
  mo_answers : Forall record_ok (m_answers m);
  mo_name_servers : Forall record_ok (m_name_servers m);
  mo_additionals : Forall record_ok (m_additionals m);
  mo_additional_types :
    Forall (λ r, r_rr_type r ≠ RecordType.SIG ∧ r_rr_type r ≠ RecordType.OPT) (m_additionals m);
  mo_sig0 : Forall record_ok (m_sig0 m);
  mo_sig0_types : Forall (λ r, r_rr_type r = RecordType.SIG) (m_sig0 m);
  mo_edns : if m_edns m is Some edns then edns_ok edns else True;
  mo_query_count : Z.of_nat (length (m_queries m)) ≤ u16_max;
  mo_answer_count : Z.of_nat (length (m_answers m)) ≤ u16_max;
  mo_name_server_count : Z.of_nat (length (m_name_servers m)) ≤ u16_max;
  mo_additional_count :
    Z.of_nat (length (m_additionals m) + length (m_sig0 m) +
              (if m_edns m is Some _ then 1 else 0)) ≤ u16_max;
}.

#[global] Instance query_ok_dec q : Decision (query_ok q).
Proof.
  refine (cast_if (decide (name_ok (q_name q) ∧ q_query_type q ≠ RecordType.IXFR ∧ ∀ o, q_query_class q ≠ DNSClass.OPT o)));
    dec_fields.
Defined.
#[global] Instance edns_ok_dec v : Decision (edns_ok v).
Proof.
  refine (cast_if (decide (u8 (e_rcode_high v) ∧ u8 (e_version v) ∧ (512 ≤ e_max_payload v < 65536) ∧
    map_Forall option_ok (opt_options (e_options v)) ∧ Z.of_nat (rdata_size (RData.OPT (e_options v))) ≤ u16_max)));
    dec_fields.
Defined.
#[local] Instance some_edns_ok_dec o : Decision (if o is Some edns then edns_ok edns else True).
Proof. destruct o; apply _. Defined.
#[global] Instance message_ok_dec m : Decision (message_ok m).
Proof.
  refine (cast_if (decide (u16 (h_id (m_header m)) ∧ (0 ≤ h_response_code (m_header m) < 16) ∧
    Forall query_ok (m_queries m) ∧ Forall record_ok (m_answers m) ∧ Forall record_ok (m_name_servers m) ∧
    Forall record_ok (m_additionals m) ∧
    Forall (λ r, r_rr_type r ≠ RecordType.SIG ∧ r_rr_type r ≠ RecordType.OPT) (m_additionals m) ∧
    Forall record_ok (m_sig0 m) ∧ Forall (λ r, r_rr_type r = RecordType.SIG) (m_sig0 m) ∧
    (if m_edns m is Some edns then edns_ok edns else True) ∧
    Z.of_nat (length (m_queries m)) ≤ u16_max ∧ Z.of_nat (length (m_answers m)) ≤ u16_max ∧
    Z.of_nat (length (m_name_servers m)) ≤ u16_max ∧
    Z.of_nat (length (m_additionals m) + length (m_sig0 m) + (if m_edns m is Some _ then 1 else 0)) ≤ u16_max)));
    dec_fields.
Defined.

(** The header with the counts of the sections. *)
Definition counted_header (m : Message) : Header :=
  Header_clone (m_header m) (Z.of_nat (length (m_queries m))) (Z.of_nat (length (m_answers m)))
    (Z.of_nat (length (m_name_servers m)))
    (Z.of_nat (length (m_additionals m) + ((if m_edns m is Some _ then 1 else 0) +
                                           length (m_sig0 m)))).

(** What reading a written message gives: the counts are in the header, and data
    written as no bytes is absent. *)
Definition message_norm (m : Message) : Message :=
  mkMessage (counted_header m) (m_queries m) (record_norm <$> m_answers m)
    (record_norm <$> m_name_servers m) (record_norm <$> m_additionals m)
    (record_norm <$> m_sig0 m) (m_edns m).

Lemma update_header_counts_ok {E} m :
  message_ok m → Message_update_header_counts (E:=E) m true = Ok (counted_header m).
Proof.
  intros Hm. pose proof (mo_query_count _ Hm). pose proof (mo_answer_count _ Hm).
  pose proof (mo_name_server_count _ Hm). pose proof (mo_additional_count _ Hm).
  unfold Message_update_header_counts, counted_header, u16_max, as_u16 in *.
  rewrite !(proj2 (Z.leb_le _ _)) by lia. simpl andb. cbv iota.
  do 2 f_equal; try (rewrite Z.mod_small by lia; done).
  destruct (m_edns m); rewrite Z.mod_small by lia; f_equal; lia.
Qed.

Lemma counted_header_ok m : message_ok m → header_ok (counted_header m).
Proof.
  intros Hm. pose proof (mo_query_count _ Hm). pose proof (mo_answer_count _ Hm).
  pose proof (mo_name_server_count _ Hm). pose proof (mo_additional_count _ Hm).
  unfold u16_max in *. split; simpl; unfold u16; try lia; apply Hm.
Qed.

(** The message after its header. *)
Definition emit_body (m : Message) : X () :=
  Header_emit (counted_header m) ;;;
  for_each Query_emit (m_queries m) ;;;
  Message_emit_records (m_answers m) ;;;
  Message_emit_records (m_name_servers m) ;;;
  Message_emit_records (m_additionals m) ;;;
  (match m_edns m with Some edns => Record_emit (Record_from_edns edns) | None => ret () end) ;;;
  Message_emit_records (m_sig0 m).

Lemma Message_emit_body m e :
  message_ok m → emode e = Normal → Message_emit m e = emit_body m e.
Proof.
  intros Hm He. unfold Message_emit, bind at 1, gets, BinEncoder_mode. rewrite He.
  rewrite bool_decide_eq_true_2 by done.
  by rewrite (bind_Ok _ _ (counted_header m) _ e) by (unfold lift; by rewrite update_header_counts_ok).
Qed.

Lemma RT_edns_sig0 m recs :
  message_ok m →
  RT false
    ((match m_edns m with Some edns => Record_emit (Record_from_edns edns) | None => ret () end) ;;;
     Message_emit_records (m_sig0 m))
    (read_records_loop ((if m_edns m is Some _ then 1 else 0) + length (m_sig0 m)) true recs None []
       false)
    (recs, m_edns m, record_norm <$> m_sig0 m).
Proof.
  intros Hm. pose proof (mo_edns _ Hm) as He. destruct (m_edns m) as [edns|]; simpl.
  - eapply RT_bind; [by apply RT_record, edns_record_ok|]. cbn [record_norm r_rr_type].
    eapply RT_bind_pure; [intros d; unfold lift; by rewrite Edns_roundtrip|].
    apply (RT_sig0 _ recs (Some edns) []); apply Hm.
  - eapply RT_ext; [| |apply (RT_sig0 (m_sig0 m) recs None [] false); apply Hm]; done.
Qed.

Lemma RT_body m : message_ok m → RT false (emit_body m) Message_read (message_norm m).
Proof.
  intros Hm. unfold emit_body, Message_read.
  eapply RT_bind; [by apply RT_header, counted_header_ok|].
  cbn [counted_header Header_clone h_query_count h_answer_count h_name_server_count h_additional_count].
  rewrite !Nat2Z.id.
  eapply RT_bind.
  { apply RT_for_each. intros q Hq. apply RT_query. pose proof (mo_queries _ Hm) as H.
    rewrite Forall_forall in H. auto. }
  eapply RT_bind; [apply RT_section, Hm|]. eapply RT_bind; [apply RT_section, Hm|].
  eapply RT_last; [apply RT_plain; [apply Hm..|]; by apply RT_edns_sig0|done].
Qed.

(** ** Filling the sections *)

Lemma add_answers_eq m rs :
  Message_add_answers m rs =
  mkMessage (m_header m) (m_queries m) (m_answers m ++ rs) (m_name_servers m) (m_additionals m) (m_sig0 m) (m_edns m).
Proof.
  unfold Message_add_answers. revert m. induction rs as [|r rs IH]; intros m; simpl.
  - rewrite app_nil_r. by destruct m.
  - rewrite IH. simpl. by rewrite <-app_assoc.
Qed.

Lemma add_name_servers_eq m rs :
  Message_add_name_servers m rs =
  mkMessage (m_header m) (m_queries m) (m_answers m) (m_name_servers m ++ rs) (m_additionals m) (m_sig0 m) (m_edns m).
Proof.
  unfold Message_add_name_servers. revert m. induction rs as [|r rs IH]; intros m; simpl.
  - rewrite app_nil_r. by destruct m.
  - rewrite IH. simpl. by rewrite <-app_assoc.
Qed.

Lemma add_queries_eq m qs :
  Message_add_queries m qs =
  mkMessage (m_header m) (m_queries m ++ qs) (m_answers m) (m_name_servers m) (m_additionals m) (m_sig0 m) (m_edns m).
Proof.
  unfold Message_add_queries. revert m. induction qs as [|q qs IH]; intros m; simpl.
  - rewrite app_nil_r. by destruct m.
  - rewrite IH. simpl. by rewrite <-app_assoc.
Qed.

(** ** The size of a message *)

Definition message_size (m : Message) : nat :=
  (12 + (sum_list_with (λ _, 259) (m_queries m) +
        (sum_list_with record_size (m_answers m) +
         (sum_list_with record_size (m_name_servers m) +
          (sum_list_with record_size (m_additionals m) +
           ((if m_edns m is Some edns then record_size (Record_from_edns edns) else 0) +
            sum_list_with record_size (m_sig0 m)))))))%nat.

Lemma TOT_records rs :
  Forall record_ok rs → TOT false (Message_emit_records rs) (sum_list_with record_size rs).
Proof.
  intros Hrs. apply TOT_for_each. intros r Hr. apply TOT_record.
  rewrite Forall_forall in Hrs. auto.
Qed.

Lemma TOT_body m : message_ok m → TOT false (emit_body m) (message_size m).
Proof.
  intros Hm. unfold emit_body, message_size. apply TOT_bind; [apply TOT_header|].
  apply TOT_bind.
  { apply TOT_for_each. intros q Hq. apply TOT_query. pose proof (mo_queries _ Hm) as H.
    rewrite Forall_forall in H. auto. }
  do 3 (apply TOT_bind; [apply TOT_records, Hm|]).
  apply TOT_bind; [|apply TOT_records, Hm]. pose proof (mo_edns _ Hm) as He.
  destruct (m_edns m); [by apply TOT_record, edns_record_ok|apply TOT_ret].
Qed.

Lemma message_written_read m bs :
  message_ok m → Message_to_vec m = Ok bs → Message_from_vec bs = Ok (message_norm m).
Proof.
  intros Hm H. unfold Message_to_vec in H. rewrite Message_emit_body in H by done.
  destruct (emit_body m (BinEncoder_new [])) as [[[]|?| |] e] eqn:He; try discriminate H.
  injection H as <-.
  destruct (RT_body m Hm [] (BinEncoder_new []) e (enc_ok_new [] Normal) eq_refl He)
    as (_ & _ & Hr).
  specialize (Hr []). simpl in Hr. rewrite app_nil_r in Hr.
  unfold Message_from_vec, BinDecoder_new. by rewrite Hr.
Qed.

(** ** The properties of messages *)

(** C1: A message that is written is read back: for a well-formed message,
    whatever [to_vec] returns, [from_vec] parses to the same queries, records,
    EDNS data and signatures in the same sections and order, with the section
    counts in the header (and data written as no bytes absent). *)
Theorem Message_roundtrip m bs :
  message_ok m → Message_to_vec m = Ok bs → Message_from_vec bs = Ok (message_norm m).
Proof. apply message_written_read. Qed.

(** Writing a well-formed message always succeeds, within a bound that is
    the sum of its records' uncompressed sizes. *)
Theorem Message_to_vec_total m :
  message_ok m → Z.of_nat (message_size m) ≤ u32_max →
  ∃ bs, Message_to_vec m = Ok bs ∧ (length bs ≤ message_size m)%nat.
Proof.
  intros Hm Hs. unfold Message_to_vec. rewrite Message_emit_body by done.
  destruct (TOT_body m Hm (BinEncoder_new [])) as (e & -> & Hg); [done|simpl; lia|].
  exists (ebuf e). split; [done|]. destruct (gr_buf _ _ _ Hg) as (w & -> & ? & _). done.
Qed.
End wire.

(** ** A concrete message *)

Definition ex_name : Name := mkName [[119; 119; 119]; [97; 98]].
Definition ex_soa : RRecord :=
  mkRecord ex_name RecordType.SOA DNSClass.IN 300 (RData.SOA (mkSOA ex_name ex_name 1 2 (-3) 4 5)).
Definition ex_nsec : RRecord :=
  mkRecord (mkName [[97; 98]]) RecordType.NSEC DNSClass.IN 60
    (RData.NSEC (mkNSEC ex_name [RecordType.A; RecordType.NS; RecordType.RRSIG])).
Definition ex_sig : RRecord :=
  mkRecord Name_root RecordType.SIG DNSClass.ANY 0
    (RData.SIG (mkSIG RecordType.NULL Algorithm.RSASHA256 0 0 9 8 7 ex_name [1; 2; 3])).
Definition ex_edns : Edns :=
  mkEdns 1 0 true 1232 (mkOPT {[EdnsCode.DAU := EdnsOption.DAU (mkSupported 5)]}).
Definition ex_message : Message :=
  mkMessage (Header_id Header_new 4660) [mkQuery ex_name RecordType.A DNSClass.IN] [ex_soa] [ex_nsec]
    [] [ex_sig] (Some ex_edns).

Lemma ex_name_ok : name_ok ex_name.
Proof. by_decision. Qed.

Lemma ex_message_ok : message_ok ex_message.
Proof. by_decision. Qed.

Lemma Message_roundtrip_witness :
  ∃ bs, Message_to_vec (L:=ascii_lowercase) (HO:=list_hash_order) ex_message = Ok bs ∧
        length bs = 151%nat ∧ Message_from_vec bs = Ok (message_norm ex_message).
Proof.
  eexists. split; [vm_compute; reflexivity|]. split; [reflexivity|].
  apply (Message_roundtrip (L:=ascii_lowercase) (HO:=list_hash_order) ex_message);
    [exact ex_message_ok|vm_compute; reflexivity].
Defined.

Lemma Message_to_vec_total_witness :
  ∃ bs, Message_to_vec (L:=ascii_lowercase) (HO:=list_hash_order) ex_message = Ok bs ∧
        (length bs ≤ message_size ex_message)%nat.
Proof.
  apply (Message_to_vec_total (L:=ascii_lowercase) (HO:=list_hash_order) ex_message);
    [exact ex_message_ok|vm_compute; discriminate].
Defined.

(** ** What every parsed message satisfies *)

(** The additional section has been split. *)
Record sections_split (count : nat) (x : list RRecord * option Edns * list RRecord) : Prop := {
  ss_plain : Forall (λ r, r_rr_type r ≠ RecordType.SIG ∧ r_rr_type r ≠ RecordType.OPT) x.1.1;
  ss_sig : Forall (λ r, r_rr_type r = RecordType.SIG) x.2;
  ss_count : (length x.1.1 + (if x.1.2 is Some _ then 1 else 0) + length x.2)%nat = count;
}.

Lemma read_plain_split count recs n d x d' :
  read_records_loop count false recs None [] false d = (Ok x, d') →
  length recs = n → length x.1.1 = (n + count)%nat ∧ x.1.2 = None ∧ x.2 = [].
Proof.
  revert recs n d. induction count as [|count IH]; intros recs n d H Hn; simpl in H.
  - injection H as <- _. simpl. split_and!; [lia|done|done].
  - apply bind_Ok_inv in H as (r & d1 & _ & H). apply (IH _ (S n)) in H.
    + destruct H as (? & ? & ?). split_and!; [lia|done|done].
    + rewrite length_app. simpl. lia.
Qed.

Lemma read_additional_split count n recs edns sigs saw d x d' :
  read_records_loop count true recs edns sigs saw d = (Ok x, d') →
  sections_split n (recs, edns, sigs) → sections_split (n + count) x.
Proof.
  revert n recs edns sigs saw d. induction count as [|count IH]; intros n recs edns sigs saw d H Hs;
    simpl in H.
  - injection H as <- _. by rewrite Nat.add_0_r.
  - apply bind_Ok_inv in H as (r & d1 & _ & H). destruct Hs as [Hp Hg Hc]. simpl in Hp, Hg, Hc.
    replace (n + S count)%nat with (S n + count)%nat by lia.
    assert (Hplain : ∀ d, r_rr_type r ≠ RecordType.SIG → r_rr_type r ≠ RecordType.OPT →
      (if saw then fail (Codec.Message "sig0 must be final resource record")
       else read_records_loop count true (recs ++ [r]) edns sigs saw) d = (Ok x, d') →
      sections_split (S n + count) x).
    { intros d2 H1 H2 H3. destruct saw; [done|]. eapply IH; [exact H3|]. split; simpl.
      - apply Forall_app. split; [done|]. by constructor.
      - done.
      - rewrite length_app. simpl. lia. }
    destruct (r_rr_type r) eqn:Ht; try (by eapply Hplain; [done..|exact H]).
    + destruct saw; [done|]. destruct edns; [done|].
      apply bind_Ok_inv in H as (ed & d2 & _ & H). eapply IH; [exact H|].
      split; simpl; [done|done|lia].
    + eapply IH; [exact H|]. split; simpl; [done| |rewrite length_app; simpl; lia].
      apply Forall_app. split; [done|]. by constructor.
Qed.

Lemma repeat_m_length {S E A} n (m : M S E A) s xs s' :
  repeat_m n m s = (Ok xs, s') → length xs = n.
Proof.
  revert s xs s'. induction n as [|n IH]; intros s xs s' H; simpl in H.
  - by injection H as <- _.
  - apply bind_Ok_inv in H as (x & s1 & _ & H). apply bind_Ok_inv in H as (ys & s2 & H & H2).
    injection H2 as <- _. simpl. f_equal. by eapply IH.
Qed.

(** Every message the parser accepts is structured: each section has the
    number of entries the header announces, the signatures have been moved out of
    the additional section and are all of type SIG, the at most one EDNS record
    has been too, and no such record is left in it. *)
Theorem Message_read_structured bs m :
  Message_from_vec bs = Ok m →
  length (m_queries m) = Z.to_nat (h_query_count (m_header m)) ∧
  length (m_answers m) = Z.to_nat (h_answer_count (m_header m)) ∧
  length (m_name_servers m) = Z.to_nat (h_name_server_count (m_header m)) ∧
  (length (m_additionals m) + (if m_edns m is Some _ then 1 else 0) + length (m_sig0 m))%nat =
    Z.to_nat (h_additional_count (m_header m)) ∧
  Forall (λ r, r_rr_type r ≠ RecordType.SIG ∧ r_rr_type r ≠ RecordType.OPT) (m_additionals m) ∧
  Forall (λ r, r_rr_type r = RecordType.SIG) (m_sig0 m).
Proof.
  unfold Message_from_vec. destruct (Message_read _) as [r d] eqn:H. simpl. intros ->.
  unfold Message_read in H. apply bind_Ok_inv in H as (h & d1 & _ & H).
  apply bind_Ok_inv in H as (qs & d2 & Hq & H). apply bind_Ok_inv in H as (an & d3 & Ha & H).
  apply bind_Ok_inv in H as (ns & d4 & Hn & H). apply bind_Ok_inv in H as (ad & d5 & Hd & H).
  injection H as <- _. simpl.
  apply repeat_m_length in Hq. apply (read_plain_split _ _ 0) in Ha as (Ha & _); [|done].
  apply (read_plain_split _ _ 0) in Hn as (Hn & _); [|done].
  apply (read_additional_split _ 0) in Hd as [Hp Hs Hc]; [|split; simpl; [constructor|constructor|done]].
  split_and!; done.
Qed.

Lemma Message_read_structured_witness :
  ∃ m, Message_from_vec [0; 1; 0; 0; 0; 0; 0; 0; 0; 0; 0; 1; 0; 0; 41; 4; 0; 0; 0; 0; 0; 0; 0] = Ok m ∧
       (length (m_additionals m) + (if m_edns m is Some _ then 1 else 0) + length (m_sig0 m))%nat =
         Z.to_nat (h_additional_count (m_header m)).
Proof.
  eexists. split; [vm_compute; reflexivity|].
  eapply (Message_read_structured
    [0; 1; 0; 0; 0; 0; 0; 0; 0; 0; 0; 1; 0; 0; 41; 4; 0; 0; 0; 0; 0; 0; 0]).
  vm_compute. reflexivity.
Defined.

(** A truncated response keeps the identity, kind, flags, response code and
    EDNS data of the message and nothing of its sections, and asks for a retry;
    truncating panics when, and only when, reading the response code does. *)
Theorem Message_truncate_spec {E} m :
  Message_truncate (E:=E) m =
  try* rc := Message_get_response_code m in
  Ok (mkMessage
        (mkHeader (h_id (m_header m)) (h_message_type (m_header m)) (h_op_code (m_header m))
           (h_authoritative (m_header m)) true (h_recursion_desired (m_header m))
           (h_recursion_available (m_header m)) false false (ResponseCode_low rc) 0 0 0 0)
        [] [] [] [] [] (m_edns m)).
Proof.
  unfold Message_truncate. destruct (Message_get_response_code m); [|done..].
  cbn [rbind]. by destruct (m_edns m).
Qed.
