(* ===== verification/RecordSet.v ===== *)
(** * Record sets

    Models [client/src/rr/rr_set.rs]: the records of one name and type that an
    authority stores, with the update rules of RFC 2136, and the signatures over
    them. *)

From S2P Require Import Prelude Codec Wire Domain Enums RData Resource.

Open Scope Z_scope.

(** ** The type and its operations *)

Record RecordSet : Type := mkRecordSet {
  rs_name : Name;
  rs_record_type : RecordType;
  rs_dns_class : DNSClass;
  rs_ttl : Z;
  rs_records : list RRecord;
  rs_rrsigs : list RRecord;
  rs_serial : Z;
}.

#[global] Instance RecordSet_eq_dec : EqDecision RecordSet.
Proof. solve_decision. Defined.

Definition RecordSet_new (name : Name) (record_type : RecordType) (serial : Z) : RecordSet :=
  mkRecordSet name record_type DNSClass.IN 0 [] [] serial.
Definition RecordSet_with_ttl (name : Name) (record_type : RecordType) (ttl : Z) : RecordSet :=
  mkRecordSet name record_type DNSClass.IN ttl [] [] 0.
Definition RecordSet_from (record : RRecord) : RecordSet :=
  mkRecordSet (r_name_labels record) (r_rr_type record) (r_dns_class record) (r_ttl record)
    [record] [] 0.

Definition rs_with_records (self : RecordSet) (records : list RRecord) : RecordSet :=
  mkRecordSet (rs_name self) (rs_record_type self) (rs_dns_class self) (rs_ttl self) records
    (rs_rrsigs self) (rs_serial self).

Definition RecordSet_set_dns_class (self : RecordSet) (dns_class : DNSClass) : RecordSet :=
  mkRecordSet (rs_name self) (rs_record_type self) dns_class (rs_ttl self)
    ((λ r, Record_dns_class r dns_class) <$> rs_records self) (rs_rrsigs self) (rs_serial self).
Definition RecordSet_set_ttl (self : RecordSet) (ttl : Z) : RecordSet :=
  mkRecordSet (rs_name self) (rs_record_type self) (rs_dns_class self) ttl
    ((λ r, Record_ttl r ttl) <$> rs_records self) (rs_rrsigs self) (rs_serial self).

Definition RecordSet_is_empty (self : RecordSet) : bool := bool_decide (rs_records self = []).

Definition RecordSet_insert_rrsig (self : RecordSet) (rrsig : RRecord) : RecordSet :=
  mkRecordSet (rs_name self) (rs_record_type self) (rs_dns_class self) (rs_ttl self)
    (rs_records self) (rs_rrsigs self ++ [rrsig]) (rs_serial self).
Definition RecordSet_clear_rrsigs (self : RecordSet) : RecordSet :=
  mkRecordSet (rs_name self) (rs_record_type self) (rs_dns_class self) (rs_ttl self)
    (rs_records self) [] (rs_serial self).

(** [updated] drops the signatures; [self.ttl = ..] is the assignment made before it. *)
Definition RecordSet_updated (self : RecordSet) (serial : Z) : RecordSet :=
  mkRecordSet (rs_name self) (rs_record_type self) (rs_dns_class self) (rs_ttl self)
    (rs_records self) [] serial.
Definition rs_assign_ttl (self : RecordSet) (ttl : Z) : RecordSet :=
  mkRecordSet (rs_name self) (rs_record_type self) (rs_dns_class self) ttl
    (rs_records self) (rs_rrsigs self) (rs_serial self).

(** The derived order of [Algorithm]. *)
Definition algorithm_rank (a : Algorithm) : Z :=
  match a with
  | Algorithm.RSASHA1 => 0
  | Algorithm.RSASHA1NSEC3SHA1 => 1
  | Algorithm.RSASHA256 => 2
  | Algorithm.RSASHA512 => 3
  | Algorithm.ECDSAP256SHA256 => 4
  | Algorithm.ECDSAP384SHA384 => 5
  | Algorithm.ED25519 => 6
  end.

Definition rrsig_rank (record : RRecord) : Z :=
  algorithm_rank (match r_rdata record with
                  | RData.SIG rrsig => sig_algorithm rrsig
                  | _ => Algorithm.RSASHA1
                  end).

Definition rrsig_supported (supported_algorithms : SupportedAlgorithms) (record : RRecord) : bool :=
  match r_rdata record with
  | RData.SIG rrsig => SupportedAlgorithms_has supported_algorithms (sig_algorithm rrsig)
  | _ => false
  end.

(** [Iterator::max_by_key]: the last of the greatest. *)
Definition max_by_key {A} (key : A → Z) (l : list A) : option A :=
  foldl (λ acc x, match acc with
                  | None => Some x
                  | Some y => if key y <=? key x then Some x else Some y
                  end) None l.

Definition RecordSet_get_records (self : RecordSet) (and_rrsigs : bool)
    (supported_algorithms : SupportedAlgorithms) : list RRecord :=
  if and_rrsigs then
    let rrsigs :=
      max_by_key rrsig_rank
        (filter (λ r, rrsig_supported supported_algorithms r = true) (rs_rrsigs self)) in
    rs_records self ++ option_list rrsigs
  else rs_records self.

(** [Vec::swap_remove] and [Vec::remove]: an index out of range panics. *)
Definition swap_remove {E A} (l : list A) (i : nat) : res E (list A) :=
  match last l with
  | Some x => if decide (i < length l)%nat then Ok (take (length l - 1) (<[i := x]> l)) else Panic
  | None => Panic
  end.
Definition vec_remove {E A} (l : list A) (i : nat) : res E (list A) :=
  if decide (i < length l)%nat then Ok (delete i l) else Panic.

Section record_set.
Context `{L : Lowercase}.

(** [enumerate().filter(|&(_, rr)| rr.get_rdata() == record.get_rdata()).map(|(i, _)| i)] *)
Fixpoint same_rdata_from (i : nat) (records : list RRecord) (record : RRecord) : list nat :=
  match records with
  | [] => []
  | rr :: records =>
      let rest := same_rdata_from (S i) records record in
      if RData_eq (r_rdata rr) (r_rdata record) then i :: rest else rest
  end.
Definition same_rdata (records : list RRecord) (record : RRecord) : list nat :=
  same_rdata_from 0 records record.

(** The replacement loop: [inl] when it returned [false] early. *)
Fixpoint insert_replace {E} (to_replace : list nat) (record : RRecord) (serial : Z)
    (self : RecordSet) (replaced : bool) : res E (RecordSet + bool * RecordSet) :=
  match to_replace with
  | [] => Ok (inr (replaced, self))
  | i :: rest =>
      match rs_records self !! i with
      | None => Panic
      | Some rr =>
          if Record_eq rr record then Ok (inl self)
          else
            try* records := swap_remove (rs_records self ++ [record]) i in
            let self := rs_with_records self records in
            let self := rs_assign_ttl self (r_ttl record) in
            let self := RecordSet_updated self serial in
            insert_replace rest record serial self true
      end
  end.

(** [insert] after the rules for [SOA] and [CNAME]. *)
Definition insert_rdata {E} (self : RecordSet) (record : RRecord) (serial : Z) :
    res E (bool * RecordSet) :=
  try* r := insert_replace (same_rdata (rs_records self) record) record serial self false in
  match r with
  | inl self => Ok (false, self)
  | inr (replaced, self) =>
      if negb replaced then
        let self := rs_assign_ttl self (r_ttl record) in
        let self := RecordSet_updated self serial in
        Ok (true, rs_with_records self (rs_records self ++ [record]))
      else Ok (replaced, self)
  end.

Definition RecordSet_insert {E} (self : RecordSet) (record : RRecord) (serial : Z) :
    res E (bool * RecordSet) :=
  if negb (Name_eq (r_name_labels record) (rs_name self)) then Panic
  else if negb (bool_decide (r_rr_type record = rs_record_type self)) then Panic
  else
    match r_rr_type record with
    | RecordType.SOA =>
        match rs_records self with
        | [] => insert_rdata (rs_with_records self []) record serial
        | [soa_record] =>
            match r_rdata soa_record with
            | RData.SOA existing_soa =>
                match r_rdata record with
                | RData.SOA new_soa =>
                    if soa_serial new_soa <=? soa_serial existing_soa then Ok (false, self)
                    else insert_rdata (rs_with_records self []) record serial
                | _ => Ok (false, self)
                end
            | _ => Panic
            end
        | _ => Panic
        end
    | RecordType.CNAME =>
        if decide (length (rs_records self) ≤ 1)%nat then
          insert_rdata (rs_with_records self []) record serial
        else Panic
    | _ => insert_rdata self record serial
    end.

Definition RecordSet_new_record {E} (self : RecordSet) (rdata : RData) :
    res E (RRecord * RecordSet) :=
  if decide (rs_record_type self = RData_to_record_type rdata) then
    let record := Record_with (rs_name self) (rs_record_type self) (rs_ttl self) in
    let record := Record_rdata record rdata in
    try* r := RecordSet_insert self record 0 in
    match filter (λ rr, RData_eq (r_rdata rr) rdata = true) (rs_records r.2) with
    | rr :: _ => Ok (rr, r.2)
    | [] => Panic
    end
  else Panic.

Fixpoint remove_loop {E} (to_remove : list nat) (serial : Z) (self : RecordSet) (removed : bool) :
    res E (bool * RecordSet) :=
  match to_remove with
  | [] => Ok (removed, self)
  | i :: rest =>
      try* records := vec_remove (rs_records self) i in
      let self := rs_with_records self records in
      let self := RecordSet_updated self serial in
      remove_loop rest serial self true
  end.

Definition RecordSet_remove {E} (self : RecordSet) (record : RRecord) (serial : Z) :
    res E (bool * RecordSet) :=
  if negb (Name_eq (r_name_labels record) (rs_name self)) then Panic
  else if negb (bool_decide (r_rr_type record = rs_record_type self ∨
                             r_rr_type record = RecordType.ANY)) then Panic
  else
    match r_rr_type record with
    | RecordType.NS =>
        if decide (length (rs_records self) ≤ 1)%nat then Ok (false, self)
        else remove_loop (same_rdata (rs_records self) record) serial self false
    | RecordType.SOA => Ok (false, self)
    | _ => remove_loop (same_rdata (rs_records self) record) serial self false
    end.
End record_set.

(** ** Equality of record data is an equivalence *)

Section rdata_eq.
Context `{L : Lowercase}.

Definition name_lower (n : Name) : Name := mkName (to_lowercase <$> labels n).

(** The data with its names lowercased: what equality looks at. *)
Definition rdata_key (r : RData) : RData :=
  match r with
  | RData.CNAME n => RData.CNAME (name_lower n)
  | RData.NS n => RData.NS (name_lower n)
  | RData.PTR n => RData.PTR (name_lower n)
  | RData.MX x => RData.MX (mkMX (mx_preference x) (name_lower (mx_exchange x)))
  | RData.NSEC x =>
      RData.NSEC (mkNSEC (name_lower (nsec_next_domain_name x)) (nsec_type_bit_maps x))
  | RData.SIG x =>
      RData.SIG (mkSIG (sig_type_covered x) (sig_algorithm x) (sig_num_labels x)
        (sig_original_ttl x) (sig_expiration x) (sig_inception x) (sig_key_tag x)
        (name_lower (sig_signer_name x)) (sig_sig x))
  | RData.SOA x =>
      RData.SOA (mkSOA (name_lower (soa_mname x)) (name_lower (soa_rname x)) (soa_serial x)
        (soa_refresh x) (soa_retry x) (soa_expire x) (soa_minimum x))
  | RData.SRV x =>
      RData.SRV (mkSRV (srv_priority x) (srv_weight x) (srv_port x) (name_lower (srv_target x)))
  | _ => r
  end.

Lemma Name_eq_lower n m : Name_eq n m = true ↔ name_lower n = name_lower m.
Proof.
  rewrite Name_eq_cmp, Name_cmp_eq_labels. unfold name_lower. split; [by intros ->|by intros [= ->]].
Qed.

Lemma RData_eq_key x y : RData_eq x y = true ↔ rdata_key x = rdata_key y.
Proof.
  destruct x, y; simpl; try (split; [congruence|discriminate]);
    rewrite ?andb_true_iff, ?bool_decide_eq_true, ?Name_eq_lower;
    repeat match goal with x : MX |- _ => destruct x | x : SRV |- _ => destruct x
                         | x : SOA |- _ => destruct x | x : SIG |- _ => destruct x
                         | x : NSEC |- _ => destruct x end; simpl;
    (split; [intuition congruence|]); intros Heq; injection Heq; intuition congruence.
Qed.

Lemma RData_eq_refl x : RData_eq x x = true.
Proof. by apply RData_eq_key. Qed.

(** ** The records with the same data *)

Abbreviation keys l := ((rdata_key ∘ r_rdata) <$> l).

Lemma same_rdata_from_spec i l r :
  NoDup (keys l) →
  (same_rdata_from i l r = [] ∧ (rdata_key (r_rdata r) ∉ keys l)) ∨
  ∃ j rr, same_rdata_from i l r = [(i + j)%nat] ∧ l !! j = Some rr ∧
          rdata_key (r_rdata rr) = rdata_key (r_rdata r).
Proof.
  revert i. induction l as [|x l IH]; intros i Hnd.
  { left. split; [done|]. simpl. apply not_elem_of_nil. }
  rewrite fmap_cons in Hnd. apply NoDup_cons in Hnd as [Hx Hnd]. simpl.
  destruct (RData_eq (r_rdata x) (r_rdata r)) eqn:Heq.
  - apply RData_eq_key in Heq. right. exists 0%nat, x. rewrite Nat.add_0_r.
    destruct (IH (S i) Hnd) as [[-> _]|(j & rr & _ & Hj & Hk)]; [done|].
    exfalso. apply Hx. cbn. rewrite Heq, <-Hk. apply list_elem_of_fmap.
    exists rr. split; [done|]. by eapply list_elem_of_lookup_2.
  - destruct (IH (S i) Hnd) as [[-> Hni]|(j & rr & -> & Hj & Hk)].
    + left. split; [done|]. apply not_elem_of_cons. split; [|done].
      cbn. intros E. symmetry in E. apply RData_eq_key in E. congruence.
    + right. exists (S j), rr. split; [f_equal; lia|done].
Qed.

Lemma same_rdata_spec l r :
  NoDup (keys l) →
  (same_rdata l r = [] ∧ (rdata_key (r_rdata r) ∉ keys l)) ∨
  ∃ j rr, same_rdata l r = [j] ∧ l !! j = Some rr ∧
          rdata_key (r_rdata rr) = rdata_key (r_rdata r).
Proof. apply (same_rdata_from_spec 0). Qed.

Lemma swap_remove_pushed {E A} (l : list A) x i :
  (i < length l)%nat → swap_remove (E:=E) (l ++ [x]) i = Ok (<[i := x]> l).
Proof.
  intros Hi. unfold swap_remove. rewrite last_snoc, decide_True by (rewrite length_app; simpl; lia).
  rewrite insert_app_l by done. rewrite length_app. simpl.
  by rewrite Nat.add_sub, <-(length_insert l i x), take_app_length.
Qed.

(** ** [insert] and [remove] on a set without duplicates *)

Lemma insert_rdata_spec {E} s r serial :
  NoDup (keys (rs_records s)) →
  ((rdata_key (r_rdata r) ∉ keys (rs_records s)) ∧
   insert_rdata (E:=E) s r serial =
     Ok (true, mkRecordSet (rs_name s) (rs_record_type s) (rs_dns_class s) (r_ttl r)
                 (rs_records s ++ [r]) [] serial)) ∨
  ∃ j rr, rs_records s !! j = Some rr ∧ rdata_key (r_rdata rr) = rdata_key (r_rdata r) ∧
   insert_rdata (E:=E) s r serial =
     if Record_eq rr r then Ok (false, s)
     else Ok (true, mkRecordSet (rs_name s) (rs_record_type s) (rs_dns_class s) (r_ttl r)
                      (<[j := r]> (rs_records s)) [] serial).
Proof.
  intros Hnd. unfold insert_rdata.
  destruct (same_rdata_spec (rs_records s) r Hnd) as [[-> Hni]|(j & rr & -> & Hj & Hk)].
  - left. by split.
  - right. exists j, rr. split_and!; [done..|]. cbn [insert_replace]. rewrite Hj.
    destruct (Record_eq rr r); [done|].
    rewrite swap_remove_pushed by (by eapply lookup_lt_Some). done.
Qed.

Lemma remove_loop_spec {E} s r serial :
  NoDup (keys (rs_records s)) →
  ((rdata_key (r_rdata r) ∉ keys (rs_records s)) ∧
   remove_loop (E:=E) (same_rdata (rs_records s) r) serial s false = Ok (false, s)) ∨
  ∃ j rr, rs_records s !! j = Some rr ∧ rdata_key (r_rdata rr) = rdata_key (r_rdata r) ∧
   remove_loop (E:=E) (same_rdata (rs_records s) r) serial s false =
     Ok (true, mkRecordSet (rs_name s) (rs_record_type s) (rs_dns_class s) (rs_ttl s)
                 (delete j (rs_records s)) [] serial).
Proof.
  intros Hnd. destruct (same_rdata_spec (rs_records s) r Hnd) as [[-> Hni]|(j & rr & -> & Hj & Hk)].
  - by left.
  - right. exists j, rr. split_and!; [done..|]. cbn [remove_loop]. unfold vec_remove.
    by rewrite decide_True by (by eapply lookup_lt_Some).
Qed.

(** ** The invariant *)

Definition single_type (t : RecordType) : Prop := t = RecordType.SOA ∨ t = RecordType.CNAME.

#[global] Instance single_type_dec t : Decision (single_type t).
Proof. unfold single_type. apply _. Defined.

Definition is_soa (r : RRecord) : Prop := ∃ soa, r_rdata r = RData.SOA soa.

Record rset_ok (s : RecordSet) : Prop := {
  rso_unique : NoDup (keys (rs_records s));
  rso_names : Forall (λ r, Name_eq (r_name_labels r) (rs_name s) = true) (rs_records s);
  rso_types : Forall (λ r, r_rr_type r = rs_record_type s) (rs_records s);
  rso_single : single_type (rs_record_type s) → (length (rs_records s) ≤ 1)%nat;
  rso_soa : rs_record_type s = RecordType.SOA → Forall is_soa (rs_records s);
}.

#[global] Instance is_soa_dec r : Decision (is_soa r).
Proof. unfold is_soa. destruct (r_rdata r); try (right; intros [soa ?]; discriminate). left. by eexists. Defined.
#[global] Instance rset_ok_dec s : Decision (rset_ok s).
Proof.
  refine (cast_if (decide (NoDup (keys (rs_records s)) ∧
    Forall (λ r, Name_eq (r_name_labels r) (rs_name s) = true) (rs_records s) ∧
    Forall (λ r, r_rr_type r = rs_record_type s) (rs_records s) ∧
    (single_type (rs_record_type s) → (length (rs_records s) ≤ 1)%nat) ∧
    (rs_record_type s = RecordType.SOA → Forall is_soa (rs_records s))))); dec_fields.
Defined.

(** A record that may be put in the set. *)
Record fits (s : RecordSet) (r : RRecord) : Prop := {
  fit_name : Name_eq (r_name_labels r) (rs_name s) = true;
  fit_type : r_rr_type r = rs_record_type s;
  fit_soa : rs_record_type s = RecordType.SOA → is_soa r;
}.

Lemma rset_ok_new name t serial : rset_ok (RecordSet_new name t serial).
Proof. split; simpl; try constructor; try constructor; intros; lia. Qed.

Lemma NoDup_insert_key l j rr r :
  NoDup (keys l) → l !! j = Some rr → rdata_key (r_rdata rr) = rdata_key (r_rdata r) →
  keys (<[j := r]> l) = keys l.
Proof.
  intros _ Hj Hk. rewrite list_fmap_insert. apply list_insert_id.
  rewrite list_lookup_fmap, Hj. cbn. by rewrite <-Hk.
Qed.

Lemma insert_rdata_ok {E} s r serial :
  rset_ok s → fits s r → (single_type (rs_record_type s) → rs_records s = []) →
  ∃ b s', insert_rdata (E:=E) s r serial = Ok (b, s') ∧ rset_ok s' ∧
          rs_name s' = rs_name s ∧ rs_record_type s' = rs_record_type s ∧
          (b = false → s' = s) ∧
          (b = true → r ∈ rs_records s' ∧ rs_serial s' = serial ∧ rs_rrsigs s' = []).
Proof.
  intros [Hu Hn Ht Hs Hsoa] [Fn Ft Fs] Hemp.
  destruct (insert_rdata_spec (E:=E) s r serial Hu) as [[Hni ->]|(j & rr & Hj & Hk & ->)].
  - eexists _, _. split; [done|]. split_and!; [|done|done|done|].
    + split; simpl.
      * rewrite fmap_app. apply NoDup_app. split_and!; [done| |apply NoDup_singleton].
        intros k Hk ->%list_elem_of_singleton. done.
      * apply Forall_app. split; [done|by constructor].
      * apply Forall_app. split; [done|by constructor].
      * intros Hst. by rewrite (Hemp Hst).
      * intros Hst. apply Forall_app. split; [auto|]. constructor; [auto|constructor].
    + intros _. split_and!; [|done|done]. apply elem_of_app. right. by left.
  - destruct (Record_eq rr r).
    { exists false, s. by split_and!. }
    eexists _, _. split; [done|]. split_and!; [|done|done|done|].
    + split; simpl.
      * by erewrite NoDup_insert_key.
      * by apply Forall_insert.
      * by apply Forall_insert.
      * intros Hst. by rewrite (Hemp Hst) in Hj.
      * intros Hst. apply Forall_insert; auto.
    + intros _. split_and!; [|done|done]. apply list_elem_of_lookup. exists j.
      apply list_lookup_insert_eq. by eapply lookup_lt_Some.
Qed.

(** On a set that has been cleared, the record becomes the only one. *)
Lemma insert_cleared {E} s r serial :
  insert_rdata (E:=E) (rs_with_records s []) r serial =
  Ok (true, mkRecordSet (rs_name s) (rs_record_type s) (rs_dns_class s) (r_ttl r) [r] [] serial).
Proof. done. Qed.

Lemma rset_ok_singleton s r ttl serial :
  fits s r →
  rset_ok (mkRecordSet (rs_name s) (rs_record_type s) (rs_dns_class s) ttl [r] [] serial).
Proof.
  intros [Fn Ft Fs]. split; simpl; [apply NoDup_singleton|by repeat constructor..|lia|].
  intros Hs. by repeat constructor; auto.
Qed.

(** What the rules for [SOA] and [CNAME] make of an insertion. *)
Lemma RecordSet_insert_cases {E} s r serial :
  rset_ok s → fits s r →
  RecordSet_insert (E:=E) s r serial =
  if decide (rs_record_type s = RecordType.SOA) then
    match rs_records s, r_rdata r with
    | [x], RData.SOA new_soa =>
        match r_rdata x with
        | RData.SOA existing_soa =>
            if soa_serial new_soa <=? soa_serial existing_soa then Ok (false, s)
            else insert_rdata (rs_with_records s []) r serial
        | _ => Panic
        end
    | _, _ => insert_rdata (rs_with_records s []) r serial
    end
  else if decide (rs_record_type s = RecordType.CNAME) then
    insert_rdata (rs_with_records s []) r serial
  else insert_rdata s r serial.
Proof.
  intros Hs Hf. unfold RecordSet_insert. rewrite (fit_name _ _ Hf), (fit_type _ _ Hf).
  rewrite bool_decide_eq_true_2 by done. cbn [negb].
  pose proof (rso_single _ Hs) as Hone. unfold single_type in Hone.
  pose proof (fit_soa _ _ Hf) as Hsoa.
  destruct (rs_record_type s); try (rewrite !decide_False by done; done).
  - rewrite (decide_True (P := (length _ ≤ 1)%nat)) by auto. done.
  - rewrite decide_True by done. destruct (Hsoa eq_refl) as [soa ->].
    destruct (rs_records s) as [|x [|y l]]; [done|done|]. specialize (Hone ltac:(by left)).
    simpl in Hone. lia.
Qed.

(** ** The properties of record sets *)

Lemma insert_ok {E} s r serial :
  rset_ok s → fits s r →
  ∃ b s', RecordSet_insert (E:=E) s r serial = Ok (b, s') ∧ rset_ok s' ∧
          rs_name s' = rs_name s ∧ rs_record_type s' = rs_record_type s ∧
          (b = false → s' = s) ∧
          (b = true → r ∈ rs_records s' ∧ rs_serial s' = serial ∧ rs_rrsigs s' = []).
Proof.
  intros Hs Hf. rewrite RecordSet_insert_cases by done.
  assert (Hsingle : ∃ b s',
    insert_rdata (E:=E) (rs_with_records s []) r serial = Ok (b, s') ∧ rset_ok s' ∧
    rs_name s' = rs_name s ∧ rs_record_type s' = rs_record_type s ∧ (b = false → s' = s) ∧
    (b = true → r ∈ rs_records s' ∧ rs_serial s' = serial ∧ rs_rrsigs s' = [])).
  { eexists _, _. split; [apply insert_cleared|].
    split_and!; [by apply rset_ok_singleton|done..|]. intros _. split_and!; [by left|done|done]. }
  destruct (decide (rs_record_type s = RecordType.SOA)) as [Hsoa|Hns].
  - destruct (rs_records s) as [|x [|y l]] eqn:Hrs; [done| |done].
    destruct (fit_soa _ _ Hf Hsoa) as [new ->]. pose proof (rso_soa _ Hs Hsoa) as Hx.
    rewrite Hrs in Hx. apply Forall_cons in Hx as [[ex ->] _].
    destruct (_ <=? _); [|done]. exists false, s. by split_and!.
  - destruct (decide (rs_record_type s = RecordType.CNAME)) as [|Hnc]; [done|].
    apply insert_rdata_ok; [done..|]. by intros [?|?].
Qed.

(** C33: Inserting a record that belongs to the set never panics and keeps the set
    well formed: no two records with equal data, all of the set's name and type, at
    most one SOA or CNAME.  When it returns [false] nothing has changed; when it
    returns [true] the record is in the set, the set carries the update's serial
    and its signatures are gone. *)
Theorem RecordSet_insert_ok {E} s r serial :
  rset_ok s → fits s r →
  ∃ b s', RecordSet_insert (E:=E) s r serial = Ok (b, s') ∧ rset_ok s' ∧
          rs_name s' = rs_name s ∧ rs_record_type s' = rs_record_type s ∧
          (b = false → s' = s) ∧
          (b = true → r ∈ rs_records s' ∧ rs_serial s' = serial ∧ rs_rrsigs s' = []).
Proof. apply insert_ok. Qed.

Lemma insert_soa {E} s r serial old new :
  rset_ok s → fits s r → rs_record_type s = RecordType.SOA →
  (r_rdata <$> rs_records s) = [RData.SOA old] → r_rdata r = RData.SOA new →
  RecordSet_insert (E:=E) s r serial =
  if decide (soa_serial old < soa_serial new) then
    Ok (true, mkRecordSet (rs_name s) RecordType.SOA (rs_dns_class s) (r_ttl r) [r] [] serial)
  else Ok (false, s).
Proof.
  intros Hs Hf Ht Hold Hnew. rewrite RecordSet_insert_cases, decide_True by done.
  destruct (rs_records s) as [|x [|y l]]; [done| |done]. injection Hold as Hx. rewrite Hnew, Hx.
  destruct (decide (soa_serial old < soa_serial new)) as [Hlt|Hge].
  - rewrite (proj2 (Z.leb_gt _ _)) by lia. by rewrite insert_cleared, Ht.
  - by rewrite (proj2 (Z.leb_le _ _)) by lia.
Qed.

(** The serial of a zone's SOA record only grows: a new SOA record replaces
    the present one exactly when its serial is greater, and is otherwise ignored. *)
Theorem RecordSet_insert_soa {E} s r serial old new :
  rset_ok s → fits s r → rs_record_type s = RecordType.SOA →
  (r_rdata <$> rs_records s) = [RData.SOA old] → r_rdata r = RData.SOA new →
  RecordSet_insert (E:=E) s r serial =
  if decide (soa_serial old < soa_serial new) then
    Ok (true, mkRecordSet (rs_name s) RecordType.SOA (rs_dns_class s) (r_ttl r) [r] [] serial)
  else Ok (false, s).
Proof. apply insert_soa. Qed.

(** Re-inserting a record with another time to live changes nothing, although
    the source means to update it: records are equal regardless of it. *)
Theorem RecordSet_insert_ttl_ignored {E} s r ttl serial :
  rset_ok s → fits s r → ¬ single_type (rs_record_type s) → r ∈ rs_records s →
  RecordSet_insert (E:=E) s (Record_ttl r ttl) serial = Ok (false, s).
Proof.
  intros Hs Hf Hns Hr.
  assert (Hf' : fits s (Record_ttl r ttl)) by (destruct Hf; by split).
  unfold single_type in Hns. rewrite RecordSet_insert_cases, !decide_False by (done || tauto).
  destruct (insert_rdata_spec (E:=E) s (Record_ttl r ttl) serial (rso_unique _ Hs))
    as [[Hni _]|(j & rr & Hj & Hk & ->)].
  { destruct Hni. apply list_elem_of_fmap. by exists r. }
  apply list_elem_of_lookup in Hr as [i Hi].
  assert (i = j) as ->.
  { eapply (NoDup_lookup (keys (rs_records s))); [apply (rso_unique _ Hs)|..].
    - by rewrite list_lookup_fmap, Hi.
    - rewrite list_lookup_fmap, Hj. simpl. by rewrite Hk. }
  rewrite Hi in Hj. injection Hj as <-. unfold Record_eq. simpl.
  rewrite !bool_decide_eq_true_2 by done. rewrite RData_eq_refl.
  by rewrite (proj2 (Name_eq_lower _ _)).
Qed.

Lemma delete_unique l j rr :
  NoDup (keys l) → l !! j = Some rr →
  delete j l = filter (λ x, rdata_key (r_rdata x) ≠ rdata_key (r_rdata rr)) l.
Proof.
  revert j. induction l as [|x l IH]; intros j Hnd Hj; [done|].
  rewrite fmap_cons in Hnd. apply NoDup_cons in Hnd as [Hx Hnd]. rewrite filter_cons.
  destruct j as [|j]; simpl in *.
  - injection Hj as ->. rewrite decide_False by (by intros []).
    symmetry. apply filter_all. intros y Hy E. apply Hx. cbn. rewrite <-E.
    apply list_elem_of_fmap. by exists y.
  - rewrite decide_True; [by rewrite (IH j)|]. intros E. apply Hx. cbn. rewrite E.
    apply list_elem_of_fmap. exists rr. split; [done|]. by eapply list_elem_of_lookup_2.
Qed.

Lemma rset_ok_filter s (P : RRecord → Prop) `{∀ x, Decision (P x)} ttl sigs serial :
  rset_ok s →
  rset_ok (mkRecordSet (rs_name s) (rs_record_type s) (rs_dns_class s) ttl
             (filter P (rs_records s)) sigs serial).
Proof.
  intros [Hu Hn Ht Hs Hsoa]. split; simpl.
  - eapply sublist_NoDup; [exact Hu|apply fmap_sublist, sublist_filter].
  - by apply Forall_filter.
  - by apply Forall_filter.
  - intros Hst. etrans; [apply length_filter|auto].
  - intros Hst. apply Forall_filter. auto.
Qed.

(** The last NS record and the SOA record stay. *)
Definition protected (s : RecordSet) (r : RRecord) : Prop :=
  r_rr_type r = RecordType.SOA ∨
  (r_rr_type r = RecordType.NS ∧ (length (rs_records s) ≤ 1)%nat).

#[global] Instance protected_dec s r : Decision (protected s r).
Proof. unfold protected. apply _. Defined.

Lemma remove_ok {E} s r serial :
  rset_ok s → Name_eq (r_name_labels r) (rs_name s) = true →
  r_rr_type r = rs_record_type s ∨ r_rr_type r = RecordType.ANY →
  ∃ b s', RecordSet_remove (E:=E) s r serial = Ok (b, s') ∧ rset_ok s' ∧
    rs_name s' = rs_name s ∧ rs_record_type s' = rs_record_type s ∧
    rs_records s' =
      (if decide (protected s r) then rs_records s
       else filter (λ x, rdata_key (r_rdata x) ≠ rdata_key (r_rdata r)) (rs_records s)) ∧
    (b = true ↔ ¬ protected s r ∧ rdata_key (r_rdata r) ∈ keys (rs_records s)) ∧
    (b = false → s' = s).
Proof.
  intros Hs Hn Ht. unfold RecordSet_remove. rewrite Hn, bool_decide_eq_true_2 by done. cbn [negb].
  assert (Hloop : ¬ protected s r → ∃ b s',
    remove_loop (E:=E) (same_rdata (rs_records s) r) serial s false = Ok (b, s') ∧ rset_ok s' ∧
    rs_name s' = rs_name s ∧ rs_record_type s' = rs_record_type s ∧
    rs_records s' = filter (λ x, rdata_key (r_rdata x) ≠ rdata_key (r_rdata r)) (rs_records s) ∧
    (b = true ↔ ¬ protected s r ∧ rdata_key (r_rdata r) ∈ keys (rs_records s)) ∧
    (b = false → s' = s)).
  { intros Hp. destruct (remove_loop_spec (E:=E) s r serial (rso_unique _ Hs))
      as [[Hni ->]|(j & rr & Hj & Hk & ->)].
    - exists false, s. split_and!; [done|done|done|done| |naive_solver|done]. symmetry.
      apply filter_all. intros x Hx Hk. apply Hni. rewrite <-Hk.
      apply list_elem_of_fmap. by exists x.
    - eexists _, _. split; [done|]. rewrite (delete_unique _ _ _ (rso_unique _ Hs) Hj), Hk.
      split_and!; [by apply rset_ok_filter|done|done|done| |done].
      split; [|done]. intros _. split; [done|]. rewrite <-Hk.
      apply list_elem_of_fmap. exists rr. split; [done|]. by eapply list_elem_of_lookup_2. }
  destruct (decide (protected s r)) as [Hp|Hp].
  - exists false, s. destruct Hp as [Hp|[Hp Hl]]; rewrite Hp; [|rewrite decide_True by done];
      (split_and!; [done|done|done|done|done| |done]); split; try done; intros [Hx _]; destruct Hx;
      unfold protected; auto.
  - destruct (r_rr_type r) eqn:Ety; try by apply Hloop.
    + rewrite decide_False; [by apply Hloop|]. intros ?. apply Hp. right. by rewrite Ety.
    + destruct Hp. by left.
Qed.

(** Removing a record takes out exactly the records with its data, keeps the
    set well formed, and never removes the SOA record or the last NS record; it
    returns [true] exactly when there was something to remove. *)
Theorem RecordSet_remove_ok {E} s r serial :
  rset_ok s → Name_eq (r_name_labels r) (rs_name s) = true →
  r_rr_type r = rs_record_type s ∨ r_rr_type r = RecordType.ANY →
  ∃ b s', RecordSet_remove (E:=E) s r serial = Ok (b, s') ∧ rset_ok s' ∧
    rs_name s' = rs_name s ∧ rs_record_type s' = rs_record_type s ∧
    rs_records s' =
      (if decide (protected s r) then rs_records s
       else filter (λ x, rdata_key (r_rdata x) ≠ rdata_key (r_rdata r)) (rs_records s)) ∧
    (b = true ↔ ¬ protected s r ∧ rdata_key (r_rdata r) ∈ keys (rs_records s)) ∧
    (b = false → s' = s).
Proof. apply remove_ok. Qed.
End rdata_eq.

(** ** The records of an answer *)

Lemma max_by_key_snoc {A} (key : A → Z) l x :
  max_by_key key (l ++ [x]) =
  match max_by_key key l with
  | None => Some x
  | Some y => if key y <=? key x then Some x else Some y
  end.
Proof. unfold max_by_key. by rewrite foldl_snoc. Qed.

Lemma max_by_key_spec {A} (key : A → Z) l :
  match max_by_key key l with
  | None => l = []
  | Some x => x ∈ l ∧ ∀ y, y ∈ l → key y ≤ key x
  end.
Proof.
  induction l as [|x l IH] using rev_ind; [done|]. rewrite max_by_key_snoc.
  assert (Hsnoc : ∀ y, y ∈ l ++ [x] ↔ y ∈ l ∨ y = x).
  { intros y. by rewrite elem_of_app, list_elem_of_singleton. }
  destruct (max_by_key key l) as [z|].
  - destruct IH as [Hz Hmax]. destruct (Z.leb_spec (key z) (key x)).
    + split; [apply Hsnoc; by right|]. intros y [Hy| ->]%Hsnoc; [|lia].
      specialize (Hmax _ Hy). lia.
    + split; [apply Hsnoc; by left|]. intros y [Hy| ->]%Hsnoc; [auto|lia].
  - subst l. split; [apply Hsnoc; by right|]. intros y [Hy| ->]%Hsnoc; [by apply elem_of_nil in Hy|lia].
Qed.

(** It is the last of the greatest. *)
Lemma max_by_key_last {A} (key : A → Z) l x :
  max_by_key key l = Some x ↔
  ∃ before after, l = before ++ x :: after ∧ Forall (λ y, key y ≤ key x) before ∧ Forall (λ y, key y < key x) after.
Proof.
  revert x. induction l as [|y l IH] using rev_ind; intros x.
  { split; [done|]. by intros ([|] & ? & ? & _). }
  rewrite max_by_key_snoc. pose proof (max_by_key_spec key l) as Hm. split.
  - destruct (max_by_key key l) as [z|] eqn:Hz.
    + destruct (Z.leb_spec (key z) (key y)); intros [= <-].
      * exists l, []. split; [done|]. split; [|constructor]. apply Forall_forall. intros w Hw. apply Hm in Hw. lia.
      * destruct (proj1 (IH z) eq_refl) as (before & after & -> & Hb & Ha). exists before, (after ++ [y]).
        rewrite <-app_assoc. split_and!; [done..|]. apply Forall_app. split; [done|]. by apply Forall_singleton.
    + intros [= <-]. subst l. exists [], []. by split_and!; [|constructor..].
  - intros (before & after & E & Hb & Ha). destruct after as [|w after _] using rev_ind.
    + apply app_inj_tail in E as [<- <-]. destruct (max_by_key key l) as [z|]; [|done].
      rewrite Forall_forall in Hb. specialize (Hb z (proj1 Hm)). by rewrite (proj2 (Z.leb_le _ _) Hb).
    + rewrite app_comm_cons, app_assoc in E. apply app_inj_tail in E as [-> <-].
      apply Forall_app in Ha as [Ha Hy]. rewrite Forall_singleton in Hy.
      rewrite (proj2 (IH x)) by (by exists before, after). by rewrite (proj2 (Z.leb_gt _ _) Hy).
Qed.

(** A signed answer carries every record of the set and, when one of the
    set's signatures is by an algorithm the client understands, exactly one
    signature: a supported one of the strongest algorithm. *)
Theorem RecordSet_get_records_spec s algs :
  RecordSet_get_records s false algs = rs_records s ∧
  ∃ sigs, RecordSet_get_records s true algs = rs_records s ++ sigs ∧
    match sigs with
    | [] => ∀ g, g ∈ rs_rrsigs s → rrsig_supported algs g = false
    | [best] => best ∈ rs_rrsigs s ∧ rrsig_supported algs best = true ∧
                ∀ g, g ∈ rs_rrsigs s → rrsig_supported algs g = true → rrsig_rank g ≤ rrsig_rank best
    | _ => False
    end.
Proof.
  split; [done|]. eexists. split; [done|].
  set (l := filter (λ r, rrsig_supported algs r = true) (rs_rrsigs s)).
  pose proof (max_by_key_spec rrsig_rank l) as Hm. cbn.
  destruct (max_by_key rrsig_rank l) as [best|]; cbn.
  - destruct Hm as [Hin Hmax]. apply list_elem_of_filter in Hin as [Hs Hin].
    split_and!; [done..|]. intros g Hg Hsup. apply Hmax. by apply list_elem_of_filter.
  - intros g Hg. destruct (rrsig_supported algs g) eqn:Hsup; [|done].
    assert (g ∈ l) as Hl by (by apply list_elem_of_filter). rewrite Hm in Hl.
    by apply elem_of_nil in Hl.
Qed.

(** ** Instances *)

Definition ex_zone : Name := mkName [[97]].
Definition ex_a (ttl x : Z) : RRecord :=
  mkRecord ex_zone RecordType.A DNSClass.IN ttl (RData.A (mkIpv4 x x x x)).
Definition ex_soa_record (serial : Z) : RRecord :=
  mkRecord ex_zone RecordType.SOA DNSClass.IN 60 (RData.SOA (mkSOA ex_zone ex_zone serial 1 2 3 4)).
Definition ex_a_set : RecordSet :=
  mkRecordSet ex_zone RecordType.A DNSClass.IN 5 [ex_a 5 1; ex_a 5 2] [] 7.
Definition ex_soa_set : RecordSet :=
  mkRecordSet ex_zone RecordType.SOA DNSClass.IN 60 [ex_soa_record 10] [] 7.

Lemma ex_a_set_ok : rset_ok (L:=ascii_lowercase) ex_a_set.
Proof.
  split; simpl; [|by repeat constructor..|by intros [?|?]|done].
  by_decision.
Qed.

Lemma ex_soa_set_ok : rset_ok (L:=ascii_lowercase) ex_soa_set.
Proof.
  split; simpl; [|by repeat constructor..|lia|].
  - by_decision.
  - intros _. repeat constructor. by eexists.
Qed.

Lemma ex_a_fits ttl x : fits (L:=ascii_lowercase) ex_a_set (ex_a ttl x).
Proof. by split. Qed.

Lemma ex_soa_fits serial : fits (L:=ascii_lowercase) ex_soa_set (ex_soa_record serial).
Proof. split; [done..|]. intros _. by eexists. Qed.

Lemma RecordSet_insert_ok_witness :
  ∃ b s', RecordSet_insert (L:=ascii_lowercase) (E:=()) ex_a_set (ex_a 9 3) 8 = Ok (b, s') ∧
          rset_ok (L:=ascii_lowercase) s'.
Proof.
  destruct (RecordSet_insert_ok (L:=ascii_lowercase) (E:=()) ex_a_set (ex_a 9 3) 8
              ex_a_set_ok (ex_a_fits 9 3)) as (b & s' & H1 & H2 & _).
  exists b, s'. by split.
Defined.

Lemma RecordSet_insert_soa_witness :
  RecordSet_insert (L:=ascii_lowercase) (E:=()) ex_soa_set (ex_soa_record 11) 8 =
    Ok (true, mkRecordSet ex_zone RecordType.SOA DNSClass.IN 60 [ex_soa_record 11] [] 8) ∧
  RecordSet_insert (L:=ascii_lowercase) (E:=()) ex_soa_set (ex_soa_record 10) 8 =
    Ok (false, ex_soa_set).
Proof.
  split.
  - rewrite (RecordSet_insert_soa (L:=ascii_lowercase) ex_soa_set (ex_soa_record 11) 8
      (mkSOA ex_zone ex_zone 10 1 2 3 4) (mkSOA ex_zone ex_zone 11 1 2 3 4)
      ex_soa_set_ok (ex_soa_fits 11) eq_refl eq_refl eq_refl). reflexivity.
  - rewrite (RecordSet_insert_soa (L:=ascii_lowercase) ex_soa_set (ex_soa_record 10) 8
      (mkSOA ex_zone ex_zone 10 1 2 3 4) (mkSOA ex_zone ex_zone 10 1 2 3 4)
      ex_soa_set_ok (ex_soa_fits 10) eq_refl eq_refl eq_refl). reflexivity.
Defined.

Lemma RecordSet_insert_ttl_ignored_witness :
  RecordSet_insert (L:=ascii_lowercase) (E:=()) ex_a_set (ex_a 86400 1) 8 = Ok (false, ex_a_set).
Proof.
  apply (RecordSet_insert_ttl_ignored (L:=ascii_lowercase) ex_a_set (ex_a 5 1) 86400 8
           ex_a_set_ok (ex_a_fits 5 1)); [by intros [?|?]|by left].
Defined.

Lemma RecordSet_remove_ok_witness :
  ∃ b s', RecordSet_remove (L:=ascii_lowercase) (E:=()) ex_a_set (ex_a 0 1) 8 = Ok (b, s') ∧
          rs_records s' = [ex_a 5 2].
Proof.
  destruct (RecordSet_remove_ok (L:=ascii_lowercase) (E:=()) ex_a_set (ex_a 0 1) 8
              ex_a_set_ok eq_refl (or_introl eq_refl)) as (b & s' & H1 & _ & _ & _ & H2 & _).
  exists b, s'. split; [exact H1|]. rewrite H2. vm_compute. reflexivity.
Defined.
