(* ===== verification/KeyPair.v ===== *)
(** * Keys

    Models [client/src/rr/dnssec/keypair.rs], [trust_anchor.rs] and the hashing
    half of [digest_type.rs], built with the features [openssl] and [ring].  The
    two libraries are the class [Crypto]: their types, and the calls the source
    makes of them; [None] is an error of the library.  [CryptoLaws] is what their
    documentation says of these calls and the proofs rely on. *)

From S2P Require Import Prelude Codec Wire Domain Enums RData.

Open Scope Z_scope.

(** ** The libraries *)

(** [DnsSecErrorKind] *)
Inductive dnssec_error : Type :=
  | DnsSecMessage
  | DnsSecMsg
  | DnsSecSSL
  | DnsSecRing.

#[global] Instance dnssec_error_eq_dec : EqDecision dnssec_error.
Proof. solve_decision. Defined.

Inductive MessageDigest : Type := Sha1 | Sha256 | Sha384 | Sha512.
Inductive Curve : Type := SECP256K1 | SECP384R1.

Class Crypto := {
  BigNum : Type;
  Rsa : Type;
  EcKey : Type;
  EcPoint : Type;
  PKey : Type;
  BigNum_from_slice : bytes → option BigNum;
  BigNum_to_vec : BigNum → bytes;
  Rsa_from_public_components : BigNum → BigNum → option Rsa;
  Rsa_n : Rsa → option BigNum;
  Rsa_e : Rsa → option BigNum;
  Rsa_private_key_from_pem : bytes → option Rsa;
  EcPoint_from_bytes : Curve → bytes → option EcPoint;
  EcPoint_to_bytes : EcKey → EcPoint → option bytes;
  EcKey_from_public_key : Curve → EcPoint → option EcKey;
  EcKey_has_group : EcKey → bool;
  EcKey_public_key : EcKey → option EcPoint;
  EcKey_private_key_from_pem : bytes → option EcKey;
  PKey_from_rsa : Rsa → option PKey;
  PKey_rsa : PKey → option Rsa;
  PKey_from_ec_key : EcKey → option PKey;
  PKey_ec_key : PKey → option EcKey;
  PKey_private_key_to_pem : PKey → option bytes;
  openssl_hash : MessageDigest → bytes → option bytes;
  (** [Signer::new] may refuse the key ([None]); [update] and [finish] may fail. *)
  openssl_sign : MessageDigest → PKey → bytes → option (option bytes);
  openssl_verify : MessageDigest → PKey → bytes → bytes → option (option bool);
  ring_sign : bytes → bytes → bytes → option bytes;
  ring_verify : bytes → bytes → bytes → bool;
}.

(** [try!] on a call of a library. *)
Definition ssl {A} (o : option A) : res dnssec_error A :=
  match o with Some a => Ok a | None => Err DnsSecSSL end.
Definition expect {E A} (o : option A) : res E A :=
  match o with Some a => Ok a | None => Panic end.

(** [&v[a..b]] and [&v[a..]] *)
Definition slice {E} (v : bytes) (a b : nat) : res E bytes :=
  if decide (a ≤ b ∧ b ≤ length v)%nat then Ok (take (b - a) (drop a v)) else Panic.
Definition slice_from {E} (v : bytes) (a : nat) : res E bytes :=
  if decide (a ≤ length v)%nat then Ok (drop a v) else Panic.

(** ** Digests *)

Section digests.
Context `{C : Crypto}.

Definition DigestType_to_openssl_digest (self : DigestType) : res dnssec_error MessageDigest :=
  match self with
  | DigestType.SHA1 => Ok Sha1
  | DigestType.SHA256 => Ok Sha256
  | DigestType.SHA384 => Ok Sha384
  | DigestType.SHA512 => Ok Sha512
  | _ => Err DnsSecMsg
  end.

Definition DigestType_hash (self : DigestType) (data : bytes) : res dnssec_error bytes :=
  try* d := DigestType_to_openssl_digest self in ssl (openssl_hash d data).

(** [DNSKEY::to_digest] *)
Definition DNSKEY_to_digest `{Lowercase} (self : DNSKEY) (name : Name) (digest_type : DigestType) :
    res dnssec_error bytes :=
  let '(r, e) :=
    (BinEncoder_set_canonical_names true ;;; Name_emit name ;;; dnskey_emit self)
      (BinEncoder_new []) in
  match r with
  | Ok _ => DigestType_hash digest_type (ebuf e)
  | Err _ => Err DnsSecMsg
  | Panic => Panic
  | Diverge => Diverge
  end.
End digests.

(** ** Key pairs *)

Module KeyPair.
Inductive KeyPair `{Crypto} : Type :=
  | RSA (pkey : PKey)
  | EC (pkey : PKey)
  | ED25519 (private_key public_key : bytes).
End KeyPair.
Abbreviation KeyPair := KeyPair.KeyPair.

Section keys.
Context `{C : Crypto}.

Definition KeyPair_from_rsa (rsa : Rsa) : res dnssec_error KeyPair :=
  try* pkey := ssl (PKey_from_rsa rsa) in Ok (KeyPair.RSA pkey).
Definition KeyPair_from_ec_key (ec_key : EcKey) : res dnssec_error KeyPair :=
  try* pkey := ssl (PKey_from_ec_key ec_key) in Ok (KeyPair.EC pkey).
Definition KeyPair_from_ed25519 (private_key public_key : bytes) : KeyPair :=
  KeyPair.ED25519 private_key public_key.

(** The exponent and the modulus of an RSA key (RFC 3110). *)
Definition rsa_split (public_key : bytes) : res dnssec_error (bytes * bytes) :=
  if (length public_key <? 3)%nat || (4096 + 3 <? Z.of_nat (length public_key)) then
    Err DnsSecMessage
  else
    let first := Z.to_nat (nth 0 public_key 0) in
    let '(num_exp_len_octs, len) :=
      if (first =? 0)%nat then
        (3%nat, Z.to_nat (Z.lor (Z.shiftl (nth 1 public_key 0) 8) (nth 2 public_key 0)))
      else (1%nat, first) in
    try* e := slice public_key num_exp_len_octs (len + num_exp_len_octs) in
    try* n := slice_from public_key (len + num_exp_len_octs) in
    Ok (e, n).

Definition from_public_rsa (public_key : bytes) : res dnssec_error KeyPair :=
  try* en := rsa_split public_key in
  try* e := ssl (BigNum_from_slice en.1) in
  try* n := ssl (BigNum_from_slice en.2) in
  try* rsa := ssl (Rsa_from_public_components n e) in
  KeyPair_from_rsa rsa.

Definition from_public_ec (curve : Curve) (public_key : bytes) : res dnssec_error KeyPair :=
  try* point := ssl (EcPoint_from_bytes curve public_key) in
  try* ec_key := ssl (EcKey_from_public_key curve point) in
  try* pkey := ssl (PKey_from_ec_key ec_key) in
  Ok (KeyPair.EC pkey).

Definition KeyPair_from_public_bytes (public_key : bytes) (algorithm : Algorithm) :
    res dnssec_error KeyPair :=
  match algorithm with
  | Algorithm.RSASHA1 | Algorithm.RSASHA1NSEC3SHA1 | Algorithm.RSASHA256 | Algorithm.RSASHA512 =>
      from_public_rsa public_key
  | Algorithm.ECDSAP256SHA256 => from_public_ec SECP256K1 public_key
  | Algorithm.ECDSAP384SHA384 => from_public_ec SECP384R1 public_key
  | Algorithm.ED25519 =>
      if negb (length public_key =? 32)%nat then Err DnsSecMsg
      else Ok (KeyPair.ED25519 (replicate 32 0) (reverse public_key))
  end.

Definition rsa_public_bytes (e n : bytes) : bytes :=
  (if 255 <? Z.of_nat (length e) then
     [0; as_u8 (Z.shiftr (Z.of_nat (length e)) 8); as_u8 (Z.of_nat (length e))]
   else [as_u8 (Z.of_nat (length e))]) ++ e ++ n.

Definition KeyPair_to_public_bytes (self : KeyPair) : res dnssec_error bytes :=
  match self with
  | KeyPair.RSA pkey =>
      try* rsa := expect (PKey_rsa pkey) in
      try* e := expect (Rsa_e rsa) in
      try* n := expect (Rsa_n rsa) in
      Ok (rsa_public_bytes (BigNum_to_vec e) (BigNum_to_vec n))
  | KeyPair.EC pkey =>
      try* ec_key := expect (PKey_ec_key pkey) in
      if EcKey_has_group ec_key then
        match EcKey_public_key ec_key with
        | Some point => ssl (EcPoint_to_bytes ec_key point)
        | None => Err DnsSecMessage
        end
      else Err DnsSecMessage
  | KeyPair.ED25519 _ public_key => Ok (reverse public_key)
  end.

(** The sum of the bytes, those at even positions shifted; [usize] does not
    overflow on a key that fits in memory. *)
Fixpoint key_tag_sum (odd : bool) (bs : bytes) (ac : Z) : Z :=
  match bs with
  | [] => ac
  | k :: bs => key_tag_sum (negb odd) bs (ac + (if odd then k else Z.shiftl k 8))
  end.
Definition key_tag_of (bs : bytes) : Z :=
  let ac := key_tag_sum false bs 0 in
  let ac := ac + Z.land (Z.shiftr ac 16) 65535 in
  as_u16 (Z.land ac 65535).

Definition KeyPair_key_tag (self : KeyPair) : res dnssec_error Z :=
  try* bs := KeyPair_to_public_bytes self in Ok (key_tag_of bs).

Definition KeyPair_to_dnskey (self : KeyPair) (algorithm : Algorithm) : res dnssec_error DNSKEY :=
  try* bs := KeyPair_to_public_bytes self in Ok (mkDNSKEY true true false algorithm bs).

Definition KeyPair_to_ds `{Lowercase} (self : KeyPair) (name : Name) (algorithm : Algorithm)
    (digest_type : DigestType) : res dnssec_error DS :=
  try* dnskey := KeyPair_to_dnskey self algorithm in
  try* key_tag := KeyPair_key_tag self in
  try* digest := DNSKEY_to_digest dnskey name digest_type in
  Ok (mkDS key_tag algorithm digest_type digest).

Definition KeyPair_sign (self : KeyPair) (algorithm : Algorithm) (message : bytes) :
    res dnssec_error bytes :=
  match self with
  | KeyPair.RSA pkey | KeyPair.EC pkey =>
      try* digest_type := DigestType_to_openssl_digest (DigestType_from algorithm) in
      try* r := expect (openssl_sign digest_type pkey message) in
      ssl r
  | KeyPair.ED25519 private_key public_key =>
      match ring_sign private_key public_key message with
      | Some s => Ok s
      | None => Err DnsSecMessage
      end
  end.

Definition KeyPair_verify (self : KeyPair) (algorithm : Algorithm) (message signature : bytes) :
    res dnssec_error () :=
  match self with
  | KeyPair.RSA pkey | KeyPair.EC pkey =>
      try* digest_type := DigestType_to_openssl_digest (DigestType_from algorithm) in
      try* r := expect (openssl_verify digest_type pkey message signature) in
      try* b := ssl r in
      if (b : bool) then Ok () else Err DnsSecMessage
  | KeyPair.ED25519 _ public_key =>
      if ring_verify public_key message signature then Ok () else Err DnsSecRing
  end.

Definition KeyPair_to_private_bytes (self : KeyPair) : res dnssec_error bytes :=
  match self with
  | KeyPair.RSA pkey | KeyPair.EC pkey => ssl (PKey_private_key_to_pem pkey)
  | KeyPair.ED25519 private_key public_key => Ok (private_key ++ public_key)
  end.

Definition KeyPair_from_private_bytes (algorithm : Algorithm) (bs : bytes) :
    res dnssec_error KeyPair :=
  match algorithm with
  | Algorithm.RSASHA1 | Algorithm.RSASHA1NSEC3SHA1 | Algorithm.RSASHA256 | Algorithm.RSASHA512 =>
      try* rsa := ssl (Rsa_private_key_from_pem bs) in KeyPair_from_rsa rsa
  | Algorithm.ECDSAP256SHA256 | Algorithm.ECDSAP384SHA384 =>
      try* ec := ssl (EcKey_private_key_from_pem bs) in KeyPair_from_ec_key ec
  | Algorithm.ED25519 =>
      if negb (length bs =? 64)%nat then Err DnsSecMsg
      else Ok (KeyPair_from_ed25519 (take 32 bs) (drop 32 bs))
  end.
End keys.

(** ** Trust anchors *)

Record TrustAnchor : Type := mkTrustAnchor { pkeys : list bytes }.

Definition TrustAnchor_new : TrustAnchor := mkTrustAnchor [].
(** [root_key] is what [Rsa::public_key_from_pem] makes of the file [Kjqmt7v.pem] that is compiled in. *)
Definition TrustAnchor_default `{Crypto} {E} (root_key : option Rsa) : res E TrustAnchor :=
  try* rsa := expect root_key in
  try* key := match KeyPair_from_rsa rsa with Ok key => Ok key | _ => Panic end in
  try* public_key := match KeyPair_to_public_bytes key with Ok bs => Ok bs | _ => Panic end in
  Ok (mkTrustAnchor [public_key]).
Definition TrustAnchor_contains (self : TrustAnchor) (other_key : bytes) : bool :=
  existsb (λ k, bool_decide (other_key = k)) (pkeys self).
Definition TrustAnchor_insert_trust_anchor (self : TrustAnchor) (public_key : bytes) : TrustAnchor :=
  if TrustAnchor_contains self public_key then self else mkTrustAnchor (pkeys self ++ [public_key]).
Definition TrustAnchor_get {E} (self : TrustAnchor) (idx : nat) : res E bytes :=
  expect (pkeys self !! idx).

(** ** What the libraries promise *)

Section laws.
Context `{C : Crypto}.

(** The exponent and the modulus of an RSA key. *)
Definition rsa_components (r : Rsa) : option (BigNum * BigNum) :=
  e ← Rsa_e r; n ← Rsa_n r; Some (e, n).
Definition public_part (pkey : PKey) : option (BigNum * BigNum) := PKey_rsa pkey ≫= rsa_components.

Class CryptoLaws : Prop := {
  BigNum_from_to b : BigNum_from_slice (BigNum_to_vec b) = Some b;
  Rsa_public r e n :
    rsa_components r = Some (e, n) →
    ∃ r' p, Rsa_from_public_components n e = Some r' ∧ PKey_from_rsa r' = Some p ∧
            public_part p = Some (e, n);
  (** A signature verifies under every key with the public part of the signing key. *)
  openssl_verify_sign d k k' c m s :
    public_part k = Some c → public_part k' = Some c →
    openssl_sign d k m = Some (Some s) → openssl_verify d k' m s = Some (Some true);
}.
End laws.

(** ** Public keys on the wire *)

Definition rsa_algorithm (a : Algorithm) : Prop :=
  a = Algorithm.RSASHA1 ∨ a = Algorithm.RSASHA1NSEC3SHA1 ∨ a = Algorithm.RSASHA256 ∨
  a = Algorithm.RSASHA512.

#[global] Instance rsa_algorithm_dec a : Decision (rsa_algorithm a).
Proof. unfold rsa_algorithm. apply _. Defined.

(** The octets that hold the exponent's length, and that length. *)
Definition rsa_exponent (bs : bytes) : nat * nat :=
  let first := Z.to_nat (nth 0 bs 0) in
  if (first =? 0)%nat then (3%nat, Z.to_nat (Z.lor (Z.shiftl (nth 1 bs 0) 8) (nth 2 bs 0)))
  else (1%nat, first).

Definition rsa_length_ok (bs : bytes) : Prop := 3 ≤ Z.of_nat (length bs) ≤ 4099.

#[global] Instance rsa_length_ok_dec bs : Decision (rsa_length_ok bs).
Proof. unfold rsa_length_ok. apply _. Defined.

Lemma rsa_split_eq bs :
  rsa_split bs =
  if decide (rsa_length_ok bs) then
    let '(o, l) := rsa_exponent bs in
    if decide (l + o ≤ length bs)%nat then Ok (take l (drop o bs), drop (l + o) bs) else Panic
  else Err DnsSecMessage.
Proof.
  unfold rsa_split, rsa_length_ok.
  destruct (decide (3 ≤ Z.of_nat (length bs) ≤ 4099)) as [H|H].
  - rewrite (proj2 (Nat.ltb_ge _ _)), (proj2 (Z.ltb_ge _ _)) by lia. cbn [orb].
    fold (rsa_exponent bs). destruct (rsa_exponent bs) as [o l]. unfold slice, slice_from.
    destruct (decide (l + o ≤ length bs)%nat).
    + rewrite !decide_True by lia. cbn. 
      by replace (l + o - o)%nat with l by lia.
    + rewrite decide_False by lia. done.
  - destruct (Nat.ltb_spec (length bs) 3); [done|]. by rewrite (proj2 (Z.ltb_lt _ _)) by lia.
Qed.

Lemma rsa_split_public e n :
  (0 < length e)%nat → rsa_length_ok (rsa_public_bytes e n) →
  rsa_split (rsa_public_bytes e n) = Ok (e, n).
Proof.
  intros He Hlen. rewrite rsa_split_eq, decide_True by done.
  assert (He' : Z.of_nat (length e) ≤ 4099).
  { unfold rsa_length_ok, rsa_public_bytes in Hlen. rewrite !length_app in Hlen. lia. }
  assert (Hexp : rsa_exponent (rsa_public_bytes e n) =
                 (if 255 <? Z.of_nat (length e) then 3%nat else 1%nat, length e)).
  { unfold rsa_exponent, rsa_public_bytes. destruct (Z.ltb_spec 255 (Z.of_nat (length e))).
    - cbn [app nth Z.to_nat Nat.eqb]. f_equal.
      rewrite <-(Nat2Z.id (length e)) at 3. f_equal. unfold as_u8.
      rewrite Z.shiftr_div_pow2 by lia.
      rewrite (Z.mod_small (Z.of_nat (length e) / 2^8)) by
        (split; [apply Z.div_pos; lia|apply Z.div_lt_upper_bound; lia]).
      rewrite Z.shiftl_mul_pow2, lor_low by (lia || (apply Z.mod_pos_bound; lia)).
      rewrite Z.mul_comm. symmetry. apply Z.div_mod. lia.
    - cbn [app nth]. unfold as_u8. rewrite Z.mod_small, Nat2Z.id by lia.
      by rewrite (proj2 (Nat.eqb_neq _ _)) by lia. }
  rewrite Hexp. unfold rsa_public_bytes.
  destruct (255 <? Z.of_nat (length e)); rewrite decide_True by
    (rewrite !length_app; simpl; lia); cbn [app drop];
    rewrite (Nat.add_comm (length e)); cbn [drop Nat.add];
    by rewrite drop_0, take_app_length, drop_app_length.
Qed.

(** ** The properties of keys *)

Section key_props.
Context `{CL : CryptoLaws}.

(** An RSA key survives publication: the bytes put in its DNSKEY record are
    read back as a key with the same public part, which publishes the same bytes. *)
Theorem KeyPair_rsa_public_roundtrip pkey e n alg :
  public_part pkey = Some (e, n) → rsa_algorithm alg → (0 < length (BigNum_to_vec e))%nat →
  rsa_length_ok (rsa_public_bytes (BigNum_to_vec e) (BigNum_to_vec n)) →
  ∃ bs q, KeyPair_to_public_bytes (KeyPair.RSA pkey) = Ok bs ∧
          KeyPair_from_public_bytes bs alg = Ok (KeyPair.RSA q) ∧
          public_part q = Some (e, n) ∧ KeyPair_to_public_bytes (KeyPair.RSA q) = Ok bs.
Proof.
  intros Hp Ha He Hlen.
  assert (Hto : ∀ p, public_part p = Some (e, n) → KeyPair_to_public_bytes (KeyPair.RSA p) =
                Ok (rsa_public_bytes (BigNum_to_vec e) (BigNum_to_vec n))).
  { intros p. unfold public_part, rsa_components, KeyPair_to_public_bytes.
    destruct (PKey_rsa p) as [r|]; [|done]. cbn.
    destruct (Rsa_e r), (Rsa_n r); try done. cbn. by intros [= -> ->]. }
  assert (Hc : ∃ r, rsa_components r = Some (e, n)).
  { unfold public_part in Hp. destruct (PKey_rsa pkey) as [r|]; [by exists r|done]. }
  destruct Hc as [r Hr]. destruct (Rsa_public r e n Hr) as (r' & q & H1 & H2 & Hq).
  exists (rsa_public_bytes (BigNum_to_vec e) (BigNum_to_vec n)), q.
  split_and!; [by apply Hto| |done|by apply Hto].
  assert (Hrsa : KeyPair_from_public_bytes (rsa_public_bytes (BigNum_to_vec e) (BigNum_to_vec n)) alg
          = from_public_rsa (rsa_public_bytes (BigNum_to_vec e) (BigNum_to_vec n)))
    by (by destruct Ha as [->|[->|[->| ->]]]).
  rewrite Hrsa. unfold from_public_rsa, KeyPair_from_rsa. rewrite rsa_split_public by done. cbn.
  rewrite !BigNum_from_to. cbn. rewrite H1. cbn. by rewrite H2.
Qed.
End key_props.

(** Reading a public key panics exactly on an RSA key of acceptable length that
    announces a longer exponent than it holds. *)
Theorem KeyPair_from_public_bytes_panics `{Crypto} bs alg :
  KeyPair_from_public_bytes bs alg = Panic ↔
  rsa_algorithm alg ∧ rsa_length_ok bs ∧
  (length bs < (rsa_exponent bs).1 + (rsa_exponent bs).2)%nat.
Proof.
  assert (Hssl : ∀ A B (o : option A) (k : A → res dnssec_error B),
    (∀ a, k a ≠ Panic) → rbind (ssl o) k ≠ Panic) by (intros ? ? [] ? Hk; [apply Hk|done]).
  assert (Hlast : ∀ A (o : option A), ssl o ≠ Panic) by (by intros ? []).
  assert (Hrsa : from_public_rsa bs = Panic ↔ rsa_split bs = Panic).
  { unfold from_public_rsa. destruct (rsa_split bs) as [en|?| |]; try done. split; [|done].
    intros Hp. exfalso. revert Hp. cbn. unfold KeyPair_from_rsa. by repeat (apply Hssl; intros ?). }
  assert (Hec : ∀ c, from_public_ec c bs ≠ Panic).
  { intros c. unfold from_public_ec. by repeat (apply Hssl; intros ?). }
  assert (Hsplit : rsa_split bs = Panic ↔ rsa_length_ok bs ∧
    (length bs < (rsa_exponent bs).1 + (rsa_exponent bs).2)%nat).
  { rewrite rsa_split_eq. destruct (decide (rsa_length_ok bs)); [|by split; [|intros [? _]]].
    destruct (rsa_exponent bs) as [o l]. simpl. destruct (decide (l + o ≤ length bs)%nat).
    - split; [done|]. intros [_ ?]. lia.
    - split; [|done]. intros _. split; [done|lia]. }
  assert (Halg : if decide (rsa_algorithm alg)
                 then KeyPair_from_public_bytes bs alg = from_public_rsa bs
                 else KeyPair_from_public_bytes bs alg ≠ Panic).
  { destruct alg; simpl; auto. by destruct (length bs =? 32)%nat. }
  destruct (decide (rsa_algorithm alg)) as [Hr|Hr].
  - rewrite Halg, Hrsa, Hsplit. tauto.
  - split; [by intros ?|by intros [? _]].
Qed.

(** The words of a key: its bytes in pairs, the high byte first, an odd last byte
    being a high byte. *)
Fixpoint be_words (bs : bytes) : list Z :=
  match bs with
  | [] => []
  | [h] => [h * 2^8]
  | h :: l :: bs => h * 2^8 + l :: be_words bs
  end.

Lemma be_words_ind (P : bytes → Prop) :
  P [] → (∀ h, P [h]) → (∀ h l bs, P bs → P (h :: l :: bs)) → ∀ bs, P bs.
Proof.
  intros H0 H1 H2. assert (∀ bs, P bs ∧ ∀ x, P (x :: bs)) as H; [|intros; apply H].
  induction bs as [|b bs [IH IH']]; [auto|]. split; [apply IH'|auto].
Qed.

Lemma key_tag_sum_words bs ac : key_tag_sum false bs ac = ac + foldr Z.add 0 (be_words bs).
Proof.
  revert ac. induction bs as [|h|h l bs IH] using be_words_ind; intros ac; simpl;
    rewrite ?Z.shiftl_mul_pow2 by lia; [lia|lia|]. rewrite IH. lia.
Qed.

Lemma be_words_nonneg bs : Forall u8 bs → 0 ≤ foldr Z.add 0 (be_words bs).
Proof.
  induction bs as [|h|h l bs IH] using be_words_ind; intros Hb; simpl; [lia|..];
    repeat match goal with H : Forall _ (_ :: _) |- _ => apply Forall_cons in H as [? H] end;
    unfold u8 in *; [lia|]. specialize (IH Hb). lia.
Qed.

(** The key tag is the ones'-complement-like checksum of RFC 2535, appendix C,
    over the words of the public key: their sum plus its second word, in sixteen
    bits. *)
Theorem KeyPair_key_tag_spec `{Crypto} key bs :
  KeyPair_to_public_bytes key = Ok bs → Forall u8 bs →
  let ac := foldr Z.add 0 (be_words bs) in
  KeyPair_key_tag key = Ok ((ac + (ac / 2^16) `mod` 2^16) `mod` 2^16).
Proof.
  intros Hk Hb ac. unfold KeyPair_key_tag. rewrite Hk. cbn [rbind]. f_equal.
  unfold key_tag_of. rewrite key_tag_sum_words. fold ac. rewrite Z.add_0_l.
  pose proof (be_words_nonneg bs Hb). change 65535 with (Z.ones 16). unfold as_u16.
  rewrite !Z.land_ones, Z.shiftr_div_pow2 by lia. by rewrite Z.mod_mod by lia.
Qed.

(** ** An instance *)

(** A library in which numbers are their bytes and a message is its own signature. *)
Definition toy_crypto : Crypto := {|
  BigNum := bytes;
  Rsa := bytes * bytes;
  EcKey := ();
  EcPoint := ();
  PKey := bytes * bytes;
  BigNum_from_slice bs := Some bs;
  BigNum_to_vec b := b;
  Rsa_from_public_components n e := Some (n, e);
  Rsa_n r := Some r.1;
  Rsa_e r := Some r.2;
  Rsa_private_key_from_pem _ := None;
  EcPoint_from_bytes _ _ := None;
  EcPoint_to_bytes _ _ := None;
  EcKey_from_public_key _ _ := None;
  EcKey_has_group _ := false;
  EcKey_public_key _ := None;
  EcKey_private_key_from_pem _ := None;
  PKey_from_rsa r := Some r;
  PKey_rsa p := Some p;
  PKey_from_ec_key _ := None;
  PKey_ec_key _ := None;
  PKey_private_key_to_pem _ := None;
  openssl_hash _ m := Some m;
  openssl_sign _ _ m := Some (Some m);
  openssl_verify _ _ m s := Some (Some (bool_decide (m = s)));
  ring_sign _ _ m := Some m;
  ring_verify _ m s := bool_decide (m = s);
|}.

#[local] Existing Instance toy_crypto.

#[local] Instance toy_laws : CryptoLaws.
Proof.
  split; simpl; [done| |].
  - intros [n e] ? ? [= <- <-]. by exists (n, e), (n, e).
  - intros d k k' c m s _ _ [= <-]. by rewrite bool_decide_eq_true_2.
Qed.

Definition toy_pkey : PKey := ([187; 9], [1; 0; 1]).

Lemma KeyPair_rsa_public_roundtrip_witness :
  ∃ q, KeyPair_from_public_bytes [3; 1; 0; 1; 187; 9] Algorithm.RSASHA256 = Ok (KeyPair.RSA q) ∧
       public_part q = Some ([1; 0; 1], [187; 9]).
Proof.
  destruct (KeyPair_rsa_public_roundtrip toy_pkey [1; 0; 1] [187; 9]
              Algorithm.RSASHA256) as (bs & q & H1 & H2 & H3 & _).
  - reflexivity.
  - right. right. by left.
  - simpl. lia.
  - vm_compute. split; discriminate.
  - exists q. injection H1 as <-. split; [exact H2|exact H3].
Defined.

Lemma KeyPair_key_tag_spec_witness :
  KeyPair_key_tag (KeyPair.RSA toy_pkey) = Ok 48651.
Proof.
  rewrite (KeyPair_key_tag_spec (KeyPair.RSA toy_pkey) [3; 1; 0; 1; 187; 9]).
  - vm_compute. reflexivity.
  - reflexivity.
  - repeat constructor; unfold u8; lia.
Defined.
