(* ===== verification/Signer.v ===== *)
(** * Signing and verifying

    Models [client/src/rr/dnssec/signer.rs] and [Message::sign] of
    [client/src/op/message.rs]: the data a signature covers, for a message
    (SIG(0), RFC 2931) and for a record set (RRSIG, RFC 4035). *)

From S2P Require Import Prelude Codec Wire Domain Enums Header RData RDataWire BitMaps RDataProps.
From S2P Require Import Resource Message KeyPair.

Open Scope Z_scope.

(** ** The type *)

(** [sig_duration] is in nanoseconds. *)
Record Signer `{Crypto} : Type := mkSigner {
  s_key : KeyPair;
  s_algorithm : Algorithm;
  s_signer_name : Name;
  s_sig_duration : Z;
  s_is_zone_signing_key : bool;
  s_is_zone_update_auth : bool;
}.

Section signer.
Context `{L : Lowercase} `{HO : HashOrder} `{C : Crypto}.

Definition Signer_new_verifier (algorithm : Algorithm) (key : KeyPair) (signer_name : Name)
    (is_zone_signing_key is_zone_update_auth : bool) : Signer :=
  mkSigner _ key algorithm signer_name 0 is_zone_signing_key is_zone_update_auth.

Definition Signer_new (algorithm : Algorithm) (key : KeyPair) (signer_name : Name)
    (sig_duration : Z) (is_zone_signing_key is_zone_update_auth : bool) : Signer :=
  mkSigner _ key algorithm signer_name sig_duration is_zone_signing_key is_zone_update_auth.

Definition Signer_calculate_key_tag (self : Signer) : res dnssec_error Z :=
  try* bs := KeyPair_to_public_bytes (s_key self) in Ok (key_tag_of bs).

Definition Signer_sign (self : Signer) (hash : bytes) : res dnssec_error bytes :=
  KeyPair_sign (s_key self) (s_algorithm self) hash.
Definition Signer_verify (self : Signer) (hash signature : bytes) : res dnssec_error () :=
  KeyPair_verify (s_key self) (s_algorithm self) hash signature.

(** ** Messages *)

(** The buffer a signature of the message covers; [emit(..).unwrap()]. *)
Definition signing_bytes (message : Message) : res dnssec_error bytes :=
  match Message_emit message (BinEncoder_with_mode [] Signing) with
  | (Ok _, e) => Ok (ebuf e)
  | (Diverge, _) => Diverge
  | _ => Panic
  end.

Definition Signer_hash_message (self : Signer) (message : Message) : res dnssec_error bytes :=
  try* buf := signing_bytes message in
  DigestType_hash (DigestType_from (s_algorithm self)) buf.

Definition Signer_sign_message (self : Signer) (message : Message) : res dnssec_error bytes :=
  try* hash := Signer_hash_message self message in Signer_sign self hash.

Definition Signer_verify_message (self : Signer) (message : Message) (signature : bytes) :
    res dnssec_error () :=
  try* hash := Signer_hash_message self message in Signer_verify self hash signature.

(** The SIG(0) record [Message::sign] adds. *)
Definition sig0_record (signer : Signer) (inception_time expiration_time key_tag : Z)
    (signature : bytes) : RRecord :=
  let sig0 := Record_new in
  let sig0 := Record_ttl sig0 0 in
  let sig0 := Record_dns_class sig0 DNSClass.ANY in
  let sig0 := Record_name sig0 Name_root in
  let num_labels := Name_num_labels (r_name_labels sig0) in
  let sig0 := Record_rr_type sig0 RecordType.SIG in
  Record_rdata sig0
    (RData.SIG (mkSIG RecordType.NULL (s_algorithm signer) num_labels 0 expiration_time
                  inception_time key_tag (s_signer_name signer) signature)).

Definition Message_sign (self : Message) (signer : Signer) (inception_time : Z) :
    res dnssec_error Message :=
  try* signature := Signer_sign_message signer self in
  try* key_tag := Signer_calculate_key_tag signer in
  let expiration_time := inception_time + 5 * 60 in
  if expiration_time <=? u32_max then
    Message_add_sig0 self (sig0_record signer inception_time expiration_time key_tag signature)
  else Panic.

(** ** Record sets *)

Definition Signer_determine_name {E} (name : Name) (num_labels : Z) : res E (option Name) :=
  let fqdn_labels := Name_num_labels name in
  if fqdn_labels =? num_labels then Ok (Some name)
  else if num_labels <? fqdn_labels then
    try* star_name := Name_label Name_new [42] in
    let rightmost := Name_trim_to name (Z.to_nat num_labels) in
    if negb (Name_is_root rightmost) then
      try* star_name := Name_append star_name rightmost in Ok (Some star_name)
    else Ok (Some star_name)
  else Ok None.

(** The derived [Ord]: the fields in the order of their declaration, the order in
    which [partial_cmp] compares them too. *)
Definition Record_cmp {E} (self other : RRecord) : res E comparison :=
  Record_partial_cmp self other.

(** [sort]: stable, by [Ord]. *)
Fixpoint sort_insert {E} (x : RRecord) (l : list RRecord) : res E (list RRecord) :=
  match l with
  | [] => Ok [x]
  | y :: l' =>
      try* o := Record_cmp x y in
      match o with
      | Gt => try* l' := sort_insert x l' in Ok (y :: l')
      | _ => Ok (x :: y :: l')
      end
  end.
Fixpoint sort_records {E} (l : list RRecord) : res E (list RRecord) :=
  match l with
  | [] => Ok []
  | x :: l => try* l := sort_records l in sort_insert x l
  end.

(** [assert!(m.is_ok())] *)
Definition assert_ok {S E A} (m : M S E A) : M S E () := λ s,
  match m s with
  | (Ok _, s') => (Ok (), s')
  | (Err _, s') | (Panic, s') => (Panic, s')
  | (Diverge, s') => (Diverge, s')
  end.

(** The data of a record in canonical form, written by an encoder of its own. *)
Definition canonical_rdata {E} (rdata : RData) : res E bytes :=
  match (assert_ok (BinEncoder_set_canonical_names true ;;; RData_emit rdata)) (BinEncoder_new []) with
  | (Ok _, e) => Ok (ebuf e)
  | (Diverge, _) => Diverge
  | _ => Panic
  end.

Definition hash_rrset_record (name : Name) (type_covered : RecordType) (dns_class : DNSClass)
    (original_ttl : Z) (record : RRecord) : X () :=
  let* lower := lift (Name_to_lowercase name) in
  assert_ok (Name_emit_as_canonical lower true) ;;;
  assert_ok (RecordType_emit type_covered) ;;;
  assert_ok (DNSClass_emit dns_class) ;;;
  assert_ok (BinEncoder_emit_u32 original_ttl) ;;;
  let* rdata_buf := lift (canonical_rdata (r_rdata record)) in
  assert_ok (BinEncoder_emit_u16 (as_u16 (Z.of_nat (length rdata_buf)))) ;;;
  assert_ok (BinEncoder_emit_vec rdata_buf).

Definition Signer_hash_rrset (name : Name) (dns_class : DNSClass) (num_labels : Z)
    (type_covered : RecordType) (algorithm : Algorithm)
    (original_ttl sig_expiration sig_inception key_tag : Z) (signer_name : Name)
    (records : list RRecord) : res dnssec_error bytes :=
  let rrset :=
    filter (λ r, dns_class = r_dns_class r ∧ type_covered = r_rr_type r ∧
                 Name_eq name (r_name_labels r) = true) records in
  try* rrset := sort_records rrset in
  try* determined := Signer_determine_name name num_labels in
  match determined with
  | None => Err DnsSecMsg
  | Some name =>
      let '(r, e) :=
        (BinEncoder_set_canonical_names true ;;;
         assert_ok (emit_pre_sig type_covered algorithm (Name_num_labels name) original_ttl
                      sig_expiration sig_inception key_tag signer_name) ;;;
         for_each (hash_rrset_record name type_covered dns_class original_ttl) rrset)
          (BinEncoder_new []) in
      match r with
      | Ok _ => Ok (ebuf e)
      | Diverge => Diverge
      | _ => Panic
      end
  end.

Definition Signer_hash_rrset_with_sig (name : Name) (dns_class : DNSClass) (sig : SIG)
    (records : list RRecord) : res dnssec_error bytes :=
  Signer_hash_rrset name dns_class (sig_num_labels sig) (sig_type_covered sig) (sig_algorithm sig)
    (sig_original_ttl sig) (sig_expiration sig) (sig_inception sig) (sig_key_tag sig)
    (sig_signer_name sig) records.

Definition Signer_hash_rrset_with_rrsig (rrsig : RRecord) (records : list RRecord) :
    res dnssec_error bytes :=
  match r_rdata rrsig with
  | RData.SIG sig =>
      Signer_hash_rrset_with_sig (r_name_labels rrsig) (r_dns_class rrsig) sig records
  | _ => Err DnsSecMsg
  end.
End signer.

(** ** What a signature of a message covers *)

(** Data whose bytes do not depend on the order in which a hash map is walked. *)
Definition few_options (r : RData) : Prop :=
  match r with RData.OPT opt => (size (opt_options opt) ≤ 1)%nat | _ => True end.

Definition message_few_options (m : Message) : Prop :=
  Forall (few_options ∘ r_rdata) (m_answers m) ∧ Forall (few_options ∘ r_rdata) (m_name_servers m) ∧
  Forall (few_options ∘ r_rdata) (m_additionals m) ∧
  if m_edns m is Some edns then (size (opt_options (e_options edns)) ≤ 1)%nat else True.

Lemma hash_order_small {K V} `{Countable K} (H1 H2 : HashOrder) (m : gmap K V) :
  (size m ≤ 1)%nat → hash_order (HashOrder:=H1) m = hash_order (HashOrder:=H2) m.
Proof.
  intros Hs.
  assert (Hall : ∀ HO : HashOrder, hash_order (HashOrder:=HO) m = map_to_list m);
    [|by rewrite !Hall].
  intros HO. pose proof (hash_order_perm m) as Hp. rewrite <-length_map_to_list in Hs.
  destruct (map_to_list m) as [|x [|y l]]; simpl in Hs; [|by apply Permutation_singleton_r in Hp|lia].
  by apply Permutation_nil_r in Hp.
Qed.

(** Every type has a code below 256, so a bit map has one window. *)
Lemma encode_bit_maps_one_window {E} ts : ∀ hash h : gmap Z bytes,
  dom hash ⊆ {[0]} → encode_bit_maps_loop (E:=E) hash ts = Ok h → dom h ⊆ {[0]}.
Proof.
  induction ts as [|t ts IH]; intros hash h Hd; [by intros [= <-]|]. cbn [encode_bit_maps_loop].
  destruct (encode_bit_maps_step (E:=E) hash t) as [hash'|?| |] eqn:Hs; try done. cbn [rbind].
  apply IH. revert Hs. unfold encode_bit_maps_step. pose proof (code_range t) as Hr.
  assert (Hw : as_u8 (Z.shiftr (code t) 8) = 0)
    by (rewrite Z.shiftr_div_pow2 by lia; by rewrite Z.div_small by lia).
  rewrite Hw. case_decide; [|done]. case_match; [|done]. intros [= <-].
  rewrite dom_insert. set_solver.
Qed.

Lemma encode_bit_maps_orders (H1 H2 : HashOrder) ts e :
  encode_bit_maps (H:=H1) ts e = encode_bit_maps (H:=H2) ts e.
Proof.
  unfold encode_bit_maps, bind, lift.
  destruct (encode_bit_maps_loop ∅ ts) as [h|?| |] eqn:Hl; try done.
  apply encode_bit_maps_one_window in Hl; [|set_solver].
  rewrite (hash_order_small H1 H2); [done|].
  rewrite <-size_dom. rewrite (subseteq_size _ _ Hl). by rewrite size_singleton.
Qed.

Section two_orders.
Context `{L : Lowercase} (H1 H2 : HashOrder).

Lemma RData_emit_orders r e : few_options r → RData_emit (HO:=H1) r e = RData_emit (HO:=H2) r e.
Proof.
  intros Hf. destruct r as [| | | | | | | | | | | |[opts]| | | | |]; try done; simpl in *.
  - unfold nsec_emit. do 3 (apply bind_ext; [done|intros ? ?]).
    apply bind_ext; [|done]. intros ?. apply encode_bit_maps_orders.
  - unfold nsec3_emit. do 7 (apply bind_ext; [done|intros ? ?]). apply encode_bit_maps_orders.
  - unfold opt_emit. by rewrite (hash_order_small H1 H2).
Qed.

Lemma Record_emit_rdata r r' e :
  (∀ e, RData_emit (HO:=H1) (r_rdata r) e = RData_emit (HO:=H2) (r_rdata r') e) →
  r_name_labels r' = r_name_labels r → r_rr_type r' = r_rr_type r →
  r_dns_class r' = r_dns_class r → r_ttl r' = r_ttl r →
  Record_emit (HO:=H1) r e = Record_emit (HO:=H2) r' e.
Proof.
  intros Hr Hn Ht Hc Httl. unfold Record_emit. rewrite Hn, Ht, Hc, Httl.
  do 4 (apply bind_ext; [done|intros _ ?]). apply bind_ext; [|done]. intros e'.
  unfold emit_tmp. by rewrite Hr.
Qed.

Lemma RData_emit_norm `{HO : HashOrder} r e : RData_emit (rdata_norm r) e = RData_emit r e.
Proof.
  destruct (decide (rdata_norm r = r)) as [->|Hne]; [done|]. rewrite (rdata_norm_empty r) by done.
  destruct r as [| | | | | | | | | | | |[opts]| | | | |[[|]]]; try done. simpl in *.
  by destruct (decide (opts = ∅)).
Qed.

Lemma emit_records_orders rs e :
  Forall (few_options ∘ r_rdata) rs →
  Message_emit_records (HO:=H1) rs e = Message_emit_records (HO:=H2) (record_norm <$> rs) e.
Proof.
  intros Hf. apply for_each_ext. apply Forall2_fmap_r, Forall_Forall2_diag.
  eapply Forall_impl; [exact Hf|]. intros r Hr s. apply Record_emit_rdata; try done.
  intros ?. simpl. by rewrite RData_emit_norm, RData_emit_orders.
Qed.
End two_orders.

Lemma Message_emit_signing `{Lowercase} `{HashOrder} m e :
  emode e = Signing →
  Message_emit m e =
  (let* header := lift (Message_update_header_counts m false) in
   Header_emit header ;;;
   for_each Query_emit (m_queries m) ;;;
   Message_emit_records (m_answers m) ;;;
   Message_emit_records (m_name_servers m) ;;;
   Message_emit_records (m_additionals m) ;;;
   (match m_edns m with Some edns => Record_emit (Record_from_edns edns) | None => ret () end) ;;;
   ret ()) e.
Proof. intros He. unfold Message_emit, bind at 1, gets, BinEncoder_mode. by rewrite He. Qed.

(** The bytes covered by a signature are those of the message that arrives: the
    signature records and the header's counts do not matter. *)
Lemma signing_emit `{L : Lowercase} (H1 H2 : HashOrder) m sigs e :
  let m' := mkMessage (m_header m) (m_queries m) (m_answers m) (m_name_servers m)
              (m_additionals m) sigs (m_edns m) in
  message_ok m → message_ok m' → message_few_options m → emode e = Signing →
  Message_emit (HO:=H1) m e = Message_emit (HO:=H2) (message_norm m') e.
Proof.
  intros m' Hm Hm' (Ha & Hn & Hd & He) Hmode. rewrite !Message_emit_signing by done.
  assert (Hh : Message_update_header_counts (E:=encode_error) m false =
               Message_update_header_counts (message_norm m') false).
  { pose proof (mo_additional_count _ Hm). pose proof (mo_additional_count _ Hm') as Hc.
    pose proof (mo_query_count _ Hm). pose proof (mo_answer_count _ Hm).
    pose proof (mo_name_server_count _ Hm). unfold Message_update_header_counts.
    cbn [message_norm m_queries m_answers m_name_servers m_additionals m_sig0 m_edns m_header m'] in *.
    rewrite !length_fmap, !(proj2 (Z.leb_le _ _)) by lia. done. }
  rewrite Hh. do 3 (apply bind_ext; [done|intros ? ?]).
  do 3 (apply bind_ext; [intros ?; by apply emit_records_orders|intros _ ?]).
  apply bind_ext; [|done]. intros ?. cbn [message_norm m_edns m'].
  destruct (m_edns m) as [edns|]; [|done]. apply Record_emit_rdata; try done.
  intros ?. by apply RData_emit_orders.
Qed.

(** ** The properties of signed messages *)

(** C20: A signed message is accepted where it arrives: when a message is signed with
    an RSA key, written, and read back, the last signature it carries verifies
    under every key with the same public part — whatever order the receiver's
    hash maps are walked in, as long as there is at most one EDNS option. *)
Theorem Message_sign_verifies `{L : Lowercase} `{CL : CryptoLaws} (H1 H2 : HashOrder)
    m m' signer verifier pkey pkey' c t bs :
  message_ok m → message_few_options m →
  s_key signer = KeyPair.RSA pkey → public_part pkey = Some c →
  s_key verifier = KeyPair.RSA pkey' → public_part pkey' = Some c →
  s_algorithm verifier = s_algorithm signer →
  Message_sign (HO:=H1) m signer t = Ok m' → message_ok m' →
  Message_to_vec (HO:=H1) m' = Ok bs →
  ∃ r rec sig, Message_from_vec bs = Ok r ∧ last (m_sig0 r) = Some rec ∧
    r_rdata rec = RData.SIG sig ∧
    Signer_verify_message (HO:=H2) verifier r (sig_sig sig) = Ok ().
Proof.
  intros Hm Hf Hk Hp Hk' Hp' Ha Hs Hm' Hbs.
  unfold Message_sign, Signer_sign_message, Signer_hash_message in Hs.
  destruct (signing_bytes (HO:=H1) m) as [buf|?| |] eqn:Hbuf; try done. cbn [rbind] in Hs.
  destruct (DigestType_hash _ buf) as [hash|?| |] eqn:Hhash; try done. cbn [rbind] in Hs.
  destruct (Signer_sign signer hash) as [s|?| |] eqn:Hsign; try done. cbn [rbind] in Hs.
  destruct (Signer_calculate_key_tag signer) as [kt|?| |]; try done. cbn [rbind] in Hs.
  destruct (t + 5 * 60 <=? u32_max); [|done]. injection Hs as <-.
  eexists _, _, _. split; [by eapply (message_written_read (HO:=H1))|].
  split; [cbn [message_norm m_sig0]; by rewrite fmap_app, list_fmap_singleton, last_snoc|]. split; [done|].
  cbn [sig_sig]. unfold Signer_verify_message, Signer_hash_message. rewrite Ha.
  assert (Hbuf' : signing_bytes (HO:=H2) (message_norm (mkMessage (m_header m) (m_queries m)
    (m_answers m) (m_name_servers m) (m_additionals m)
    (m_sig0 m ++ [sig0_record signer t (t + 5 * 60) kt s]) (m_edns m))) = Ok buf).
  { rewrite <-Hbuf. unfold signing_bytes.
    by rewrite <-(signing_emit H1 H2 m _ (BinEncoder_with_mode [] Signing) Hm Hm' Hf eq_refl). }
  rewrite Hbuf'. cbn [rbind]. rewrite Hhash. cbn [rbind].
  unfold Signer_verify, Signer_sign in *. rewrite Hk in Hsign. rewrite Hk', Ha.
  unfold KeyPair_verify, KeyPair_sign in *.
  destruct (DigestType_to_openssl_digest _) as [d|?| |]; try done. cbn [rbind] in *.
  destruct (openssl_sign d pkey hash) as [[s'|]|] eqn:Hos; try done. injection Hsign as ->.
  by rewrite (openssl_verify_sign d pkey pkey' c hash s Hp Hp' Hos).
Qed.

(** No message can be signed or verified with ED25519: its digest type, meant as
    a pass-through, is refused by the hash function. *)
Theorem Signer_ed25519_messages `{L : Lowercase} `{HO : HashOrder} `{Crypto} signer m buf sig :
  s_algorithm signer = Algorithm.ED25519 → signing_bytes m = Ok buf →
  Signer_sign_message signer m = Err DnsSecMsg ∧
  Signer_verify_message signer m sig = Err DnsSecMsg.
Proof.
  intros Ha Hb. unfold Signer_sign_message, Signer_verify_message, Signer_hash_message.
  by rewrite Hb, Ha.
Qed.

(** ** The name a signature covers *)

Lemma Name_append_small {E} n m :
  (length (labels n) + length (labels m) ≤ 255)%nat →
  Name_append (E:=E) n m = Ok (mkName (labels n ++ labels m)).
Proof.
  unfold Name_append. destruct n as [ls], m as [ms]. cbn [labels]. revert ls.
  induction ms as [|l ms IH]; intros ls Hlen; simpl in *; [by rewrite app_nil_r|].
  unfold Name_add_label, Name_checked. cbn [labels]. rewrite length_app. simpl.
  rewrite decide_True by lia. cbn [rbind].
  rewrite IH by (rewrite length_app; simpl; lia). by rewrite <-app_assoc.
Qed.

Lemma Name_num_labels_small n :
  (length (labels n) < 256)%nat →
  Name_num_labels n =
  Z.of_nat (length (labels n)) - (if decide (head (labels n) = Some [42]) then 1 else 0).
Proof.
  intros Hn. unfold Name_num_labels, as_u8. rewrite Z.mod_small by lia.
  destruct (labels n) as [|l ls]; [done|]. simpl length in *.
  rewrite (proj2 (Z.ltb_lt 0 _)) by lia. cbn [andb].
  destruct (decide (head (l :: ls) = Some [42])).
  - by rewrite bool_decide_eq_true_2.
  - rewrite bool_decide_eq_false_2 by done. lia.
Qed.

(** The owner name a signature is computed over (RFC 4035, 5.3.2): the name
    itself when the signature's label count is the name's; the wildcard over the
    rightmost labels when it is smaller, a name that has exactly that many labels;
    and no name when it is larger. *)
Theorem Signer_determine_name_spec {E} name k :
  (length (labels name) < 256)%nat → 0 ≤ k →
  Signer_determine_name (E:=E) name k =
    Ok (if decide (k = Name_num_labels name) then Some name
        else if decide (k < Name_num_labels name) then
          Some (mkName ([42] :: drop (length (labels name) - Z.to_nat k) (labels name)))
        else None) ∧
  (k < Name_num_labels name →
   Name_num_labels (mkName ([42] :: drop (length (labels name) - Z.to_nat k) (labels name))) = k).
Proof.
  intros Hlen Hk. pose proof (Name_num_labels_small name Hlen) as Hnum.
  assert (Hle : k < Name_num_labels name → (Z.to_nat k ≤ length (labels name))%nat ∧
                (Z.to_nat k < 255)%nat).
  { destruct (decide (head (labels name) = Some [42])); lia. }
  split.
  - unfold Signer_determine_name. destruct (Z.eqb_spec (Name_num_labels name) k).
    { by rewrite decide_True. }
    rewrite decide_False by congruence. destruct (Z.ltb_spec k (Name_num_labels name)) as [Hlt|?].
    + rewrite decide_True by done. destruct (Hle Hlt) as [H1 H2].
      unfold Name_label, Name_checked, Name_trim_to. cbn [Name_new labels app length].
      rewrite !decide_True by lia. cbn [rbind]. unfold Name_is_root. cbn [labels].
      destruct (drop _ (labels name)) as [|l ls] eqn:Hd; [done|]. cbn [negb].
      rewrite bool_decide_eq_false_2 by done. cbn [negb].
      rewrite Name_append_small; [done|]. cbn [labels]. rewrite <-Hd, length_drop. simpl. lia.
    + by rewrite decide_False by lia.
  - intros Hlt. destruct (Hle Hlt) as [H1 H2]. rewrite Name_num_labels_small.
    + simpl. rewrite length_drop. lia.
    + simpl. rewrite length_drop. lia.
Qed.

(** ** The order of the records in a signature *)

Section rrset_order.
Context `{L : Lowercase} `{HO : HashOrder}.

(** The bytes [Ord for RData] compares, for data that can be written. *)
Definition rdata_bytes (r : RData) : bytes :=
  match RData_to_bytes (E:=dnssec_error) r with Ok b => b | _ => [] end.

Lemma record_ok_bytes {E} r :
  record_ok r → RData_to_bytes (E:=E) (r_rdata r) = Ok (rdata_bytes (r_rdata r)) ∧
  ∃ e, RData_emit (r_rdata r) (BinEncoder_new []) = (Ok (), e) ∧ ebuf e = rdata_bytes (r_rdata r).
Proof.
  intros Hr. assert (Hok : ∃ e, RData_emit (r_rdata r) (BinEncoder_new []) = (Ok (), e)).
  { destruct (ro_rdata _ Hr) as [->|[_ Hf]]; [by eexists|].
    destruct (TOT_rdata _ Hf (BinEncoder_new [])) as (e & He & _); [done| |by exists e].
    simpl. pose proof (ro_size _ Hr). unfold u16_max, u32_max in *. lia. }
  destruct Hok as [e He]. unfold rdata_bytes, RData_to_bytes. rewrite He.
  split; [done|]. by exists e.
Qed.

(** Data of one type is determined by its bytes, up to data without bytes. *)
Lemma rdata_bytes_inj r1 r2 :
  record_ok r1 → record_ok r2 → r_rr_type r1 = r_rr_type r2 →
  rdata_bytes (r_rdata r1) = rdata_bytes (r_rdata r2) →
  rdata_norm (r_rdata r1) = rdata_norm (r_rdata r2).
Proof.
  intros H1 H2 Ht Hb.
  destruct (record_ok_bytes (E:=()) r1 H1) as (_ & e1 & E1 & B1).
  destruct (record_ok_bytes (E:=()) r2 H2) as (_ & e2 & E2 & B2).
  assert (Hnew : enc_ok no_pending [] (BinEncoder_new [])) by apply (enc_ok_new [] Normal).
  assert (Hread : ∀ r e, record_ok r → RData_emit (r_rdata r) (BinEncoder_new []) = (Ok (), e) →
    if decide (ebuf e = []) then rdata_norm (r_rdata r) = RData.NULL NULL_new
    else (RData_read (r_rr_type r) (Z.of_nat (length (ebuf e))) (dec_at (ebuf e) 0)).1 =
         Ok (rdata_norm (r_rdata r))).
  { intros r e Hr He. destruct (ro_rdata _ Hr) as [Hn|[Hm Hf]].
    { rewrite Hn in *. injection He as <-. by rewrite decide_True. }
    case_decide as Hemp.
    - eapply (empty_rdata _ _ _ _ _ Hm Hf Hnew eq_refl He). by rewrite Hemp.
    - destruct (RTN_rdata _ _ Hm Hf _ _ _ Hnew eq_refl He) as (_ & _ & Hrd). specialize (Hrd []).
      simpl in Hrd. rewrite Nat.sub_0_r, app_nil_r in Hrd. rewrite Hrd. simpl. f_equal.
      destruct (decide (rdata_norm (r_rdata r) = r_rdata r)) as [|Hne]; [done|].
      rewrite (rdata_norm_empty _ _ Hne) in He. by injection He as <-. }
  pose proof (Hread r1 e1 H1 E1) as R1. pose proof (Hread r2 e2 H2 E2) as R2.
  rewrite B1 in R1. rewrite B2, <-Hb in R2. rewrite <-Ht in R2.
  case_decide; [congruence|]. rewrite R1 in R2. by injection R2.
Qed.

Lemma canonical_rdata_norm {E} r : canonical_rdata (E:=E) (rdata_norm r) = canonical_rdata r.
Proof.
  unfold canonical_rdata, assert_ok, bind. cbn. by rewrite RData_emit_norm.
Qed.

(** What orders the records of one name, class and type. *)
Definition rkey (r : RRecord) : list Z := r_ttl r :: rdata_bytes (r_rdata r).

Definition key_le (k k' : list Z) : Prop := cmp k k' ≠ Gt.

Record one_rrset (name : Name) (t : RecordType) (c : DNSClass) (r : RRecord) : Prop := {
  or_ok : record_ok r;
  or_name : Name_eq name (r_name_labels r) = true;
  or_type : t = r_rr_type r;
  or_class : c = r_dns_class r;
}.

Lemma cmp_cons (x y : Z) (l k : list Z) :
  cmp (x :: l) (y :: k) = match cmp x y with Eq => cmp l k | o => o end.
Proof. done. Qed.

Lemma Record_cmp_key {E} name t c x y :
  one_rrset name t c x → one_rrset name t c y →
  Record_cmp (E:=E) x y = Ok (cmp (rkey x) (rkey y)).
Proof.
  intros [Hx Nx Tx Cx] [Hy Ny Ty Cy]. unfold Record_cmp, Record_partial_cmp.
  apply Name_eq_cmp in Nx, Ny.
  assert (cmp (r_name_labels x) (r_name_labels y) = Eq) as ->
    by (by rewrite <-(cmp_eq_l _ _ _ Nx)).
  rewrite <-Tx, <-Ty, <-Cx, <-Cy, !cmp_refl. cbn [then_cmp rbind].
  unfold rkey. rewrite cmp_cons. destruct (cmp (r_ttl x) (r_ttl y)); [|done..].
  unfold RData_cmp. rewrite (proj1 (record_ok_bytes x Hx)), (proj1 (record_ok_bytes y Hy)).
  cbn [rbind then_cmp]. by destruct (cmp (rdata_bytes _) _).
Qed.

#[local] Instance key_le_trans : Transitive key_le.
Proof. intros x y z. apply cmp_le_trans. Qed.

#[local] Instance key_le_antisymm : AntiSymm (=) key_le.
Proof.
  intros x y Hxy Hyx. apply (list_cmp_eq_iff x y Z_cmp_eq_iff). unfold key_le in *.
  rewrite (cmp_opp x y) in Hyx. by destruct (cmp x y).
Qed.

Lemma sort_insert_spec {E} name t c x l :
  one_rrset name t c x → Forall (one_rrset name t c) l → StronglySorted key_le (rkey <$> l) →
  ∃ l', sort_insert (E:=E) x l = Ok l' ∧ l' ≡ₚ x :: l ∧ StronglySorted key_le (rkey <$> l').
Proof.
  intros Hx. induction l as [|y l IH]; intros Hl Hs; simpl.
  { exists [x]. split_and!; [done..|]. repeat constructor. }
  apply Forall_cons in Hl as [Hy Hl]. rewrite fmap_cons in Hs.
  apply StronglySorted_inv in Hs as [Hs Hall]. rewrite (Record_cmp_key _ _ _ _ _ Hx Hy). cbn [rbind].
  assert (Hfront : key_le (rkey x) (rkey y) →
    StronglySorted key_le (rkey <$> x :: y :: l)).
  { intros Hle. rewrite !fmap_cons. constructor; [by constructor|]. constructor; [done|].
    eapply Forall_impl; [exact Hall|]. intros k Hk. by etrans. }
  destruct (cmp (rkey x) (rkey y)) eqn:Hc.
  - exists (x :: y :: l). split_and!; [done..|]. apply Hfront. unfold key_le. by rewrite Hc.
  - exists (x :: y :: l). split_and!; [done..|]. apply Hfront. unfold key_le. by rewrite Hc.
  - destruct (IH Hl Hs) as (l' & -> & Hp & Hs'). exists (y :: l'). split; [done|].
    split; [rewrite Hp; apply Permutation_swap|]. rewrite fmap_cons. constructor; [done|].
    rewrite Hp, fmap_cons. constructor; [|done]. unfold key_le. rewrite cmp_opp, Hc. done.
Qed.

Lemma sort_records_spec {E} name t c l :
  Forall (one_rrset name t c) l →
  ∃ l', sort_records (E:=E) l = Ok l' ∧ l' ≡ₚ l ∧ StronglySorted key_le (rkey <$> l').
Proof.
  induction l as [|x l IH]; intros Hl; simpl; [by exists []; split_and!; [| |constructor]|].
  apply Forall_cons in Hl as [Hx Hl]. destruct (IH Hl) as (l' & -> & Hp & Hs). cbn [rbind].
  destruct (sort_insert_spec (E:=E) name t c x l' Hx) as (l'' & -> & Hp' & Hs'); [by rewrite Hp|done|].
  exists l''. split_and!; [done| |done]. by rewrite Hp', Hp.
Qed.

(** Two records that sort together contribute the same bytes. *)
Lemma hash_rrset_record_key name' ttl name t c x y e :
  one_rrset name t c x → one_rrset name t c y → rkey x = rkey y →
  hash_rrset_record name' t c ttl x e = hash_rrset_record name' t c ttl y e.
Proof.
  intros [Hx _ Tx _] [Hy _ Ty _] [= _ Hb]. unfold hash_rrset_record.
  assert (Hc : canonical_rdata (E:=encode_error) (r_rdata x) = canonical_rdata (r_rdata y)).
  { rewrite <-(canonical_rdata_norm (r_rdata x)), <-(canonical_rdata_norm (r_rdata y)).
    f_equal. apply rdata_bytes_inj; [done..|congruence|done]. }
  by rewrite Hc.
Qed.

Lemma same_keys_records name' ttl name t c l l' :
  Forall (one_rrset name t c) l → Forall (one_rrset name t c) l' → rkey <$> l = rkey <$> l' →
  Forall2 (λ x y, ∀ e, hash_rrset_record name' t c ttl x e = hash_rrset_record name' t c ttl y e) l l'.
Proof.
  intros Hl. revert l'. induction Hl as [|x l Hx Hl IH]; intros [|y l'] Hl' Hk; try done.
  rewrite !fmap_cons in Hk. apply Forall_cons in Hl' as [Hy Hl'].
  constructor; [|apply IH; [done|congruence]].
  intros e. eapply hash_rrset_record_key; eauto. congruence.
Qed.

Lemma hash_rrset_perm name c k t alg ttl exp inc tag signer rs rs' :
  Forall record_ok rs → rs ≡ₚ rs' →
  Signer_hash_rrset name c k t alg ttl exp inc tag signer rs =
  Signer_hash_rrset name c k t alg ttl exp inc tag signer rs'.
Proof.
  intros Hok Hp. unfold Signer_hash_rrset.
  set (P := λ r : RRecord, c = r_dns_class r ∧ t = r_rr_type r ∧ Name_eq name (r_name_labels r) = true).
  assert (Hall : ∀ l, l ≡ₚ rs → Forall (one_rrset name t c) (filter P l)).
  { intros l Hl. rewrite Forall_forall. intros r [(Hc & Ht & Hn) Hr]%list_elem_of_filter.
    split; try done. rewrite Hl in Hr. rewrite Forall_forall in Hok. auto. }
  destruct (sort_records_spec (E:=dnssec_error) name t c (filter P rs)) as (l & -> & Hl & Hs);
    [by apply Hall|].
  destruct (sort_records_spec (E:=dnssec_error) name t c (filter P rs')) as (l' & -> & Hl' & Hs');
    [by apply Hall|]. cbn [rbind].
  assert (Hkeys : rkey <$> l = rkey <$> l').
  { apply (StronglySorted_unique key_le); [done..|]. by rewrite Hl, Hl', Hp. }
  assert (Hf : ∀ l, l ≡ₚ filter P rs → Forall (one_rrset name t c) l).
  { intros x Hx. rewrite Hx. by apply Hall. }
  assert (Forall (one_rrset name t c) l) as Hfl by auto.
  assert (Forall (one_rrset name t c) l') as Hfl' by (apply Hf; by rewrite Hl', Hp).
  assert (Hrec : ∀ name' e, for_each (hash_rrset_record name' t c ttl) l e =
                            for_each (hash_rrset_record name' t c ttl) l' e).
  { intros name' e. apply for_each_ext. by eapply same_keys_records. }
  destruct (Signer_determine_name name k) as [[name'|]|?| |]; try done. cbn [rbind].
  match goal with
  | |- (let '(_, _) := ?x in _) = (let '(_, _) := ?y in _) => assert (x = y) as ->; [|done]
  end.
  apply bind_ext; [done|intros _ s]. by apply bind_ext; [|intros _ ?].
Qed.
(** C37: A signature over a record set does not depend on the order in which the
    records arrive. *)
Theorem Signer_hash_rrset_perm name c k t alg ttl exp inc tag signer rs rs' :
  Forall record_ok rs → rs ≡ₚ rs' →
  Signer_hash_rrset name c k t alg ttl exp inc tag signer rs =
  Signer_hash_rrset name c k t alg ttl exp inc tag signer rs'.
Proof. apply hash_rrset_perm. Qed.
End rrset_order.

(** ** Instances *)

Section instances.
#[local] Existing Instance ascii_lowercase.
#[local] Existing Instance list_hash_order.
#[local] Existing Instance toy_crypto.
#[local] Existing Instance toy_laws.

(** The same hash maps, walked backwards. *)
Definition reverse_hash_order : HashOrder.
Proof.
  refine {| hash_order K V _ _ m := reverse (map_to_list m) |}.
  intros. by rewrite reverse_Permutation.
Defined.

Definition toy_signer : Signer :=
  Signer_new Algorithm.RSASHA256 (KeyPair.RSA toy_pkey) ex_name 0 false true.
Definition toy_ed_signer : Signer :=
  Signer_new Algorithm.ED25519 (KeyPair.ED25519 [] []) ex_name 0 false true.
Definition toy_query : Message :=
  mkMessage (Header_id Header_new 7) [mkQuery ex_name RecordType.A DNSClass.IN] [] [] [] [] None.
Definition toy_signed : Message :=
  match Message_sign toy_query toy_signer 1000 with Ok m => m | _ => Message_new end.

Lemma toy_query_ok : message_ok toy_query.
Proof. by_decision. Qed.

Lemma toy_signed_ok : message_ok toy_signed.
Proof. by_decision. Qed.

Lemma Message_sign_verifies_witness :
  ∃ bs r rec sig, Message_to_vec toy_signed = Ok bs ∧ Message_from_vec bs = Ok r ∧
    last (m_sig0 r) = Some rec ∧ r_rdata rec = RData.SIG sig ∧
    Signer_verify_message (HO:=reverse_hash_order) toy_signer r (sig_sig sig) = Ok ().
Proof.
  assert (Hbs : ∃ bs, Message_to_vec toy_signed = Ok bs) by (eexists; vm_compute; reflexivity).
  destruct Hbs as [bs Hbs]. exists bs.
  destruct (Message_sign_verifies list_hash_order reverse_hash_order toy_query toy_signed
    toy_signer toy_signer toy_pkey toy_pkey ([1; 0; 1], [187; 9]) 1000 bs) as (r & rec & sig & H).
  - exact toy_query_ok.
  - by repeat split.
  - reflexivity.
  - reflexivity.
  - reflexivity.
  - reflexivity.
  - reflexivity.
  - vm_compute. reflexivity.
  - exact toy_signed_ok.
  - exact Hbs.
  - exists r, rec, sig. by split.
Defined.

Lemma Signer_ed25519_messages_witness :
  Signer_sign_message toy_ed_signer toy_query = Err DnsSecMsg.
Proof.
  assert (Hb : ∃ buf, signing_bytes toy_query = Ok buf) by (eexists; vm_compute; reflexivity).
  destruct Hb as [buf Hb]. by apply (Signer_ed25519_messages toy_ed_signer toy_query buf []).
Defined.

Lemma Signer_determine_name_spec_witness :
  Signer_determine_name (E:=()) ex_name 1 = Ok (Some (mkName [[42]; [97; 98]])).
Proof.
  rewrite (proj1 (Signer_determine_name_spec (E:=()) ex_name 1 ltac:(vm_compute; lia) ltac:(lia))).
  reflexivity.
Defined.

Lemma Signer_hash_rrset_perm_witness :
  let hash := Signer_hash_rrset ex_name DNSClass.IN 2 RecordType.SOA Algorithm.RSASHA256 5 6 7 8 ex_name in
  hash [ex_soa; Record_ttl ex_soa 5] = hash [Record_ttl ex_soa 5; ex_soa].
Proof.
  apply Signer_hash_rrset_perm; [|apply Permutation_swap].
  by_decision.
Defined.

(** Two EDNS options, in the two orders a hash map may give them. *)
Definition toy_options : Edns :=
  mkEdns 0 0 false 512
    (mkOPT {[EdnsCode.DAU := EdnsOption.DAU (mkSupported 5);
             EdnsCode.DHU := EdnsOption.DHU (mkSupported 3)]}).

(** With two EDNS options the bytes a signature covers depend on the order in
    which the options' hash map is walked, which differs from process to process:
    the receiver of a well-formed message may then hash other bytes than the
    sender signed. *)
Theorem signing_bytes_order_dependent :
  ∃ m, message_ok m ∧
    signing_bytes (HO:=list_hash_order) m ≠ signing_bytes (HO:=reverse_hash_order) m.
Proof.
  exists (Message_set_edns toy_query toy_options). split.
  - by_decision.
  - vm_compute. congruence.
Qed.
End instances.
