(* ===== verification/Update.v ===== *)
(** * Update: messages as updates

    The trait [UpdateMessage] of [client/src/op/message.rs]: the sections of a message under
    the names they have in an update ([RFC 2136]).  The client builds its updates through it and
    the server reads them through it.  The laws say that the sections are kept
    apart: what is added under one name is read under that name only, in order. *)

From S2P Require Import Prelude Codec Wire Domain Enums Header RData RDataProps Resource Message KeyPair Signer.

Open Scope Z_scope.

(** The methods on the sections; [sign] is [UpdateMessage_sign] below. *)
Class UpdateMessage (U : Type) := {
  update_id : U → Z;
  add_zone : U → Query → U;
  add_pre_requisite : U → RRecord → U;
  add_all_pre_requisites : U → list RRecord → U;
  add_pre_requisites : U → list RRecord → U;
  add_update : U → RRecord → U;
  add_all_updates : U → list RRecord → U;
  add_updates : U → list RRecord → U;
  add_additional : U → RRecord → U;
  get_zones : U → list Query;
  get_pre_requisites : U → list RRecord;
  get_updates : U → list RRecord;
  get_additionals : U → list RRecord;
  get_sig0 : U → list RRecord;
}.
#[global] Hint Mode UpdateMessage ! : typeclass_instances.

(** What an update consists of. *)
Definition update_sections `{UpdateMessage U} (u : U) : list Query * list RRecord * list RRecord * list RRecord :=
  (get_zones u, get_pre_requisites u, get_updates u, get_additionals u).

Class UpdateMessageLaws `{UpdateMessage U} := {
  add_zone_sections (u : U) q zs ps us ads : update_sections u = (zs, ps, us, ads) →
    update_sections (add_zone u q) = (zs ++ [q], ps, us, ads);
  add_pre_requisites_sections (u : U) rs zs ps us ads : update_sections u = (zs, ps, us, ads) →
    update_sections (add_pre_requisites u rs) = (zs, ps ++ rs, us, ads);
  add_updates_sections (u : U) rs zs ps us ads : update_sections u = (zs, ps, us, ads) →
    update_sections (add_updates u rs) = (zs, ps, us ++ rs, ads);
  add_additional_sections (u : U) r zs ps us ads : update_sections u = (zs, ps, us, ads) →
    update_sections (add_additional u r) = (zs, ps, us, ads ++ [r]);
  add_pre_requisite_one (u : U) r : add_pre_requisite u r = add_pre_requisites u [r];
  add_update_one (u : U) r : add_update u r = add_updates u [r];
}.

#[global] Instance Message_UpdateMessage : UpdateMessage Message := {
  update_id self := h_id (m_header self);
  add_zone := Message_add_query;
  add_pre_requisite := Message_add_answer;
  add_all_pre_requisites := Message_add_answers;
  add_pre_requisites := Message_add_answers;
  add_update := Message_add_name_server;
  add_all_updates := Message_add_name_servers;
  add_updates := Message_add_name_servers;
  add_additional := Message_add_additional;
  get_zones := m_queries;
  get_pre_requisites := m_answers;
  get_updates := m_name_servers;
  get_additionals := m_additionals;
  get_sig0 := m_sig0;
}.

#[global] Instance Message_UpdateMessageLaws : UpdateMessageLaws (U:=Message).
Proof.
  split; unfold update_sections; simpl; try (by intros; simplify_eq).
  - intros u rs zs ps us ads [= <- <- <- <-]. by rewrite add_answers_eq.
  - intros u rs zs ps us ads [= <- <- <- <-]. by rewrite add_name_servers_eq.
Qed.

(** ** Signing *)

Section sign.
Context `{L : Lowercase} `{HO : HashOrder} `{C : Crypto}.

Definition UpdateMessage_sign (self : Message) (signer : Signer) (inception_time : Z) : res dnssec_error Message :=
  Message_sign self signer inception_time.

Lemma Message_sign_inv m signer now m' : Message_sign m signer now = Ok m' →
  ∃ expiration key_tag signature, m' = mkMessage (m_header m) (m_queries m) (m_answers m) (m_name_servers m)
    (m_additionals m) (m_sig0 m ++ [sig0_record signer now expiration key_tag signature]) (m_edns m).
Proof.
  unfold Message_sign. destruct (Signer_sign_message signer m) as [signature| | |]; try done. cbn [rbind].
  destruct (Signer_calculate_key_tag signer) as [key_tag| | |]; try done. cbn [rbind].
  destruct (_ <=? u32_max); [|done]. unfold Message_add_sig0. cbn. intros [= <-]. eauto.
Qed.

(** Signing an update adds one signature and leaves the sections as they are. *)
Lemma UpdateMessage_sign_sections m signer now m' : UpdateMessage_sign m signer now = Ok m' →
  update_sections m' = update_sections m ∧ ∃ sig, get_sig0 m' = get_sig0 m ++ [sig].
Proof. intros (? & ? & ? & ->)%Message_sign_inv. split; [done|by eexists]. Qed.
End sign.
