(* ===== verification/BTree.v ===== *)
(** * Ordered maps

    What the authority uses of [std::collections::BTreeMap]: an association list
    in ascending order of its keys.  Keys are looked up by [Ord::cmp] alone, and a
    key that is already present is kept when its value is replaced: two names that
    differ in case are one key. *)

From S2P Require Import Prelude.

Definition BTreeMap (K V : Type) : Type := list (K * V).

Section btree.
Context {K V : Type} `{CL : CompareLaws K}.
Implicit Types (k : K) (v : V) (m : BTreeMap K V).

Fixpoint BTreeMap_get (k : K) (m : BTreeMap K V) : option V :=
  match m with
  | [] => None
  | (k', v) :: m =>
      match cmp k k' with Eq => Some v | Lt => None | Gt => BTreeMap_get k m end
  end.

(** [entry(k)] with a value put in place of the entry's. *)
Fixpoint BTreeMap_set (k : K) (v : V) (m : BTreeMap K V) : BTreeMap K V :=
  match m with
  | [] => [(k, v)]
  | (k', v') :: m' =>
      match cmp k k' with
      | Eq => (k', v) :: m'
      | Lt => (k, v) :: m
      | Gt => (k', v') :: BTreeMap_set k v m'
      end
  end.

Fixpoint BTreeMap_remove (k : K) (m : BTreeMap K V) : BTreeMap K V :=
  match m with
  | [] => []
  | (k', v') :: m' =>
      match cmp k k' with
      | Eq => m'
      | Lt => m
      | Gt => (k', v') :: BTreeMap_remove k m'
      end
  end.

Definition BTreeMap_keys (m : BTreeMap K V) : list K := fst <$> m.
Definition BTreeMap_values (m : BTreeMap K V) : list V := snd <$> m.

(** ** The invariant *)

Definition key_lt (x y : K * V) : Prop := cmp x.1 y.1 = Lt.
Definition btree_ok (m : BTreeMap K V) : Prop := StronglySorted key_lt m.

Lemma btree_ok_nil : btree_ok [].
Proof. constructor. Qed.

Lemma btree_ok_cons x m : btree_ok (x :: m) ↔ btree_ok m ∧ Forall (key_lt x) m.
Proof.
  split; [by intros [? ?]%StronglySorted_inv|]. intros [? ?]. by constructor.
Qed.

(** A key below the first is in no entry. *)
Lemma get_below k m : Forall (λ x, cmp k x.1 = Lt) m → BTreeMap_get k m = None.
Proof. destruct m as [|[k' v] m]; [done|]. intros [Hk _]%Forall_cons. simpl in *. by rewrite Hk. Qed.

Lemma below_trans k k' m :
  cmp k k' = Lt → Forall (λ x : K * V, cmp k' x.1 = Lt) m → Forall (λ x, cmp k x.1 = Lt) m.
Proof. intros Hk Hm. eapply Forall_impl; [exact Hm|]. intros x Hx. by eapply cmp_lt_trans. Qed.

Lemma below_eq k k' m :
  cmp k k' = Eq → Forall (λ x : K * V, cmp k' x.1 = Lt) m → Forall (λ x, cmp k x.1 = Lt) m.
Proof.
  intros Hk Hm. eapply Forall_impl; [exact Hm|]. intros x Hx. simpl in *. by rewrite (cmp_eq_l k k').
Qed.

Lemma Forall_set (P : K * V → Prop) k v m :
  Forall P m → P (k, v) → (∀ k' v', (k', v') ∈ m → cmp k k' = Eq → P (k', v)) →
  Forall P (BTreeMap_set k v m).
Proof.
  induction m as [|[k' v'] m IH]; intros Hm Hk Hexist; simpl; [by constructor|].
  apply Forall_cons in Hm as [Hx Hm]. destruct (cmp k k') eqn:E.
  - constructor; [|done]. eapply Hexist; [by left|done].
  - by repeat constructor.
  - constructor; [done|]. apply IH; [done..|]. intros. eapply Hexist; [by right|done].
Qed.

Lemma Forall_remove (P : K * V → Prop) k m : Forall P m → Forall P (BTreeMap_remove k m).
Proof.
  induction m as [|[k' v'] m IH]; intros Hm; simpl; [done|].
  apply Forall_cons in Hm as [Hx Hm]. destruct (cmp k k'); [done|by constructor|].
  constructor; auto.
Qed.

Lemma btree_ok_set k v m : btree_ok m → btree_ok (BTreeMap_set k v m).
Proof.
  induction m as [|[k' v'] m IH]; intros Hm; simpl; [by repeat constructor|].
  apply btree_ok_cons in Hm as [Hm Hlt]. destruct (cmp k k') eqn:E; apply btree_ok_cons.
  - split; [done|]. by eapply Forall_impl.
  - split; [by apply btree_ok_cons|]. constructor; [done|]. by apply (below_trans k k').
  - split; [by apply IH|]. apply Forall_set; [done| |].
    + unfold key_lt. simpl. by apply cmp_gt_lt.
    + intros k'' v'' Hin _. rewrite Forall_forall in Hlt. apply (Hlt _ Hin).
Qed.

Lemma btree_ok_remove k m : btree_ok m → btree_ok (BTreeMap_remove k m).
Proof.
  induction m as [|[k' v'] m IH]; intros Hm; simpl; [done|].
  apply btree_ok_cons in Hm as Hm'. destruct Hm' as [Hm' Hlt]. destruct (cmp k k'); [done..|].
  apply btree_ok_cons. split; [auto|]. by apply Forall_remove.
Qed.

(** ** Lookup after an update *)

Lemma get_eq k k' m : cmp k k' = Eq → BTreeMap_get k m = BTreeMap_get k' m.
Proof.
  intros E. induction m as [|[j v] m IH]; [done|]. simpl. by rewrite (cmp_eq_l k k' j E), IH.
Qed.

Lemma get_set k k' v m :
  btree_ok m →
  BTreeMap_get k' (BTreeMap_set k v m) =
  match cmp k' k with Eq => Some v | _ => BTreeMap_get k' m end.
Proof.
  induction m as [|[j w] m IH]; intros Hm; simpl; [by destruct (cmp k' k)|].
  apply btree_ok_cons in Hm as [Hm Hlt]. destruct (cmp k j) eqn:E; simpl.
  - rewrite (cmp_eq_r k' k j E). by destruct (cmp k' j).
  - destruct (cmp k' k) eqn:E'; try done. by rewrite (cmp_lt_trans k' k j E' E).
  - rewrite IH by done. destruct (cmp k' k) eqn:E'.
    + by rewrite (cmp_eq_l k' k j E'), E.
    + by destruct (cmp k' j).
    + by destruct (cmp k' j).
Qed.

Lemma get_remove k k' m :
  btree_ok m →
  BTreeMap_get k' (BTreeMap_remove k m) =
  match cmp k' k with Eq => None | _ => BTreeMap_get k' m end.
Proof.
  induction m as [|[j w] m IH]; intros Hm; simpl; [by destruct (cmp k' k)|].
  apply btree_ok_cons in Hm as [Hm Hlt]. destruct (cmp k j) eqn:E; simpl.
  - rewrite <-(cmp_eq_r k' k j E). destruct (cmp k' k) eqn:E'.
    + apply get_below. apply (below_eq k' j); [|done]. by rewrite <-(cmp_eq_r k' k j E).
    + apply get_below. apply (below_trans k' j); [|done]. by rewrite <-(cmp_eq_r k' k j E).
    + done.
  - destruct (cmp k' k) eqn:E'; [|done..]. by rewrite (cmp_eq_l k' k j E'), E.
  - rewrite IH by done. destruct (cmp k' k) eqn:E'.
    + by rewrite (cmp_eq_l k' k j E'), E.
    + by destruct (cmp k' j).
    + by destruct (cmp k' j).
Qed.

(** ** Lookup and membership *)

Lemma get_elem k v m :
  btree_ok m → BTreeMap_get k m = Some v ↔ ∃ k', (k', v) ∈ m ∧ cmp k k' = Eq.
Proof.
  induction m as [|[j w] m IH]; intros Hm; simpl.
  { split; [done|]. intros (k' & Hin & _). by apply elem_of_nil in Hin. }
  apply btree_ok_cons in Hm as [Hm Hlt]. rewrite Forall_forall in Hlt.
  assert (Hnot : ∀ k' : K, (k', v) ∈ m → cmp k k' = Eq → cmp k j = Gt).
  { intros k' Hin E. apply cmp_gt_lt. rewrite (cmp_eq_r j k k' E). apply (Hlt _ Hin). }
  destruct (cmp k j) eqn:E.
  - split; [intros [= ->]; exists j; by split; [left|]|].
    intros (k' & [[= -> ->]|Hin]%elem_of_cons & E'); [done|]. by specialize (Hnot k' Hin E').
  - split; [done|]. intros (k' & [[= -> ->]|Hin]%elem_of_cons & E'); [congruence|].
    by specialize (Hnot k' Hin E').
  - rewrite IH by done. split.
    + intros (k' & Hin & E'). exists k'. by split; [right|].
    + intros (k' & [[= -> ->]|Hin]%elem_of_cons & E'); [congruence|]. by exists k'.
Qed.

Lemma get_Forall (P : K * V → Prop) k v m :
  btree_ok m → Forall P m → BTreeMap_get k m = Some v → ∃ k', P (k', v) ∧ cmp k k' = Eq.
Proof.
  intros Hok HP [k' [Hin E]]%get_elem; [|done]. exists k'. rewrite Forall_forall in HP. auto.
Qed.

(** Putting back what is there changes nothing. *)
Lemma set_get k v m : BTreeMap_get k m = Some v → BTreeMap_set k v m = m.
Proof.
  induction m as [|[j w] m IH]; simpl; [done|]. destruct (cmp k j); [|done|].
  - by intros [= ->].
  - intros Hg. by rewrite IH.
Qed.

Lemma remove_absent k m : btree_ok m → BTreeMap_get k m = None → BTreeMap_remove k m = m.
Proof.
  induction m as [|[j w] m IH]; intros Hm Hg; simpl in *; [done|].
  apply btree_ok_cons in Hm as [Hm _]. destruct (cmp k j); [done..|]. by rewrite IH.
Qed.

Lemma get_remove_all k ks m :
  btree_ok m → Forall (λ k', cmp k k' ≠ Eq) ks →
  BTreeMap_get k (foldl (λ records k', BTreeMap_remove k' records) m ks) = BTreeMap_get k m.
Proof.
  revert m. induction ks as [|k' ks IH]; intros m Hm Hks; [done|]. simpl.
  apply Forall_cons in Hks as [Hk Hks]. rewrite IH by (by try apply btree_ok_remove).
  rewrite get_remove by done. by destruct (cmp k k').
Qed.
End btree.
