(* ===== verification/Journal.v ===== *)
(** * The journal

    Models [server/src/authority/persistence.rs]: the write-ahead log of a zone, a
    table of records in an SQLite database.  The database is the class [Sqlite]:
    the statements the source runs, [None] being an error; [SqliteLaws] states what
    SQLite documents of them.  The time stamp and the constant client id of a row are
    never read back and are left to the database. *)

From S2P Require Import Prelude Codec Wire Domain Enums RData RDataProps Resource RecordSet KeyPair.

Open Scope Z_scope.

(** ** The database *)

Class Sqlite := {
  Connection : Type;
  (** [INSERT INTO records ..]: the number of rows inserted. *)
  execute_insert : Connection → Z → bytes → option Z * Connection;
  (** [SELECT _rowid_, record FROM records WHERE _rowid_ >= $1 LIMIT 1] *)
  query_record : Connection → Z → option (option (Z * bytes));
}.

(** The rows of the table in the order of their row ids, which start at 1 and are
    consecutive as long as no row is deleted.  A query of a journal that is open is
    taken to answer; the error paths of its callers are in their definitions. *)
Class SqliteLaws `{Sqlite} := {
  rows : Connection → list bytes;
  execute_insert_ok c s b n c' :
    execute_insert c s b = (Some n, c') → n = 1 ∧ rows c' = rows c ++ [b];
  execute_insert_err c s b c' : execute_insert c s b = (None, c') → rows c' = rows c;
  query_record_ok c i :
    1 ≤ i → query_record c i = Some ((λ b, (i, b)) <$> rows c !! Z.to_nat (i - 1));
}.

(** [PersistenceErrorKind] *)
Inductive persistence_error : Type :=
  | PersistenceSqlite
  | PersistenceEncode (e : encode_error)
  | PersistenceDnsSec (e : dnssec_error)
  | WrongInsertCount (got expect : Z)
  | RecoveryError (msg : string).

(** ** The journal *)

Definition CURRENT_VERSION : Z := 1.

Record Journal `{Sqlite} : Type := mkJournal { j_conn : Connection; j_version : Z }.

Section journal.
Context `{L : Lowercase} `{HO : HashOrder} `{SQ : Sqlite}.

Definition Journal_insert_record (soa_serial : Z) (record : RRecord) :
    M Journal persistence_error () := λ self,
  if j_version self =? CURRENT_VERSION then
    match Record_emit record (BinEncoder_new []) with
    | (Ok _, e) =>
        let '(count, conn) := execute_insert (j_conn self) soa_serial (ebuf e) in
        let self := mkJournal _ conn (j_version self) in
        match count with
        | None => (Err PersistenceSqlite, self)
        | Some n => (if n =? 1 then Ok () else Err (WrongInsertCount n 1), self)
        end
    | (Err x, _) => (Err (PersistenceEncode x), self)
    | (Panic, _) => (Panic, self)
    | (Diverge, _) => (Diverge, self)
    end
  else (Panic, self).

Definition Journal_insert_records (soa_serial : Z) (records : list RRecord) :
    M Journal persistence_error () :=
  for_each (Journal_insert_record soa_serial) records.

(** A row that cannot be decoded is an error of the query. *)
Definition Journal_select_record (self : Journal) (row_id : Z) :
    res persistence_error (option (Z * RRecord)) :=
  if j_version self =? CURRENT_VERSION then
    match query_record (j_conn self) row_id with
    | None => Err PersistenceSqlite
    | Some None => Ok None
    | Some (Some (row_id, record_bytes)) =>
        match (Record_read (BinDecoder_new record_bytes)).1 with
        | Ok record => Ok (Some (row_id, record))
        | Err _ => Err PersistenceSqlite
        | Panic => Panic
        | Diverge => Diverge
        end
    end
  else Panic.

(** [JournalIter::next]: an error ends the iteration. *)
Definition JournalIter_next {E} (self : Journal) (current_row_id : Z) :
    res E (option (Z * RRecord)) :=
  match Journal_select_record self (current_row_id + 1) with
  | Ok r => Ok r
  | Err _ => Ok None
  | Panic => Panic
  | Diverge => Diverge
  end.

(** The records the iterator yields, from a row id on; [fuel] bounds their number. *)
Fixpoint JournalIter_from {E} (fuel : nat) (self : Journal) (current_row_id : Z) :
    res E (list RRecord) :=
  match fuel with
  | O => Diverge
  | S fuel =>
      try* next := JournalIter_next self current_row_id in
      match next with
      | None => Ok []
      | Some (row_id, record) =>
          try* rest := JournalIter_from fuel self row_id in Ok (record :: rest)
      end
  end.
End journal.

(** ** What is written is read back *)

Section journal_props.
Context `{L : Lowercase} `{HO : HashOrder} `{SL : SqliteLaws}.

(** A row that holds a record, in the form it is read back in. *)
Definition row_of (r : RRecord) (b : bytes) : Prop :=
  record_ok r ∧ ∃ e, Record_emit r (BinEncoder_new []) = (Ok (), e) ∧ ebuf e = b.

Lemma row_read r b : row_of r b → (Record_read (BinDecoder_new b)).1 = Ok (record_norm r).
Proof.
  intros (Hr & e & He & <-).
  destruct (RT_record r Hr [] (BinEncoder_new []) e (enc_ok_new [] Normal) eq_refl He)
    as (_ & _ & Hrd).
  specialize (Hrd []). simpl in Hrd. rewrite app_nil_r in Hrd. unfold BinDecoder_new. by rewrite Hrd.
Qed.

Lemma record_writes r :
  record_ok r → ∃ e, Record_emit r (BinEncoder_new []) = (Ok (), e) ∧ row_of r (ebuf e).
Proof.
  intros Hr. destruct (TOT_record r Hr (BinEncoder_new [])) as (e & He & _); [done| |].
  - simpl. unfold record_size. pose proof (ro_size _ Hr). destruct (ro_name _ Hr) as [_ Hn].
    unfold u16_max, u32_max in *. lia.
  - exists e. split; [done|]. split; [done|]. by exists e.
Qed.

(** The journal holds the records [rs]. *)
Definition journal_holds (j : Journal) (rs : list RRecord) : Prop :=
  j_version j = CURRENT_VERSION ∧ Forall2 row_of rs (rows (j_conn j)).

Lemma insert_records_holds serial rs' : ∀ j j' rs,
  journal_holds j rs → Forall record_ok rs' →
  Journal_insert_records serial rs' j = (Ok (), j') → journal_holds j' (rs ++ rs').
Proof.
  induction rs' as [|r rs' IH]; intros j j' rs Hj Hok Hins.
  { injection Hins as <-. by rewrite app_nil_r. }
  apply Forall_cons in Hok as [Hr Hok]. destruct Hj as [Hv Hrows].
  cbn [Journal_insert_records for_each] in Hins. apply bind_Ok_inv in Hins as ([] & j1 & H1 & H2).
  unfold Journal_insert_record in H1. rewrite Hv, Z.eqb_refl in H1.
  destruct (record_writes r Hr) as (e & He & Hrow). rewrite He in H1.
  destruct (execute_insert _ _ _) as [[n|] conn] eqn:Hex; [|done].
  destruct (execute_insert_ok _ _ _ _ _ Hex) as [-> Hc]. injection H1 as <-.
  rewrite cons_middle, app_assoc. eapply IH; [|done|exact H2].
  split; [done|]. simpl. rewrite Hc. apply Forall2_app; [done|]. by apply Forall2_cons.
Qed.

Lemma iter_holds {E} rs : ∀ n j rs0,
  journal_holds j (rs0 ++ rs) → (length rs < n)%nat →
  JournalIter_from (E:=E) n j (Z.of_nat (length rs0)) = Ok (record_norm <$> rs).
Proof.
  induction rs as [|r rs IH]; intros [|n] j rs0 [Hv Hrows] Hn; simpl in Hn; try lia;
    cbn [JournalIter_from]; unfold JournalIter_next, Journal_select_record;
    rewrite Hv, Z.eqb_refl, query_record_ok by lia;
    replace (Z.to_nat (Z.of_nat (length rs0) + 1 - 1)) with (length rs0) by lia.
  - apply Forall2_length in Hrows. rewrite app_nil_r in Hrows.
    by rewrite lookup_ge_None_2 by lia.
  - assert (Hl : (rs0 ++ r :: rs) !! length rs0 = Some r) by (by apply list_lookup_middle).
    destruct (Forall2_lookup_l _ _ _ _ _ Hrows Hl) as (b & Hb & Hrow). rewrite Hb. cbn.
    rewrite (row_read r b Hrow). cbn [rbind].
    specialize (IH n j (rs0 ++ [r])). rewrite length_app, <-app_assoc in IH.
    cbn [length app] in IH. rewrite Nat2Z.inj_add in IH. change (Z.of_nat 1) with 1 in IH.
    rewrite IH; [done|by split|lia].
Qed.

(** The journal is faithful: after any batch of well-formed records is appended,
    iterating over the journal yields what it held before followed by the batch, in
    order (data without bytes being read back as absent). *)
Theorem Journal_append_iter {E} j j' serial rs rs' n :
  journal_holds j rs → Forall record_ok rs' →
  Journal_insert_records serial rs' j = (Ok (), j') → (length (rs ++ rs') < n)%nat →
  JournalIter_from (E:=E) n j' 0 = Ok (record_norm <$> rs ++ rs').
Proof.
  intros Hj Hok Hins Hn. apply (iter_holds (rs ++ rs') n j' []); [|done].
  exact (insert_records_holds serial rs' j j' rs Hj Hok Hins).
Qed.
End journal_props.

(** ** An instance *)

(** A database that is its table. *)
Definition list_sqlite : Sqlite := {|
  Connection := list bytes;
  execute_insert c _ b := (Some 1, c ++ [b]);
  query_record c i := Some ((λ b, (i, b)) <$> c !! Z.to_nat (i - 1));
|}.

Definition list_sqlite_laws : SqliteLaws (H:=list_sqlite).
Proof.
  refine {| rows := (λ c, c) : Connection (Sqlite:=list_sqlite) → list bytes |}; simpl.
  - by intros c s b n c' [= <- <-].
  - done.
  - done.
Defined.

Definition empty_journal : Journal (H:=list_sqlite) := mkJournal list_sqlite [] 1.

Definition ex_log : list RRecord :=
  [Record_rr_type Record_new RecordType.AXFR; ex_a 5 1; ex_a 6 2].

Lemma ex_a_ok ttl x : u32 ttl → record_ok (ex_a ttl x).
Proof.
  intros Ht. split; simpl; try done; [|right; split; [by left|done]].
  split; [|unfold wire_len; simpl; lia]. by_decision.
Qed.

Lemma ex_log_ok : Forall record_ok ex_log.
Proof.
  repeat apply Forall_cons_2; try (by apply Forall_nil); try (apply ex_a_ok; unfold u32; lia).
  split; simpl; try done; [by split; [constructor|vm_compute; lia]|by left].
Qed.

Lemma Journal_append_iter_witness :
  ∃ j', Journal_insert_records (L:=ascii_lowercase) (HO:=list_hash_order) (SQ:=list_sqlite) 7 ex_log
          empty_journal = (Ok (), j') ∧
        JournalIter_from (SQ:=list_sqlite) (E:=()) 4 j' 0 = Ok (record_norm <$> [] ++ ex_log).
Proof.
  eexists. split; [vm_compute; reflexivity|].
  eapply (Journal_append_iter (L:=ascii_lowercase) (HO:=list_hash_order) (SL:=list_sqlite_laws)
           empty_journal _ 7 [] ex_log).
  - split; [done|constructor].
  - exact ex_log_ok.
  - vm_compute. reflexivity.
  - simpl. lia.
Defined.
