(* ===== verification/Authority.v ===== *)
(** * The authority of a zone

    Models [server/src/authority/authority.rs] and [client/src/rr/rr_key.rs]: the
    record sets of a zone, the queries and the dynamic updates (RFC 2136) on them,
    the generation of NSEC records and the signing of the zone. *)

From S2P Require Import Prelude Codec Wire Domain Enums Header RData RDataProps Resource Message.
From S2P Require Import RecordSet KeyPair Signer Update BTree Journal.

Open Scope Z_scope.

(** ** Keys *)

Record RrKey : Type := mkRrKey { rk_name : Name; rk_record_type : RecordType }.

Definition RrKey_new (name : Name) (record_type : RecordType) : RrKey := mkRrKey name record_type.

#[global] Instance RrKey_cmp `{Lowercase} : Compare RrKey := λ self other,
  match cmp (rk_name self) (rk_name other) with
  | Eq => cmp (rk_record_type self) (rk_record_type other)
  | order => order
  end.

(** ** The environment *)

(** [chrono]: the current time, and the sum of a time and a duration, which
    panics out of range; in nanoseconds. *)
Class Clock := {
  UTC_now : Z;
  DateTime_add : Z → Z → option Z;
}.

Definition timestamp (t : Z) : Z := t / 10^9.

(** ** The type *)

Inductive ZoneType : Type := Master | Slave | Hint | Forward.
#[global] Instance ZoneType_eq_dec : EqDecision ZoneType.
Proof. solve_decision. Defined.

Record Authority `{Crypto} `{Sqlite} : Type := mkAuthority {
  a_origin : Name;
  a_class : DNSClass;
  a_journal : option Journal;
  a_records : BTreeMap RrKey RecordSet;
  a_zone_type : ZoneType;
  a_allow_update : bool;
  a_is_dnssec_enabled : bool;
  a_secure_keys : list Signer;
}.

Section fields.
Context `{C : Crypto} `{SQ : Sqlite}.

Definition Authority_new (origin : Name) (records : BTreeMap RrKey RecordSet) (zone_type : ZoneType)
    (allow_update is_dnssec_enabled : bool) : Authority :=
  mkAuthority _ _ origin DNSClass.IN None records zone_type allow_update is_dnssec_enabled [].

Definition with_records (self : Authority) (records : BTreeMap RrKey RecordSet) : Authority :=
  mkAuthority _ _ (a_origin self) (a_class self) (a_journal self) records (a_zone_type self)
    (a_allow_update self) (a_is_dnssec_enabled self) (a_secure_keys self).
Definition with_secure_keys (self : Authority) (secure_keys : list Signer) : Authority :=
  mkAuthority _ _ (a_origin self) (a_class self) (a_journal self) (a_records self) (a_zone_type self)
    (a_allow_update self) (a_is_dnssec_enabled self) secure_keys.
Definition Authority_journal (self : Authority) (journal : Journal) : Authority :=
  mkAuthority _ _ (a_origin self) (a_class self) (Some journal) (a_records self) (a_zone_type self)
    (a_allow_update self) (a_is_dnssec_enabled self) (a_secure_keys self).
Definition Authority_set_allow_update (self : Authority) (allow_update : bool) : Authority :=
  mkAuthority _ _ (a_origin self) (a_class self) (a_journal self) (a_records self) (a_zone_type self)
    allow_update (a_is_dnssec_enabled self) (a_secure_keys self).
End fields.

Section authority.
Context `{L : Lowercase} `{HO : HashOrder} `{C : Crypto} `{SQ : Sqlite} `{CK : Clock}.

(** ** Queries *)

Definition Authority_lookup (self : Authority) (name : Name) (rtype : RecordType) (is_secure : bool)
    (supported_algorithms : SupportedAlgorithms) : list RRecord :=
  let name := if decide (rtype = RecordType.SOA) then a_origin self else name in
  let rr_key := RrKey_new name rtype in
  match rtype with
  | RecordType.ANY | RecordType.AXFR =>
      let sets := BTreeMap_values (a_records self) in
      let sets :=
        filter (λ rr_set, rtype = RecordType.ANY ∨ rs_record_type rr_set ≠ RecordType.SOA) sets in
      let sets :=
        filter (λ rr_set, rtype = RecordType.AXFR ∨ Name_eq (rs_name rr_set) name = true) sets in
      foldl (λ vec rr_set, vec ++ RecordSet_get_records rr_set is_secure supported_algorithms) [] sets
  | _ =>
      match BTreeMap_get rr_key (a_records self) with
      | Some rr_set => RecordSet_get_records rr_set is_secure supported_algorithms
      | None => []
      end
  end.

Definition Authority_get_soa (self : Authority) : option RRecord :=
  head (Authority_lookup self (a_origin self) RecordType.SOA false SupportedAlgorithms_new).

Definition Authority_get_soa_secure (self : Authority) (is_secure : bool)
    (supported_algorithms : SupportedAlgorithms) : list RRecord :=
  Authority_lookup self (a_origin self) RecordType.SOA is_secure supported_algorithms.

Definition Authority_get_minimum_ttl (self : Authority) : Z :=
  match Authority_get_soa self with
  | Some soa => match r_rdata soa with RData.SOA rdata => soa_minimum rdata | _ => 0 end
  | None => 0
  end.

Definition Authority_get_serial {E} (self : Authority) : res E Z :=
  match Authority_get_soa self with
  | None => Ok 0
  | Some soa =>
      match r_rdata soa with RData.SOA soa_rdata => Ok (soa_serial soa_rdata) | _ => Panic end
  end.

Definition Authority_get_ns (self : Authority) (is_secure : bool)
    (supported_algorithms : SupportedAlgorithms) : list RRecord :=
  Authority_lookup self (a_origin self) RecordType.NS is_secure supported_algorithms.

Definition Authority_search (self : Authority) (query : Query) (is_secure : bool)
    (supported_algorithms : SupportedAlgorithms) : list RRecord :=
  let record_type := q_query_type query in
  if bool_decide (record_type = RecordType.AXFR) &&
     negb (bool_decide (a_zone_type self = Master ∨ a_zone_type self = Slave)) then []
  else
    let query_result :=
      Authority_lookup self (q_name query) record_type is_secure supported_algorithms in
    if decide (record_type = RecordType.AXFR) then
      match Authority_get_soa self with
      | Some soa => soa :: query_result ++ [soa]
      | None => []
      end
    else query_result.

(** [skip_while(..).next()] *)
Fixpoint skip_while {A} (p : A → bool) (l : list A) : list A :=
  match l with
  | [] => []
  | x :: l' => if p x then skip_while p l' else l
  end.

Definition Authority_get_nsec_records (self : Authority) (name : Name) (is_secure : bool)
    (supported_algorithms : SupportedAlgorithms) : list RRecord :=
  let nsecs :=
    filter (λ rr_set, rs_record_type rr_set = RecordType.NSEC) (BTreeMap_values (a_records self)) in
  match skip_while (λ rr_set, bool_decide (cmp name (rs_name rr_set) = Lt)) nsecs with
  | rr_set :: _ => RecordSet_get_records rr_set is_secure supported_algorithms
  | [] => []
  end.

(** ** Changing records *)

Definition Authority_upsert {E} (self : Authority) (record : RRecord) (serial : Z) :
    res E (bool * Authority) :=
  if decide (a_class self = r_dns_class record) then
    let rr_key := RrKey_new (r_name_labels record) (r_rr_type record) in
    let records :=
      default (RecordSet_new (r_name_labels record) (r_rr_type record) serial)
        (BTreeMap_get rr_key (a_records self)) in
    try* r := RecordSet_insert records record serial in
    Ok (r.1, with_records self (BTreeMap_set rr_key r.2 (a_records self)))
  else Panic.

Definition Authority_increment_soa_serial {E} (self : Authority) : res E (Z * Authority) :=
  match Authority_get_soa self with
  | None => Ok (0, self)
  | Some soa =>
      match r_rdata soa with
      | RData.SOA soa_rdata =>
          try* soa_rdata := SOA_increment_serial soa_rdata in
          let serial := soa_serial soa_rdata in
          try* r := Authority_upsert self (Record_rdata soa (RData.SOA soa_rdata)) serial in
          Ok (serial, r.2)
      | _ => Panic
      end
  end.

(** ** Dynamic updates (RFC 2136) *)

Definition no_algorithms : SupportedAlgorithms := SupportedAlgorithms_new.

Definition is_null (rdata : RData) : bool := match rdata with RData.NULL _ => true | _ => false end.

(** One prerequisite; [Ok ()] is the [continue] of the loop. *)
Definition verify_prerequisite (self : Authority) (require : RRecord) : res ResponseCode () :=
  let found rtype := Authority_lookup self (r_name_labels require) rtype false no_algorithms in
  if negb (r_ttl require =? 0) then Err ResponseCode.FormErr
  else
    try* in_zone := Name_zone_of (a_origin self) (r_name_labels require) in
    if negb in_zone then Err ResponseCode.NotZone
    else
      match r_dns_class require with
      | DNSClass.ANY =>
          if is_null (r_rdata require) then
            match r_rr_type require with
            | RecordType.ANY =>
                if decide (found RecordType.ANY = []) then Err ResponseCode.NXDomain else Ok ()
            | rrset => if decide (found rrset = []) then Err ResponseCode.NXRRSet else Ok ()
            end
          else Err ResponseCode.FormErr
      | DNSClass.NONE =>
          if is_null (r_rdata require) then
            match r_rr_type require with
            | RecordType.ANY =>
                if decide (found RecordType.ANY ≠ []) then Err ResponseCode.YXDomain else Ok ()
            | rrset => if decide (found rrset ≠ []) then Err ResponseCode.YXRRSet else Ok ()
            end
          else Err ResponseCode.FormErr
      | class =>
          if decide (class = a_class self) then
            if existsb (λ rr, Record_eq rr require) (found (r_rr_type require)) then Ok ()
            else Err ResponseCode.NXRRSet
          else Err ResponseCode.FormErr
      end.

Fixpoint Authority_verify_prerequisites (self : Authority) (pre_requisites : list RRecord) :
    res ResponseCode () :=
  match pre_requisites with
  | [] => Ok ()
  | require :: rest =>
      try* _ := verify_prerequisite self require in Authority_verify_prerequisites self rest
  end.

(** [Iterator::any] with a test that may panic. *)
Fixpoint any_m {E A} (f : A → res E bool) (l : list A) : res E bool :=
  match l with
  | [] => Ok false
  | x :: l => try* b := f x in if (b : bool) then Ok true else any_m f l
  end.

(** [KeyPair::from_public_bytes], [Signer::new_verifier] and [verify_message]. *)
Definition authorize_key (update_message : Message) (sig : SIG) (key : DNSKEY) :
    res ResponseCode bool :=
  match KeyPair_from_public_bytes (dk_public_key key) (dk_algorithm key) with
  | Ok pkey =>
      let signer := Signer_new_verifier (dk_algorithm key) pkey (sig_signer_name sig) false true in
      match Signer_verify_message signer update_message (sig_sig sig) with
      | Ok _ => Ok true
      | Err _ => Ok false
      | Panic => Panic
      | Diverge => Diverge
      end
  | Err _ => Ok false
  | Panic => Panic
  | Diverge => Diverge
  end.

Definition sig_of (record : RRecord) : option SIG :=
  match r_rdata record with RData.SIG sig => Some sig | _ => None end.
Definition key_of (record : RRecord) : option DNSKEY :=
  match r_rdata record with RData.KEY key => Some key | _ => None end.

Definition authorize_sig (self : Authority) (update_message : Message) (sig : SIG) :
    res ResponseCode bool :=
  let keys := Authority_lookup self (sig_signer_name sig) RecordType.KEY false no_algorithms in
  any_m (authorize_key update_message sig) (omap key_of keys).

Definition Authority_authorize (self : Authority) (update_message : Message) : res ResponseCode () :=
  if negb (a_allow_update self) then Err ResponseCode.Refused
  else
    let sig0s := m_sig0 update_message in
    try* ok :=
      (if decide (sig0s = []) then Ok false
       else any_m (authorize_sig self update_message) (omap sig_of sig0s)) in
    if (ok : bool) then Ok () else Err ResponseCode.Refused.

Definition pre_scan_record (self : Authority) (rr : RRecord) : res ResponseCode () :=
  try* in_zone := Name_zone_of (a_origin self) (r_name_labels rr) in
  if negb in_zone then Err ResponseCode.NotZone
  else
    let class := r_dns_class rr in
    if decide (class = a_class self) then
      match r_rr_type rr with
      | RecordType.ANY | RecordType.AXFR | RecordType.IXFR => Err ResponseCode.FormErr
      | _ => Ok ()
      end
    else
      match class with
      | DNSClass.ANY =>
          if negb (r_ttl rr =? 0) then Err ResponseCode.FormErr
          else if negb (is_null (r_rdata rr)) then Err ResponseCode.FormErr
          else
            match r_rr_type rr with
            | RecordType.AXFR | RecordType.IXFR => Err ResponseCode.FormErr
            | _ => Ok ()
            end
      | DNSClass.NONE =>
          if negb (r_ttl rr =? 0) then Err ResponseCode.FormErr
          else
            match r_rr_type rr with
            | RecordType.ANY | RecordType.AXFR | RecordType.IXFR => Err ResponseCode.FormErr
            | _ => Ok ()
            end
      | _ => Err ResponseCode.FormErr
      end.

Fixpoint Authority_pre_scan (self : Authority) (records : list RRecord) : res ResponseCode () :=
  match records with
  | [] => Ok ()
  | rr :: rest => try* _ := pre_scan_record self rr in Authority_pre_scan self rest
  end.

(** The keys an [ANY ANY] update deletes. *)
Definition keys_to_delete (self : Authority) (name : Name) : list RrKey :=
  let keys := BTreeMap_keys (a_records self) in
  let keys :=
    filter (λ k, ¬ ((rk_record_type k = RecordType.SOA ∨ rk_record_type k = RecordType.NS) ∧
                    Name_eq (rk_name k) (a_origin self) = false)) keys in
  filter (λ k, Name_eq (rk_name k) name = true) keys.

(** One update; the result says whether the zone has changed. *)
Definition update_record (serial : Z) (self : Authority) (rr : RRecord) :
    res ResponseCode (bool * Authority) :=
  let rr_key := RrKey_new (r_name_labels rr) (r_rr_type rr) in
  let class := r_dns_class rr in
  if decide (class = a_class self) then Authority_upsert self rr serial
  else
    match class with
    | DNSClass.ANY =>
        let at_origin := Name_eq (r_name_labels rr) (a_origin self) in
        let delete_rrset :=
          if is_null (r_rdata rr) then
            Ok (bool_decide (is_Some (BTreeMap_get rr_key (a_records self))),
                with_records self (BTreeMap_remove rr_key (a_records self)))
          else Err ResponseCode.FormErr in
        match r_rr_type rr with
        | RecordType.SOA | RecordType.NS => if at_origin then Ok (false, self) else delete_rrset
        | RecordType.ANY =>
            let to_delete := keys_to_delete self (r_name_labels rr) in
            Ok (bool_decide (to_delete ≠ []),
                with_records self
                  (foldl (λ records k, BTreeMap_remove k records) (a_records self) to_delete))
        | _ => delete_rrset
        end
    | DNSClass.NONE =>
        match BTreeMap_get rr_key (a_records self) with
        | Some rrset =>
            try* r := RecordSet_remove rrset rr serial in
            Ok (r.1, with_records self (BTreeMap_set rr_key r.2 (a_records self)))
        | None => Ok (false, self)
        end
    | _ => Err ResponseCode.FormErr
    end.

(** The loop over the update section; what was changed before an error stays. *)
Fixpoint update_loop (serial : Z) (updated : bool) (records : list RRecord) :
    M Authority ResponseCode bool := λ self,
  match records with
  | [] => (Ok updated, self)
  | rr :: rest =>
      match update_record serial self rr with
      | Ok (changed, self) => update_loop serial (changed || updated) rest self
      | Err e => (Err e, self)
      | Panic => (Panic, self)
      | Diverge => (Diverge, self)
      end
  end.

(** ** Securing the zone *)

Definition nsec_record (name : Name) (ttl : Z) (next : Name) (types : list RecordType) : RRecord :=
  Record_rdata (Record_with name RecordType.NSEC ttl) (RData.NSEC (mkNSEC next types)).

(** The loop over the keys: the name being collected with its types, and the
    records made so far. *)
Fixpoint nsec_loop (ttl : Z) (origin : Name) (keys : list RrKey)
    (nsec_info : option (Name * list RecordType)) (records : list RRecord) : list RRecord :=
  match keys with
  | [] =>
      match nsec_info with
      | Some (name, vec) => records ++ [nsec_record name ttl origin vec]
      | None => records
      end
  | key :: keys =>
      match nsec_info with
      | None => nsec_loop ttl origin keys (Some (rk_name key, [rk_record_type key])) records
      | Some (name, vec) =>
          if Name_eq name (rk_name key) then
            nsec_loop ttl origin keys (Some (name, vec ++ [rk_record_type key])) records
          else
            nsec_loop ttl origin keys (Some (rk_name key, [rk_record_type key]))
              (records ++ [nsec_record name ttl (rk_name key) vec])
      end
  end.

Fixpoint upsert_all {E} (self : Authority) (records : list RRecord) (serial : Z) : res E Authority :=
  match records with
  | [] => Ok self
  | record :: rest => try* r := Authority_upsert self record serial in upsert_all r.2 rest serial
  end.

Definition Authority_nsec_zone {E} (self : Authority) : res E Authority :=
  match a_secure_keys self with
  | [] => Ok self
  | _ =>
      let delete_keys :=
        filter (λ k, rk_record_type k = RecordType.NSEC) (BTreeMap_keys (a_records self)) in
      let self :=
        with_records self (foldl (λ records k, BTreeMap_remove k records) (a_records self) delete_keys) in
      let ttl := Authority_get_minimum_ttl self in
      try* serial := Authority_get_serial self in
      let records := nsec_loop ttl (a_origin self) (BTreeMap_keys (a_records self)) None [] in
      upsert_all self records serial
  end.

(** One signature of a record set; [Ok None] when the set could not be hashed or
    signed and the loop goes on. *)
Definition sign_rrset (class : DNSClass) (inception zone_ttl : Z) (rr_set : RecordSet)
    (signer : Signer) : res dnssec_error (option RRecord) :=
  let rrsig_temp := Record_with (rs_name rr_set) RecordType.RRSIG zone_ttl in
  match DateTime_add inception (s_sig_duration signer) with
  | None => Panic
  | Some expiration =>
      try* key_tag := Signer_calculate_key_tag signer in
      match Signer_hash_rrset (rs_name rr_set) class (Name_num_labels (rs_name rr_set))
              (rs_record_type rr_set) (s_algorithm signer) (rs_ttl rr_set)
              (as_u32 (timestamp expiration)) (as_u32 (timestamp inception)) key_tag
              (s_signer_name signer)
              (RecordSet_get_records rr_set false SupportedAlgorithms_new) with
      | Ok hash =>
          match Signer_sign signer hash with
          | Ok signature =>
              Ok (Some (Record_rdata rrsig_temp
                (RData.SIG (mkSIG (rs_record_type rr_set) (s_algorithm signer)
                  (Name_num_labels (rs_name rr_set)) (rs_ttl rr_set)
                  (as_u32 (timestamp expiration)) (as_u32 (timestamp inception)) key_tag
                  (s_signer_name signer) signature))))
          | Err _ => Ok None
          | Panic => Panic
          | Diverge => Diverge
          end
      | Err _ => Ok None
      | Panic => Panic
      | Diverge => Diverge
      end
  end.

(** The loop over the keys, on a set whose signatures have been cleared. *)
Fixpoint sign_with_keys (class : DNSClass) (inception zone_ttl : Z) (keys : list Signer) :
    M RecordSet dnssec_error () := λ rr_set,
  match keys with
  | [] => (Ok (), rr_set)
  | signer :: keys =>
      match sign_rrset class inception zone_ttl rr_set signer with
      | Ok (Some rrsig) =>
          sign_with_keys class inception zone_ttl keys (RecordSet_insert_rrsig rr_set rrsig)
      | Ok None => sign_with_keys class inception zone_ttl keys rr_set
      | Err e => (Err e, rr_set)
      | Panic => (Panic, rr_set)
      | Diverge => (Diverge, rr_set)
      end
  end.

(** The loop over the record sets, all but those of the zone's keys; an error
    leaves the rest as it was. *)
Fixpoint sign_sets (class : DNSClass) (inception zone_ttl : Z) (keys : list Signer) :
    M (BTreeMap RrKey RecordSet) dnssec_error () := λ sets,
  match sets with
  | [] => (Ok (), [])
  | (k, rr_set) :: rest =>
      let '(r, rr_set) :=
        if decide (rs_record_type rr_set = RecordType.DNSKEY) then (Ok (), rr_set)
        else sign_with_keys class inception zone_ttl keys (RecordSet_clear_rrsigs rr_set) in
      match r with
      | Ok _ =>
          let '(r, rest) := sign_sets class inception zone_ttl keys rest in
          (r, (k, rr_set) :: rest)
      | _ => (r, (k, rr_set) :: rest)
      end
  end.

Definition Authority_sign_zone : M Authority dnssec_error () := λ self,
  let '(r, records) :=
    sign_sets (a_class self) UTC_now (Authority_get_minimum_ttl self) (a_secure_keys self)
      (a_records self) in
  (r, with_records self records).

(** A method that panics or returns, as a step on the state. *)
Definition step {E} (f : Authority → res E Authority) : M Authority E () := λ self,
  match f self with
  | Ok self => (Ok (), self)
  | Err e => (Err e, self)
  | Panic => (Panic, self)
  | Diverge => (Diverge, self)
  end.

Definition Authority_secure_zone : M Authority dnssec_error () :=
  step Authority_nsec_zone ;;;
  step (λ self, try* r := Authority_increment_soa_serial self in Ok r.2) ;;;
  Authority_sign_zone.

(** ** The update handler *)

(** The write-ahead log; any error of the journal is [ServFail]. *)
Definition log_records (serial : Z) (records : list RRecord) : M Authority ResponseCode () := λ self,
  match a_journal self with
  | None => (Ok (), self)
  | Some journal =>
      let '(r, journal) := Journal_insert_records serial records journal in
      (match r with
       | Ok _ => Ok ()
       | Err _ => Err ResponseCode.ServFail
       | Panic => Panic
       | Diverge => Diverge
       end, Authority_journal self journal)
  end.

(** [secure_zone] with its error mapped, or the increment of the serial. *)
Definition finish_update : M Authority ResponseCode () := λ self,
  if a_is_dnssec_enabled self then
    let '(r, self) := Authority_secure_zone self in
    (match r with
     | Ok _ => Ok ()
     | Err _ => Err ResponseCode.ServFail
     | Panic => Panic
     | Diverge => Diverge
     end, self)
  else step (λ self, try* r := Authority_increment_soa_serial self in Ok r.2) self.

Definition Authority_update_records (records : list RRecord) (auto_signing_and_increment : bool) :
    M Authority ResponseCode bool :=
  let* self := gets id in
  let* serial := lift (Authority_get_serial self) in
  log_records serial records ;;;
  let* updated := update_loop serial false records in
  (if updated && auto_signing_and_increment then finish_update else ret ()) ;;;
  ret updated.

Definition Authority_update (update : Message) : M Authority ResponseCode bool :=
  let* self := gets id in
  lift (Authority_authorize self update) ;;;
  lift (Authority_verify_prerequisites self (get_pre_requisites update)) ;;;
  lift (Authority_pre_scan self (get_updates update)) ;;;
  Authority_update_records (get_updates update) true.

(** ** Setting up a zone *)

Definition Authority_add_secure_key (signer : Signer) : M Authority dnssec_error () := λ self,
  let zone_ttl := Authority_get_minimum_ttl self in
  match KeyPair_to_dnskey (s_key signer) (s_algorithm signer) with
  | Ok dnskey =>
      let dnskey :=
        Record_from_rdata (a_origin self) zone_ttl RecordType.DNSKEY (RData.DNSKEY dnskey) in
      step (λ self,
        try* serial := Authority_get_serial self in
        try* r := Authority_upsert self dnskey serial in
        Ok (with_secure_keys r.2 (a_secure_keys r.2 ++ [signer]))) self
  | Err e => (Err e, self)
  | Panic => (Panic, self)
  | Diverge => (Diverge, self)
  end.

(** The loop over the journal; [fuel] bounds the number of its rows. *)
Fixpoint recover_loop (fuel : nat) (journal : Journal) (row_id : Z) :
    M Authority persistence_error () := λ self,
  match fuel with
  | O => (Diverge, self)
  | S fuel =>
      match JournalIter_next journal row_id with
      | Ok None => (Ok (), self)
      | Ok (Some (row_id, record)) =>
          if decide (r_rr_type record = RecordType.AXFR) then
            recover_loop fuel journal row_id (with_records self [])
          else
            match Authority_update_records [record] false self with
            | (Ok _, self) => recover_loop fuel journal row_id self
            | (Err error, self) => (Err (RecoveryError (ResponseCode_to_str error)), self)
            | (Panic, self) => (Panic, self)
            | (Diverge, self) => (Diverge, self)
            end
      | Err e => (Err e, self)
      | Panic => (Panic, self)
      | Diverge => (Diverge, self)
      end
  end.

Definition Authority_recover_with_journal (fuel : nat) (journal : Journal) :
    M Authority persistence_error () := λ self,
  match a_records self with
  | _ :: _ => (Panic, self)
  | [] =>
      match recover_loop fuel journal 0 self with
      | (Ok _, self) =>
          if a_is_dnssec_enabled self then
            let '(r, self) := Authority_sign_zone self in
            (match r with
             | Ok _ => Ok ()
             | Err e => Err (PersistenceDnsSec e)
             | Panic => Panic
             | Diverge => Diverge
             end, self)
          else (Ok (), self)
      | r => r
      end
  end.

(** [RecordSet::iter] yields the records without the signatures. *)
Definition Authority_persist_to_journal (self : Authority) :
    res persistence_error () * Authority :=
  match a_journal self with
  | None => (Ok (), self)
  | Some journal =>
      match Authority_get_serial self with
      | Ok serial =>
          let records := concat (rs_records <$> BTreeMap_values (a_records self)) in
          let '(r, journal) :=
            Journal_insert_records serial (Record_rr_type Record_new RecordType.AXFR :: records) journal in
          (r, Authority_journal self journal)
      | Err e => (Err e, self)
      | Panic => (Panic, self)
      | Diverge => (Diverge, self)
      end
  end.
End authority.
