(* ===== verification/AuthorityProps.v ===== *)
(** * The properties of an authority

    The invariant of a zone, what a lookup returns, and what each kind of dynamic
    update does to the zone. *)

From S2P Require Import Prelude Codec Wire Domain Enums Header RData RDataProps Resource Message.
From S2P Require Import RecordSet KeyPair Signer Update BTree Journal Authority.

Open Scope Z_scope.

Lemma elem_of_concat {A} (x : A) ls : x ∈ concat ls ↔ ∃ l, x ∈ l ∧ l ∈ ls.
Proof.
  induction ls as [|l ls IH]; simpl.
  - split; [by intros ?%elem_of_nil|]. by intros (l & _ & ?%elem_of_nil).
  - rewrite elem_of_app, IH. setoid_rewrite elem_of_cons. naive_solver.
Qed.

Section keys.
Context `{L : Lowercase}.

#[global] Instance RrKey_compare_laws : CompareLaws RrKey.
Proof.
  split; unfold cmp, RrKey_cmp; intros x y.
  - rewrite (cmp_opp (rk_name x)), (cmp_opp (rk_record_type x)).
    by destruct (cmp (rk_name x) (rk_name y)).
  - intros z. destruct (cmp (rk_name x) (rk_name y)) eqn:E1; [| |done].
    + rewrite (cmp_eq_l _ _ _ E1). destruct (cmp (rk_name y) (rk_name z)); [|done..].
      apply cmp_lt_trans.
    + intros _. destruct (cmp (rk_name y) (rk_name z)) eqn:E2; [| |done]; intros _.
      * by rewrite <-(cmp_eq_r _ _ _ E2), E1.
      * by rewrite (cmp_lt_trans _ _ _ E1 E2).
  - intros z. destruct (cmp (rk_name x) (rk_name y)) eqn:E1; [|done..].
    intros E2. rewrite (cmp_eq_l _ _ _ E1), (cmp_eq_l _ _ _ E2). done.
Qed.

Lemma RrKey_eq k k' :
  cmp k k' = Eq ↔ Name_eq (rk_name k) (rk_name k') = true ∧ rk_record_type k = rk_record_type k'.
Proof.
  rewrite Name_eq_cmp. unfold cmp at 1, RrKey_cmp.
  destruct (cmp (rk_name k) (rk_name k')); [|naive_solver..].
  rewrite RecordType_cmp_eq. tauto.
Qed.

Lemma Name_eq_refl n : Name_eq n n = true.
Proof. by apply Name_eq_lower. Qed.
Lemma Name_eq_sym n m : Name_eq n m = true → Name_eq m n = true.
Proof. rewrite !Name_eq_lower. done. Qed.
Lemma Name_eq_trans n m p : Name_eq n m = true → Name_eq m p = true → Name_eq n p = true.
Proof. rewrite !Name_eq_lower. congruence. Qed.
Lemma Name_eq_l n m p : Name_eq n m = true → Name_eq n p = Name_eq m p.
Proof.
  intros H. apply eq_true_iff_eq. rewrite !Name_eq_lower in *. by rewrite H.
Qed.
Lemma Name_eq_r n m p : Name_eq n m = true → Name_eq p n = Name_eq p m.
Proof.
  intros H. apply eq_true_iff_eq. rewrite !Name_eq_lower in *. by rewrite H.
Qed.
End keys.

(** ** The invariant *)

Section zone.
Context `{L : Lowercase} `{HO : HashOrder} `{C : Crypto} `{SQ : Sqlite} `{CK : Clock}.

(** A record set is filed under its name and type. *)
Record entry_ok (x : RrKey * RecordSet) : Prop := {
  en_set : rset_ok x.2;
  en_name : Name_eq (rk_name x.1) (rs_name x.2) = true;
  en_type : rk_record_type x.1 = rs_record_type x.2;
}.

Record records_ok (m : BTreeMap RrKey RecordSet) : Prop := {
  zo_tree : btree_ok m;
  zo_entries : Forall entry_ok m;
}.

#[global] Instance entry_ok_dec x : Decision (entry_ok x).
Proof.
  refine (cast_if (decide (rset_ok x.2 ∧ Name_eq (rk_name x.1) (rs_name x.2) = true ∧
    rk_record_type x.1 = rs_record_type x.2))); dec_fields.
Defined.
#[global] Instance records_ok_dec m : Decision (records_ok m).
Proof.
  refine (cast_if (decide (StronglySorted (λ x y : RrKey * RecordSet, cmp x.1 y.1 = Lt) m ∧ Forall entry_ok m))); dec_fields.
Defined.

Definition zone_ok (a : Authority) : Prop := records_ok (a_records a).

#[global] Instance zone_ok_dec a : Decision (zone_ok a).
Proof. unfold zone_ok. apply _. Defined.

(** Every record of the zone. *)
Definition zone_records (a : Authority) : list RRecord :=
  concat (rs_records <$> BTreeMap_values (a_records a)).

Lemma get_entry m k s :
  records_ok m → BTreeMap_get k m = Some s →
  rset_ok s ∧ Name_eq (rk_name k) (rs_name s) = true ∧ rk_record_type k = rs_record_type s.
Proof.
  intros [Ht He] Hg. destruct (get_Forall entry_ok k s m Ht He Hg) as (k' & [H1 H2 H3] & E).
  apply RrKey_eq in E as [En Et]. simpl in *. split_and!; [done| |congruence].
  by eapply Name_eq_trans.
Qed.

Lemma records_ok_set k s m :
  records_ok m → rset_ok s → Name_eq (rk_name k) (rs_name s) = true →
  rk_record_type k = rs_record_type s → records_ok (BTreeMap_set k s m).
Proof.
  intros [Ht He] Hs Hn Hty. split; [by apply btree_ok_set|]. apply Forall_set; [done|by split|].
  intros k' v' _ [En Et]%RrKey_eq. split; [done| |simpl; congruence]. simpl.
  eapply Name_eq_trans; [by apply Name_eq_sym|done].
Qed.

Lemma records_ok_remove k m : records_ok m → records_ok (BTreeMap_remove k m).
Proof. intros [Ht He]. split; [by apply btree_ok_remove|by apply Forall_remove]. Qed.

Lemma records_ok_remove_all ks m :
  records_ok m → records_ok (foldl (λ records k, BTreeMap_remove k records) m ks).
Proof.
  revert m. induction ks as [|k ks IH]; intros m Hm; [done|]. simpl. apply IH.
  by apply records_ok_remove.
Qed.

(** ** Adding a record *)

(** A record the source can file: its class is the zone's, and a SOA record
    carries SOA data. *)
Record addable (a : Authority) (r : RRecord) : Prop := {
  ad_class : a_class a = r_dns_class r;
  ad_soa : r_rr_type r = RecordType.SOA → is_soa r;
}.

Lemma upsert_ok {E} a r serial :
  zone_ok a → addable a r →
  ∃ b s, Authority_upsert (E:=E) a r serial =
           Ok (b, with_records a
                    (BTreeMap_set (RrKey_new (r_name_labels r) (r_rr_type r)) s (a_records a))) ∧
         records_ok (BTreeMap_set (RrKey_new (r_name_labels r) (r_rr_type r)) s (a_records a)) ∧
         (b = true → r ∈ rs_records s ∧ rs_serial s = serial ∧ rs_rrsigs s = []) ∧
         (b = false → BTreeMap_get (RrKey_new (r_name_labels r) (r_rr_type r)) (a_records a) = Some s).
Proof.
  intros Hz [Hc Hsoa]. unfold Authority_upsert. rewrite decide_True by done.
  set (k := RrKey_new (r_name_labels r) (r_rr_type r)).
  set (s0 := default _ (BTreeMap_get k (a_records a))).
  assert (Hs0 : rset_ok s0 ∧ Name_eq (r_name_labels r) (rs_name s0) = true ∧
                r_rr_type r = rs_record_type s0).
  { unfold s0. destruct (BTreeMap_get k (a_records a)) as [s|] eqn:Hg.
    - apply (get_entry _ k s Hz Hg).
    - split_and!; [apply rset_ok_new|apply Name_eq_refl|done]. }
  destruct Hs0 as (Hs0 & Hn & Ht).
  destruct (insert_ok (E:=E) s0 r serial Hs0) as (b & s & Hins & Hs & Hname & Htype & Hf & Htr).
  { split; [done|done|]. intros Hso. apply Hsoa. congruence. }
  rewrite Hins. exists b, s. split; [done|]. split.
  { apply records_ok_set; [done|done|by rewrite Hname|by rewrite Htype]. }
  split; [done|]. intros ->. rewrite (Hf eq_refl). unfold s0.
  destruct (BTreeMap_get k (a_records a)) as [s'|] eqn:Hg; [done|]. exfalso.
  revert Hins. unfold s0. cbn [from_option id]. unfold RecordSet_insert. simpl.
  rewrite Name_eq_refl, bool_decide_eq_true_2 by done. simpl. by destruct (r_rr_type r).
Qed.

(** ** Looking records up *)

Lemma elem_of_zone_records a r :
  r ∈ zone_records a ↔ ∃ k s, (k, s) ∈ a_records a ∧ r ∈ rs_records s.
Proof.
  unfold zone_records, BTreeMap_values. rewrite <-list_fmap_compose, elem_of_concat.
  split.
  - intros (l & Hr & Hl). apply list_elem_of_fmap in Hl as ([k s] & -> & Hin). by exists k, s.
  - intros (k & s & Hin & Hr). exists (rs_records s). split; [done|].
    apply list_elem_of_fmap. by exists (k, s).
Qed.

Lemma entry_record a k s r :
  zone_ok a → (k, s) ∈ a_records a → r ∈ rs_records s →
  rset_ok s ∧ Name_eq (r_name_labels r) (rk_name k) = true ∧ r_rr_type r = rk_record_type k ∧
  Name_eq (rk_name k) (rs_name s) = true ∧ rk_record_type k = rs_record_type s.
Proof.
  intros [_ He] Hin Hr. rewrite Forall_forall in He. destruct (He _ Hin) as [Hs Hn Ht]. simpl in *.
  pose proof (rso_names _ Hs) as Hns. pose proof (rso_types _ Hs) as Hts.
  rewrite Forall_forall in Hns, Hts. specialize (Hns _ Hr). specialize (Hts _ Hr). simpl in *.
  split_and!; [done| |congruence|done|done]. eapply Name_eq_trans; [exact Hns|by apply Name_eq_sym].
Qed.

Lemma foldl_app {A B} (f : A → list B) l acc :
  foldl (λ vec x, vec ++ f x) acc l = acc ++ concat (f <$> l).
Proof.
  revert acc. induction l as [|x l IH]; intros acc; simpl; [by rewrite app_nil_r|].
  by rewrite IH, app_assoc.
Qed.

(** Which records of the zone answer a question. *)
Definition answers (a : Authority) (name : Name) (t : RecordType) (r : RRecord) : Prop :=
  match t with
  | RecordType.ANY => Name_eq (r_name_labels r) name = true
  | RecordType.AXFR => r_rr_type r ≠ RecordType.SOA
  | RecordType.SOA => r_rr_type r = t ∧ Name_eq (r_name_labels r) (a_origin a) = true
  | _ => r_rr_type r = t ∧ Name_eq (r_name_labels r) name = true
  end.

(** Which record sets of the zone do. *)
Definition set_answers (a : Authority) (name : Name) (t : RecordType) (s : RecordSet) : Prop :=
  match t with
  | RecordType.ANY => Name_eq (rs_name s) name = true
  | RecordType.AXFR => rs_record_type s ≠ RecordType.SOA
  | RecordType.SOA => rs_record_type s = t ∧ Name_eq (rs_name s) (a_origin a) = true
  | _ => rs_record_type s = t ∧ Name_eq (rs_name s) name = true
  end.

Lemma values_entry a s : zone_ok a → s ∈ BTreeMap_values (a_records a) →
  ∃ k, (k, s) ∈ a_records a ∧ Name_eq (rk_name k) (rs_name s) = true ∧ rk_record_type k = rs_record_type s.
Proof.
  intros [_ He] Hs. apply list_elem_of_fmap in Hs as ([k s'] & -> & Hin). exists k.
  rewrite Forall_forall in He. by destruct (He _ Hin).
Qed.

Lemma lookup_key a name t s :
  zone_ok a →
  BTreeMap_get (RrKey_new name t) (a_records a) = Some s ↔
  s ∈ BTreeMap_values (a_records a) ∧ rs_record_type s = t ∧ Name_eq (rs_name s) name = true.
Proof.
  intros Hz. split.
  - intros (k & Hin & [En Et]%RrKey_eq)%get_elem; [|apply Hz]. pose proof Hz as [_ He]. rewrite Forall_forall in He.
    destruct (He _ Hin) as [_ Hn Ht]. simpl in *. split; [apply list_elem_of_fmap; by exists (k, s)|].
    split; [congruence|]. eapply Name_eq_trans; [by apply Name_eq_sym|]. by apply Name_eq_sym.
  - intros (Hs & Ht & Hn). destruct (values_entry a s Hz Hs) as (k & Hin & Hn' & Ht').
    apply get_elem; [apply Hz|]. exists k. split; [done|]. apply RrKey_eq. simpl. split; [|congruence].
    eapply Name_eq_trans; [by apply Name_eq_sym|]. by apply Name_eq_sym.
Qed.

(** A lookup collects from the sets that answer. *)
Lemma lookup_sets a name t secure algs r :
  zone_ok a →
  r ∈ Authority_lookup a name t secure algs ↔
  ∃ s, s ∈ BTreeMap_values (a_records a) ∧ set_answers a name t s ∧ r ∈ RecordSet_get_records s secure algs.
Proof.
  intros Hz.
  assert (Hkey : ∀ name t, r ∈ match BTreeMap_get (RrKey_new name t) (a_records a) with
      | Some rr_set => RecordSet_get_records rr_set secure algs | None => [] end ↔
    ∃ s, s ∈ BTreeMap_values (a_records a) ∧ (rs_record_type s = t ∧ Name_eq (rs_name s) name = true) ∧
      r ∈ RecordSet_get_records s secure algs).
  { intros name' t'. setoid_rewrite (assoc (∧)). setoid_rewrite <-(lookup_key a name' t' _ Hz).
    destruct (BTreeMap_get _ _) as [s|]; [|split; [by intros ?%elem_of_nil|naive_solver]].
    split; [by exists s|]. by intros (s' & [= ->] & ?). }
  unfold Authority_lookup. destruct (decide (t = RecordType.SOA)) as [->|Hns]; [apply Hkey|].
  destruct t; try (by apply Hkey); try done; clear; rewrite foldl_app, app_nil_l, elem_of_concat;
    generalize (BTreeMap_values (a_records a)); intros vs;
    setoid_rewrite list_elem_of_fmap; setoid_rewrite list_elem_of_filter; setoid_rewrite list_elem_of_filter;
    simpl; naive_solver.
Qed.

Lemma set_answers_record a name t k s r :
  zone_ok a → (k, s) ∈ a_records a → r ∈ rs_records s → set_answers a name t s ↔ answers a name t r.
Proof.
  intros Hz Hin Hr. destruct (entry_record a k s r Hz Hin Hr) as (_ & Hn & Ht & Hn' & Ht').
  assert (Et : rs_record_type s = r_rr_type r) by congruence.
  assert (En : ∀ name, Name_eq (rs_name s) name = Name_eq (r_name_labels r) name).
  { intros n. symmetry. apply Name_eq_l. by eapply Name_eq_trans. }
  unfold set_answers, answers. destruct t; by rewrite ?Et, ?En.
Qed.

Lemma elem_of_option_list {A} (x : A) (mx : option A) : x ∈ option_list mx ↔ mx = Some x.
Proof. destruct mx as [y|]; simpl; [rewrite list_elem_of_singleton|rewrite elem_of_nil]; naive_solver. Qed.

(** The signature that a client with these algorithms is given with a set: of those it supports, the last one with the
    strongest algorithm. *)
Definition chosen_signature (algs : SupportedAlgorithms) (s : RecordSet) (g : RRecord) : Prop :=
  ∃ before after, filter (λ r, rrsig_supported algs r = true) (rs_rrsigs s) = before ++ g :: after ∧
    Forall (λ x, rrsig_rank x ≤ rrsig_rank g) before ∧ Forall (λ x, rrsig_rank x < rrsig_rank g) after.

Lemma lookup_signed_spec a name t secure algs r :
  zone_ok a →
  r ∈ Authority_lookup a name t secure algs ↔
  (r ∈ zone_records a ∧ answers a name t r) ∨
  (secure = true ∧ ∃ s, s ∈ BTreeMap_values (a_records a) ∧ set_answers a name t s ∧ chosen_signature algs s r).
Proof.
  intros Hz. rewrite lookup_sets by done.
  assert (Hrec : (∃ s, s ∈ BTreeMap_values (a_records a) ∧ set_answers a name t s ∧ r ∈ rs_records s) ↔
    r ∈ zone_records a ∧ answers a name t r).
  { rewrite elem_of_zone_records. split.
    - intros (s & Hs & Ha & Hr). destruct (values_entry a s Hz Hs) as (k & Hin & _).
      split; [by exists k, s|]. by eapply set_answers_record.
    - intros ((k & s & Hin & Hr) & Ha). exists s. split; [apply list_elem_of_fmap; by exists (k, s)|].
      split; [by eapply set_answers_record|done]. }
  rewrite <-Hrec. unfold RecordSet_get_records, chosen_signature. destruct secure; [|naive_solver].
  setoid_rewrite <-max_by_key_last. setoid_rewrite elem_of_app. setoid_rewrite elem_of_option_list.
  clear. naive_solver.
Qed.

Lemma lookup_spec a name t r :
  zone_ok a →
  r ∈ Authority_lookup a name t false no_algorithms ↔ r ∈ zone_records a ∧ answers a name t r.
Proof. intros Hz. rewrite lookup_signed_spec by done. naive_solver. Qed.

(** C19: A lookup is sound and complete: it returns exactly the records of the zone of
    the asked type at the asked name, compared without regard to case; for [ANY] all
    records at the name, for [AXFR] all records but the SOA, and for [SOA] the zone's
    own whatever the name. When signatures are asked for it returns, beside these,
    exactly one signature of each record set they are from that has one by a supported
    algorithm: the last of those with the strongest algorithm. *)
Theorem Authority_lookup_spec a name t is_secure supported_algorithms r :
  zone_ok a →
  r ∈ Authority_lookup a name t is_secure supported_algorithms ↔
  (r ∈ zone_records a ∧ answers a name t r) ∨
  (is_secure = true ∧ ∃ s, s ∈ BTreeMap_values (a_records a) ∧ set_answers a name t s ∧
     chosen_signature supported_algorithms s r).
Proof. apply lookup_signed_spec. Qed.

(** A zone transfer from a master or slave with a SOA record begins and ends with
    it, and carries every other record of the zone in between; from any other kind of
    zone it is empty. *)
Theorem Authority_axfr_spec a q :
  zone_ok a → q_query_type q = RecordType.AXFR →
  let transfer := Authority_search a q false no_algorithms in
  if decide (a_zone_type a = Master ∨ a_zone_type a = Slave) then
    match Authority_get_soa a with
    | Some soa =>
        ∃ rest, transfer = soa :: rest ++ [soa] ∧
                ∀ r, r ∈ rest ↔ r ∈ zone_records a ∧ r_rr_type r ≠ RecordType.SOA
    | None => transfer = []
    end
  else transfer = [].
Proof.
  intros Hz Hq transfer. unfold transfer, Authority_search. rewrite Hq.
  rewrite (bool_decide_eq_true_2 (RecordType.AXFR = RecordType.AXFR)) by done. cbn [andb].
  destruct (decide (a_zone_type a = Master ∨ a_zone_type a = Slave)) as [Hm|Hm].
  - rewrite bool_decide_eq_true_2 by done. cbn [negb].
    rewrite (decide_True (P:=RecordType.AXFR = RecordType.AXFR)) by done.
    destruct (Authority_get_soa a) as [soa|]; [|done]. eexists. split; [done|].
    intros r. apply (lookup_spec a (q_name q) RecordType.AXFR r Hz).
  - by rewrite bool_decide_eq_false_2.
Qed.

(** ** Updating records *)

Lemma with_records_same a : with_records a (a_records a) = a.
Proof. by destruct a. Qed.

(** An update the prescan accepts; its SOA records carry SOA data. *)
Record updatable (a : Authority) (r : RRecord) : Prop := {
  up_scan : pre_scan_record a r = Ok ();
  up_soa : r_dns_class r = a_class a → r_rr_type r = RecordType.SOA → is_soa r;
}.

(** What the prescan leaves. *)
Lemma pre_scan_inv a r :
  pre_scan_record a r = Ok () →
  r_dns_class r = a_class a ∨
  (r_dns_class r = DNSClass.ANY ∧ is_null (r_rdata r) = true) ∨
  (r_dns_class r = DNSClass.NONE ∧ r_rr_type r ≠ RecordType.ANY).
Proof.
  unfold pre_scan_record. destruct (Name_zone_of _ _) as [[]|?| |]; try done. cbn [rbind negb].
  case_decide; [by left|]. right. destruct (r_dns_class r); try done;
    destruct (r_ttl r =? 0); cbn [negb]; try done.
  - right. split; [done|]. by destruct (r_rr_type r).
  - left. by destruct (is_null _).
Qed.

Lemma updatable_with a m r : updatable a r → updatable (with_records a m) r.
Proof. by intros [? ?]; split. Qed.

(** The outcome of an update: the records that are left and whether they changed. *)
Definition updated_to (a : Authority) (b : bool) (m : BTreeMap RrKey RecordSet) : Prop :=
  records_ok m ∧ (b = false → m = a_records a).

Lemma update_record_ok serial a r :
  zone_ok a → updatable a r →
  ∃ b m, update_record serial a r = Ok (b, with_records a m) ∧ updated_to a b m.
Proof.
  intros Hz [Hscan Hsoa]. unfold update_record.
  set (k := RrKey_new (r_name_labels r) (r_rr_type r)).
  destruct (decide (r_dns_class r = a_class a)) as [Hc|Hc].
  { destruct (upsert_ok (E:=ResponseCode) a r serial Hz) as (b & s & -> & Hm & _ & Hf).
    { split; [done|]. intros Ht. by apply Hsoa. }
    exists b, (BTreeMap_set k s (a_records a)). split; [done|]. split; [done|].
    intros ->. by apply set_get, Hf. }
  destruct (pre_scan_inv a r Hscan) as [?|[[-> Hnull]|[-> Hany]]]; [done| |].
  - assert (Hsame : ∃ b m, Ok (E:=ResponseCode) (false, a) = Ok (b, with_records a m) ∧ updated_to a b m).
    { exists false, (a_records a). rewrite with_records_same. by split. }
    assert (Hdel : ∃ b m,
      Ok (E:=ResponseCode) (bool_decide (is_Some (BTreeMap_get k (a_records a))),
        with_records a (BTreeMap_remove k (a_records a))) = Ok (b, with_records a m) ∧ updated_to a b m).
    { eexists _, _. split; [done|]. split; [by apply records_ok_remove|].
      intros Hb%bool_decide_eq_false. apply remove_absent; [apply Hz|].
      by apply eq_None_not_Some. }
    rewrite Hnull. destruct (r_rr_type r); try done;
      try (by destruct (Name_eq (r_name_labels r) (a_origin a))).
    eexists _, (foldl (λ records k, BTreeMap_remove k records) (a_records a)
                  (keys_to_delete a (r_name_labels r))).
    split; [done|]. split; [apply records_ok_remove_all; exact Hz|].
    intros Hb%bool_decide_eq_false. destruct (keys_to_delete a _); [done|]. by destruct Hb.
  - destruct (BTreeMap_get k (a_records a)) as [s|] eqn:Hg.
    + destruct (get_entry _ _ _ Hz Hg) as (Hs & Hn & Ht).
      destruct (remove_ok (E:=ResponseCode) s r serial Hs Hn (or_introl Ht))
        as (b & s' & -> & Hs' & Hn' & Ht' & _ & _ & Hf).
      exists b, (BTreeMap_set k s' (a_records a)). split; [done|]. split.
      * apply records_ok_set; [done|done|by rewrite Hn'|by rewrite Ht'].
      * intros ->. rewrite (Hf eq_refl). by apply set_get.
    + exists false, (a_records a). rewrite with_records_same. by split.
Qed.

(** ** The serial of the zone *)

Definition soa_key (a : Authority) : RrKey := RrKey_new (a_origin a) RecordType.SOA.

(** The zone has one SOA record, with the serial [v]. *)
Definition soa_set (a : Authority) (v : Z) (s : RecordSet) : Prop :=
  ∃ x soa, rs_records s = [x] ∧ r_rdata x = RData.SOA soa ∧ soa_serial soa = v ∧
           r_dns_class x = a_class a.
Definition soa_in (a : Authority) (v : Z) (m : BTreeMap RrKey RecordSet) : Prop :=
  ∃ s, BTreeMap_get (soa_key a) m = Some s ∧ soa_set a v s.
Definition soa_at (a : Authority) (v : Z) : Prop := soa_in a v (a_records a).

Lemma soa_at_get a v :
  soa_at a v →
  ∃ x soa, Authority_get_soa a = Some x ∧ r_rdata x = RData.SOA soa ∧ soa_serial soa = v ∧
           r_dns_class x = a_class a.
Proof.
  intros (s & Hg & x & soa & Hr & Hd & Hv & Hc). exists x, soa. split_and!; [|done..].
  unfold Authority_get_soa, Authority_lookup. rewrite decide_True by done. unfold soa_key in Hg.
  rewrite Hg. simpl. by rewrite Hr.
Qed.

Lemma soa_at_serial {E} a v : soa_at a v → Authority_get_serial (E:=E) a = Ok v.
Proof.
  intros (x & soa & Hs & Hd & Hv & _)%soa_at_get. unfold Authority_get_serial. by rewrite Hs, Hd, Hv.
Qed.

(** Adding a record moves the serial only up. *)
Lemma upsert_soa {E} a r serial v b a' :
  zone_ok a → addable a r → soa_at a v → Authority_upsert (E:=E) a r serial = Ok (b, a') →
  ∃ v', soa_at a' v' ∧ (v' = v ∨ ∃ soa, r_rdata r = RData.SOA soa ∧ v' = Z.max v (soa_serial soa)) ∧
        (∀ soa, r_rdata r = RData.SOA soa → cmp (soa_key a) (RrKey_new (r_name_labels r) (r_rr_type r)) = Eq →
                v' = Z.max v (soa_serial soa)).
Proof.
  intros Hz Had (s & Hg & x & soa & Hr & Hd & Hv & Hc) Hup.
  destruct (upsert_ok (E:=E) a r serial Hz Had) as (b' & s' & Hup' & Hm & _ & _).
  set (k := RrKey_new (r_name_labels r) (r_rr_type r)) in *.
  rewrite Hup' in Hup. injection Hup as <- <-.
  assert (Hget : ∀ s'' v'', BTreeMap_get (soa_key a) (BTreeMap_set k s' (a_records a)) = Some s'' →
    soa_set a v'' s'' → soa_at (with_records a (BTreeMap_set k s' (a_records a))) v'')
    by (intros s'' v'' Hg'' Hs''; by exists s'').
  destruct (cmp (soa_key a) k) eqn:Hk.
  2, 3: exists v; split_and!; [|by left|done]; apply (Hget s);
    [rewrite get_set by apply Hz; by rewrite Hk|by exists x, soa].
  pose proof Hk as [Hn Ht]%RrKey_eq. simpl in Hn, Ht.
  assert (Hgk : BTreeMap_get k (a_records a) = Some s) by (by rewrite <-(get_eq _ _ _ Hk)).
  destruct (get_entry _ _ _ Hz Hgk) as (Hs & Hn' & Ht'). simpl in Hn', Ht'.
  destruct (ad_soa _ _ Had ltac:(by rewrite <-Ht)) as [new Hnew].
  unfold Authority_upsert in Hup'. rewrite decide_True in Hup' by apply Had.
  fold k in Hup'. rewrite Hgk in Hup'. cbn [from_option id] in Hup'.
  rewrite (insert_soa s r serial soa new) in Hup'; [|done| |congruence|by rewrite Hr; simpl; rewrite Hd|done].
  2: { split; [done|done|]. intros _. by exists new. }
  exists (Z.max v (soa_serial new)). split_and!; [|right; by exists new|].
  - apply (Hget s'); [rewrite get_set by apply Hz; by rewrite Hk|].
    destruct (decide (soa_serial soa < soa_serial new)); cbn [rbind fst snd] in Hup';
      injection Hup' as _ Hset; apply (f_equal (BTreeMap_get k)) in Hset;
      rewrite !get_set, !cmp_refl in Hset by apply Hz; injection Hset as <-.
    + exists r, new. split_and!; [done|done|lia|symmetry; apply Had].
    + exists x, soa. split_and!; [done|done|lia|done].
  - intros soa' Hs' _. rewrite Hnew in Hs'. injection Hs' as <-. done.
Qed.

(** The one kind of update that takes the SOA record out of the zone. *)
Definition deletes_origin (a : Authority) (r : RRecord) : Prop :=
  r_dns_class r = DNSClass.ANY ∧ r_rr_type r = RecordType.ANY ∧
  Name_eq (r_name_labels r) (a_origin a) = true.

Lemma soa_key_neq a n t :
  Name_eq n (a_origin a) = false ∨ t ≠ RecordType.SOA → cmp (soa_key a) (RrKey_new n t) ≠ Eq.
Proof.
  intros Hor [Hn Ht]%RrKey_eq. simpl in *. destruct Hor as [Hf|Hf]; [|congruence].
  apply Name_eq_sym in Hn. congruence.
Qed.

(** How an update may move the serial. *)
Definition serial_step (r : RRecord) (v v' : Z) : Prop :=
  v' = v ∨ ∃ soa, r_rdata r = RData.SOA soa ∧ v' = Z.max v (soa_serial soa).

Lemma update_record_soa serial a r v b m :
  zone_ok a → updatable a r → ¬ deletes_origin a r → soa_at a v →
  update_record serial a r = Ok (b, with_records a m) → ∃ v', soa_in a v' m ∧ serial_step r v v'.
Proof.
  intros Hz [Hscan Hsoa] Hdel Hat Hup. unfold update_record in Hup.
  destruct (decide (r_dns_class r = a_class a)) as [Hc|Hc].
  { assert (Had : addable a r) by (split; [done|]; intros ?; by apply Hsoa).
    destruct (upsert_soa a r serial v b _ Hz Had Hat Hup) as (v' & Hv & Hle & _). by exists v'. }
  assert (Hkeep : BTreeMap_get (soa_key a) m = BTreeMap_get (soa_key a) (a_records a) →
                  ∃ v', soa_in a v' m ∧ serial_step r v v').
  { intros Hg. exists v. split; [|by left]. destruct Hat as (s & Hs & Hss). exists s. by rewrite Hg. }
  assert (Hsame : ∀ b', Ok (E:=ResponseCode) (b', a) = Ok (b, with_records a m) →
                  ∃ v', soa_in a v' m ∧ serial_step r v v').
  { intros b' Heq. injection Heq as _ Hm. apply (f_equal a_records) in Hm. simpl in Hm.
    apply Hkeep. by rewrite Hm. }
  destruct (pre_scan_inv a r Hscan) as [?|[[Hca Hnull]|[Hcn Hany]]]; [done| |].
  - rewrite Hca, Hnull in Hup.
    assert (Hremove : ∀ b', (r_rr_type r ≠ RecordType.SOA ∨ Name_eq (r_name_labels r) (a_origin a) = false) →
      Ok (E:=ResponseCode) (b', with_records a (BTreeMap_remove (RrKey_new (r_name_labels r) (r_rr_type r))
                             (a_records a))) = Ok (b, with_records a m) → ∃ v', soa_in a v' m ∧ serial_step r v v').
    { intros b' Hk Heq. injection Heq as _ <-. apply Hkeep. rewrite get_remove by apply Hz.
      pose proof (soa_key_neq a (r_name_labels r) (r_rr_type r)).
      destruct (cmp (soa_key a) _); naive_solver. }
    destruct (Name_eq (r_name_labels r) (a_origin a)) eqn:Hor.
    + revert Hup Hremove. destruct (r_rr_type r) eqn:Ht; intros Hup Hremove;
        try (by eapply Hremove; [by left|exact Hup]); try (by apply Hsame in Hup).
      by destruct Hdel.
    + revert Hup Hremove. destruct (r_rr_type r) eqn:Ht; intros Hup Hremove;
        try (by eapply Hremove; [by right|exact Hup]).
      injection Hup as _ <-. apply Hkeep. apply get_remove_all; [apply Hz|].
      apply Forall_forall. intros k [Hk _]%list_elem_of_filter [Hn _]%RrKey_eq. simpl in Hn.
      rewrite (Name_eq_l _ _ _ (Name_eq_sym _ _ Hn)) in Hk. apply Name_eq_sym in Hk. congruence.
  - rewrite Hcn in Hup.
    destruct (BTreeMap_get (RrKey_new _ _) (a_records a)) as [s|] eqn:Hg.
    + destruct (get_entry _ _ _ Hz Hg) as (Hs & Hn & Ht).
      destruct (decide (r_rr_type r = RecordType.SOA)) as [Hrs|Hrs].
      * unfold RecordSet_remove in Hup. simpl in Hn. rewrite Hn, Hrs in Hup. cbn [negb] in Hup.
        simpl in Ht. rewrite <-Ht, Hrs in Hup. rewrite bool_decide_eq_true_2 in Hup by auto.
        cbn in Hup. injection Hup as _ <-. apply Hkeep. rewrite set_get by (by rewrite <-Hrs). done.
      * destruct (RecordSet_remove s r serial) as [[b' s']|?| |]; try done. cbn in Hup.
        injection Hup as _ <-. apply Hkeep. rewrite get_set by apply Hz.
        pose proof (soa_key_neq a (r_name_labels r) (r_rr_type r) (or_intror Hrs)).
        by destruct (cmp (soa_key a) _).
    + by apply Hsame in Hup.
Qed.

(** A record whose SOA data leaves room for the increment. *)
Definition serial_room (r : RRecord) : Prop :=
  ∀ soa, r_rdata r = RData.SOA soa → soa_serial soa < u32_max.

Lemma update_loop_ok serial rs : ∀ a u v,
  zone_ok a → soa_at a v → v < u32_max → Forall (updatable a) rs →
  Forall (λ r, ¬ deletes_origin a r ∧ serial_room r) rs →
  ∃ b m v', update_loop serial u rs a = (Ok b, with_records a m) ∧ records_ok m ∧
            soa_in a v' m ∧ v ≤ v' < u32_max ∧ (b = false → u = false ∧ m = a_records a).
Proof.
  induction rs as [|r rs IH]; intros a u v Hz Hat Hv Hup Hdel.
  { exists u, (a_records a), v. rewrite with_records_same. split_and!; [done|exact Hz|exact Hat|lia|lia|done]. }
  apply Forall_cons in Hup as [Hr Hup]. apply Forall_cons in Hdel as [[Hd Hroom] Hdel].
  destruct (update_record_ok serial a r Hz Hr) as (b & m & Hrec & Hm & Hf).
  destruct (update_record_soa serial a r v b m Hz Hr Hd Hat Hrec) as (v1 & Hat1 & Hstep).
  assert (Hv1 : v ≤ v1 < u32_max).
  { destruct Hstep as [->|(soa & Hs & ->)]; [lia|]. specialize (Hroom soa Hs). lia. }
  cbn [update_loop]. rewrite Hrec.
  destruct (IH (with_records a m) (b || u) v1) as (b' & m' & v' & -> & Hm' & Hat' & Hv' & Hf');
    [exact Hm|exact Hat1|lia| |exact Hdel|].
  { eapply Forall_impl; [exact Hup|]. intros ?. apply updatable_with. }
  exists b', m', v'. split_and!; [done|done|done|lia|lia|]. intros Hb.
  destruct (Hf' Hb) as [[-> ->]%orb_false_elim ->]. split; [done|]. by apply Hf.
Qed.

(** ** The increment of the serial *)

Lemma increment_ok {E} a v :
  zone_ok a → soa_at a v → v < u32_max →
  ∃ m, Authority_increment_soa_serial (E:=E) a = Ok (v + 1, with_records a m) ∧
       records_ok m ∧ soa_in a (v + 1) m.
Proof.
  intros Hz Hat Hv. destruct (soa_at_get a v Hat) as (x & soa & Hs & Hd & Hser & Hc).
  unfold Authority_increment_soa_serial. rewrite Hs, Hd. unfold SOA_increment_serial.
  rewrite (proj2 (Z.ltb_lt _ _)) by lia. cbn [rbind soa_serial].
  set (soa' := mkSOA _ _ _ _ _ _ _). set (x' := Record_rdata x (RData.SOA soa')).
  assert (Had : addable a x') by (split; [done|]; intros _; by exists soa').
  destruct (upsert_ok (E:=E) a x' (soa_serial soa + 1) Hz Had) as (b & s & Hup & Hm & _).
  destruct (upsert_soa a x' (soa_serial soa + 1) v b _ Hz Had Hat Hup) as (v' & Hat' & _ & Hmax).
  rewrite Hup. cbn [rbind snd]. rewrite Hser. eexists. split; [done|]. split; [exact Hm|].
  rewrite (Hmax soa' eq_refl) in Hat'.
  - simpl in Hat'. rewrite Hser in Hat'. by replace (Z.max v (v + 1)) with (v + 1) in Hat' by lia.
  - destruct Hat as (s0 & Hg & x0 & ? & Hr0 & _). apply RrKey_eq. simpl.
    destruct (get_entry _ _ _ Hz Hg) as (Hs0 & Hn0 & Ht0). simpl in Hn0, Ht0.
    unfold Authority_get_soa, Authority_lookup in Hs. rewrite decide_True in Hs by done.
    unfold soa_key in Hg. rewrite Hg in Hs. simpl in Hs. rewrite Hr0 in Hs. injection Hs as ->.
    pose proof (rso_names _ Hs0) as Hnames. pose proof (rso_types _ Hs0) as Htypes.
    rewrite Hr0 in Hnames, Htypes. apply Forall_cons in Hnames as [Hnx _].
    apply Forall_cons in Htypes as [Htx _]. split; [|congruence].
    eapply Name_eq_trans; [exact Hn0|]. by apply Name_eq_sym.
Qed.

(** ** An update of a zone *)

Lemma log_records_zone serial rs a r a1 :
  log_records serial rs a = (r, a1) → a1 = a ∨ ∃ j, a1 = Authority_journal a j.
Proof.
  unfold log_records. destruct (a_journal a) as [j|]; [|intros [= _ <-]; by left].
  destruct (Journal_insert_records serial rs j) as [r' j']. intros [= _ <-]. right. by exists j'.
Qed.

(** C13: A dynamic update of an unsigned zone succeeds once it is journalled, and keeps
    the zone well formed: every set is filed under its own name and type, without
    duplicates, with one SOA record. When it reports a change the serial of the zone's
    SOA record has grown; when it does not, the zone is as it was. This is so for
    records that the prescan accepts, when SOA records among them have SOA data, which
    the prescan does not test, none deletes everything at the zone's own name, and
    neither the serial of the zone nor one in the update is the greatest one, 2^32 - 1:
    without the first of these conditions the update can panic, and the increment of the
    greatest serial overflows. *)
Theorem Authority_update_records_ok a a1 rs v :
  zone_ok a → soa_at a v → v < u32_max → a_is_dnssec_enabled a = false →
  Forall (updatable a) rs → Forall (λ r, ¬ deletes_origin a r ∧ serial_room r) rs →
  log_records v rs a = (Ok (), a1) →
  ∃ b m, Authority_update_records rs true a = (Ok b, with_records a1 m) ∧ records_ok m ∧
         if (b : bool) then ∃ v', soa_in a v' m ∧ v < v' else m = a_records a.
Proof.
  intros Hz Hat Hv Hdns Hup Hdel Hlog.
  assert (Ha1 : zone_ok a1 ∧ soa_at a1 v ∧ a_is_dnssec_enabled a1 = false ∧ a_records a1 = a_records a ∧
    Forall (updatable a1) rs ∧ Forall (λ r, ¬ deletes_origin a1 r ∧ serial_room r) rs ∧
    (∀ v' m, soa_in a1 v' m → soa_in a v' m)).
  { destruct (log_records_zone _ _ _ _ _ Hlog) as [->|[j ->]]; [by split_and!|].
    split_and!; [exact Hz|exact Hat|done|done| |exact Hdel|done].
    eapply Forall_impl; [exact Hup|]. by intros ? [? ?]; split. }
  destruct Ha1 as (Hz1 & Hat1 & Hdns1 & Hrec1 & Hup1 & Hdel1 & Hsoa1).
  destruct (update_loop_ok v rs a1 false v Hz1 Hat1 Hv Hup1 Hdel1)
    as (b & m & v' & Hloop & Hm & Hat' & Hv' & Hf).
  unfold Authority_update_records, bind at 1, gets, id. unfold bind at 1, lift.
  rewrite (soa_at_serial a v Hat). rewrite (bind_Ok _ _ _ _ _ Hlog), (bind_Ok _ _ _ _ _ Hloop).
  destruct b; cbn [andb].
  - destruct (increment_ok (E:=ResponseCode) (with_records a1 m) v' Hm Hat' ltac:(lia))
      as (m' & Hinc & Hm' & Hat'').
    unfold bind, finish_update. cbn [a_is_dnssec_enabled with_records]. rewrite Hdns1.
    unfold step. rewrite Hinc. cbn [rbind snd]. exists true, m'. split; [done|]. split; [done|].
    exists (v' + 1). split; [by apply Hsoa1|lia].
  - destruct (Hf eq_refl) as [_ ->]. exists false, (a_records a1). rewrite Hrec1.
    split; [done|]. split; [exact Hz|done].
Qed.

(** ** Deleting everything at a name *)

Lemma get_remove_set (k : RrKey) ks (m : BTreeMap RrKey RecordSet) :
  btree_ok m →
  BTreeMap_get k (foldl (λ records k', BTreeMap_remove k' records) m ks) =
  if decide (Exists (λ k', cmp k k' = Eq) ks) then None else BTreeMap_get k m.
Proof.
  revert m. induction ks as [|k' ks IH]; intros m Hm; cbn [foldl].
  { rewrite decide_False; [done|]. by intros ?%Exists_nil. }
  rewrite IH by (by apply btree_ok_remove). rewrite get_remove by done.
  destruct (decide (Exists _ ks)) as [He|He].
  - rewrite decide_True; [done|]. by right.
  - destruct (cmp k k') eqn:E.
    + rewrite decide_True; [done|]. by left.
    + rewrite decide_False; [done|]. intros [?|?]%Exists_cons; [congruence|done].
    + rewrite decide_False; [done|]. intros [?|?]%Exists_cons; [congruence|done].
Qed.

(** An update of class and type [ANY] deletes exactly the sets at its name, with the
    protection of SOA and NS the wrong way round: at the zone's own name they are
    deleted with the rest, and they are kept at every other name.  (RFC 2136, and the
    comment in the source, protect them at the zone's name only.) *)
Theorem Authority_delete_all_spec serial a r k :
  zone_ok a → r_dns_class r = DNSClass.ANY → r_rr_type r = RecordType.ANY →
  a_class a ≠ DNSClass.ANY →
  ∃ b m, update_record serial a r = Ok (b, with_records a m) ∧
    BTreeMap_get k m =
    if decide (Name_eq (rk_name k) (r_name_labels r) = true ∧
               (Name_eq (rk_name k) (a_origin a) = true ∨
                (rk_record_type k ≠ RecordType.SOA ∧ rk_record_type k ≠ RecordType.NS)))
    then None else BTreeMap_get k (a_records a).
Proof.
  intros Hz Hc Ht Hcls. unfold update_record. rewrite Hc, Ht, decide_False by congruence.
  eexists _, _. split; [done|]. rewrite get_remove_set by apply Hz.
  set (P := λ k : RrKey, Name_eq (rk_name k) (r_name_labels r) = true ∧
               (Name_eq (rk_name k) (a_origin a) = true ∨
                (rk_record_type k ≠ RecordType.SOA ∧ rk_record_type k ≠ RecordType.NS))).
  assert (HP : ∀ k', k' ∈ keys_to_delete a (r_name_labels r) ↔ k' ∈ BTreeMap_keys (a_records a) ∧ P k').
  { intros k'. unfold keys_to_delete, P. rewrite !list_elem_of_filter.
    destruct (Name_eq (rk_name k') (a_origin a)).
    - split; [intros (? & _ & ?)|intros (? & ? & _)]; [by auto|].
      split_and!; [done| |done]. by intros [_ ?].
    - split; [intros (? & Hn & ?)|intros (? & ? & [?|[? ?]])]; [|done|].
      + split_and!; [done..|]. right. split; intros ?; apply Hn; auto.
      + split_and!; [done| |done]. by intros [[?|?] _]. }
  assert (Hext : ∀ k', cmp k k' = Eq → P k ↔ P k').
  { intros k' [En Et]%RrKey_eq. unfold P.
    by rewrite (Name_eq_l _ _ (r_name_labels r) En), (Name_eq_l _ _ (a_origin a) En), Et. }
  match goal with |- _ = (if decide ?Q then _ else _) => destruct (decide Q) as [Hk|Hk] end;
    change (P k) in Hk || change (¬ P k) in Hk.
  - destruct (decide (Exists _ _)) as [|He]; [done|].
    destruct (BTreeMap_get k (a_records a)) as [s|] eqn:Hg; [|done]. destruct He.
    apply get_elem in Hg as (k' & Hin & E); [|apply Hz]. apply Exists_exists. exists k'. split; [|done].
    apply HP. split; [|by apply (Hext k')]. apply list_elem_of_fmap. by exists (k', s).
  - rewrite decide_False; [done|]. intros (k' & Hin & E)%Exists_exists.
    apply HP in Hin as [_ Hk']. apply Hk. by apply (Hext k').
Qed.

(** ** Who may update *)

Lemma any_m_true {E A} (f : A → res E bool) l :
  any_m f l = Ok true → ∃ x, x ∈ l ∧ f x = Ok true.
Proof.
  induction l as [|x l IH]; simpl; [done|]. destruct (f x) as [[]|?| |] eqn:Hf; cbn; try done.
  - intros _. exists x. split; [by left|done].
  - intros H. destruct (IH H) as (y & Hy & Hfy). exists y. split; [by right|done].
Qed.

(** The message carries a signature that verifies under a key published in the zone
    at the signer's name. *)
Definition authenticated (a : Authority) (u : Message) : Prop :=
  ∃ rec sig krec key pkey,
    rec ∈ m_sig0 u ∧ r_rdata rec = RData.SIG sig ∧
    krec ∈ zone_records a ∧ r_rdata krec = RData.KEY key ∧
    Name_eq (r_name_labels krec) (sig_signer_name sig) = true ∧
    KeyPair_from_public_bytes (dk_public_key key) (dk_algorithm key) = Ok pkey ∧
    Signer_verify_message
      (Signer_new_verifier (dk_algorithm key) pkey (sig_signer_name sig) false true)
      u (sig_sig sig) = Ok ().

Lemma authorize_sound a u :
  zone_ok a → Authority_authorize a u = Ok () → a_allow_update a = true ∧ authenticated a u.
Proof.
  intros Hz. unfold Authority_authorize. destruct (a_allow_update a); [|done]. cbn [negb].
  case_decide as Hs; cbn [rbind]; [done|].
  destruct (any_m (authorize_sig a u) _) as [[]|?| |] eqn:Hany; cbn [rbind]; try done. intros _.
  split; [done|]. apply any_m_true in Hany as (sig & Hsig & Hany).
  apply list_elem_of_omap in Hsig as (rec & Hrec & Hsig). unfold sig_of in Hsig.
  destruct (r_rdata rec) eqn:Hrd; try done. injection Hsig as ->.
  unfold authorize_sig in Hany. apply any_m_true in Hany as (key & Hkey & Hok).
  apply list_elem_of_omap in Hkey as (krec & Hkrec & Hkey). unfold key_of in Hkey.
  destruct (r_rdata krec) eqn:Hkd; try done. injection Hkey as ->.
  apply (lookup_spec a _ RecordType.KEY krec Hz) in Hkrec as [Hin [Ht Hn]].
  unfold authorize_key in Hok.
  destruct (KeyPair_from_public_bytes _ _) as [pkey|?| |] eqn:Hpk; try done.
  destruct (Signer_verify_message _ u _) as [[]|?| |] eqn:Hver; try done.
  by exists rec, sig, krec, key, pkey.
Qed.

Lemma update_guarded a u r a' :
  zone_ok a → Authority_update u a = (r, a') →
  a' = a ∨
  a_allow_update a = true ∧ authenticated a u ∧
  Authority_verify_prerequisites a (m_answers u) = Ok () ∧
  Authority_pre_scan a (m_name_servers u) = Ok ().
Proof.
  intros Hz Hu. unfold Authority_update, bind, gets, lift, id in Hu.
  destruct (Authority_authorize a u) as [[]|?| |] eqn:Hauth; try (injection Hu as _ <-; by left).
  destruct (Authority_verify_prerequisites a _) as [[]|?| |]; try (injection Hu as _ <-; by left).
  destruct (Authority_pre_scan a _) as [[]|?| |]; try (injection Hu as _ <-; by left).
  destruct (authorize_sound a u Hz Hauth) as [? ?]. right. by split_and!.
Qed.

(** Only an authenticated update changes a zone: whatever an update request does to
    the authority — its records, its journal, its keys — it does only if updates are
    allowed, the request is signed with a key published in the zone, its prerequisites
    hold, and the prescan accepts it. *)
Theorem Authority_update_authenticated a u r a' :
  zone_ok a → Authority_update u a = (r, a') → a' ≠ a →
  a_allow_update a = true ∧ authenticated a u ∧
  Authority_verify_prerequisites a (m_answers u) = Ok () ∧
  Authority_pre_scan a (m_name_servers u) = Ok ().
Proof. intros Hz Hu Hne. by destruct (update_guarded a u r a' Hz Hu). Qed.

(** ** Prerequisites *)

(** The table of RFC 2136, section 2.4, over the records of the zone. *)
Definition prerequisite_holds (a : Authority) (p : RRecord) : Prop :=
  r_ttl p = 0 ∧ Name_zone_of (E:=ResponseCode) (a_origin a) (r_name_labels p) = Ok true ∧
  let matching r := r ∈ zone_records a ∧ answers a (r_name_labels p) (r_rr_type p) r in
  match r_dns_class p with
  | DNSClass.ANY => is_null (r_rdata p) = true ∧ ∃ r, matching r
  | DNSClass.NONE => is_null (r_rdata p) = true ∧ ∀ r, ¬ matching r
  | class => class = a_class a ∧ ∃ r, matching r ∧ Record_eq r p = true
  end.

Lemma lookup_empty a name t :
  zone_ok a →
  Authority_lookup a name t false no_algorithms = [] ↔
  ∀ r, ¬ (r ∈ zone_records a ∧ answers a name t r).
Proof.
  intros Hz. setoid_rewrite <-lookup_spec; [|done]. split.
  - intros -> r. apply not_elem_of_nil.
  - intros Hno. destruct (Authority_lookup _ _ _ _ _) as [|r l]; [done|]. destruct (Hno r). by left.
Qed.

Lemma lookup_nonempty a name t :
  zone_ok a →
  Authority_lookup a name t false no_algorithms ≠ [] ↔
  ∃ r, r ∈ zone_records a ∧ answers a name t r.
Proof.
  intros Hz. setoid_rewrite <-lookup_spec; [|done]. split.
  - intros Hne. destruct (Authority_lookup _ _ _ _ _) as [|r l]; [done|]. exists r. by left.
  - intros (r & Hr) Hnil. rewrite Hnil in Hr. by apply elem_of_nil in Hr.
Qed.

Lemma prerequisite_spec a p :
  zone_ok a → verify_prerequisite a p = Ok () ↔ prerequisite_holds a p.
Proof.
  intros Hz. unfold verify_prerequisite, prerequisite_holds.
  destruct (Z.eqb_spec (r_ttl p) 0) as [Httl|Httl]; cbn [negb]; [|naive_solver].
  destruct (Name_zone_of _ _) as [[]|?| |]; cbn [rbind negb]; [|naive_solver..].
  assert (Hguards : ∀ A B : Prop, (A ↔ B) → A ↔ r_ttl p = 0 ∧ Ok (E:=ResponseCode) true = Ok true ∧ B)
    by tauto.
  apply Hguards. clear Hguards. cbv zeta.
  set (t := r_rr_type p). set (found := λ t, Authority_lookup a (r_name_labels p) t false no_algorithms).
  assert (Hclass : ∀ class, (if decide (class = a_class a) then
      if existsb (λ rr, Record_eq rr p) (found t) then Ok (E:=ResponseCode) () else Err ResponseCode.NXRRSet
    else Err ResponseCode.FormErr) = Ok () ↔
    class = a_class a ∧ ∃ r, (r ∈ zone_records a ∧ answers a (r_name_labels p) t r) ∧ Record_eq r p = true).
  { intros class. setoid_rewrite <-lookup_spec; [|done]. fold (found t).
    case_decide; [|naive_solver]. destruct (existsb _ _) eqn:He.
    - apply existsb_exists in He as (r & Hin%list_elem_of_In & Hr). naive_solver.
    - split; [done|]. intros (_ & r & Hin & Hr). exfalso. apply not_true_iff_false in He. apply He.
      apply existsb_exists. exists r. split; [by apply list_elem_of_In|done]. }
  destruct (r_dns_class p); try apply Hclass.
  - destruct (is_null (r_rdata p)); [|by split; [|intros []]]. rewrite <-lookup_empty by done.
    assert (Hif : ∀ (e : ResponseCode) (l : list RRecord),
      (if decide (l ≠ []) then Err e else Ok ()) = Ok () ↔ true = true ∧ l = []).
    { intros e [|x l]; case_decide; naive_solver. }
    destruct t; apply Hif.
  - destruct (is_null (r_rdata p)); [|by split; [|intros []]]. rewrite <-lookup_nonempty by done.
    assert (Hif : ∀ (e : ResponseCode) (l : list RRecord),
      (if decide (l = []) then Err e else Ok ()) = Ok () ↔ true = true ∧ l ≠ []).
    { intros e [|x l]; case_decide; naive_solver. }
    destruct t; apply Hif.
Qed.

Lemma prerequisites_hold a ps :
  zone_ok a → Authority_verify_prerequisites a ps = Ok () ↔ Forall (prerequisite_holds a) ps.
Proof.
  intros Hz. induction ps as [|p ps IH]; simpl; [by split|].
  rewrite Forall_cons, <-IH, <-prerequisite_spec by done.
  destruct (verify_prerequisite a p) as [[]|?| |]; cbn [rbind]; naive_solver.
Qed.

(** *** What RFC 2136 requires

    The pseudocode that [verify_prerequisites] quotes (3.2.5): the records of the zone's class are put together to
    record sets, which have to be equal to those of the zone. *)

Definition value_dependent (p : RRecord) : Prop := r_dns_class p ≠ DNSClass.ANY ∧ r_dns_class p ≠ DNSClass.NONE.

(** [p'] is in the set [temp<rr.name, rr.type>] that [p] is put in. *)
Definition same_set (p p' : RRecord) : Prop :=
  value_dependent p' ∧ r_rr_type p' = r_rr_type p ∧ Name_eq (r_name_labels p') (r_name_labels p) = true.

Definition in_zone_set (a : Authority) (p r : RRecord) : Prop :=
  r ∈ zone_records a ∧ answers a (r_name_labels p) (r_rr_type p) r.

Record rfc_prerequisites (a : Authority) (ps : list RRecord) : Prop := {
  rp_each : Forall (λ p, r_ttl p = 0 ∧ Name_zone_of (E:=ResponseCode) (a_origin a) (r_name_labels p) = Ok true ∧
    match r_dns_class p with
    | DNSClass.ANY => is_null (r_rdata p) = true ∧ ∃ r, in_zone_set a p r
    | DNSClass.NONE => is_null (r_rdata p) = true ∧ ∀ r, ¬ in_zone_set a p r
    | class => class = a_class a
    end) ps;
  rp_in_zone p p' : p ∈ ps → value_dependent p → p' ∈ ps → same_set p p' →
    ∃ r, in_zone_set a p r ∧ Record_eq r p' = true;
  rp_no_more p r : p ∈ ps → value_dependent p → in_zone_set a p r →
    ∃ p', p' ∈ ps ∧ same_set p p' ∧ Record_eq r p' = true;
}.

(** What the code does not test: that the sets of the zone have no further records. *)
Definition nothing_more (a : Authority) (ps : list RRecord) : Prop :=
  ∀ p r, p ∈ ps → value_dependent p → in_zone_set a p r → ∃ p', p' ∈ ps ∧ same_set p p' ∧ Record_eq r p' = true.

Lemma in_zone_set_same a p p' r : same_set p p' → in_zone_set a p' r ↔ in_zone_set a p r.
Proof.
  intros (_ & Ht & Hn). unfold in_zone_set, answers. rewrite Ht.
  assert (Heq : ∀ n, Name_eq n (r_name_labels p') = Name_eq n (r_name_labels p)).
  { intros n. apply eq_true_iff_eq. split; intros H; (eapply Name_eq_trans; [exact H|]); [done|by apply Name_eq_sym]. }
  destruct (r_rr_type p); by rewrite ?Heq.
Qed.

Lemma rfc_prerequisites_hold a ps :
  rfc_prerequisites a ps ↔ Forall (prerequisite_holds a) ps ∧ nothing_more a ps.
Proof.
  rewrite !Forall_forall. split.
  - intros [He Hin Hno]. rewrite Forall_forall in He. split; [|exact Hno]. intros p Hp.
    destruct (He p Hp) as (H1 & H2 & H3). split; [done|]. split; [done|]. cbv zeta.
    assert (Hv : value_dependent p → ∃ r, in_zone_set a p r ∧ Record_eq r p = true).
    { intros Hv. apply (Hin p p); [done..|]. split; [done|]. split; [done|apply Name_eq_refl]. }
    unfold value_dependent in Hv. destruct (r_dns_class p); try done; (split; [done|apply Hv; split; discriminate]).
  - intros [Hh Hno]. split; [|..|exact Hno].
    + apply Forall_forall. intros p Hp. destruct (Hh p Hp) as (H1 & H2 & H3). split; [done|]. split; [done|].
      cbv zeta in H3. destruct (r_dns_class p); try done; by destruct H3.
    + intros p p' Hp Hv Hp' Hs. destruct (Hh p' Hp') as (_ & _ & H3). pose proof Hs as [[Hv1 Hv2] _].
      assert (H : ∃ r, in_zone_set a p' r ∧ Record_eq r p' = true)
        by (cbv zeta in H3; destruct (r_dns_class p'); try done; by destruct H3).
      destruct H as (r & Hr & He). exists r. split; [|done]. by apply (in_zone_set_same a p p').
Qed.

End zone.
