(* ===== verification/ZoneSecurity.v ===== *)
(** * The NSEC chain of a zone

    What [nsec_zone] generates (RFC 4034, section 4): one record for each name, in
    the order of the names, each pointing to the next, the last to the zone's name;
    and what [get_nsec_records] finds in it. *)

From S2P Require Import Prelude Codec Wire Domain Enums Header RData RDataProps Resource Message.
From S2P Require Import BitMaps RecordSet KeyPair Signer Update BTree Journal Authority AuthorityProps.

Open Scope Z_scope.

(** ** The names of a zone *)

Section groups.
Context `{L : Lowercase}.

(** The keys in runs of one name, with the types at it. *)
Fixpoint groups (ks : list RrKey) : list (Name * list RecordType) :=
  match ks with
  | [] => []
  | k :: ks =>
      match groups ks with
      | (n, ts) :: gs =>
          if Name_eq (rk_name k) n then (rk_name k, rk_record_type k :: ts) :: gs
          else (rk_name k, [rk_record_type k]) :: (n, ts) :: gs
      | [] => [(rk_name k, [rk_record_type k])]
      end
  end.

(** A run before the rest. *)
Definition attach (n : Name) (ts : list RecordType) (gs : list (Name * list RecordType)) :
    list (Name * list RecordType) :=
  match gs with
  | (n', ts') :: gs' => if Name_eq n n' then (n, ts ++ ts') :: gs' else (n, ts) :: gs
  | [] => [(n, ts)]
  end.

(** The chain over the runs. *)
Fixpoint chain (ttl : Z) (origin : Name) (gs : list (Name * list RecordType)) : list RRecord :=
  match gs with
  | [] => []
  | (n, ts) :: gs' =>
      nsec_record n ttl (match gs' with (n', _) :: _ => n' | [] => origin end) ts :: chain ttl origin gs'
  end.

Lemma groups_cons k ks : groups (k :: ks) = attach (rk_name k) [rk_record_type k] (groups ks).
Proof. simpl. by destruct (groups ks) as [|[n ts] gs]. Qed.

Lemma attach_same n k ts ks :
  Name_eq n (rk_name k) = true →
  attach n ts (groups (k :: ks)) = attach n (ts ++ [rk_record_type k]) (groups ks).
Proof.
  intros Hn. rewrite groups_cons. destruct (groups ks) as [|[n' ts'] gs]; simpl.
  - by rewrite Hn.
  - rewrite <-(Name_eq_l _ _ n' Hn). destruct (Name_eq n n') eqn:E; simpl; rewrite Hn.
    + by rewrite <-app_assoc.
    + done.
Qed.

Lemma nsec_loop_chain ttl origin ks : ∀ n ts acc,
  nsec_loop ttl origin ks (Some (n, ts)) acc = acc ++ chain ttl origin (attach n ts (groups ks)).
Proof.
  induction ks as [|k ks IH]; intros n ts acc; [done|]. cbn [nsec_loop].
  destruct (Name_eq n (rk_name k)) eqn:Hn.
  - by rewrite IH, attach_same.
  - rewrite IH, <-app_assoc. f_equal. rewrite groups_cons.
    destruct (groups ks) as [|[n' ts'] gs]; simpl; [by rewrite Hn|].
    destruct (Name_eq (rk_name k) n') eqn:Hk; simpl; by rewrite Hn.
Qed.

Lemma nsec_loop_groups ttl origin ks :
  nsec_loop ttl origin ks None [] = chain ttl origin (groups ks).
Proof.
  destruct ks as [|k ks]; [done|]. cbn [nsec_loop]. rewrite nsec_loop_chain, groups_cons. done.
Qed.

(** ** The order of the runs *)

Definition key_before (k k' : RrKey) : Prop := cmp k k' = Lt.
Definition name_before (g g' : Name * list RecordType) : Prop := cmp g.1 g'.1 = Lt.
Definition type_before (t t' : RecordType) : Prop := cmp t t' = Lt.

Definition name_le (n m : Name) : Prop := cmp n m = Lt ∨ Name_eq n m = true.

Lemma key_before_name k k' : key_before k k' → name_le (rk_name k) (rk_name k').
Proof.
  unfold key_before, name_le, cmp at 1, RrKey_cmp. rewrite Name_eq_cmp.
  destruct (cmp (rk_name k) (rk_name k')); auto.
Qed.

Lemma groups_names (P : Name → Prop) ks :
  Forall (P ∘ rk_name) ks → Forall (P ∘ fst) (groups ks).
Proof.
  induction ks as [|k ks IH]; intros Hks; [constructor|]. apply Forall_cons in Hks as [Hk Hks].
  specialize (IH Hks). rewrite groups_cons. destruct (groups ks) as [|[n ts] gs]; [by repeat constructor|].
  apply Forall_cons in IH as [Hn IH]. simpl. destruct (Name_eq _ _); by repeat constructor.
Qed.

Lemma groups_sorted ks :
  StronglySorted key_before ks → StronglySorted name_before (groups ks).
Proof.
  induction 1 as [|k ks Hs IH Hk]; [constructor|]. rewrite groups_cons.
  assert (Hle : Forall (name_le (rk_name k) ∘ fst) (groups ks)).
  { apply groups_names. eapply Forall_impl; [exact Hk|]. apply key_before_name. }
  destruct (groups ks) as [|[n ts] gs]; [by repeat constructor|]. simpl.
  apply StronglySorted_inv in IH as Hinv. destruct Hinv as [Hgs Hn].
  apply Forall_cons in Hle as [Hkn _]. simpl in Hkn.
  destruct (Name_eq (rk_name k) n) eqn:E.
  - constructor; [done|]. eapply Forall_impl; [exact Hn|]. intros g Hg. unfold name_before in *.
    simpl in *. apply Name_eq_cmp in E. by rewrite (cmp_eq_l _ _ _ E).
  - destruct Hkn as [Hlt|?]; simpl in *; [|congruence]. constructor; [done|]. constructor; [exact Hlt|].
    eapply Forall_impl; [exact Hn|]. intros g Hg. unfold name_before in *. simpl in *.
    by eapply cmp_lt_trans.
Qed.

(** The types of a run come after the type of every key before it at the name. *)
Lemma groups_head_types ks k n ts gs :
  StronglySorted key_before (k :: ks) → groups ks = (n, ts) :: gs → Name_eq (rk_name k) n = true →
  Forall (type_before (rk_record_type k)) ts.
Proof.
  revert k n ts gs. induction ks as [|k' ks IH]; intros k n ts gs Hs Hg Hn; [done|].
  apply StronglySorted_inv in Hs as [Hs Hk]. apply Forall_cons in Hk as [Hkk' Hk].
  assert (Htype : Name_eq (rk_name k) (rk_name k') = true → type_before (rk_record_type k) (rk_record_type k')).
  { intros E. unfold key_before, cmp, RrKey_cmp in Hkk'. apply Name_eq_cmp in E.
    fold (cmp (rk_name k) (rk_name k')) in Hkk'. by rewrite E in Hkk'. }
  rewrite groups_cons in Hg. destruct (groups ks) as [|[n' ts'] gs'] eqn:Hgs; simpl in Hg.
  - injection Hg as <- <- <-. constructor; [auto|constructor].
  - destruct (Name_eq (rk_name k') n') eqn:E.
    + injection Hg as <- <- <-. constructor; [auto|].
      eapply Forall_impl; [apply (IH k' n' ts' gs' Hs eq_refl E)|]. intros t Ht.
      unfold type_before in *. eapply cmp_lt_trans; [apply Htype; done|done].
    + injection Hg as <- <- <-. constructor; [auto|constructor].
Qed.

Lemma groups_types ks :
  StronglySorted key_before ks → Forall (λ g, StronglySorted type_before g.2) (groups ks).
Proof.
  induction ks as [|k ks IH]; intros Hs; [constructor|].
  apply StronglySorted_inv in Hs as Hinv. destruct Hinv as [Hs' _]. specialize (IH Hs').
  pose proof (groups_head_types ks k) as Hhead. rewrite groups_cons.
  destruct (groups ks) as [|[n ts] gs]; [by repeat constructor|].
  apply Forall_cons in IH as [Hn IH]. simpl in *. destruct (Name_eq (rk_name k) n) eqn:E.
  - constructor; [|done]. constructor; [done|]. by eapply Hhead.
  - by repeat constructor.
Qed.

(** The runs list exactly the keys. *)
Lemma groups_elem ks n t :
  (∃ k, k ∈ ks ∧ Name_eq (rk_name k) n = true ∧ rk_record_type k = t) ↔
  ∃ g, g ∈ groups ks ∧ Name_eq g.1 n = true ∧ t ∈ g.2.
Proof.
  induction ks as [|k ks IH].
  { split; [intros (k & ?%elem_of_nil & _)|intros (g & ?%elem_of_nil & _)]; done. }
  assert (Hl : (∃ k0, k0 ∈ k :: ks ∧ Name_eq (rk_name k0) n = true ∧ rk_record_type k0 = t) ↔
    (Name_eq (rk_name k) n = true ∧ rk_record_type k = t) ∨
    ∃ g, g ∈ groups ks ∧ Name_eq g.1 n = true ∧ t ∈ g.2).
  { rewrite <-IH. setoid_rewrite elem_of_cons. naive_solver. }
  rewrite Hl, groups_cons. clear IH Hl. destruct (groups ks) as [|[n' ts] gs]; simpl.
  - setoid_rewrite list_elem_of_singleton. setoid_rewrite elem_of_nil. split.
    + intros [[? ?]|(g & [] & _)]. eexists. split; [done|]. simpl. rewrite list_elem_of_singleton. auto.
    + intros (g & -> & ? & Ht). simpl in *. apply list_elem_of_singleton in Ht. auto.
  - destruct (Name_eq (rk_name k) n') eqn:E.
    + setoid_rewrite elem_of_cons. rewrite (Name_eq_l _ _ n E). split.
      * intros [[Hn Ht]|(g & [->|Hg] & Hn & Ht)].
        -- eexists. split; [by left|]. simpl. rewrite (Name_eq_l _ _ n E). split; [done|].
           subst t. by left.
        -- eexists. split; [by left|]. simpl in *. rewrite (Name_eq_l _ _ n E). split; [done|]. by right.
        -- exists g. auto.
      * intros (g & [->|Hg] & Hn & Ht).
        -- simpl in *. rewrite (Name_eq_l _ _ n E) in Hn. apply elem_of_cons in Ht as [->|Ht]; [by left|].
           right. exists (n', ts). auto.
        -- right. exists g. auto.
    + setoid_rewrite (elem_of_cons ((n', ts) :: gs)). split.
      * intros [[Hn Ht]|(g & Hg & Hn & Ht)].
        -- eexists. split; [by left|]. simpl. rewrite list_elem_of_singleton. auto.
        -- exists g. auto.
      * intros (g & [->|Hg] & Hn & Ht).
        -- simpl in *. apply list_elem_of_singleton in Ht. auto.
        -- right. exists g. auto.
Qed.
End groups.

(** ** Generating the chain *)

Section nsec_zone.
Context `{L : Lowercase} `{HO : HashOrder} `{C : Crypto} `{SQ : Sqlite} `{CK : Clock}.

Lemma get_serial_ok {E} a : zone_ok a → ∃ v, Authority_get_serial (E:=E) a = Ok v.
Proof.
  intros Hz. unfold Authority_get_serial.
  destruct (Authority_get_soa a) as [x|] eqn:Hs; [|by eexists].
  unfold Authority_get_soa, Authority_lookup in Hs. rewrite decide_True in Hs by done.
  destruct (BTreeMap_get _ _) as [s|] eqn:Hg; [|done]. simpl in Hs.
  destruct (get_entry _ _ _ Hz Hg) as (Hok & _ & Ht). simpl in Ht.
  pose proof (rso_soa _ Hok (eq_sym Ht)) as Hsoa.
  destruct (rs_records s) as [|y l]; [done|]. injection Hs as ->.
  apply Forall_cons in Hsoa as [[soa ->] _]. by eexists.
Qed.

(** The set a generated record is filed in. *)
Definition nsec_set (r : RRecord) (serial : Z) : RecordSet :=
  mkRecordSet (r_name_labels r) RecordType.NSEC DNSClass.IN (r_ttl r) [r] [] serial.

Definition nsec_key (r : RRecord) : RrKey := RrKey_new (r_name_labels r) RecordType.NSEC.

Lemma upsert_fresh {E} a r serial :
  a_class a = r_dns_class r → r_rr_type r = RecordType.NSEC →
  BTreeMap_get (nsec_key r) (a_records a) = None →
  Authority_upsert (E:=E) a r serial =
  Ok (true, with_records a (BTreeMap_set (nsec_key r) (nsec_set r serial) (a_records a))).
Proof.
  intros Hc Ht Hg. unfold Authority_upsert. rewrite decide_True by done.
  unfold nsec_key in *. rewrite Ht, Hg. cbn [from_option id]. unfold RecordSet_insert. simpl.
  rewrite Name_eq_refl, Ht, bool_decide_eq_true_2 by done. done.
Qed.

Definition nsec_like (a : Authority) (r : RRecord) : Prop :=
  a_class a = r_dns_class r ∧ r_rr_type r = RecordType.NSEC.

Definition owner_before (r r' : RRecord) : Prop := cmp (r_name_labels r) (r_name_labels r') = Lt.

Lemma nsec_key_eq r k :
  cmp k (nsec_key r) = Eq ↔ Name_eq (rk_name k) (r_name_labels r) = true ∧ rk_record_type k = RecordType.NSEC.
Proof. apply RrKey_eq. Qed.

Lemma upsert_all_ok {E} serial rs : ∀ a,
  zone_ok a → StronglySorted owner_before rs → Forall (nsec_like a) rs →
  Forall (λ r, BTreeMap_get (nsec_key r) (a_records a) = None) rs →
  ∃ m, upsert_all (E:=E) a rs serial = Ok (with_records a m) ∧ records_ok m ∧
    (∀ r, r ∈ rs → BTreeMap_get (nsec_key r) m = Some (nsec_set r serial)) ∧
    (∀ k, Forall (λ r, cmp k (nsec_key r) ≠ Eq) rs → BTreeMap_get k m = BTreeMap_get k (a_records a)).
Proof.
  induction rs as [|r rs IH]; intros a Hz Hs Hlike Hnone.
  { exists (a_records a). rewrite with_records_same. split_and!; [done|exact Hz| |done].
    by intros r ?%elem_of_nil. }
  apply StronglySorted_inv in Hs as [Hs Hr]. apply Forall_cons in Hlike as [[Hc Ht] Hlike].
  apply Forall_cons in Hnone as [Hg Hnone]. cbn [upsert_all]. rewrite upsert_fresh by done.
  cbn [rbind snd]. set (m1 := BTreeMap_set (nsec_key r) (nsec_set r serial) (a_records a)).
  assert (Hne : Forall (λ r', cmp (nsec_key r) (nsec_key r') ≠ Eq ∧ cmp (nsec_key r') (nsec_key r) ≠ Eq) rs).
  { eapply Forall_impl; [exact Hr|]. intros r' Hlt. unfold owner_before in Hlt. simpl.
    rewrite !nsec_key_eq. simpl. rewrite !Name_eq_cmp, (cmp_opp (r_name_labels r)), Hlt. naive_solver. }
  destruct (IH (with_records a m1)) as (m & Hup & Hm & Hin & Hout).
  - apply records_ok_set; [exact Hz| |apply Name_eq_refl|done].
    assert (Hok : fits (RecordSet_new (r_name_labels r) RecordType.NSEC serial) r).
    { split; simpl; [apply Name_eq_refl|done|done]. }
    apply (rset_ok_singleton _ r (r_ttl r) serial Hok).
  - done.
  - exact Hlike.
  - rewrite Forall_forall in Hne, Hnone |- *. intros r' Hr'. simpl. unfold m1.
    rewrite get_set by apply Hz. specialize (Hnone _ Hr'). specialize (Hne _ Hr').
    destruct (cmp (nsec_key r') (nsec_key r)); naive_solver.
  - exists m. split; [exact Hup|]. split; [done|]. split.
    + intros r' [->|Hr']%elem_of_cons; [|auto].
      rewrite Hout; [|by eapply Forall_impl; [exact Hne|]; intros ? [? ?]].
      simpl. unfold m1. rewrite get_set by apply Hz. by rewrite cmp_refl.
    + intros k [Hk Hks]%Forall_cons. rewrite Hout by done. simpl. unfold m1.
      rewrite get_set by apply Hz. by destruct (cmp k (nsec_key r)).
Qed.

Lemma chain_sorted ttl origin gs :
  StronglySorted name_before gs → StronglySorted owner_before (chain ttl origin gs).
Proof.
  assert (Hn : ∀ n gs, Forall (λ g : Name * list RecordType, cmp n g.1 = Lt) gs →
    Forall (λ r, cmp n (r_name_labels r) = Lt) (chain ttl origin gs)).
  { intros n gs'. induction gs' as [|[n' ts] gs' IH]; intros H; simpl; [constructor|].
    apply Forall_cons in H as [? ?]. constructor; [done|auto]. }
  induction 1 as [|[n ts] gs Hs IH Hg]; simpl; [constructor|]. constructor; [done|]. by apply Hn.
Qed.

Lemma chain_like a ttl origin gs :
  a_class a = DNSClass.IN → Forall (nsec_like a) (chain ttl origin gs).
Proof. intros Hc. induction gs as [|[n ts] gs IH]; simpl; constructor; [by split|done]. Qed.

Lemma keys_sorted (m : BTreeMap RrKey RecordSet) :
  btree_ok m → StronglySorted key_before (BTreeMap_keys m).
Proof.
  induction 1 as [|[k s] m Hs IH Hk]; simpl; constructor; [done|]. apply Forall_fmap. done.
Qed.

(** The records without the old chain. *)
Definition without_nsec (m : BTreeMap RrKey RecordSet) : BTreeMap RrKey RecordSet :=
  foldl (λ records k, BTreeMap_remove k records) m
    (filter (λ k, rk_record_type k = RecordType.NSEC) (BTreeMap_keys m)).

Lemma get_without_nsec m k :
  btree_ok m →
  BTreeMap_get k (without_nsec m) =
  if decide (rk_record_type k = RecordType.NSEC) then None else BTreeMap_get k m.
Proof.
  intros Hm. unfold without_nsec. rewrite get_remove_set by done.
  destruct (decide (rk_record_type k = RecordType.NSEC)) as [Hk|Hk].
  - destruct (decide (Exists _ _)) as [|He]; [done|].
    destruct (BTreeMap_get k m) as [s|] eqn:Hg; [|done]. destruct He.
    apply get_elem in Hg as (k' & Hin & E); [|done]. apply Exists_exists. exists k'. split; [|done].
    apply list_elem_of_filter. apply RrKey_eq in E as [_ Et]. split; [congruence|].
    apply list_elem_of_fmap. by exists (k', s).
  - rewrite decide_False; [done|]. intros (k' & [Hk' _]%list_elem_of_filter & E)%Exists_exists.
    apply RrKey_eq in E as [_ Et]. congruence.
Qed.

Lemma get_key_in (m : BTreeMap RrKey RecordSet) n t :
  btree_ok m →
  is_Some (BTreeMap_get (RrKey_new n t) m) ↔
  ∃ k, k ∈ BTreeMap_keys m ∧ Name_eq (rk_name k) n = true ∧ rk_record_type k = t.
Proof.
  intros Hm. split.
  - intros [s Hg]. apply get_elem in Hg as (k & Hin & [En Et]%RrKey_eq); [|done]. simpl in *.
    exists k. split; [apply list_elem_of_fmap; by exists (k, s)|]. split; [by apply Name_eq_sym|done].
  - intros (k & Hk & Hn & Ht). apply list_elem_of_fmap in Hk as ([k' s] & -> & Hin). exists s.
    apply get_elem; [done|]. exists k'. split; [done|]. apply RrKey_eq. simpl in *.
    split; [by apply Name_eq_sym|done].
Qed.

Lemma minimum_ttl_same a m :
  BTreeMap_get (soa_key a) m = BTreeMap_get (soa_key a) (a_records a) →
  Authority_get_minimum_ttl (with_records a m) = Authority_get_minimum_ttl a.
Proof.
  intros Hg. unfold Authority_get_minimum_ttl, Authority_get_soa, Authority_lookup.
  rewrite decide_True by done. unfold soa_key in Hg. cbn [a_origin a_records with_records].
  by rewrite Hg.
Qed.

(** The NSEC records of a zone whose NSEC sets are those of a list of records. *)
Lemma chain_records a m m0 rs serial r :
  records_ok m → Forall (nsec_like a) rs →
  (∀ k, rk_record_type k = RecordType.NSEC → BTreeMap_get k m0 = None) →
  (∀ r, r ∈ rs → BTreeMap_get (nsec_key r) m = Some (nsec_set r serial)) →
  (∀ k, Forall (λ r, cmp k (nsec_key r) ≠ Eq) rs → BTreeMap_get k m = BTreeMap_get k m0) →
  r ∈ zone_records (with_records a m) ∧ r_rr_type r = RecordType.NSEC ↔ r ∈ rs.
Proof.
  intros Hm Hlike H0 Hin Hout. split.
  - intros [(k & s & Hks & Hr)%elem_of_zone_records Ht].
    destruct (entry_record (with_records a m) k s r Hm Hks Hr) as (_ & Hn & Ht' & _).
    assert (Hg : BTreeMap_get k m = Some s).
    { apply get_elem; [apply Hm|]. exists k. split; [done|]. apply cmp_refl. }
    destruct (decide (Exists (λ r', cmp k (nsec_key r') = Eq) rs)) as [He|He].
    + apply Exists_exists in He as (r' & Hr' & Hkr). rewrite (get_eq _ _ _ Hkr), (Hin r' Hr') in Hg.
      injection Hg as <-. by apply list_elem_of_singleton in Hr as ->.
    + apply not_Exists_Forall in He; [|apply _]. rewrite (Hout k He), H0 in Hg by congruence. done.
  - intros Hr. pose proof (Hin r Hr) as Hg. apply get_elem in Hg as (k & Hk & _); [|apply Hm].
    rewrite Forall_forall in Hlike. split; [|apply (Hlike r Hr)].
    apply elem_of_zone_records. exists k, (nsec_set r serial). split; [done|]. by left.
Qed.

Lemma nsec_zone_ok {E} a :
  zone_ok a → a_secure_keys a ≠ [] → a_class a = DNSClass.IN →
  ∃ m gs, Authority_nsec_zone (E:=E) a = Ok (with_records a m) ∧ records_ok m ∧
    StronglySorted name_before gs ∧ Forall (λ g, StronglySorted type_before g.2) gs ∧
    (∀ n t, (∃ g, g ∈ gs ∧ Name_eq g.1 n = true ∧ t ∈ g.2) ↔
            t ≠ RecordType.NSEC ∧ is_Some (BTreeMap_get (RrKey_new n t) (a_records a))) ∧
    (∀ k, rk_record_type k ≠ RecordType.NSEC → BTreeMap_get k m = BTreeMap_get k (a_records a)) ∧
    (∀ r, r ∈ zone_records (with_records a m) ∧ r_rr_type r = RecordType.NSEC ↔
          r ∈ chain (Authority_get_minimum_ttl a) (a_origin a) gs).
Proof.
  intros Hz Hkeys Hc. set (m0 := without_nsec (a_records a)). set (a0 := with_records a m0).
  assert (Hz0 : zone_ok a0) by (apply records_ok_remove_all; exact Hz).
  assert (Hget0 : ∀ k, BTreeMap_get k m0 = if decide (rk_record_type k = RecordType.NSEC) then None
    else BTreeMap_get k (a_records a)) by (intros k; apply get_without_nsec, Hz).
  destruct (get_serial_ok (E:=E) a0 Hz0) as [serial Hserial].
  set (gs := groups (BTreeMap_keys m0)).
  set (ttl := Authority_get_minimum_ttl a0).
  assert (Httl : ttl = Authority_get_minimum_ttl a) by (apply minimum_ttl_same; rewrite Hget0; done).
  pose proof (keys_sorted m0 (zo_tree _ Hz0)) as Hks.
  assert (Hgs : StronglySorted name_before gs) by (by apply groups_sorted).
  destruct (upsert_all_ok (E:=E) serial (chain ttl (a_origin a) gs) a0 Hz0) as (m & Hup & Hm & Hin & Hout).
  { by apply chain_sorted. }
  { by apply chain_like. }
  { apply Forall_forall. intros r _. simpl. rewrite Hget0. by rewrite decide_True. }
  exists m, gs. split_and!; [|done|done|by apply groups_types| | |].
  - unfold Authority_nsec_zone. destruct (a_secure_keys a); [done|].
    fold (without_nsec (a_records a)). fold m0. fold a0. rewrite Hserial. cbn [rbind].
    change (a_records a0) with m0. rewrite nsec_loop_groups. exact Hup.
  - intros n t. unfold gs. rewrite <-groups_elem, <-get_key_in by apply Hz0. rewrite Hget0. simpl.
    case_decide; [|naive_solver]. split; [intros [? ?]; done|naive_solver].
  - intros k Hk. rewrite Hout; [simpl; rewrite Hget0; by rewrite decide_False|].
    apply Forall_forall. intros r _ [_ Ht]%nsec_key_eq. done.
  - intros r. rewrite <-Httl. apply (chain_records a m m0 _ serial); try done.
    + by apply chain_like.
    + intros k Hk. rewrite Hget0. by rewrite decide_True.
Qed.


(** ** Finding a record of the chain *)

(** A denial of existence is answered with the first NSEC record of the zone, if it
    does not come after the name, whatever the name: the record that covers the name
    is not looked for. *)
Theorem Authority_get_nsec_first a name is_secure algs :
  zone_ok a →
  Authority_get_nsec_records a name is_secure algs =
  match filter (λ s, rs_record_type s = RecordType.NSEC) (BTreeMap_values (a_records a)) with
  | s :: _ => if decide (cmp name (rs_name s) = Lt) then []
              else RecordSet_get_records s is_secure algs
  | [] => []
  end.
Proof.
  intros Hz. unfold Authority_get_nsec_records.
  assert (Hs : StronglySorted (λ s s', name_le (rs_name s) (rs_name s'))
                 (BTreeMap_values (a_records a))).
  { destruct Hz as [Ht He]. induction Ht as [|[k s] m Hs IH Hk]; simpl; [constructor|].
    apply Forall_cons in He as [[_ Hn _] He]. constructor; [by apply IH|]. apply Forall_fmap.
    rewrite Forall_forall in Hk, He |- *. intros [k' s'] Hin. destruct (He _ Hin) as [_ Hn' _].
    specialize (Hk _ Hin). apply key_before_name in Hk. simpl in *. unfold name_le in *.
    destruct Hk as [Hlt|Heq]; [left|right].
    - apply Name_eq_cmp in Hn, Hn'. by rewrite <-(cmp_eq_l _ _ _ Hn), <-(cmp_eq_r _ _ _ Hn').
    - apply (Name_eq_trans _ (rk_name k)); [by apply Name_eq_sym|].
      by apply (Name_eq_trans _ (rk_name k')). }
  apply (StronglySorted_filter _ (λ s, rs_record_type s = RecordType.NSEC)) in Hs.
  destruct (filter _ _) as [|s l]; [done|]. apply StronglySorted_inv in Hs as [_ Hs]. cbn [skip_while].
  destruct (decide (cmp name (rs_name s) = Lt)) as [Hlt|Hlt].
  - rewrite bool_decide_eq_true_2 by done. induction Hs as [|s' l Hs' _ IH]; [done|]. cbn [skip_while].
    rewrite bool_decide_eq_true_2; [done|]. destruct Hs' as [?|Heq]; [by eapply cmp_lt_trans|].
    apply Name_eq_cmp in Heq. by rewrite <-(cmp_eq_r _ _ _ Heq).
  - by rewrite bool_decide_eq_false_2.
Qed.
End nsec_zone.
