(* ===== verification/ZoneInstances.v ===== *)
(** * A concrete zone

    Instances of the properties of an authority on one small zone, with the external
    libraries instantiated by executable stand-ins, and two defects that show on it. *)

From S2P Require Import Prelude Codec Wire Domain Enums Header RData RDataProps Resource Message.
From S2P Require Import RecordSet KeyPair Signer Update BTree Journal Authority AuthorityProps ZoneSecurity.

Open Scope Z_scope.

#[local] Existing Instance ascii_lowercase.
#[local] Existing Instance list_hash_order.
#[local] Existing Instance toy_crypto.
#[local] Existing Instance list_sqlite.

Definition fixed_clock : Clock := {|
  UTC_now := 1488000000 * 10^9;
  DateTime_add t d := Some (t + d);
|}.
#[local] Existing Instance fixed_clock.

(** ** The zone *)

Definition ex_key_record : RRecord :=
  mkRecord ex_zone RecordType.KEY DNSClass.IN 60
    (RData.KEY (mkDNSKEY true true false Algorithm.RSASHA256 [3; 1; 0; 1; 187; 9])).
Definition ex_key_set : RecordSet :=
  mkRecordSet ex_zone RecordType.KEY DNSClass.IN 60 [ex_key_record] [] 7.

Definition ex_records : BTreeMap RrKey RecordSet :=
  [(RrKey_new ex_zone RecordType.A, ex_a_set); (RrKey_new ex_zone RecordType.SOA, ex_soa_set);
   (RrKey_new ex_zone RecordType.KEY, ex_key_set)].

Definition ex_auth : Authority := Authority_new ex_zone ex_records Master true false.

Lemma ex_key_set_ok : rset_ok ex_key_set.
Proof.
  split; simpl; [|by repeat constructor..|by intros [?|?]|done].
  by_decision.
Qed.

Lemma ex_auth_ok : zone_ok ex_auth.
Proof.
  split.
  - repeat (constructor; [|repeat constructor]). constructor.
  - repeat apply Forall_cons_2; try (by apply Forall_nil); split; simpl; try done;
      [exact ex_a_set_ok|exact ex_soa_set_ok|exact ex_key_set_ok].
Qed.

Lemma ex_auth_soa : soa_at ex_auth 10.
Proof.
  exists ex_soa_set. split; [reflexivity|].
  by exists (ex_soa_record 10), (mkSOA ex_zone ex_zone 10 1 2 3 4).
Qed.

(** An update that adds an address. *)
Definition ex_update_record : RRecord := ex_a 60 9.

Lemma ex_update_ok : Forall (updatable ex_auth) [ex_update_record].
Proof. apply Forall_singleton. split; [vm_compute; reflexivity|done]. Qed.

Definition ex_request : Message :=
  mkMessage (Header_op_code (Header_id Header_new 99) OpCode.Update)
    [mkQuery ex_zone RecordType.SOA DNSClass.IN] [] [ex_update_record] [] [] None.
Definition ex_update_signer : Signer :=
  Signer_new Algorithm.RSASHA256 (KeyPair.RSA toy_pkey) ex_zone 0 false true.
Definition ex_signed_request : Message :=
  match Message_sign ex_request ex_update_signer 1000 with Ok m => m | _ => Message_new end.

(** ** The properties on it *)

Lemma Authority_lookup_spec_witness :
  ex_a 5 2 ∈ Authority_lookup ex_auth (mkName [[65]]) RecordType.A false no_algorithms.
Proof.
  apply (Authority_lookup_spec ex_auth (mkName [[65]]) RecordType.A false no_algorithms (ex_a 5 2) ex_auth_ok).
  left. split; [|by vm_compute]. by_decision.
Defined.

Lemma Authority_axfr_spec_witness :
  let q := mkQuery ex_zone RecordType.AXFR DNSClass.IN in
  ∃ rest, Authority_search ex_auth q false no_algorithms = ex_soa_record 10 :: rest ++ [ex_soa_record 10] ∧
          ∀ r, r ∈ rest ↔ r ∈ zone_records ex_auth ∧ r_rr_type r ≠ RecordType.SOA.
Proof.
  exact (Authority_axfr_spec ex_auth (mkQuery ex_zone RecordType.AXFR DNSClass.IN) ex_auth_ok eq_refl).
Defined.

Lemma Authority_update_records_ok_witness :
  ∃ b m, Authority_update_records [ex_update_record] true ex_auth = (Ok b, with_records ex_auth m) ∧
         records_ok m.
Proof.
  destruct (Authority_update_records_ok ex_auth ex_auth [ex_update_record] 10 ex_auth_ok ex_auth_soa)
    as (b & m & H1 & H2 & _).
  - unfold u32_max. lia.
  - reflexivity.
  - exact ex_update_ok.
  - apply Forall_singleton. split; [by intros (? & _)|done].
  - reflexivity.
  - exists b, m. by split.
Defined.

Lemma Authority_delete_all_spec_witness :
  ∃ b m, update_record 10 ex_auth
           (mkRecord ex_zone RecordType.ANY DNSClass.ANY 0 (RData.NULL NULL_new)) =
         Ok (b, with_records ex_auth m) ∧
         BTreeMap_get (RrKey_new ex_zone RecordType.SOA) m = None.
Proof.
  destruct (Authority_delete_all_spec 10 ex_auth
    (mkRecord ex_zone RecordType.ANY DNSClass.ANY 0 (RData.NULL NULL_new))
    (RrKey_new ex_zone RecordType.SOA) ex_auth_ok eq_refl eq_refl) as (b & m & H1 & H2).
  - discriminate.
  - exists b, m. split; [exact H1|]. rewrite H2. vm_compute. reflexivity.
Defined.

Lemma Authority_update_authenticated_witness :
  authenticated ex_auth ex_signed_request.
Proof.
  destruct (Authority_update ex_signed_request ex_auth) as [r a'] eqn:Hu.
  apply (Authority_update_authenticated ex_auth ex_signed_request r a' ex_auth_ok Hu).
  intros ->. apply (f_equal (λ x, length (rs_records (default ex_soa_set
    (BTreeMap_get (RrKey_new ex_zone RecordType.A) (a_records x.2)))))) in Hu.
  vm_compute in Hu. discriminate.
Defined.


(** A prerequisite with one of the two records of a set is accepted, where RFC 2136 refuses it. *)
Example prerequisite_subset_accepted :
  Authority_verify_prerequisites ex_auth [ex_a 0 1] = Ok () ∧ ¬ rfc_prerequisites ex_auth [ex_a 0 1].
Proof.
  split; [vm_compute; reflexivity|]. intros [_ _ Hno].
  destruct (Hno (ex_a 0 1) (ex_a 5 2)) as (p' & ->%list_elem_of_singleton & _ & He).
  - by left.
  - by split.
  - split; [by_decision|by vm_compute].
  - vm_compute in He. discriminate.
Qed.

Definition ex_keyed_auth : Authority := with_secure_keys ex_auth [ex_update_signer].


Lemma Authority_get_nsec_first_witness :
  Authority_get_nsec_records ex_auth ex_zone false no_algorithms = [].
Proof. rewrite (Authority_get_nsec_first ex_auth ex_zone false no_algorithms ex_auth_ok). reflexivity. Defined.

(** ** Two defects *)

(** A SOA record without data, at a name below the zone. *)
Definition ex_empty_soa : RRecord :=
  mkRecord (mkName [[98]; [97]]) RecordType.SOA DNSClass.IN 0 (RData.NULL NULL_new).

(** A record of type SOA that carries no data passes the prescan and is stored; the
    next such record at the name makes the server panic. *)
Theorem Authority_empty_soa_panics :
  Authority_pre_scan ex_auth [ex_empty_soa; ex_empty_soa] = Ok () ∧
  (Authority_update_records [ex_empty_soa; ex_empty_soa] true ex_auth).1 = Panic.
Proof. split; vm_compute; reflexivity. Qed.

(** The zone with a journal, its records persisted, then updated. *)
Definition ex_persisted : Authority :=
  (Authority_persist_to_journal (Authority_journal ex_auth empty_journal)).2.
Definition ex_updated : res ResponseCode bool * Authority :=
  Authority_update_records [ex_update_record] true ex_persisted.
Definition ex_recovered : res persistence_error () * Authority :=
  Authority_recover_with_journal 20 (default empty_journal (a_journal ex_updated.2))
    (Authority_new ex_zone [] Master true false).

(** A zone recovered from its journal has the updated records but not the serial the
    update gave it: the increment is not journalled, so after a restart the zone goes
    back to an older serial. *)
Theorem Authority_recovery_loses_serial :
  ex_updated.1 = Ok true ∧ ex_recovered.1 = Ok () ∧
  Authority_lookup ex_recovered.2 ex_zone RecordType.A false no_algorithms =
    Authority_lookup ex_updated.2 ex_zone RecordType.A false no_algorithms ∧
  Authority_get_serial (E:=()) ex_updated.2 = Ok 11 ∧
  Authority_get_serial (E:=()) ex_recovered.2 = Ok 10.
Proof. split_and!; vm_compute; reflexivity. Qed.
