(* ===== verification/Catalog.v ===== *)
(** * The catalog of zones

    Models [server/src/authority/catalog.rs]: the request handler of the server, which
    finds the zone of a request and answers a query from it or applies an update to
    it.  Each zone is behind a lock, which a panic of a writer poisons. *)

From S2P Require Import Prelude Codec Wire Domain Enums Header RData RDataProps Resource Message.
From S2P Require Import RecordSet KeyPair Signer Update BTree Journal Authority AuthorityProps.

Open Scope Z_scope.

(** ** Locks *)

Record RwLock (A : Type) : Type := mkRwLock { l_value : A; l_poisoned : bool }.
Arguments mkRwLock {A}.
Arguments l_value {A}.
Arguments l_poisoned {A}.

Definition RwLock_new {A} (a : A) : RwLock A := mkRwLock a false.

(** [lock.read().unwrap()] *)
Definition RwLock_read {A E} (lock : RwLock A) : res E A :=
  if l_poisoned lock then Panic else Ok (l_value lock).

(** A call under [lock.write().unwrap()]: a panic while the lock is held poisons it. *)
Definition RwLock_with_write {A E B} (m : M A E B) : M (RwLock A) E B := λ lock,
  if l_poisoned lock then (Panic, lock)
  else
    let '(r, a) := m (l_value lock) in
    (r, mkRwLock a (match r with Panic => true | _ => false end)).

(** ** The catalog *)

(** The hash map finds a zone by the name's lowercased labels, as [Hash] and [Eq] of
    [Name] do. *)
Record Catalog `{Crypto} `{Sqlite} : Type := mkCatalog {
  c_authorities : gmap (list label) (RwLock Authority);
}.

Section catalog.
Context `{L : Lowercase} `{HO : HashOrder} `{C : Crypto} `{SQ : Sqlite} `{CK : Clock}.

Definition map_key (name : Name) : list label := to_lowercase <$> labels name.

Definition Catalog_new : Catalog := mkCatalog _ _ ∅.

Definition Catalog_upsert (self : Catalog) (name : Name) (authority : Authority) : Catalog :=
  mkCatalog _ _ (<[map_key name := RwLock_new authority]> (c_authorities self)).

(** The recursion of [find_auth_recurse], which gives the name of the zone it finds
    with it; each call drops a label. *)
Fixpoint find_auth_loop (fuel : nat) (self : Catalog) (name : Name) :
    option (Name * RwLock Authority) :=
  match fuel with
  | O => None
  | S fuel =>
      match c_authorities self !! map_key name with
      | Some authority => Some (name, authority)
      | None =>
          let name := Name_base_name name in
          if negb (Name_is_root name) then find_auth_loop fuel self name else None
      end
  end.
Definition Catalog_find_auth_recurse (self : Catalog) (name : Name) :
    option (Name * RwLock Authority) :=
  find_auth_loop (S (length (labels name))) self name.

(** ** Updates *)

Definition Catalog_update {E} (update : Message) : M Catalog E Message := λ self,
  let response := Message_new in
  let response := Message_id response (h_id (m_header update)) in
  let response := Message_op_code response OpCode.Update in
  let response := Message_message_type response MessageType.Response in
  match get_zones update with
  | [zone] =>
      if negb (bool_decide (q_query_type zone = RecordType.SOA)) then
        (Ok (Message_response_code response ResponseCode.FormErr), self)
      else
        match Catalog_find_auth_recurse self (q_name zone) with
        | Some (name, lock) =>
            if l_poisoned lock then (Panic, self)
            else
              match a_zone_type (l_value lock) with
              | Slave => (Ok (Message_response_code response ResponseCode.NotImp), self)
              | Master =>
                  let '(r, lock) := RwLock_with_write (Authority_update update) lock in
                  let self := mkCatalog _ _ (<[map_key name := lock]> (c_authorities self)) in
                  (match r with
                   | Ok _ => Ok (Message_response_code response ResponseCode.NoError)
                   | Err response_code => Ok (Message_response_code response response_code)
                   | Panic => Panic
                   | Diverge => Diverge
                   end, self)
              | _ => (Ok (Message_response_code response ResponseCode.NotAuth), self)
              end
        | None => (Ok (Message_response_code response ResponseCode.NXDomain), self)
        end
  | _ => (Ok (Message_response_code response ResponseCode.FormErr), self)
  end.

(** ** Queries *)

(** Whether the client wants signatures, and the algorithms it understands. *)
Definition dnssec_request (request : Message) : bool * SupportedAlgorithms :=
  match m_edns request with
  | None => (false, SupportedAlgorithms_new)
  | Some edns =>
      let supported_algorithms :=
        match Edns_get_option edns EdnsCode.DAU with
        | Some (EdnsOption.DAU algs) => algs
        | _ => SupportedAlgorithms_default
        end in
      (e_dnssec_ok edns, supported_algorithms)
  end.

(** The response after one query was answered from its zone. *)
Definition answer_query (authority : Authority) (request : Message) (query : Query)
    (response : Message) : Message :=
  let '(is_dnssec, supported_algorithms) := dnssec_request request in
  let records := Authority_search authority query is_dnssec supported_algorithms in
  if negb (bool_decide (records = [])) then
    let response := Message_response_code response ResponseCode.NoError in
    let response := Message_authoritative response true in
    let response := Message_add_answers response records in
    let ns := Authority_get_ns authority is_dnssec supported_algorithms in
    if bool_decide (ns = []) then response else Message_add_name_servers response ns
  else
    let response :=
      if (is_dnssec : bool) then
        Message_add_name_servers response
          (Authority_get_nsec_records authority (q_name query) is_dnssec supported_algorithms)
      else response in
    let response := Message_response_code response ResponseCode.NXDomain in
    let soa := Authority_get_soa_secure authority is_dnssec supported_algorithms in
    if bool_decide (soa = []) then response else Message_add_name_servers response soa.

Fixpoint lookup_queries {E} (self : Catalog) (request : Message) (queries : list Query)
    (response : Message) : res E Message :=
  match queries with
  | [] => Ok response
  | query :: queries =>
      match Catalog_find_auth_recurse self (q_name query) with
      | Some (_, ref_authority) =>
          try* authority := RwLock_read ref_authority in
          lookup_queries self request queries (answer_query authority request query response)
      | None =>
          lookup_queries self request queries (Message_response_code response ResponseCode.NXDomain)
      end
  end.

Definition Catalog_lookup {E} (self : Catalog) (request : Message) : res E Message :=
  let response := Message_new in
  let response := Message_id response (h_id (m_header request)) in
  let response := Message_op_code response OpCode.Query in
  let response := Message_message_type response MessageType.Response in
  let response := Message_add_queries response (m_queries request) in
  lookup_queries self request (m_queries request) response.

(** ** The handler *)

(** The EDNS part of the response, and whether the request's version is too new. *)
Definition response_edns (req_edns : Edns) : Edns :=
  let resp_edns := Edns_new in
  let resp_edns := Edns_set_dnssec_ok resp_edns true in
  let resp_edns :=
    Edns_set_max_payload resp_edns
      (if e_max_payload req_edns <? 512 then 512 else e_max_payload req_edns) in
  Edns_set_version resp_edns 0.

Definition server_algorithms : SupportedAlgorithms :=
  let algorithms := SupportedAlgorithms_new in
  let algorithms := SupportedAlgorithms_set algorithms Algorithm.RSASHA256 in
  let algorithms := SupportedAlgorithms_set algorithms Algorithm.ECDSAP256SHA256 in
  let algorithms := SupportedAlgorithms_set algorithms Algorithm.ECDSAP384SHA384 in
  SupportedAlgorithms_set algorithms Algorithm.ED25519.

Definition finish_response (resp_edns_opt : option Edns) (response : Message) : Message :=
  match resp_edns_opt with
  | None => response
  | Some resp_edns =>
      let resp_edns := Edns_set_option resp_edns (EdnsOption.DAU server_algorithms) in
      let resp_edns := Edns_set_option resp_edns (EdnsOption.DHU server_algorithms) in
      Message_set_edns response resp_edns
  end.

(** The match on the kind of the request. *)
Definition dispatch_request {E} (request : Message) : M Catalog E Message := λ self,
  let id := h_id (m_header request) in
  let op_code := h_op_code (m_header request) in
  match h_message_type (m_header request) with
  | MessageType.Query =>
      match op_code with
      | OpCode.Query => (Catalog_lookup self request, self)
      | OpCode.Update => Catalog_update request self
      | _ => (Ok (Message_error_msg id op_code ResponseCode.NotImp), self)
      end
  | MessageType.Response => (Ok (Message_error_msg id op_code ResponseCode.NotImp), self)
  end.

Definition Catalog_handle_request {E} (request : Message) : M Catalog E Message :=
  match m_edns request with
  | Some req_edns =>
      let response := Message_id Message_new (h_id (m_header request)) in
      let resp_edns := response_edns req_edns in
      if 0 <? e_version req_edns then
        let response := Message_response_code response ResponseCode.BADVERS in
        ret (Message_set_edns response resp_edns)
      else
        let* response := dispatch_request request in
        ret (finish_response (Some resp_edns) response)
  | None =>
      let* response := dispatch_request request in
      ret (finish_response None response)
  end.
End catalog.
