(* ===== verification/CatalogProps.v ===== *)
(** * The properties of the request handler

    Which zone a request is for, what a query is answered with, what may change a
    zone, and what a panic leaves behind. *)

From S2P Require Import Prelude Codec Wire Domain Enums Header RData RDataProps Resource Message.
From S2P Require Import RecordSet KeyPair Signer Update BTree Journal Authority AuthorityProps.
From S2P Require Import ZoneSecurity ZoneInstances Catalog.

Open Scope Z_scope.

Section catalog_props.
Context `{L : Lowercase} `{HO : HashOrder} `{C : Crypto} `{SQ : Sqlite} `{CK : Clock}.

(** ** Finding the zone *)

(** The name without its first labels. *)
Definition suffix (name : Name) (i : nat) : Name := mkName (drop i (labels name)).

Lemma Name_base_name_suffix name : Name_base_name name = suffix name 1.
Proof.
  unfold Name_base_name, Name_trim_to, suffix. destruct name as [[|l ls]]; [done|].
  cbn [labels length]. rewrite !decide_True by lia. do 2 f_equal. lia.
Qed.

(** A suffix [find_auth_recurse] looks at: the name itself, or one that is not the root. *)
Definition tried (name : Name) (i : nat) : Prop := i = 0%nat ∨ (i < length (labels name))%nat.

Definition zone_at (c : Catalog) (name : Name) : option (RwLock Authority) :=
  c_authorities c !! map_key name.

Lemma suffix_suffix name i j : suffix (suffix name i) j = suffix name (i + j).
Proof. unfold suffix. simpl. by rewrite drop_drop. Qed.

Lemma find_auth_loop_spec c fuel : ∀ name,
  (length (labels name) < fuel)%nat →
  match find_auth_loop fuel c name with
  | Some (n, lock) => ∃ i, tried name i ∧ n = suffix name i ∧ zone_at c n = Some lock ∧
                           ∀ j, (j < i)%nat → zone_at c (suffix name j) = None
  | None => ∀ i, tried name i → zone_at c (suffix name i) = None
  end.
Proof.
  assert (H0 : ∀ name, suffix name 0 = name) by (by intros []).
  induction fuel as [|fuel IH]; intros name Hf; [lia|]. cbn [find_auth_loop].
  destruct (c_authorities c !! map_key name) as [lock|] eqn:Hg.
  { exists 0%nat. split_and!; [by left|by rewrite H0|done|lia]. }
  rewrite Name_base_name_suffix. unfold Name_is_root.
  destruct (decide (labels (suffix name 1) = [])) as [Hr|Hr].
  - rewrite bool_decide_eq_true_2 by done. cbn [negb]. intros i Hi.
    assert (i = 0%nat) as ->; [|by rewrite H0].
    destruct Hi as [?|Hi]; [done|]. simpl in Hr. apply (f_equal length) in Hr.
    rewrite length_drop in Hr. simpl in Hr. lia.
  - rewrite bool_decide_eq_false_2 by done. cbn [negb].
    assert (Hlen : (0 < length (labels (suffix name 1)))%nat).
    { destruct (labels (suffix name 1)); [done|simpl; lia]. }
    simpl in Hlen. rewrite length_drop in Hlen.
    specialize (IH (suffix name 1)). simpl in IH. rewrite length_drop in IH. specialize (IH ltac:(lia)).
    assert (Htried : ∀ i, tried (suffix name 1) i → tried name (S i)).
    { intros i. unfold tried. simpl. rewrite length_drop. lia. }
    destruct (find_auth_loop fuel c (suffix name 1)) as [[n lock]|].
    + destruct IH as (i & Hi & -> & Hz & Hmin). exists (S i).
      split_and!; [by apply Htried|by rewrite suffix_suffix|done|].
      intros [|j] Hj; [by rewrite H0|]. specialize (Hmin j ltac:(lia)). by rewrite suffix_suffix in Hmin.
    + intros [|i] Hi; [by rewrite H0|]. specialize (IH i). rewrite suffix_suffix in IH. apply IH.
      unfold tried in *. simpl. rewrite length_drop. lia.
Qed.

(** A request is given to the most specific zone: the one at the longest suffix of
    the name that has a zone, the root excepted; and to no zone when no such suffix
    has one. *)
Theorem Catalog_find_auth_spec c name :
  match Catalog_find_auth_recurse c name with
  | Some (n, lock) => ∃ i, tried name i ∧ n = suffix name i ∧ zone_at c n = Some lock ∧
                           ∀ j, (j < i)%nat → zone_at c (suffix name j) = None
  | None => ∀ i, tried name i → zone_at c (suffix name i) = None
  end.
Proof. apply find_auth_loop_spec. lia. Qed.

Lemma find_auth_at c name n lock :
  Catalog_find_auth_recurse c name = Some (n, lock) → zone_at c n = Some lock.
Proof.
  intros Hf. pose proof (find_auth_loop_spec c (S (length (labels name))) name ltac:(lia)) as Hs.
  unfold Catalog_find_auth_recurse in Hf. rewrite Hf in Hs. by destruct Hs as (i & _ & _ & ? & _).
Qed.

(** ** Queries *)

Definition unpoisoned (c : Catalog) : Prop :=
  map_Forall (λ _ lock, l_poisoned lock = false) (c_authorities c).

Lemma answer_query_frame a request q m :
  let m' := answer_query a request q m in
  h_id (m_header m') = h_id (m_header m) ∧ h_message_type (m_header m') = h_message_type (m_header m) ∧
  m_queries m' = m_queries m ∧ (h_response_code (m_header m') = 0 ∨ h_response_code (m_header m') = 3).
Proof.
  unfold answer_query. destruct (dnssec_request request) as [d algs].
  destruct (negb _); [|destruct d]; case_match; rewrite ?add_name_servers_eq, ?add_answers_eq; simpl;
    split_and!; try done; auto.
Qed.

Lemma lookup_queries_total {E} c request qs : ∀ response,
  unpoisoned c → ∃ m, lookup_queries (E:=E) c request qs response = Ok m ∧
    h_id (m_header m) = h_id (m_header response) ∧ h_message_type (m_header m) = h_message_type (m_header response) ∧
    m_queries m = m_queries response ∧
    (h_response_code (m_header response) = 0 ∨ h_response_code (m_header response) = 3 →
     h_response_code (m_header m) = 0 ∨ h_response_code (m_header m) = 3).
Proof.
  induction qs as [|q qs IH]; intros response Hu; [by eexists|]. cbn [lookup_queries].
  destruct (Catalog_find_auth_recurse c (q_name q)) as [[n lock]|] eqn:Hf.
  - apply find_auth_at in Hf. unfold RwLock_read. rewrite (Hu _ _ Hf). cbn [rbind].
    destruct (answer_query_frame (l_value lock) request q response) as (Hi & Ht & Hq & Hc).
    destruct (IH (answer_query (l_value lock) request q response) Hu) as (m & -> & H1 & H2 & H3 & H4).
    exists m. split_and!; [done|congruence..|auto].
  - destruct (IH (Message_response_code response ResponseCode.NXDomain) Hu) as (m & -> & H1 & H2 & H3 & H4).
    exists m. split_and!; try done. intros _. apply H4. by right.
Qed.

(** A request that is answered from the zones: a query with a version of EDNS the server knows. *)
Definition is_lookup (request : Message) : bool :=
  bool_decide (h_message_type (m_header request) = MessageType.Query) &&
  bool_decide (h_op_code (m_header request) = OpCode.Query).
Definition newer_edns (request : Message) : bool :=
  match m_edns request with Some edns => 0 <? e_version edns | None => false end.

Lemma query_total {E} request c :
  unpoisoned c →
  h_op_code (m_header request) ≠ OpCode.Update ∨ h_message_type (m_header request) = MessageType.Response →
  ∃ response, Catalog_handle_request (E:=E) request c = (Ok response, c) ∧
    h_id (m_header response) = h_id (m_header request) ∧
    if newer_edns request then
      h_message_type (m_header response) = MessageType.Query ∧ m_queries response = [] ∧ m_answers response = [] ∧
      is_Some (m_edns response)
    else
      h_message_type (m_header response) = MessageType.Response ∧
      if is_lookup request then
        m_queries response = m_queries request ∧
        (h_response_code (m_header response) = 0 ∨ h_response_code (m_header response) = 3)
      else m_queries response = [] ∧ m_answers response = [] ∧ h_response_code (m_header response) = 4.
Proof.
  intros Hu Hop. unfold Catalog_handle_request, newer_edns.
  assert (Hd : ∃ m, dispatch_request (E:=E) request c = (Ok m, c) ∧ h_id (m_header m) = h_id (m_header request) ∧
    h_message_type (m_header m) = MessageType.Response ∧
    if is_lookup request then m_queries m = m_queries request ∧
      (h_response_code (m_header m) = 0 ∨ h_response_code (m_header m) = 3)
    else m_queries m = [] ∧ m_answers m = [] ∧ h_response_code (m_header m) = 4).
  { unfold dispatch_request, is_lookup.
    destruct (h_message_type (m_header request)); [|by eexists].
    destruct (h_op_code (m_header request)); try (by eexists).
    - unfold Catalog_lookup. edestruct (lookup_queries_total (E:=E) c request) as (m & -> & H1 & H2 & H3 & H4); [done|].
      exists m. rewrite add_queries_eq in H1, H2, H3, H4. split; [done|]. rewrite H1, H2, H3.
      rewrite !bool_decide_eq_true_2 by done. cbn [andb]. split_and!; try done. apply H4. by left.
    - by destruct Hop. }
  destruct Hd as (m & Hd & H1 & H2 & H3).
  destruct (m_edns request) as [edns|]; [destruct (0 <? e_version edns)|]; unfold bind; rewrite ?Hd;
    eexists; (split; [reflexivity|]); by split_and!.
Qed.

(** C28: The handler answers every request that was decoded and is not an update, as
    long as no lock is poisoned, without a panic and without changing a zone. The
    response has the request's id. A query is given back with its questions and the code
    NoError or NXDomain, and what is not a query with the code NotImp, both marked as
    responses; a request with a newer version of EDNS is given an empty message with
    EDNS data, not marked as a response. Decoding the request and encoding the response
    are not part of this claim, and can fail. *)
Theorem Catalog_query_total {E} request c :
  unpoisoned c →
  h_op_code (m_header request) ≠ OpCode.Update ∨ h_message_type (m_header request) = MessageType.Response →
  ∃ response, Catalog_handle_request (E:=E) request c = (Ok response, c) ∧
    h_id (m_header response) = h_id (m_header request) ∧
    if newer_edns request then
      h_message_type (m_header response) = MessageType.Query ∧ m_queries response = [] ∧ m_answers response = [] ∧
      is_Some (m_edns response)
    else
      h_message_type (m_header response) = MessageType.Response ∧
      if is_lookup request then
        m_queries response = m_queries request ∧
        (h_response_code (m_header response) = 0 ∨ h_response_code (m_header response) = 3)
      else m_queries response = [] ∧ m_answers response = [] ∧ h_response_code (m_header response) = 4.
Proof. apply query_total. Qed.

(** ** What a request may change *)

(** An update of the catalog replaces the lock of one zone, by what the update of its
    authority left. *)
Lemma Catalog_update_inv {E} request c r c' :
  Catalog_update (E:=E) request c = (r, c') →
  c' = c ∨
  ∃ name lock r' a, zone_at c name = Some lock ∧ a_zone_type (l_value lock) = Master ∧
    Authority_update request (l_value lock) = (r', a) ∧
    c' = mkCatalog _ _ (<[map_key name := mkRwLock a (match r' with Panic => true | _ => false end)]>
                          (c_authorities c)) ∧
    (r' = Panic → r = Panic).
Proof.
  unfold Catalog_update.
  destruct (get_zones request) as [|q [|q' qs]]; try (intros [= _ <-]; by left).
  destruct (bool_decide (q_query_type q = RecordType.SOA)); [|intros [= _ <-]; by left]. cbn [negb].
  destruct (Catalog_find_auth_recurse c (q_name q)) as [[n lock]|] eqn:Hf; [|intros [= _ <-]; by left].
  apply find_auth_at in Hf. unfold RwLock_with_write.
  destruct (l_poisoned lock) eqn:Hp; [intros [= _ <-]; by left|].
  destruct (a_zone_type (l_value lock)) eqn:Ht; try (intros [= _ <-]; by left).
  destruct (Authority_update request (l_value lock)) as [r' a] eqn:Hu.
  intros [= <- <-]. right. exists n, lock, r', a. split_and!; [done..|]. by intros ->.
Qed.

Lemma handle_request_inv {E} request c r c' :
  Catalog_handle_request (E:=E) request c = (r, c') →
  c' = c ∨ h_op_code (m_header request) = OpCode.Update ∧
           h_message_type (m_header request) = MessageType.Query ∧
           ∃ r', Catalog_update (E:=E) request c = (r', c') ∧ (r' = Panic → r = Panic).
Proof.
  assert (Hd : ∀ f : Message → Message,
    (let* response := dispatch_request (E:=E) request in ret (f response)) c = (r, c') →
    c' = c ∨ h_op_code (m_header request) = OpCode.Update ∧
           h_message_type (m_header request) = MessageType.Query ∧
           ∃ r', Catalog_update (E:=E) request c = (r', c') ∧ (r' = Panic → r = Panic)).
  { intros f. unfold bind, dispatch_request.
    destruct (h_message_type (m_header request)); [|intros [= _ <-]; by left].
    destruct (h_op_code (m_header request)); try (intros [= _ <-]; by left).
    - destruct (Catalog_lookup c request); intros [= _ <-]; by left.
    - destruct (Catalog_update request c) as [[]  c1]; intros [= <- <-]; right; split_and!; try done;
        eexists; by split. }
  unfold Catalog_handle_request. destruct (m_edns request) as [edns|]; [|apply Hd].
  destruct (0 <? e_version edns); [intros [= _ <-]; by left|apply Hd].
Qed.

(** C2: Only an authenticated update changes a zone: after any request, whether it is
    answered or makes the server panic, every zone is as it was, or is a master that
    allows updates and the request carries a signature by a key published in it. *)
Theorem Catalog_change_authenticated {E} request c r c' key lock' :
  map_Forall (λ _ lock, zone_ok (l_value lock)) (c_authorities c) →
  Catalog_handle_request (E:=E) request c = (r, c') → c_authorities c' !! key = Some lock' →
  ∃ lock, c_authorities c !! key = Some lock ∧
    (l_value lock' = l_value lock ∨
     a_zone_type (l_value lock) = Master ∧ a_allow_update (l_value lock) = true ∧
     authenticated (l_value lock) request).
Proof.
  intros Hz Hh Hkey.
  destruct (handle_request_inv _ _ _ _ Hh) as [->|(_ & _ & r' & Hu & _)]; [by exists lock'; auto|].
  destruct (Catalog_update_inv _ _ _ _ Hu) as [->|(n & lock & r1 & a & Hn & Ht & Hup & -> & _)];
    [by exists lock'; auto|].
  simpl in Hkey. destruct (decide (key = map_key n)) as [->|Hne].
  - rewrite lookup_insert_eq in Hkey. injection Hkey as <-. exists lock. split; [done|].
    specialize (Hz _ _ Hn). destruct (update_guarded _ _ _ _ Hz Hup) as [->|(? & ? & _)]; [by left|].
    right. by split_and!.
  - rewrite lookup_insert_ne in Hkey by done. exists lock'. auto.
Qed.

(** ** What a query is answered with *)

(** The parts of a response a query decides. *)
Record answered (a : Authority) (q : Query) (m m' : Message) : Prop := {
  an_answers : m_answers m' =
    m_answers m ++ Authority_lookup a (q_name q) (q_query_type q) false no_algorithms;
  an_queries : m_queries m' = m_queries m;
  an_id : h_id (m_header m') = h_id (m_header m);
  an_type : h_message_type (m_header m') = h_message_type (m_header m);
  an_rcode : h_response_code (m_header m') =
    if decide (Authority_lookup a (q_name q) (q_query_type q) false no_algorithms = [])
    then 3 else 0;
  an_edns : m_edns m' = m_edns m;
}.

Lemma answer_query_answered a request q m :
  m_edns request = None → q_query_type q ≠ RecordType.AXFR →
  answered a q m (answer_query a request q m).
Proof.
  intros He Hq. unfold answer_query, dnssec_request. rewrite He. unfold Authority_search.
  rewrite (bool_decide_eq_false_2 (q_query_type q = RecordType.AXFR)) by done. cbn [andb].
  rewrite decide_False by done.
  set (rs := Authority_lookup a (q_name q) (q_query_type q) false SupportedAlgorithms_new).
  assert (Hlk : Authority_lookup a (q_name q) (q_query_type q) false no_algorithms = rs) by done.
  destruct (decide (rs = [])) as [Hrs|Hrs].
  - rewrite bool_decide_eq_true_2 by done. cbn [negb].
    case_match; rewrite ?add_name_servers_eq; split; simpl; rewrite ?Hlk, ?Hrs, ?app_nil_r; done.
  - rewrite bool_decide_eq_false_2 by done. cbn [negb].
    case_match; rewrite ?add_name_servers_eq, ?add_answers_eq; split; simpl; rewrite ?Hlk; try done;
      by rewrite decide_False.
Qed.

Lemma query_answer {E} request c q n lock :
  m_edns request = None → h_message_type (m_header request) = MessageType.Query →
  h_op_code (m_header request) = OpCode.Query → m_queries request = [q] →
  q_query_type q ≠ RecordType.AXFR →
  Catalog_find_auth_recurse c (q_name q) = Some (n, lock) → l_poisoned lock = false →
  zone_ok (l_value lock) →
  ∃ response, Catalog_handle_request (E:=E) request c = (Ok response, c) ∧
    h_id (m_header response) = h_id (m_header request) ∧
    h_message_type (m_header response) = MessageType.Response ∧
    m_queries response = [q] ∧
    (∀ r, r ∈ m_answers response ↔
          r ∈ zone_records (l_value lock) ∧ answers (l_value lock) (q_name q) (q_query_type q) r) ∧
    (h_response_code (m_header response) = 3 ↔ m_answers response = []) ∧
    (h_response_code (m_header response) = 0 ↔ m_answers response ≠ []).
Proof.
  intros He Ht Hop Hqs Haxfr Hf Hp Hz. unfold Catalog_handle_request, bind, dispatch_request.
  rewrite He, Ht, Hop. unfold Catalog_lookup. rewrite Hqs. cbn [lookup_queries]. rewrite Hf.
  unfold RwLock_read. rewrite Hp. cbn [rbind]. eexists. split; [reflexivity|]. cbn [finish_response].
  match goal with |- context [answer_query ?a ?req ?q ?m] =>
    destruct (answer_query_answered a req q m He Haxfr) as [Ha Hq Hid Hty Hrc _] end.
  rewrite Hid, Hty, Hq, Hrc, Ha. simpl. split_and!; [done..| | |].
  - intros r. apply lookup_spec. done.
  - case_decide; [by split|]. by split.
  - case_decide; [by split|]. by split.
Qed.

(** C11: What a query without EDNS is answered, for any type but AXFR, from its closest
    zone, which is well formed and not poisoned: the response repeats the identifier and
    the question, and its answer section is exactly the set of records of the zone that
    match the question. Its code is NoError when there are some and [NXDomain] when
    there are none: also when the name has records of other types, for which the
    documentation of the code, "the domain name does not exist", does not hold. *)
Theorem Catalog_query_answer {E} request c q n lock :
  m_edns request = None → h_message_type (m_header request) = MessageType.Query →
  h_op_code (m_header request) = OpCode.Query → m_queries request = [q] →
  q_query_type q ≠ RecordType.AXFR →
  Catalog_find_auth_recurse c (q_name q) = Some (n, lock) → l_poisoned lock = false →
  zone_ok (l_value lock) →
  ∃ response, Catalog_handle_request (E:=E) request c = (Ok response, c) ∧
    h_id (m_header response) = h_id (m_header request) ∧
    h_message_type (m_header response) = MessageType.Response ∧
    m_queries response = [q] ∧
    (∀ r, r ∈ m_answers response ↔
          r ∈ zone_records (l_value lock) ∧ answers (l_value lock) (q_name q) (q_query_type q) r) ∧
    (h_response_code (m_header response) = 3 ↔ m_answers response = []) ∧
    (h_response_code (m_header response) = 0 ↔ m_answers response ≠ []).
Proof. apply query_answer. Qed.

(** ** What a panic leaves behind *)

(** The search for a zone is about the names of the zones. *)
Lemma find_auth_loop_insert c key lock name fuel : is_Some (c_authorities c !! key) →
  find_auth_loop fuel (mkCatalog _ _ (<[key := lock]> (c_authorities c))) name =
  (λ x, (x.1, if decide (map_key x.1 = key) then lock else x.2)) <$> find_auth_loop fuel c name.
Proof.
  intros Hk. revert name. induction fuel as [|fuel IH]; intros name; [done|]. cbn [find_auth_loop c_authorities].
  destruct (decide (map_key name = key)) as [<-|Hne].
  - rewrite lookup_insert_eq. destruct Hk as [l ->]. simpl. by rewrite decide_True.
  - rewrite lookup_insert_ne by done. destruct (c_authorities c !! map_key name); simpl; [by rewrite decide_False|].
    destruct (negb (Name_is_root (Name_base_name name))); [apply IH|done].
Qed.

(** A query for one name depends on the zone that is found for it, and on nothing else. *)
Lemma lookup_one {E} request c c' q : is_lookup request = true → m_queries request = [q] →
  (snd <$> Catalog_find_auth_recurse c (q_name q)) = (snd <$> Catalog_find_auth_recurse c' (q_name q)) →
  (Catalog_handle_request (E:=E) request c).1 = (Catalog_handle_request (E:=E) request c').1.
Proof.
  intros [Ht%bool_decide_eq_true Hop%bool_decide_eq_true]%andb_true_iff Hqs Hf.
  assert (Hl : Catalog_lookup (E:=E) c request = Catalog_lookup c' request).
  { unfold Catalog_lookup. rewrite Hqs. cbn [lookup_queries].
    destruct (Catalog_find_auth_recurse c (q_name q)) as [[n l]|], (Catalog_find_auth_recurse c' (q_name q)) as [[n' l']|];
      by simplify_eq/=. }
  unfold Catalog_handle_request. destruct (m_edns request) as [edns|]; [destruct (0 <? _); [done|]|];
    unfold bind, dispatch_request; rewrite Ht, Hop, Hl; by destruct (Catalog_lookup c' request).
Qed.

(** A query for a zone whose lock is poisoned panics. *)
Lemma lookup_poisoned {E} request c q n lock : is_lookup request = true → newer_edns request = false →
  m_queries request = [q] → Catalog_find_auth_recurse c (q_name q) = Some (n, lock) → l_poisoned lock = true →
  (Catalog_handle_request (E:=E) request c).1 = Panic.
Proof.
  intros [Ht%bool_decide_eq_true Hop%bool_decide_eq_true]%andb_true_iff Hnew Hqs Hf Hp.
  unfold newer_edns in Hnew. unfold Catalog_handle_request.
  destruct (m_edns request) as [edns|]; [rewrite Hnew|]; unfold bind, dispatch_request, Catalog_lookup;
    rewrite Ht, Hop, Hqs; cbn [lookup_queries]; rewrite Hf; unfold RwLock_read; by rewrite Hp.
Qed.

End catalog_props.

(** ** Instances *)

#[local] Existing Instance ascii_lowercase.
#[local] Existing Instance list_hash_order.
#[local] Existing Instance toy_crypto.
#[local] Existing Instance list_sqlite.
#[local] Existing Instance fixed_clock.

Definition ex_catalog : Catalog := Catalog_upsert Catalog_new ex_zone ex_auth.
Definition ex_query : Query := mkQuery ex_zone RecordType.A DNSClass.IN.
Definition ex_question : Message := Message_add_query (Message_id Message_new 3) ex_query.

(** An update request as it arrives: a zone section for [a.], an NSEC record whose bit map
    has the window 0 twice, NSEC before A, and a SIG(0) record with a worthless signature
    that names [a.] as its signer. *)
Definition ex_hostile : bytes :=
  [0; 1; 40; 0; 0; 1; 0; 0; 0; 1; 0; 1;
   1; 97; 0; 0; 6; 0; 1;
   1; 97; 0; 0; 47; 0; 1; 0; 0; 0; 0; 0; 14; 1; 97; 0; 0; 6; 0; 0; 0; 0; 0; 1; 0; 1; 64;
   0; 0; 24; 0; 255; 0; 0; 0; 0; 0; 22;
   0; 0; 8; 0; 0; 0; 0; 0; 0; 0; 0; 0; 0; 0; 0; 0; 0; 0; 1; 97; 0; 7].

Definition ex_hostile_request : Message :=
  match Message_from_vec ex_hostile with Ok m => m | _ => Message_new end.

Lemma ex_catalog_unpoisoned : unpoisoned ex_catalog.
Proof. apply map_Forall_insert_2; [done|]. apply map_Forall_empty. Qed.

Lemma ex_catalog_ok : map_Forall (λ _ lock, zone_ok (l_value lock)) (c_authorities ex_catalog).
Proof. apply map_Forall_insert_2; [exact ex_auth_ok|]. apply map_Forall_empty. Qed.

Lemma Catalog_query_total_witness :
  ∃ response, Catalog_handle_request (E:=()) ex_question ex_catalog = (Ok response, ex_catalog).
Proof.
  destruct (Catalog_query_total (E:=()) ex_question ex_catalog ex_catalog_unpoisoned) as (response & H & _).
  - left. discriminate.
  - exists response. exact H.
Defined.

Lemma Catalog_change_authenticated_witness :
  ∃ r c' lock', Catalog_handle_request (E:=()) ex_signed_request ex_catalog = (r, c') ∧
    c_authorities c' !! map_key ex_zone = Some lock' ∧ l_value lock' ≠ ex_auth ∧
    authenticated ex_auth ex_signed_request.
Proof.
  destruct (Catalog_handle_request (E:=()) ex_signed_request ex_catalog) as [r c'] eqn:Hh.
  destruct (c_authorities c' !! map_key ex_zone) as [lock'|] eqn:Hk.
  2: { exfalso. apply (f_equal (λ x, bool_decide (is_Some (c_authorities x.2 !! map_key ex_zone)))) in Hh.
       cbn [snd] in Hh. rewrite Hk in Hh. vm_compute in Hh. discriminate. }
  exists r, c', lock'.
  assert (Hne : l_value lock' ≠ ex_auth).
  { intros Heq.
    apply (f_equal (λ x, length ∘ rs_records <$> (c_authorities x.2 !! map_key ex_zone ≫= λ l,
      BTreeMap_get (RrKey_new ex_zone RecordType.A) (a_records (l_value l))))) in Hh.
    cbn [snd] in Hh. rewrite Hk in Hh. cbn [mbind option_bind] in Hh. rewrite Heq in Hh.
    vm_compute in Hh. discriminate. }
  split; [done|]. split; [done|]. split; [done|].
  destruct (Catalog_change_authenticated (E:=()) ex_signed_request ex_catalog r c' _ lock'
    ex_catalog_ok Hh Hk) as (lock & Hl & Hor).
  unfold ex_catalog, Catalog_upsert in Hl. cbn [c_authorities] in Hl. rewrite lookup_insert_eq in Hl.
  injection Hl as <-. destruct Hor as [Heq|(_ & _ & Hauth)]; [destruct (Hne Heq)|exact Hauth].
Defined.

Lemma Catalog_query_answer_witness :
  ∃ response, Catalog_handle_request (E:=()) ex_question ex_catalog = (Ok response, ex_catalog) ∧
    (∀ r, r ∈ m_answers response ↔ r ∈ zone_records ex_auth ∧ answers ex_auth ex_zone RecordType.A r).
Proof.
  destruct (Catalog_query_answer (E:=()) ex_question ex_catalog ex_query ex_zone (RwLock_new ex_auth))
    as (response & H1 & _ & _ & _ & H2 & _).
  - reflexivity.
  - reflexivity.
  - reflexivity.
  - reflexivity.
  - discriminate.
  - vm_compute. reflexivity.
  - reflexivity.
  - exact ex_auth_ok.
  - exists response. by split.
Defined.


(** An update that nobody authorised takes a zone down: a request with a worthless
    signature that names a signer with a key in the zone, and an NSEC record whose
    types are out of order, makes the server panic while it checks the signature; the
    zone, which answered queries before, answers none after. *)
Theorem Catalog_hostile_update :
  Message_from_vec ex_hostile = Ok ex_hostile_request ∧
  (∃ m, (Catalog_handle_request (E:=()) ex_question ex_catalog).1 = Ok m) ∧
  (Catalog_handle_request (E:=()) ex_hostile_request ex_catalog).1 = Panic ∧
  (Catalog_handle_request (E:=()) ex_question
     (Catalog_handle_request (E:=()) ex_hostile_request ex_catalog).2).1 = Panic.
Proof. split_and!; [|eexists|..]; vm_compute; reflexivity. Qed.
