(* ===== verification/Responses.v ===== *)
(** * Responses: what the server answers can be written

    The responses of [Catalog::handle_request] are well-formed messages, so that encoding them
    succeeds and the client reads what the catalog answered.  The bounds are those of the
    wire: a zone whose records can be written, and few enough of them for a section. *)

From S2P Require Import Prelude Codec Wire Domain Enums Header RData RDataProps Resource Message.
From S2P Require Import RecordSet KeyPair Signer Update BTree Journal Authority AuthorityProps Catalog CatalogProps.

Open Scope Z_scope.

Section responses.
Context `{L : Lowercase} `{HO : HashOrder} `{C : Crypto} `{SQ : Sqlite} `{CK : Clock}.

(** ** The records of a zone *)

(** With the signatures. *)
Definition all_records (a : Authority) : list RRecord :=
  concat ((λ s, rs_records s ++ rs_rrsigs s) <$> BTreeMap_values (a_records a)).

Record zone_writable (a : Authority) : Prop := {
  zw_records : Forall record_ok (all_records a);
  zw_count : Z.of_nat (length (all_records a)) ≤ 32000;
}.

(** A list of the zone's records, at most [k] of them more than the zone has. *)
Definition drawn (a : Authority) (k : nat) (l : list RRecord) : Prop :=
  Forall (λ r, r ∈ all_records a) l ∧ (length l ≤ length (all_records a) + k)%nat.

Lemma max_by_key_elem {A} (key : A → Z) l x : max_by_key key l = Some x → x ∈ l.
Proof.
  unfold max_by_key. enough (∀ l acc, foldl (λ acc x, match acc with
    | None => Some x | Some y => if key y <=? key x then Some x else Some y end) acc l = Some x →
    acc = Some x ∨ x ∈ l) as H by (intros Hf; destruct (H l None Hf); done).
  clear l. induction l as [|y l IH]; intros acc; simpl; [by left|].
  intros [Hacc|?]%IH; [|right; by right]. destruct acc as [z|]; [destruct (key z <=? key y)|]; injection Hacc as ->;
    first [by left|right; by left].
Qed.

Lemma get_records_drawn s secure algs :
  Forall (λ r, r ∈ rs_records s ++ rs_rrsigs s) (RecordSet_get_records s secure algs) ∧
  (length (RecordSet_get_records s secure algs) ≤ length (rs_records s ++ rs_rrsigs s))%nat.
Proof.
  unfold RecordSet_get_records. rewrite length_app. destruct secure.
  - destruct (max_by_key _ _) as [x|] eqn:Hm; simpl.
    + apply max_by_key_elem, list_elem_of_filter in Hm as [_ Hx]. split.
      * apply Forall_forall. intros r [?|?%list_elem_of_singleton]%elem_of_app; set_solver.
      * rewrite length_app. simpl. destruct (rs_rrsigs s); [by apply elem_of_nil in Hx|]. simpl. lia.
    + rewrite app_nil_r. split; [apply Forall_forall; set_solver|lia].
  - split; [apply Forall_forall; set_solver|lia].
Qed.

(** What is drawn from some of the sets is in all of them, and no more. *)
Lemma values_drawn (ss : list RecordSet) secure algs (l : list RecordSet) :
  ss `sublist_of` l →
  Forall (λ r, r ∈ concat ((λ s, rs_records s ++ rs_rrsigs s) <$> l))
    (concat ((λ s, RecordSet_get_records s secure algs) <$> ss)) ∧
  (length (concat ((λ s, RecordSet_get_records s secure algs) <$> ss)) ≤
   length (concat ((λ s, rs_records s ++ rs_rrsigs s) <$> l)))%nat.
Proof.
  intros Hs. induction Hs as [|s ss l Hs [IH1 IH2]|s ss l Hs [IH1 IH2]]; [by split; [constructor|]|..];
    rewrite !fmap_cons; cbn [concat].
  - destruct (get_records_drawn s secure algs) as [H1 H2]. rewrite !length_app in *. split; [|lia].
    apply Forall_app. split; (eapply Forall_impl; [eassumption|]); simpl; intros r ?; rewrite !elem_of_app in *; tauto.
  - rewrite length_app. split; [|lia]. eapply Forall_impl; [exact IH1|]. intros r ?. apply elem_of_app. by right.
Qed.

Lemma lookup_drawn a name t secure algs : drawn a 0 (Authority_lookup a name t secure algs).
Proof.
  assert (Hsets : ∀ ss, ss `sublist_of` BTreeMap_values (a_records a) →
    drawn a 0 (concat ((λ s, RecordSet_get_records s secure algs) <$> ss))).
  { intros ss Hs. destruct (values_drawn ss secure algs _ Hs) as [H1 H2]. split; [exact H1|].
    unfold all_records. lia. }
  assert (Hone : ∀ name, drawn a 0 (match BTreeMap_get (RrKey_new name t) (a_records a) with
    | Some s => RecordSet_get_records s secure algs | None => [] end)).
  { intros n. destruct (BTreeMap_get _ (a_records a)) as [s|] eqn:Hg; [|split; [constructor|simpl; lia]].
    assert (Hin : s ∈ BTreeMap_values (a_records a)).
    { clear -Hg. unfold BTreeMap_values. induction (a_records a) as [|[k s'] m IH]; [done|]. simpl in Hg.
      rewrite fmap_cons. destruct (cmp _ _); [injection Hg as ->; by left|done|right; auto]. }
    specialize (Hsets [s]). simpl in Hsets. rewrite app_nil_r in Hsets. apply Hsets.
    by apply singleton_sublist_l. }
  unfold Authority_lookup. destruct t; try apply Hone; rewrite foldl_app; apply Hsets;
    (etrans; [apply sublist_filter|apply sublist_filter]).
Qed.

Lemma search_drawn a q secure algs : drawn a 2 (Authority_search a q secure algs).
Proof.
  assert (Hnil : drawn a 2 []) by (split; [constructor|simpl; lia]).
  unfold Authority_search. destruct (_ && _); [done|].
  destruct (lookup_drawn a (q_name q) (q_query_type q) secure algs) as [H1 H2].
  case_decide; [|split; [done|lia]]. unfold Authority_get_soa.
  destruct (Authority_lookup a (a_origin a) RecordType.SOA false SupportedAlgorithms_new) as [|soa l] eqn:Hl; [done|].
  simpl. destruct (lookup_drawn a (a_origin a) RecordType.SOA false SupportedAlgorithms_new) as [Hsoa _].
  rewrite Hl in Hsoa. apply Forall_cons in Hsoa as [Hsoa _]. split.
  - constructor; [done|]. apply Forall_app. split; [done|]. by constructor.
  - simpl. rewrite length_app. simpl. lia.
Qed.

Lemma skip_while_sublist {A} (p : A → bool) l : skip_while p l `sublist_of` l.
Proof. induction l as [|x l IH]; simpl; [done|]. destruct (p x); [by apply sublist_cons|done]. Qed.

Lemma nsec_records_drawn a name secure algs : drawn a 0 (Authority_get_nsec_records a name secure algs).
Proof.
  unfold Authority_get_nsec_records. set (ss := filter _ _).
  pose proof (skip_while_sublist (λ s, bool_decide (cmp name (rs_name s) = Lt)) ss) as Hs.
  destruct (skip_while _ ss) as [|s l]; [split; [constructor|simpl; lia]|].
  assert (Hin : [s] `sublist_of` BTreeMap_values (a_records a)).
  { etrans; [|apply (sublist_filter (λ s, rs_record_type s = RecordType.NSEC))]. etrans; [|exact Hs].
    apply sublist_skip, sublist_nil_l. }
  destruct (values_drawn [s] secure algs _ Hin) as [H1 H2]. simpl in H1, H2. rewrite app_nil_r in H1, H2.
  split; [exact H1|]. unfold all_records. lia.
Qed.

Lemma drawn_ok a k l : zone_writable a → drawn a k l → Forall record_ok l.
Proof.
  intros [Hr _] [Hl _]. rewrite Forall_forall in Hr. eapply Forall_impl; [exact Hl|]. auto.
Qed.

(** ** The responses *)

(** What every response has: only its sections and codes differ. *)
Record response_shape (m : Message) : Prop := {
  rh_id : u16 (h_id (m_header m));
  rh_code : 0 ≤ h_response_code (m_header m) < 16;
  rh_queries : Forall query_ok (m_queries m);
  rh_count : Z.of_nat (length (m_queries m)) ≤ u16_max;
  rh_additionals : m_additionals m = [];
  rh_sig0 : m_sig0 m = [];
  rh_edns : m_edns m = None;
  rh_records : Z.of_nat (length (m_answers m) + length (m_name_servers m)) ≤ 64002;
}.

Lemma response_code_range c : 0 ≤ ResponseCode_low c < 16.
Proof. destruct c; vm_compute; split; congruence. Qed.

Lemma shape_ok m :
  response_shape m → Forall record_ok (m_answers m) → Forall record_ok (m_name_servers m) → message_ok m.
Proof.
  intros [Hi Hc Hq Hn Ha Hs He Hr] H1 H2. split; [..|unfold u16_max; lia|unfold u16_max; lia|]; try done; rewrite ?Ha, ?Hs, ?He; try constructor.
  unfold u16_max. simpl. lia.
Qed.

Lemma answer_query_ok a request q m :
  zone_writable a → response_shape m → m_answers m = [] → m_name_servers m = [] →
  message_ok (answer_query a request q m) ∧ response_shape (answer_query a request q m).
Proof.
  intros Hz Hm Ha Hn. unfold answer_query. destruct (dnssec_request request) as [secure algs].
  pose proof (search_drawn a q secure algs) as Hrs.
  pose proof (lookup_drawn a (a_origin a) RecordType.NS secure algs) as Hns.
  pose proof (lookup_drawn a (a_origin a) RecordType.SOA secure algs) as Hsoa.
  pose proof (nsec_records_drawn a (q_name q) secure algs) as Hnsec.
  fold (Authority_get_ns a secure algs) in Hns. fold (Authority_get_soa_secure a secure algs) in Hsoa.
  set (rs := Authority_search a q secure algs) in *. set (ns := Authority_get_ns a secure algs) in *.
  set (soa := Authority_get_soa_secure a secure algs) in *. set (nsec := Authority_get_nsec_records _ _ _ _) in *.
  destruct Hm as [Hi Hc Hq Hqn Hd Hs He _].
  assert (Hout : ∀ h answers name_servers, u16 (h_id h) → 0 ≤ h_response_code h < 16 →
    Forall record_ok answers → Forall record_ok name_servers →
    Z.of_nat (length answers + length name_servers) ≤ 64002 →
    let m' := mkMessage h (m_queries m) answers name_servers (m_additionals m) (m_sig0 m) (m_edns m) in
    message_ok m' ∧ response_shape m').
  { intros h answers name_servers H1 H2 H3 H4 H5 m'. assert (response_shape m') by (by split).
    split; [by apply shape_ok|done]. }
  pose proof response_code_range as Hcode. pose proof (zw_count _ Hz) as Hcount.
  assert (Hok : ∀ k l, drawn a k l → Forall record_ok l) by (intros k l Hl; by eapply drawn_ok).
  assert (Forall record_ok []) by constructor.
  pose proof (Hok _ _ Hrs). pose proof (Hok _ _ Hns). pose proof (Hok _ _ Hsoa). pose proof (Hok _ _ Hnsec).
  destruct Hrs as [_ Lrs], Hns as [_ Lns], Hsoa as [_ Lsoa], Hnsec as [_ Lnsec].
  destruct (negb _); [|destruct secure]; case_match; rewrite ?add_name_servers_eq, ?add_answers_eq; simpl;
    rewrite ?Ha, ?Hn; simpl; apply Hout; simpl; rewrite ?Ha, ?Hn, ?length_app; simpl; auto; try lia.
  by apply Forall_app.
Qed.

(** A request with one question, and EDNS data within its bounds. *)
Record one_question (request : Message) (q : Query) : Prop := {
  oq_id : u16 (h_id (m_header request));
  oq_queries : m_queries request = [q];
  oq_query : query_ok q;
  oq_edns edns : m_edns request = Some edns → e_max_payload edns < 65536;
}.

(** A request the catalog can answer within the bounds of a message: an update or one it does not implement, with
    any number of questions, or a query with at most one. *)
Record answerable (request : Message) : Prop := {
  aw_id : u16 (h_id (m_header request));
  aw_edns edns : m_edns request = Some edns → e_max_payload edns < 65536;
  aw_queries : h_message_type (m_header request) = MessageType.Query → h_op_code (m_header request) = OpCode.Query →
    (length (m_queries request) ≤ 1)%nat ∧ Forall query_ok (m_queries request);
}.

Lemma one_question_answerable request q : one_question request q → answerable request.
Proof.
  intros [Hid Hqs Hq He]. split; [done|done|]. intros _ _. rewrite Hqs. split; [done|by constructor].
Qed.

Lemma lookup_response_ok {E} c request response :
  u16 (h_id (m_header request)) → (length (m_queries request) ≤ 1)%nat → Forall query_ok (m_queries request) →
  map_Forall (λ _ lock, zone_writable (l_value lock)) (c_authorities c) →
  Catalog_lookup (E:=E) c request = Ok response → message_ok response ∧ response_shape response.
Proof.
  intros Hid Hlen Hqs Hz. unfold Catalog_lookup. set (m := Message_add_queries _ (m_queries request)).
  assert (Hm : response_shape m).
  { unfold m. rewrite add_queries_eq. split; simpl; rewrite ?app_nil_l; try done; try lia; unfold u16_max; lia. }
  assert (Hans : m_answers m = [] ∧ m_name_servers m = []) by (unfold m; by rewrite add_queries_eq).
  destruct Hans as [Ha Hn]. pose proof response_code_range as Hcode.
  assert (Hplain : ∀ m', response_shape m' → m_answers m' = [] → m_name_servers m' = [] → message_ok m' ∧ response_shape m').
  { intros m' H1 H2 H3. split; [|done]. apply shape_ok; [done|rewrite H2; constructor|rewrite H3; constructor]. }
  clearbody m. destruct (m_queries request) as [|q [|q' qs]]; [|cbn [lookup_queries]|simpl in Hlen; lia].
  { intros [= <-]. by apply Hplain. }
  destruct (Catalog_find_auth_recurse c (q_name q)) as [[n lock]|] eqn:Hf.
  - unfold RwLock_read. destruct (l_poisoned lock); [done|]. cbn [rbind]. intros [= <-].
    apply find_auth_at in Hf. apply (answer_query_ok (l_value lock)); [|done..].
    apply (map_Forall_lookup_1 _ _ _ _ Hz Hf).
  - intros [= <-]. apply Hplain; [destruct Hm; by split; simpl|done|done].
Qed.

Lemma bare_ok h : u16 (h_id h) → 0 ≤ h_response_code h < 16 →
  let m := mkMessage h [] [] [] [] [] None in message_ok m ∧ response_shape m.
Proof.
  intros Hi Hc m. assert (response_shape m) by (split; simpl; try done; try constructor; unfold u16_max; lia).
  split; [|done]. apply shape_ok; simpl; try done; constructor.
Qed.

Lemma update_response_ok {E} request c response c' :
  u16 (h_id (m_header request)) → Catalog_update (E:=E) request c = (Ok response, c') →
  message_ok response ∧ response_shape response.
Proof.
  intros Hid. unfold Catalog_update. pose proof response_code_range as Hcode.
  assert (Hb : ∀ code, let m := Message_response_code (Message_message_type (Message_op_code
    (Message_id Message_new (h_id (m_header request))) OpCode.Update) MessageType.Response) code in
    message_ok m ∧ response_shape m) by (intros code m; exact (bare_ok (m_header m) Hid (Hcode code))).
  intros H. repeat case_match; simplify_eq; apply Hb.
Qed.

Lemma dispatch_response_ok {E} request c response c' :
  answerable request → map_Forall (λ _ lock, zone_writable (l_value lock)) (c_authorities c) →
  dispatch_request (E:=E) request c = (Ok response, c') → message_ok response ∧ response_shape response.
Proof.
  intros [Hid _ Hqs] Hz. pose proof response_code_range as Hcode. unfold dispatch_request.
  assert (Herr : ∀ code, message_ok (Message_error_msg (h_id (m_header request)) (h_op_code (m_header request)) code) ∧
    response_shape (Message_error_msg (h_id (m_header request)) (h_op_code (m_header request)) code))
    by (intros code; exact (bare_ok (m_header (Message_error_msg _ _ code)) Hid (Hcode code))).
  destruct (h_message_type (m_header request)); [|by intros [= <- _]].
  destruct (h_op_code (m_header request)); try (by intros [= <- _]).
  - intros [= H _]. destruct (Hqs eq_refl eq_refl). by eapply lookup_response_ok.
  - intros H. by eapply update_response_ok.
Qed.

Lemma response_edns_ok edns : e_max_payload edns < 65536 → edns_ok (response_edns edns).
Proof.
  intros H. split; [unfold u8; simpl; lia|unfold u8; simpl; lia| |apply map_Forall_empty|vm_compute; discriminate].
  simpl. destruct (Z.ltb_spec (e_max_payload edns) 512); lia.
Qed.

Lemma server_options_ok edns : edns_ok edns → e_options edns = e_options Edns_new →
  edns_ok (Edns_set_option (Edns_set_option edns (EdnsOption.DAU server_algorithms)) (EdnsOption.DHU server_algorithms)).
Proof.
  intros [H1 H2 H3 H4 H5] Ho. split; simpl; [done..| |]; rewrite Ho.
  - do 2 (apply map_Forall_insert_2; [split; try reflexivity; vm_compute; split; congruence|]). apply map_Forall_empty.
  - vm_compute. discriminate.
Qed.

Lemma set_edns_ok m edns : message_ok m → response_shape m → edns_ok edns → message_ok (Message_set_edns m edns).
Proof.
  intros [] [_ _ _ _ Ha Hs _ _] He. split; simpl; try done. rewrite Ha, Hs. unfold u16_max. simpl. lia.
Qed.

(** ** The size of a response *)

Lemma record_size_bound r : record_ok r → Z.of_nat (record_size r) ≤ 65800.
Proof. intros [[_ Hn] _ _ _ _ Hs]. unfold record_size, u16_max in *. lia. Qed.

Lemma records_size_bound rs : Forall record_ok rs → Z.of_nat (sum_list_with record_size rs) ≤ 65800 * Z.of_nat (length rs).
Proof. induction 1 as [|r rs Hr%record_size_bound _ IH]; simpl; lia. Qed.

Lemma queries_size {A} (qs : list A) : sum_list_with (λ _, 259%nat) qs = (259 * length qs)%nat.
Proof. induction qs as [|q qs IH]; simpl; lia. Qed.

Lemma response_size m :
  message_ok m → m_additionals m = [] → m_sig0 m = [] →
  Z.of_nat (length (m_answers m) + length (m_name_servers m)) ≤ 64002 → Z.of_nat (message_size m) ≤ u32_max.
Proof.
  intros Hm Ha Hs Hn. unfold message_size. rewrite Ha, Hs, queries_size. simpl sum_list_with.
  pose proof (records_size_bound _ (mo_answers _ Hm)). pose proof (records_size_bound _ (mo_name_servers _ Hm)).
  pose proof (mo_query_count _ Hm) as Hq. pose proof (mo_edns _ Hm) as He. unfold u16_max, u32_max in *.
  destruct (m_edns m) as [edns|]; [apply edns_record_ok, record_size_bound in He|]; lia.
Qed.

Lemma handle_response_ok {E} request c response c' :
  answerable request → map_Forall (λ _ lock, zone_writable (l_value lock)) (c_authorities c) →
  Catalog_handle_request (E:=E) request c = (Ok response, c') →
  message_ok response ∧ Z.of_nat (message_size response) ≤ u32_max.
Proof.
  intros Hq Hz. pose proof (aw_edns _ Hq) as Hed. unfold Catalog_handle_request.
  assert (Hset : ∀ m edns, message_ok m ∧ response_shape m → edns_ok edns →
    message_ok (Message_set_edns m edns) ∧ Z.of_nat (message_size (Message_set_edns m edns)) ≤ u32_max).
  { intros m edns [H1 H2] He. pose proof (set_edns_ok m edns H1 H2 He) as Hok. split; [done|]. destruct H2.
    by apply response_size. }
  destruct (m_edns request) as [edns|].
  - specialize (Hed edns eq_refl). pose proof (response_edns_ok edns Hed) as He.
    destruct (0 <? e_version edns).
    + intros [= <- _]. apply Hset; [|done]. set (m := Message_response_code _ _).
      exact (bare_ok (m_header m) (aw_id _ Hq) (response_code_range _)).
    + intros (m & c1 & H & [= <- _])%bind_Ok_inv. apply dispatch_response_ok in H; [|done..].
      simpl. apply Hset; [done|]. by apply server_options_ok.
  - intros (m & c1 & H & [= <- _])%bind_Ok_inv. simpl. apply dispatch_response_ok in H as [H1 H2]; [|done..].
    split; [done|]. destruct H2. by apply response_size.
Qed.

(** ** On the wire *)

Lemma reply_written m : message_ok m → Z.of_nat (message_size m) ≤ u32_max →
  ∃ reply, Message_to_vec m = Ok reply ∧ Message_from_vec reply = Ok (message_norm m).
Proof.
  intros Hm Hs. unfold Message_to_vec. rewrite Message_emit_body by done.
  destruct (TOT_body m Hm (BinEncoder_new [])) as (e & He & _); [done|simpl; lia|]. rewrite He.
  exists (ebuf e). split; [done|]. apply message_written_read; [done|].
  unfold Message_to_vec. rewrite Message_emit_body by done. by rewrite He.
Qed.

End responses.
