(* ===== verification/Returns.v ===== *)
(** * Returns: computations that end

    The step of a loop or of a recursive call may panic or fail, but when it ends so does
    the whole.  [ends] is that property for a method, [ends_r] for a function; the tactic
    [total] proves it of a composition from its parts, and the encoders are shown to
    have it. *)

From S2P Require Import Prelude Codec Wire Domain Enums RData.

Definition ends {S E A} (m : M S E A) : Prop := ∀ s, (m s).1 ≠ Diverge.
Definition ends_r {E A} (r : res E A) : Prop := r ≠ Diverge.

Lemma ends_bind {S E A B} (m : M S E A) (k : A → M S E B) :
  ends m → (∀ a, ends (k a)) → ends (bind m k).
Proof.
  intros Hm Hk s. specialize (Hm s). unfold bind.
  destruct (m s) as [[a|e| |] s']; try done. apply Hk.
Qed.

Lemma ends_for_each {S E A} (f : A → M S E ()) xs : (∀ x, ends (f x)) → ends (for_each f xs).
Proof. intros H. induction xs as [|x xs IH]; [done|]. simpl. by apply ends_bind. Qed.

Lemma ends_lift {S E A} (r : res E A) : ends_r r → ends (S:=S) (lift r).
Proof. by intros H s. Qed.

Lemma ends_r_bind {E A B} (r : res E A) (k : A → res E B) :
  ends_r r → (∀ a, r = Ok a → ends_r (k a)) → ends_r (rbind r k).
Proof. unfold ends_r. destruct r; simpl; auto. Qed.

Create HintDb ends.

(** The function a term applies. *)
Ltac head_of t := match t with ?f _ => head_of f | _ => t end.

(** Composition by cases; a definition that is not known to end is unfolded. *)
Ltac total_step :=
  match goal with
  | |- ∀ _, _ => intros
  | |- ends (bind _ _) => apply ends_bind
  | |- ends (for_each _ _) => apply ends_for_each
  | |- ends (lift _) => apply ends_lift
  | |- ends_r (rbind _ _) => apply ends_r_bind; [|intros ? _]
  | |- ends (λ _, _) => let s := fresh "s" in intros s
  | |- ends (match _ with _ => _ end) => case_match
  | |- ends_r (match _ with _ => _ end) => case_match
  | |- (match _ with _ => _ end).1 ≠ Diverge => case_match
  | |- (_, _).1 ≠ Diverge => simpl; try done
  | |- ends ?m => let h := head_of m in unfold h
  | |- ends_r ?m => let h := head_of m in unfold h
  end.
Ltac total := repeat (first [assumption | done | solve [auto with ends nocore] | total_step]).

(** ** The encoders end *)

Lemma ends_emit_labels ls : ends (emit_labels ls).
Proof. induction ls as [|l ls IH]; simpl; total. Qed.
#[export] Hint Resolve ends_emit_labels : ends.

Lemma ends_encode_bit_maps_loop {E} hash ts : ends_r (encode_bit_maps_loop (E:=E) hash ts).
Proof. revert hash. induction ts as [|t ts IH]; intros hash; simpl; total. Qed.
#[export] Hint Resolve ends_encode_bit_maps_loop : ends.

Lemma ends_rdata_emit `{Lowercase} `{HashOrder} r : ends (RData_emit r).
Proof. total. Qed.
#[export] Hint Resolve ends_rdata_emit : ends.
