(* ===== verification/Text.v ===== *)
(** * Text: characters, strings and numbers

    What the text form of zones uses of the standard library: [char] and
    [str::chars], the character classes, [str::parse] for integers and addresses;
    and [Name::parse] of [client/src/rr/domain.rs] with the errors of
    [client/src/error/parse_error.rs] and [lexer_error.rs]. *)

From S2P Require Import Prelude Codec Wire Domain Enums RData.

Open Scope Z_scope.

(** ** Characters

    A [char] is a Unicode scalar value; a [String] is the list of its UTF-8
    bytes, as everywhere in this development. *)

Abbreviation char := Z (only parsing).

Definition is_scalar (c : char) : bool := in_range 0 55295 c || in_range 57344 1114111 c.

(** [char::from_u32] *)
Definition char_from_u32 (v : Z) : option char := if is_scalar v then Some v else None.

(** [String::push] appends the encoding of the character. *)
Definition utf8_encode (c : char) : bytes :=
  if c <? 128 then [c]
  else if c <? 2048 then [192 + c / 64; 128 + c mod 64]
  else if c <? 65536 then [224 + c / 4096; 128 + c / 64 mod 64; 128 + c mod 64]
  else [240 + c / 262144; 128 + c / 4096 mod 64; 128 + c / 64 mod 64; 128 + c mod 64].

Definition push (s : bytes) (c : char) : bytes := s ++ utf8_encode c.

(** [str::chars] on a string, which is always well-formed UTF-8. *)
Fixpoint str_chars (s : bytes) : list char :=
  match s with
  | [] => []
  | b :: r =>
      if b <? 128 then b :: str_chars r
      else match r with
      | [] => []
      | b1 :: r1 =>
          if b <? 224 then ((b - 192) * 64 + (b1 - 128)) :: str_chars r1
          else match r1 with
          | [] => []
          | b2 :: r2 =>
              if b <? 240 then ((b - 224) * 4096 + (b1 - 128) * 64 + (b2 - 128)) :: str_chars r2
              else match r2 with
              | [] => []
              | b3 :: r3 =>
                  ((b - 240) * 262144 + (b1 - 128) * 4096 + (b2 - 128) * 64 + (b3 - 128))
                  :: str_chars r3
              end
          end
      end
  end.

(** The string of a list of characters. *)
Definition string_of (cs : list char) : bytes := concat (utf8_encode <$> cs).

(** [char::is_control]: the category Cc. *)
Definition is_control (c : char) : bool := in_range 0 31 c || in_range 127 159 c.

(** [char::is_whitespace]: the property White_Space. *)
Definition is_whitespace (c : char) : bool :=
  in_range 9 13 c || (c =? 32) || (c =? 133) || (c =? 160) || (c =? 5760) ||
  in_range 8192 8202 c || (c =? 8232) || (c =? 8233) || (c =? 8239) || (c =? 8287) || (c =? 12288).

(** [char::is_numeric] is Unicode's table of the categories Nd, Nl and No; of it only
    the ASCII part, the ten digits, matters here. *)
Class Numeric := {
  is_numeric : char → bool;
  is_numeric_ascii c : c < 128 → is_numeric c = in_range 48 57 c;
}.

Definition ascii_numeric : Numeric.
Proof. refine {| is_numeric c := in_range 48 57 c |}. done. Defined.

(** [char::to_digit(10)] *)
Definition to_digit (c : char) : option Z := if in_range 48 57 c then Some (c - 48) else None.

(** A [&str] as the model's literals. *)
Definition str_of_bytes (s : bytes) : string :=
  foldr (λ b r, String (Ascii.ascii_of_nat (Z.to_nat b)) r) EmptyString s.
Definition bytes_of_str (s : string) : bytes :=
  (fix go s := match s with
               | EmptyString => []
               | String a s => Z.of_nat (Ascii.nat_of_ascii a) :: go s
               end) s.

(** ** Tokens and errors *)

(** [Token] of [serialize/txt/master_lex.rs]. *)
Module Token.
Inductive Token : Type :=
  | Blank
  | List (v : list bytes)
  | CharData (s : bytes)
  | At
  | Include
  | Origin
  | Ttl
  | EOL.
End Token.
Abbreviation Token := Token.Token.

#[global] Instance Token_eq_dec : EqDecision Token.
Proof. solve_decision. Defined.

(** [LexerErrorKind] *)
Inductive lexer_error : Type :=
  | IllegalCharacter (ch : char)
  | UnrecognizedChar (ch : char)
  | UnrecognizedOctet (octet : Z)
  | UnclosedQuotedString
  | UnclosedList
  | UnrecognizedDollar (s : bytes)
  | LexerEOF
  | IllegalState (s : string).

(** [ParseErrorKind]; [ParseMsg] carries the text and the character of the formatted
    message. *)
Inductive parse_error : Type :=
  | ParseMessage (msg : string)
  | ParseMsg (msg : string) (ch : char)
  | UnexpectedToken (token : Token)
  | MissingToken (s : string)
  | CharToIntError (ch : char)
  | ParseTimeError (s : bytes)
  | ParseDecode (e : decode_error)
  | ParseLexer (e : lexer_error)
  | ParseInt
  | AddrParse.

(** [Option::ok_or] *)
Definition ok_or {E A} (o : option A) (e : E) : res E A :=
  match o with Some a => Ok a | None => Err e end.

(** ** [str::parse] for integers *)

Fixpoint digits_value (acc : Z) (s : bytes) : option Z :=
  match s with
  | [] => Some acc
  | c :: s => d ← to_digit c; digits_value (acc * 10 + d) s
  end.

(** An optional sign, [-] only for a signed type, and at least one digit; a value out
    of range is an error. *)
Definition parse_int (lo hi : Z) (s : bytes) : option Z :=
  let '(neg, ds) :=
    match s with
    | 43 :: ds => (false, ds)
    | 45 :: ds => if lo <? 0 then (true, ds) else (false, s)
    | _ => (false, s)
    end in
  match ds with
  | [] => None
  | _ => v ← digits_value 0 ds;
         let v := if neg : bool then - v else v in
         if in_range lo hi v then Some v else None
  end.

Definition parse_u16 (s : bytes) : res parse_error Z := ok_or (parse_int 0 u16_max s) ParseInt.
Definition parse_u32 (s : bytes) : res parse_error Z := ok_or (parse_int 0 u32_max s) ParseInt.
Definition parse_i32 (s : bytes) : res parse_error Z :=
  ok_or (parse_int (- 2147483648) 2147483647 s) ParseInt.

(** ** [str::parse] for addresses *)

(** [read_digit]: a digit in radix 10 or 16. *)
Definition read_digit (radix : Z) (c : char) : option Z :=
  let d := if in_range 48 57 c then Some (c - 48)
           else if in_range 97 102 c then Some (c - 87)
           else if in_range 65 70 c then Some (c - 55) else None in
  d ← d; if d <? radix then Some d else None.

(** [read_number]: the longest run of digits, not too long and not too large, with
    what follows it. *)
Fixpoint read_number (radix : Z) (max_digits : nat) (upto r : Z) (count : nat) (s : bytes) :
    option (Z * bytes) :=
  match s with
  | [] => if (count =? 0)%nat then None else Some (r, [])
  | c :: s' =>
      match read_digit radix c with
      | Some d =>
          let r := r * radix + d in
          let count := S count in
          if (max_digits <? count)%nat || (upto <=? r) then None
          else read_number radix max_digits upto r count s'
      | None => if (count =? 0)%nat then None else Some (r, s)
      end
  end.

Definition read_given_char (c : char) (s : bytes) : option bytes :=
  match s with b :: s => if b =? c then Some s else None | [] => None end.

Definition read_ipv4_addr (s : bytes) : option (Ipv4Addr * bytes) :=
  '(a, s) ← read_number 10 3 256 0 0 s;
  s ← read_given_char 46 s;
  '(b, s) ← read_number 10 3 256 0 0 s;
  s ← read_given_char 46 s;
  '(c, s) ← read_number 10 3 256 0 0 s;
  s ← read_given_char 46 s;
  '(d, s) ← read_number 10 3 256 0 0 s;
  Some (mkIpv4 a b c d, s).

(** The address must be all of the string. *)
Definition parse_ipv4 (s : bytes) : res parse_error Ipv4Addr :=
  match read_ipv4_addr s with Some (a, []) => Ok a | _ => Err AddrParse end.

(** [read_groups]: up to [limit] groups, the last two of which may be an IPv4
    address; says whether it was. *)
Fixpoint read_groups (limit : nat) (first : bool) (s : bytes) : list Z * bool * bytes :=
  match limit with
  | O => ([], false, s)
  | S limit' =>
      let sep s := if first then Some s else read_given_char 58 s in
      let v4 := if (0 <? limit')%nat then s ← sep s; read_ipv4_addr s else None in
      match v4 with
      | Some (a, s) =>
          ([Z.lor (Z.shiftl (v4_0 a) 8) (v4_1 a); Z.lor (Z.shiftl (v4_2 a) 8) (v4_3 a)], true, s)
      | None =>
          match (s' ← sep s; read_number 16 4 65536 0 0 s') with
          | Some (g, s) =>
              let '(gs, b, s) := read_groups limit' false s in (g :: gs, b, s)
          | None => ([], false, s)
          end
      end
  end.

Definition ipv6_of_groups (gs : list Z) : option Ipv6Addr :=
  match gs with
  | [a; b; c; d; e; f; g; h] => Some (mkIpv6 a b c d e f g h)
  | _ => None
  end.

Definition read_ipv6_addr (s : bytes) : option (Ipv6Addr * bytes) :=
  let '(head, head_ipv4, s) := read_groups 8 true s in
  if (length head =? 8)%nat then a ← ipv6_of_groups head; Some (a, s)
  else if head_ipv4 : bool then None
  else
    s ← read_given_char 58 s;
    s ← read_given_char 58 s;
    let '(tail, _, s) := read_groups (8 - length head) true s in
    a ← ipv6_of_groups (head ++ replicate (8 - length head - length tail) 0 ++ tail);
    Some (a, s).

Definition parse_ipv6 (s : bytes) : res parse_error Ipv6Addr :=
  match read_ipv6_addr s with Some (a, []) => Ok a | _ => Err AddrParse end.

(** ** [Name::parse] *)

Inductive ParseState : Type :=
  | ParseLabel
  | Escape1
  | Escape2 (i : Z)
  | Escape3 (i ii : Z).

Section name_parse.
Context `{N : Numeric}.

(** One turn of the loop over the characters. *)
Definition Name_parse_step (name : Name) (label : bytes) (state : ParseState) (ch : char) :
    res parse_error (Name * bytes * ParseState) :=
  match state with
  | ParseLabel =>
      if ch =? 46 then
        try* name := Name_add_label name label in Ok (name, [], ParseLabel)
      else if ch =? 92 then Ok (name, label, Escape1)
      else if negb (is_control ch) && negb (is_whitespace ch) then
        Ok (name, push label ch, ParseLabel)
      else Err (ParseMsg "unrecognized char" ch)
  | Escape1 =>
      if is_numeric ch then
        try* d := ok_or (to_digit ch) (ParseMsg "illegal char" ch) in
        Ok (name, label, Escape2 d)
      else Ok (name, push label ch, ParseLabel)
  | Escape2 i =>
      if is_numeric ch then
        try* d := ok_or (to_digit ch) (ParseMsg "illegal char" ch) in
        Ok (name, label, Escape3 i d)
      else Err (ParseMsg "unrecognized char" ch)
  | Escape3 i ii =>
      if is_numeric ch then
        try* d := ok_or (to_digit ch) (ParseMsg "illegal char" ch) in
        let val := Z.shiftl i 16 + Z.shiftl ii 8 + d in
        try* new := ok_or (char_from_u32 val) (ParseMsg "illegal char" ch) in
        Ok (name, push label new, ParseLabel)
      else Err (ParseMsg "unrecognized char" ch)
  end.

Fixpoint Name_parse_loop (name : Name) (label : bytes) (state : ParseState) (cs : list char) :
    res parse_error (Name * bytes) :=
  match cs with
  | [] => Ok (name, label)
  | ch :: cs =>
      try* r := Name_parse_step name label state ch in
      Name_parse_loop r.1.1 r.1.2 r.2 cs
  end.

Definition Name_parse (local : bytes) (origin : option Name) : res parse_error Name :=
  try* r := Name_parse_loop Name_new [] ParseLabel (str_chars local) in
  let '(name, label) := r in
  try* name := (if bool_decide (label = []) then Ok name else Name_add_label name label) in
  if bool_decide (last local = Some 46) then Ok name
  else
    try* origin := ok_or origin (ParseMessage "$ORIGIN was not specified") in
    Name_append name origin.
End name_parse.

(** ** Characters and their encoding *)

Lemma is_scalar_spec c : is_scalar c = true ↔ 0 ≤ c ≤ 55295 ∨ 57344 ≤ c ≤ 1114111.
Proof. unfold is_scalar, in_range. rewrite orb_true_iff, !andb_true_iff, !Z.leb_le. lia. Qed.

(** Decide the comparisons of a definition by cases on the integers. *)
Ltac zcases :=
  repeat match goal with
  | |- context [?x <? ?y] => destruct (Z.ltb_spec x y); try lia
  | |- context [?x <=? ?y] => destruct (Z.leb_spec x y); try lia
  | |- context [?x =? ?y] => destruct (Z.eqb_spec x y); try lia
  end.

Lemma str_chars_encode c s : is_scalar c = true → str_chars (utf8_encode c ++ s) = c :: str_chars s.
Proof.
  rewrite is_scalar_spec. intros Hc. unfold utf8_encode.
  destruct (Z.ltb_spec c 128); [by simpl; zcases|].
  destruct (Z.ltb_spec c 2048).
  { assert (2 ≤ c / 64 < 32) by (split; [apply Z.div_le_lower_bound|apply Z.div_lt_upper_bound]; lia).
    pose proof (Z.mod_pos_bound c 64 ltac:(lia)). pose proof (Z.div_mod c 64 ltac:(lia)).
    simpl. zcases. f_equal. lia. }
  pose proof (Z.mod_pos_bound c 64 ltac:(lia)). pose proof (Z.div_mod c 64 ltac:(lia)).
  pose proof (Z.mod_pos_bound (c / 64) 64 ltac:(lia)). pose proof (Z.div_mod (c / 64) 64 ltac:(lia)).
  assert (E1 : c / 4096 = c / 64 / 64) by (by rewrite Z.div_div).
  destruct (Z.ltb_spec c 65536).
  { assert (0 ≤ c / 4096 < 16) by (split; [apply Z.div_pos|apply Z.div_lt_upper_bound]; lia).
    simpl. zcases. f_equal. lia. }
  assert (E2 : c / 262144 = c / 4096 / 64) by (by rewrite Z.div_div).
  pose proof (Z.mod_pos_bound (c / 4096) 64 ltac:(lia)).
  pose proof (Z.div_mod (c / 4096) 64 ltac:(lia)).
  assert (0 ≤ c / 262144 < 5) by (split; [apply Z.div_pos|apply Z.div_lt_upper_bound]; lia).
  simpl. zcases. f_equal. lia.
Qed.

Lemma str_chars_string_of cs : Forall (λ c, is_scalar c = true) cs → str_chars (string_of cs) = cs.
Proof.
  induction 1 as [|c cs Hc _ IH]; [done|]. change (string_of (c :: cs)) with (utf8_encode c ++ string_of cs).
  by rewrite str_chars_encode, IH.
Qed.

Lemma string_of_app cs cs' : string_of (cs ++ cs') = string_of cs ++ string_of cs'.
Proof. unfold string_of. by rewrite fmap_app, concat_app. Qed.

Lemma utf8_encode_ne c : utf8_encode c ≠ [].
Proof. unfold utf8_encode. repeat case_match; done. Qed.

Lemma utf8_encode_ascii c : c < 128 → utf8_encode c = [c].
Proof. intros. unfold utf8_encode. by zcases. Qed.

(** ** Reading back a printed name *)

Section name_roundtrip.
Context `{N : Numeric}.

(** A character that stands for itself in a label. *)
Definition plain_char (c : char) : bool :=
  is_scalar c && negb (c =? 46) && negb (c =? 92) && negb (is_control c) && negb (is_whitespace c).

(** A label of such characters, at least one. *)
Definition plain_label (l : bytes) : Prop :=
  ∃ cs, l = string_of cs ∧ cs ≠ [] ∧ Forall (λ c, plain_char c = true) cs.

Lemma plain_label_intro cs : cs ≠ [] → forallb plain_char cs = true → plain_label (string_of cs).
Proof. intros Hne H. exists cs. split_and!; [done..|]. by apply List.Forall_forall, List.forallb_forall. Qed.

Lemma plain_char_scalar c : plain_char c = true → is_scalar c = true.
Proof. unfold plain_char. by destruct (is_scalar c). Qed.

Lemma parse_loop_plain name label cs rest :
  Forall (λ c, plain_char c = true) cs →
  Name_parse_loop name label ParseLabel (cs ++ rest) =
  Name_parse_loop name (label ++ string_of cs) ParseLabel rest.
Proof.
  intros H. revert label. induction H as [|c cs Hc _ IH]; intros label.
  { by rewrite app_nil_r. }
  unfold plain_char in Hc. apply andb_true_iff in Hc as [Hc Hw].
  apply andb_true_iff in Hc as [Hc Hct]. apply andb_true_iff in Hc as [Hc H92].
  apply andb_true_iff in Hc as [_ H46]. apply negb_true_iff in H46, H92.
  cbn [app Name_parse_loop Name_parse_step]. rewrite H46, H92, Hw, Hct.
  cbn [andb rbind fst snd]. rewrite IH. unfold push. by rewrite <-app_assoc.
Qed.

Lemma parse_loop_labels ls name rest :
  Forall plain_label ls → (length (labels name) + length ls < 256)%nat →
  ∃ cs, concat ((λ l, l ++ [46]) <$> ls) = string_of cs ∧ Forall (λ c, is_scalar c = true) cs ∧
    Name_parse_loop name [] ParseLabel (cs ++ rest) =
    Name_parse_loop (mkName (labels name ++ ls)) [] ParseLabel rest.
Proof.
  intros H. revert name. induction H as [|l ls (lcs & -> & Hne & Hl) _ IH]; intros name Hlen.
  { exists []. split_and!; [done..|]. rewrite app_nil_r. by destruct name. }
  simpl in Hlen. destruct (IH (mkName (labels name ++ [string_of lcs]))) as (cs & Hcs & Hsc & Hloop).
  { simpl. rewrite length_app. simpl. lia. }
  exists (lcs ++ 46 :: cs). split_and!.
  - rewrite fmap_cons. cbn [concat]. rewrite Hcs, string_of_app, <-app_assoc. done.
  - apply Forall_app. split; [|by constructor]. eapply Forall_impl; [done|]. apply plain_char_scalar.
  - rewrite <-app_assoc, parse_loop_plain by done. cbn [app Name_parse_loop Name_parse_step].
    unfold Name_add_label, Name_checked.
    rewrite decide_True by (rewrite length_app; simpl; lia). cbn [rbind fst snd Z.eqb Pos.eqb].
    rewrite Hloop. cbn [labels]. by rewrite <-app_assoc.
Qed.

Lemma Name_parse_absolute ls origin :
  Forall plain_label ls → (length ls < 256)%nat → ls ≠ [] →
  Name_parse (concat ((λ l, l ++ [46]) <$> ls)) origin = Ok (mkName ls).
Proof.
  intros Hls Hlen Hne. destruct (parse_loop_labels ls Name_new [] Hls ltac:(simpl; lia))
    as (cs & Hcs & Hsc & Hloop).
  unfold Name_parse. rewrite Hcs, str_chars_string_of by done. rewrite app_nil_r in Hloop.
  rewrite Hloop. cbn [Name_parse_loop rbind]. rewrite bool_decide_true by done. cbn [rbind].
  rewrite bool_decide_true; [done|]. rewrite <-Hcs.
  destruct (exists_last Hne) as (ls' & l & ->).
  rewrite fmap_app, concat_app. simpl. by rewrite app_nil_r, app_assoc, last_snoc.
Qed.

Lemma utf8_encode_last c : plain_char c = true → last (utf8_encode c) ≠ Some 46.
Proof.
  intros Hc. unfold utf8_encode. destruct (Z.ltb_spec c 128).
  { intros [= ->]. by vm_compute in Hc. }
  pose proof (Z.mod_pos_bound c 64 ltac:(lia)). repeat case_match; intros [= ?]; lia.
Qed.

Lemma plain_label_last l : plain_label l → l ≠ [] ∧ last l ≠ Some 46.
Proof.
  intros (cs & -> & Hne & Hcs). destruct (exists_last Hne) as (cs' & c & ->).
  apply Forall_app in Hcs as [_ Hc]. inversion_clear Hc as [|? ? Hc' _].
  rewrite string_of_app. change (string_of [c]) with (utf8_encode c ++ []). rewrite app_nil_r.
  pose proof (utf8_encode_ne c). pose proof (utf8_encode_last c Hc').
  split; [by intros [_ ?]%app_eq_nil|]. rewrite last_app. by destruct (last (utf8_encode c)) eqn:E;
    [|apply last_None in E].
Qed.

Lemma Name_append_labels {E} n o :
  (length (labels n) + length (labels o) < 256)%nat →
  Name_append (E:=E) n o = Ok (mkName (labels n ++ labels o)).
Proof.
  unfold Name_append. destruct o as [ls]. simpl. revert n.
  induction ls as [|l ls IH]; intros n Hlen; simpl in *.
  { rewrite app_nil_r. by destruct n. }
  unfold Name_add_label, Name_checked. rewrite decide_True by (rewrite length_app; simpl; lia).
  cbn [rbind]. rewrite IH by (simpl; rewrite length_app; simpl; lia). simpl. by rewrite <-app_assoc.
Qed.

Lemma Name_parse_relative ls l o :
  Forall plain_label ls → plain_label l → (length ls + 1 + length (labels o) < 256)%nat →
  Name_parse (concat ((λ l, l ++ [46]) <$> ls) ++ l) (Some o) = Ok (mkName (ls ++ l :: labels o)).
Proof.
  intros Hls Hl Hlen. destruct (plain_label_last l Hl) as [Hne Hlast].
  destruct Hl as (lcs & -> & _ & Hl).
  destruct (parse_loop_labels ls Name_new lcs Hls ltac:(simpl; lia)) as (cs & Hcs & Hsc & Hloop).
  unfold Name_parse. rewrite Hcs, <-string_of_app, str_chars_string_of.
  2:{ apply Forall_app. split; [done|]. eapply Forall_impl; [done|]. apply plain_char_scalar. }
  rewrite Hloop. rewrite <-(app_nil_r lcs) at 1. rewrite parse_loop_plain by done.
  cbn [Name_parse_loop rbind app]. rewrite bool_decide_false by done.
  unfold Name_add_label, Name_checked. rewrite decide_True by (rewrite length_app; simpl; lia).
  cbn [rbind]. rewrite bool_decide_false.
  2:{ rewrite string_of_app, last_app. by destruct (last (string_of lcs)) eqn:E;
        [|apply last_None in E]. }
  cbn [ok_or rbind]. rewrite Name_append_labels by (simpl; rewrite length_app; simpl; lia).
  simpl. by rewrite <-app_assoc.
Qed.

(** C38: Printing a name and parsing the text gives the name back, when there are
    labels, fewer than 256 with those of the origin, and none has a dot, a backslash, a
    blank or a control character, which printing does not escape; without the final dot
    the name is completed with the origin. A label with a dot in it comes back as two,
    and the root, printed as a dot, is read as a name with one empty label. *)
Theorem Name_parse_to_string ls o origin :
  Forall plain_label ls → ls ≠ [] → (length ls + length (labels o) < 256)%nat →
  Name_parse (Name_to_string (mkName ls)) origin = Ok (mkName ls) ∧
  Name_parse (removelast (Name_to_string (mkName ls))) (Some o) = Ok (mkName (ls ++ labels o)) ∧
  (∀ l l', plain_label l → plain_label l' →
     Name_parse (Name_to_string (mkName [l ++ 46 :: l'])) origin = Ok (mkName [l; l'])) ∧
  Name_parse (Name_to_string Name_root) origin = Ok (mkName [[]]).
Proof.
  intros Hls Hne Hlen. split; [|split; [|split; [|done]]].
  3:{ intros l l' Hl Hl'. rewrite <-(Name_parse_absolute [l; l'] origin) by (by repeat constructor || (simpl; lia)).
      unfold Name_to_string, Name_is_root. cbn [labels]. rewrite bool_decide_false by done. simpl.
      by rewrite !app_nil_r, <-!app_assoc. }
  all: unfold Name_to_string, Name_is_root; cbn [labels]; rewrite bool_decide_false, app_nil_r by done.
  { apply Name_parse_absolute; [done|lia|done]. }
  destruct (exists_last Hne) as (ls' & l & ->). apply Forall_app in Hls as [Hls' Hl].
  inversion_clear Hl as [|? ? Hl' _]. rewrite fmap_app, concat_app. simpl.
  rewrite app_nil_r, app_assoc, removelast_last, <-app_assoc. simpl.
  rewrite length_app in Hlen. simpl in Hlen. by apply Name_parse_relative; [| |lia].
Qed.
End name_roundtrip.

Lemma Name_parse_to_string_witness :
  Name_parse (N:=ascii_numeric) (Name_to_string (mkName [[119; 119; 119]; [99; 111; 109]])) None =
  Ok (mkName [[119; 119; 119]; [99; 111; 109]]).
Proof.
  refine (proj1 (Name_parse_to_string (N:=ascii_numeric)
    [[119; 119; 119]; [99; 111; 109]] Name_root None _ _ _)).
  - apply (List.Forall_cons _ [119; 119; 119]);
      [exact (plain_label_intro [119; 119; 119] ltac:(discriminate) eq_refl)|].
    apply (List.Forall_cons _ [99; 111; 109]);
      [exact (plain_label_intro [99; 111; 109] ltac:(discriminate) eq_refl)|apply List.Forall_nil].
  - discriminate.
  - simpl. lia.
Defined.
