(* ===== verification/Lexer.v ===== *)
(** * Lexer: the tokens of a master file

    [Lexer::next_token] of [client/src/serialize/txt/master_lex.rs]: a state machine
    over the characters of the file, whose state survives from one token to the
    next and whose loop gives up by a failed assertion.  The theorems bound the work of
    a call, show that every token consumes text, and say what a word, a blank and the
    end of a line are read as. *)

From S2P Require Import Prelude Codec Wire Domain Enums RData Text.

Open Scope Z_scope.

Module LexState.
Inductive State : Type :=
  | StartLine
  | RestOfLine
  | Blank
  | List
  | CharData (is_list : bool)
  | Comment (is_list : bool)
  | At
  | Quote
  | Dollar
  | EOL
  | EOF.
End LexState.

Record Lexer : Type := mkLexer {
  txt : list char;
  lx_state : LexState.State;
}.

Definition Lexer_new (t : bytes) : Lexer := mkLexer (str_chars t) LexState.StartLine.

Section lexer.
Context `{N : Numeric}.
Import LexState.

(** [self.txt.next()] for its effect, and [self.peek()]. *)
Definition gobble (self : Lexer) : Lexer := mkLexer (tail (txt self)) (lx_state self).
Definition peek (self : Lexer) : option char := head (txt self).
Definition set_state (self : Lexer) (st : State) : Lexer := mkLexer (txt self) st.

Definition push_to_str (collect : option bytes) (ch : char) : res lexer_error (option bytes) :=
  match collect with
  | Some s => Ok (Some (push s ch))
  | None => Err (IllegalState "collect is None")
  end.

(** [self.txt.next()], a digit. *)
Definition next_digit : M Lexer lexer_error Z := λ self,
  match peek self with
  | None => (Err LexerEOF, self)
  | Some c =>
      match to_digit c with
      | Some d => (Ok d, gobble self)
      | None => (Err (IllegalCharacter c), gobble self)
      end
  end.

Definition escape_seq : M Lexer lexer_error char := λ self,
  let self := gobble self in
  match peek self with
  | None => (Err LexerEOF, self)
  | Some ch =>
      if negb (is_control ch) then
        if is_numeric ch then
          (let* d1 := next_digit in
           let* d2 := next_digit in
           let* d3 := next_digit in
           let val := Z.shiftl d1 16 + Z.shiftl d2 8 + d3 in
           lift (ok_or (char_from_u32 val) (UnrecognizedOctet val))) self
        else (Ok ch, gobble self)
      else (Err (IllegalCharacter ch), self)
  end.

(** How a turn of the loop ends: with the next turn, and its two locals
    [char_data] and [char_data_vec], or with the method's return. *)
Inductive flow : Type :=
  | Continue (self : Lexer) (char_data : option bytes) (char_data_vec : option (list bytes))
  | Return (r : res lexer_error (option Token)) (self : Lexer).

(** [try!] in the loop. *)
Definition try_ {A} (r : res lexer_error A) (self : Lexer) (k : A → flow) : flow :=
  match r with
  | Ok a => k a
  | Err e => Return (Err e) self
  | Panic => Return Panic self
  | Diverge => Return Diverge self
  end.

Definition is_eol (ch : char) : bool := (ch =? 13) || (ch =? 10).
Definition is_word (ch : char) : bool := negb (is_control ch) && negb (is_whitespace ch).

Definition next_token_step (self : Lexer) (cd : option bytes) (cv : option (list bytes)) : flow :=
  let ch := peek self in
  match lx_state self with
  | StartLine =>
      match ch with
      | Some ch =>
          if is_eol ch then Continue (set_state self EOL) cd cv
          else if is_whitespace ch then Continue (set_state self Blank) cd cv
          else Continue (set_state self RestOfLine) cd cv
      | None => Continue (set_state self EOF) cd cv
      end
  | RestOfLine =>
      match ch with
      | Some ch =>
          if ch =? 64 then Continue (set_state self At) cd cv
          else if ch =? 40 then Continue (set_state (gobble self) List) cd (Some [])
          else if ch =? 41 then Return (Err (IllegalCharacter ch)) self
          else if ch =? 36 then Continue (set_state (gobble self) Dollar) (Some []) cv
          else if is_eol ch then Continue (set_state self EOL) cd cv
          else if ch =? 34 then Continue (set_state (gobble self) Quote) (Some []) cv
          else if ch =? 59 then Continue (set_state self (Comment false)) cd cv
          else if is_whitespace ch then Continue (gobble self) cd cv
          else if is_word ch then Continue (set_state self (CharData false)) (Some []) cv
          else Return (Err (UnrecognizedChar ch)) self
      | None => Continue (set_state self EOF) cd cv
      end
  | Blank => Return (Ok (Some Token.Blank)) (set_state (gobble self) RestOfLine)
  | Comment is_list =>
      match ch with
      | Some ch =>
          if is_eol ch then Continue (set_state self (if is_list : bool then List else EOL)) cd cv
          else Continue (gobble self) cd cv
      | None => Continue (set_state self EOF) cd cv
      end
  | Quote =>
      match ch with
      | Some ch =>
          if ch =? 34 then
            Return (Ok (Some (Token.CharData (default [] cd)))) (gobble (set_state self RestOfLine))
          else if ch =? 92 then
            let '(r, self) := escape_seq self in
            try_ r self (λ c, try_ (push_to_str cd c) self (λ cd, Continue self cd cv))
          else
            let self := gobble self in
            try_ (push_to_str cd ch) self (λ cd, Continue self cd cv)
      | None => Return (Err UnclosedQuotedString) self
      end
  | Dollar =>
      let finish :=
        let self := set_state self RestOfLine in
        try_ (ok_or cd (IllegalState "char_data is None")) self (λ dollar,
          if bool_decide (dollar = bytes_of_str "INCLUDE") then Return (Ok (Some Token.Include)) self
          else if bool_decide (dollar = bytes_of_str "ORIGIN") then Return (Ok (Some Token.Origin)) self
          else if bool_decide (dollar = bytes_of_str "TTL") then Return (Ok (Some Token.Ttl)) self
          else
            (* [char_data] has been taken above *)
            Return (Err (UnrecognizedDollar [])) self) in
      match ch with
      | Some ch =>
          if in_range 65 90 ch then
            let self := gobble self in
            try_ (push_to_str cd ch) self (λ cd, Continue self cd cv)
          else finish
      | None => finish
      end
  | List =>
      match ch with
      | Some ch =>
          if ch =? 59 then Continue (set_state (gobble self) (Comment true)) cd cv
          else if ch =? 41 then
            let self := set_state (gobble self) RestOfLine in
            try_ (ok_or cv (IllegalState "char_data_vec is None")) self
              (λ v, Return (Ok (Some (Token.List v))) self)
          else if is_whitespace ch then Continue (gobble self) cd cv
          else if is_word ch then Continue (set_state self (CharData true)) (Some []) cv
          else Return (Err (UnrecognizedChar ch)) self
      | None => Return (Err UnclosedList) self
      end
  | CharData is_list =>
      match ch with
      | Some ch =>
          if (ch =? 41) && negb is_list then Return (Err (IllegalCharacter ch)) self
          else if is_whitespace ch || (ch =? 41) || (ch =? 59) then
            if is_list then
              try_ (ok_or cv (IllegalState "char_data_vec is None")) self (λ v,
                try_ (ok_or cd (IllegalState "char_data is None")) self (λ s,
                  Continue (set_state self List) None (Some (v ++ [s]))))
            else
              let self := set_state self RestOfLine in
              try_ (ok_or cd (IllegalState "char_data is None")) self
                (λ s, Return (Ok (Some (Token.CharData s))) self)
          else if is_word ch then
            let self := gobble self in
            try_ (push_to_str cd ch) self (λ cd, Continue self cd cv)
          else Return (Err (UnrecognizedChar ch)) self
      | None =>
          let self := set_state self EOF in
          try_ (ok_or cd (IllegalState "char_data is None")) self
            (λ s, Return (Ok (Some (Token.CharData s))) self)
      end
  | At => Return (Ok (Some Token.At)) (set_state (gobble self) RestOfLine)
  | EOL =>
      match ch with
      | Some ch =>
          if ch =? 13 then Continue (gobble self) cd cv
          else if ch =? 10 then Return (Ok (Some Token.EOL)) (set_state (gobble self) StartLine)
          else Return (Err (IllegalCharacter ch)) self
      | None => Return (Err LexerEOF) self
      end
  | EOF => Return (Ok None) (gobble self)
  end.

(** The turns with [i] from [4095 - fuel]; the assertion of the turn after the last one
    fails. *)
Fixpoint next_token_loop (fuel : nat) (self : Lexer) (cd : option bytes)
    (cv : option (list bytes)) : res lexer_error (option Token) * Lexer :=
  match fuel with
  | O => (Panic, self)
  | S fuel =>
      match next_token_step self cd cv with
      | Continue self cd cv => next_token_loop fuel self cd cv
      | Return r self => (r, self)
      end
  end.

Definition next_token : M Lexer lexer_error (option Token) := λ self,
  next_token_loop (Z.to_nat 4095) self None None.

(** All the tokens up to the end, with the states between them; for examples. *)
Fixpoint lex_all (fuel : nat) (self : Lexer) : res lexer_error (list Token) :=
  match fuel with
  | O => Diverge
  | S fuel =>
      match next_token self with
      | (Ok (Some t), self) => try* ts := lex_all fuel self in Ok (t :: ts)
      | (Ok None, _) => Ok []
      | (Err e, _) => Err e
      | (Panic, _) => Panic
      | (Diverge, _) => Diverge
      end
  end.
End lexer.

(** ** Progress: every turn lowers a potential, every token consumes text *)

Section progress.
Context `{N : Numeric}.
Import LexState.

(** The states a call can begin in: those that [Lexer::new] and a returned token
    leave. *)
Definition at_boundary (self : Lexer) : Prop :=
  lx_state self = StartLine ∨ lx_state self = RestOfLine ∨ lx_state self = EOF.

(** What holds between two turns of a call that began with [n] characters left. *)
Definition turn_inv (n : nat) (self : Lexer) (cd : option bytes) : Prop :=
  (length (txt self) ≤ n)%nat ∧
  match lx_state self with
  | CharData _ =>
      match cd with
      | None => False
      | Some [] => ∃ ch cs, txt self = ch :: cs ∧ is_word ch = true ∧ ch ≠ 41 ∧ ch ≠ 59
      | Some (_ :: _) => (length (txt self) < n)%nat
      end
  | Quote | List | Dollar | Comment true => (length (txt self) < n)%nat
  | Blank | At => txt self ≠ []
  | _ => True
  end.

Definition rank (st : State) (cd : option bytes) : nat :=
  match st with
  | StartLine => 4
  | RestOfLine => 3
  | Comment _ => 2
  | List => 1
  | CharData _ => match cd with Some (_ :: _) => 2 | _ => 0 end
  | _ => 0
  end.

Definition potential (self : Lexer) (cd : option bytes) : nat :=
  (3 * length (txt self) + rank (lx_state self) cd)%nat.

Lemma next_digit_length d self self' :
  next_digit self = (Ok d, self') → (length (txt self') < length (txt self))%nat ∧ lx_state self' = lx_state self.
Proof.
  unfold next_digit, peek. destruct self as [[|c cs] st]; simpl; [done|].
  destruct (to_digit c); intros [= <- <-]. simpl. split; [lia|done].
Qed.

Lemma escape_seq_length ch self self' :
  escape_seq self = (Ok ch, self') → txt self ≠ [] →
  (length (txt self') < length (txt self))%nat ∧ lx_state self' = lx_state self.
Proof.
  unfold escape_seq, peek. destruct self as [[|b [|c cs]] st]; [done..|]. simpl. intros H _.
  destruct (is_control c); [done|]. simpl in H.
  destruct (is_numeric c); [|simplify_eq; simpl; split; [lia|done]]. inv_ok.
  repeat match goal with H : next_digit _ = _ |- _ => apply next_digit_length in H as [? ?] end.
  simpl in *. split; [lia|congruence].
Qed.

Lemma push_ne s c : push s c ≠ [].
Proof. unfold push. intros [_ H]%app_eq_nil. by apply utf8_encode_ne in H. Qed.

(** The outcome of a turn. *)
Definition flow_ok (n : nat) (pot : nat) (f : flow) : Prop :=
  match f with
  | Continue self cd _ => turn_inv n self cd ∧ (potential self cd < pot)%nat
  | Return (Ok (Some _)) self => (length (txt self) < n)%nat ∧ at_boundary self
  | Return Panic _ | Return Diverge _ => False
  | Return _ _ => True
  end.

Lemma try_push_ok n pot cd c self k cv :
  (∀ s, cd = Some s → flow_ok n pot (Continue self (Some (push s c)) cv)) →
  (∀ cd, k cd = Continue self cd cv) → flow_ok n pot (try_ (push_to_str cd c) self k).
Proof. intros H Hk. destruct cd as [s|]; simpl; [|done]. rewrite Hk. by apply H. Qed.

Lemma quote_step_ok n self cd cv : turn_inv n self cd → lx_state self = Quote →
  flow_ok n (potential self cd) (next_token_step self cd cv).
Proof.
  intros [Hle Hst] Eq. rewrite Eq in Hst. unfold next_token_step. rewrite Eq. unfold peek.
  destruct (txt self) as [|ch cs] eqn:Et; [done|]. cbn [head].
  destruct (ch =? 34); [simpl; rewrite Et; simpl in *; split; [lia|by right; left]|].
  destruct (ch =? 92).
  - destruct (escape_seq self) as [[c|e| |] self'] eqn:E; simpl; try done.
    + apply escape_seq_length in E as [Hl Es]; [|by rewrite Et]. rewrite Et in Hl. simpl in *.
      apply try_push_ok with (cv:=cv); [|done]. intros s ->. simpl. unfold turn_inv, potential.
      rewrite Es, Eq, Et. simpl. lia.
    + unfold escape_seq in E. repeat case_match; simplify_eq.
      unfold bind, next_digit, lift in E. repeat case_match; simplify_eq. all: by destruct (char_from_u32 _).
    + unfold escape_seq in E. repeat case_match; simplify_eq.
      unfold bind, next_digit, lift in E. repeat case_match; simplify_eq. all: by destruct (char_from_u32 _).
  - apply try_push_ok with (cv:=cv); [|done]. intros s ->. simpl. unfold turn_inv, potential.
    simpl. rewrite Eq, Et. simpl in *. lia.
Qed.

Lemma is_word_spec ch : is_word ch = true ↔ is_control ch = false ∧ is_whitespace ch = false.
Proof. unfold is_word. rewrite andb_true_iff, !negb_true_iff. done. Qed.

Lemma next_token_step_ok n self cd cv : turn_inv n self cd →
  flow_ok n (potential self cd) (next_token_step self cd cv).
Proof.
  intros Hinv. destruct (lx_state self) eqn:Eq; try (by apply quote_step_ok);
    destruct Hinv as [Hle Hst]; rewrite Eq in Hst; destruct self as [[|ch cs] st]; simpl in *; subst st;
    unfold next_token_step, peek, gobble, set_state; simpl; unfold push_to_str, ok_or, try_;
    repeat case_match; simplify_eq;
    unfold flow_ok, turn_inv, potential, at_boundary; simpl in *; simplify_eq; try done; try tauto;
    split_and?; try done; try lia; try tauto.
  all: try (eexists _, _; split_and!; [done..| |]; by apply Z.eqb_neq).
  all: try (destruct Hst as (? & ? & E' & Hw & ? & ?); simplify_eq; apply is_word_spec in Hw as [? Hw]).
  all: try (case_match eqn:Ep; [by apply push_ne in Ep|lia]).
  all: repeat match goal with
    | H : _ || _ = true |- _ => apply orb_true_iff in H as [H|H]
    | H : (_ =? _) = true |- _ => apply Z.eqb_eq in H
    end; congruence.
Qed.

Lemma next_token_loop_ok n fuel self cd cv :
  turn_inv n self cd → (potential self cd < fuel)%nat →
  match next_token_loop fuel self cd cv with
  | (Ok (Some _), self') => (length (txt self') < n)%nat ∧ at_boundary self'
  | (Panic, _) | (Diverge, _) => False
  | _ => True
  end.
Proof.
  revert self cd cv. induction fuel as [|fuel IH]; intros self cd cv Hinv Hp; [lia|]. simpl.
  pose proof (next_token_step_ok n self cd cv Hinv) as Hs.
  destruct (next_token_step self cd cv) as [self' cd' cv'|r self']; simpl in Hs.
  - apply IH; [tauto|lia].
  - by destruct r as [[t|]|e| |].
Qed.

(** Whatever the number of turns, a returned token has consumed text. *)
Lemma next_token_loop_consumes n fuel self cd cv t self' :
  turn_inv n self cd → next_token_loop fuel self cd cv = (Ok (Some t), self') →
  (length (txt self') < n)%nat ∧ at_boundary self'.
Proof.
  revert self cd cv. induction fuel as [|fuel IH]; intros self cd cv Hinv Hp; [done|]. simpl in Hp.
  pose proof (next_token_step_ok n self cd cv Hinv) as Hs.
  destruct (next_token_step self cd cv) as [self1 cd' cv'|r self1]; simpl in Hs.
  - eapply IH; [|done]. tauto.
  - by simplify_eq.
Qed.

Lemma next_token_loop_no_diverge fuel self cd cv n :
  turn_inv n self cd → (next_token_loop fuel self cd cv).1 ≠ Diverge.
Proof.
  revert self cd cv. induction fuel as [|fuel IH]; intros self cd cv Hinv; [done|]. simpl.
  pose proof (next_token_step_ok n self cd cv Hinv) as Hs.
  destruct (next_token_step self cd cv) as [self1 cd' cv'|r self1]; simpl in Hs.
  - apply IH. tauto.
  - by destruct r as [[]| | |].
Qed.

Lemma boundary_inv self : at_boundary self → turn_inv (length (txt self)) self None.
Proof. intros H. split; [lia|]. by destruct H as [->|[->| ->]]. Qed.

Lemma next_token_consumes self t self' :
  at_boundary self → next_token self = (Ok (Some t), self') →
  (length (txt self') < length (txt self))%nat ∧ at_boundary self'.
Proof. intros H. apply next_token_loop_consumes. by apply boundary_inv. Qed.

Lemma next_token_no_diverge self : at_boundary self → (next_token self).1 ≠ Diverge.
Proof. intros H. eapply next_token_loop_no_diverge. by apply boundary_inv. Qed.

Lemma next_token_returns self :
  at_boundary self → (length (txt self) ≤ 1363)%nat →
  (next_token self).1 ≠ Panic.
Proof.
  intros H Hlen. unfold next_token.
  pose proof (next_token_loop_ok _ (Z.to_nat 4095) self None None (boundary_inv _ H)) as Hok.
  assert (potential self None < Z.to_nat 4095)%nat as Hp.
  { unfold potential. destruct H as [->|[->| ->]]; simpl rank; lia. }
  specialize (Hok Hp). by destruct (next_token_loop _ _ _ _) as [[[]| | |] ?].
Qed.
End progress.

(** ** What a line is read as *)

(** The items of a line: a bare word, a quoted string, a parenthesised group of
    words. *)
Inductive item : Type :=
  | Word (w : list char)
  | Quoted (w : list char)
  | Group (ws : list (list char)).

Definition word_char (c : char) : bool := is_word c && negb (c =? 41) && negb (c =? 59).

(** A word does not begin with a character that has a meaning of its own there. *)
Definition word_ok (w : list char) : bool :=
  forallb word_char w &&
  match w with
  | [] => false
  | c :: _ => negb ((c =? 64) || (c =? 40) || (c =? 36) || (c =? 34))
  end.

Definition item_ok (i : item) : bool :=
  match i with
  | Word w => word_ok w
  | Quoted w => forallb (λ c, negb ((c =? 34) || (c =? 92))) w
  | Group ws => forallb (λ w, forallb word_char w && bool_decide (w ≠ [])) ws
  end.

Definition token_of (i : item) : Token :=
  match i with
  | Word w | Quoted w => Token.CharData (string_of w)
  | Group ws => Token.List (string_of <$> ws)
  end.

Definition render (i : item) : list char :=
  match i with
  | Word w => w
  | Quoted w => 34 :: w ++ [34]
  | Group ws => 40 :: concat ((λ w, w ++ [32]) <$> ws) ++ [41]
  end.

(** A line: its items, each followed by a blank, and the line feed. *)
Definition render_line (its : list item) : list char := concat ((λ i, render i ++ [32]) <$> its) ++ [10].

Section lines.
Context `{N : Numeric}.
Import LexState.

(** The successive tokens of a text. *)
Inductive lexes : Lexer → list Token → Lexer → Prop :=
  | lexes_nil lx : lexes lx [] lx
  | lexes_cons lx t lx' ts lx'' :
      next_token lx = (Ok (Some t), lx') → lexes lx' ts lx'' → lexes lx (t :: ts) lx''.

Lemma lex_loop_mono k m self cd cv r self' :
  next_token_loop k self cd cv = (r, self') → r ≠ Panic →
  next_token_loop (k + m) self cd cv = (r, self').
Proof.
  revert self cd cv. induction k as [|k IH]; intros self cd cv H Hr; simpl in *; [by simplify_eq|].
  destruct (next_token_step self cd cv); [by apply IH|done].
Qed.

Lemma next_token_of_loop k self r self' :
  next_token_loop k self None None = (r, self') → r ≠ Panic → (k ≤ 4095)%nat →
  next_token self = (r, self').
Proof.
  intros H Hr Hk. unfold next_token. replace (Z.to_nat 4095) with (k + (Z.to_nat 4095 - k))%nat by lia.
  by apply lex_loop_mono.
Qed.

Lemma word_char_spec c : word_char c = true ↔ is_word c = true ∧ c ≠ 41 ∧ c ≠ 59.
Proof. unfold word_char. rewrite !andb_true_iff, !negb_true_iff, !Z.eqb_neq. tauto. Qed.

Lemma word_char_step c rest b s cv : word_char c = true →
  next_token_step (mkLexer (c :: rest) (CharData b)) (Some s) cv =
  Continue (mkLexer rest (CharData b)) (Some (push s c)) cv.
Proof.
  intros (Hw & H41 & H59)%word_char_spec. unfold next_token_step. simpl.
  apply Z.eqb_neq in H41, H59. pose proof Hw as [_ Hs]%is_word_spec.
  by rewrite H41, H59, Hs, Hw.
Qed.

Lemma loop_word w rest b s cv k : forallb word_char w = true →
  next_token_loop (length w + k) (mkLexer (w ++ rest) (CharData b)) (Some s) cv =
  next_token_loop k (mkLexer rest (CharData b)) (Some (s ++ string_of w)) cv.
Proof.
  revert s. induction w as [|c w IH]; intros s H.
  { simpl. by rewrite app_nil_r. }
  simpl in H. apply andb_true_iff in H as [Hc Hw].
  cbn [length plus app next_token_loop]. rewrite word_char_step by done. rewrite IH by done.
  unfold push. change (string_of (c :: w)) with (utf8_encode c ++ string_of w). by rewrite app_assoc.
Qed.

Lemma loop_quoted w rest s cv k : forallb (λ c, negb ((c =? 34) || (c =? 92))) w = true →
  next_token_loop (length w + k) (mkLexer (w ++ rest) Quote) (Some s) cv =
  next_token_loop k (mkLexer rest Quote) (Some (s ++ string_of w)) cv.
Proof.
  revert s. induction w as [|c w IH]; intros s H.
  { simpl. by rewrite app_nil_r. }
  simpl in H. apply andb_true_iff in H as [Hc Hw]. apply negb_true_iff, orb_false_iff in Hc as [Hq Hb].
  cbn [length plus app next_token_loop]. unfold next_token_step. simpl. rewrite Hq, Hb. simpl.
  rewrite IH by done.
  unfold push. change (string_of (c :: w)) with (utf8_encode c ++ string_of w). by rewrite app_assoc.
Qed.

(** A word of a group takes its characters and three turns more. *)
Lemma loop_group_word w rest v cd k :
  forallb word_char w = true → w ≠ [] →
  next_token_loop (length w + 3 + k) (mkLexer (w ++ 32 :: rest) List) cd (Some v) =
  next_token_loop k (mkLexer rest List) None (Some (v ++ [string_of w])).
Proof.
  intros Hw Hne. destruct w as [|c w]; [done|].
  replace (length (c :: w) + 3 + k)%nat with (S (length (c :: w) + S (S k)))%nat by lia.
  cbn [next_token_loop].
  assert (Hstep : next_token_step (mkLexer ((c :: w) ++ 32 :: rest) List) cd (Some v) =
    Continue (mkLexer ((c :: w) ++ 32 :: rest) (CharData true)) (Some []) (Some v)).
  { simpl in Hw. apply andb_true_iff in Hw as [(Hc & H41 & H59)%word_char_spec _].
    unfold next_token_step. simpl. apply Z.eqb_neq in H41, H59. pose proof Hc as [_ Hs]%is_word_spec.
    by rewrite H41, H59, Hs, Hc. }
  rewrite Hstep, loop_word by done. done.
Qed.

Lemma loop_group ws rest v cd k :
  forallb (λ w, forallb word_char w && bool_decide (w ≠ [])) ws = true →
  next_token_loop (length (concat ((λ w, w ++ [32]) <$> ws)) + 2 * length ws + S k)
    (mkLexer (concat ((λ w, w ++ [32]) <$> ws) ++ 41 :: rest) List) cd (Some v) =
  (Ok (Some (Token.List (v ++ (string_of <$> ws)))), mkLexer rest RestOfLine).
Proof.
  revert v cd. induction ws as [|w ws IH]; intros v cd H.
  { simpl. by rewrite app_nil_r. }
  cbn [forallb] in H. apply andb_true_iff in H as [Hw Hws].
  apply andb_true_iff in Hw as [Hw Hne%bool_decide_eq_true]. rewrite !fmap_cons. cbn [concat].
  rewrite <-!app_assoc, !length_app. cbn [length app].
  set (n := length (concat _)).
  replace (length w + (1 + n) + 2 * S (length ws) + S k)%nat with
    (length w + 3 + (n + 2 * length ws + S k))%nat by lia.
  rewrite loop_group_word by done. rewrite IH by done. by rewrite <-app_assoc.
Qed.

Definition item_size (i : item) : nat :=
  match i with Word w | Quoted w => length w | Group ws => length (render i) + 2 * length ws end.

Lemma loop_item_word w rest : word_ok w = true →
  next_token_loop (S (length w + 1)) (mkLexer (w ++ 32 :: rest) RestOfLine) None None =
  (Ok (Some (Token.CharData (string_of w))), mkLexer (32 :: rest) RestOfLine).
Proof.
  intros Hok. apply andb_true_iff in Hok as [Hw Hf]. destruct w as [|c w]; [done|].
  apply negb_true_iff, orb_false_iff in Hf as [Hf H34]. apply orb_false_iff in Hf as [Hf H36].
  apply orb_false_iff in Hf as [H64 H40].
  assert (Hc : word_char c = true) by (by apply andb_true_iff in Hw as [? _]).
  apply word_char_spec in Hc as (Hc & H41 & H59). apply Z.eqb_neq in H41, H59.
  pose proof Hc as [Hctl Hs]%is_word_spec.
  assert (He : is_eol c = false).
  { unfold is_eol. destruct (Z.eqb_spec c 13) as [->|]; [done|]. by destruct (Z.eqb_spec c 10) as [->|]. }
  cbn [next_token_loop]. unfold next_token_step at 1. simpl lx_state. cbv iota.
  unfold peek, txt. cbn [app head]. rewrite H64, H40, H41, H36, He, H34, H59, Hs, Hc.
  unfold set_state. cbn [txt].
  change (c :: w ++ 32 :: rest) with ((c :: w) ++ 32 :: rest). by rewrite loop_word.
Qed.

Lemma loop_item i rest : item_ok i = true → (item_size i ≤ 4000)%nat →
  ∃ k, (k ≤ 4080)%nat ∧
    next_token_loop k (mkLexer (render i ++ 32 :: rest) RestOfLine) None None =
    (Ok (Some (token_of i)), mkLexer (32 :: rest) RestOfLine).
Proof.
  intros Hok Hsz. destruct i as [w|w|ws]; cbn [item_size render item_ok token_of] in *.
  - exists (S (length w + 1)). split; [lia|]. by apply loop_item_word.
  - exists (S (length w + 1)). split; [lia|].
    cbn [app next_token_loop]. unfold next_token_step at 1. simpl lx_state. cbv iota.
    unfold gobble, set_state. cbn [peek txt head Z.eqb Pos.eqb is_eol orb tail].
    rewrite <-app_assoc, loop_quoted by done. done.
  - exists (S (length (concat ((λ w, w ++ [32%Z]) <$> ws)) + 2 * length ws + 1))%nat.
    cbn [length] in Hsz. rewrite length_app in Hsz. cbn [length] in Hsz. split; [lia|].
    cbn [app next_token_loop]. unfold next_token_step at 1. simpl lx_state. cbv iota.
    unfold gobble, set_state. cbn [peek txt head Z.eqb Pos.eqb is_eol orb tail].
    rewrite <-app_assoc. cbn [app]. by rewrite loop_group.
Qed.

Lemma next_token_item i rest : item_ok i = true → (item_size i ≤ 4000)%nat →
  next_token (mkLexer (32 :: render i ++ 32 :: rest) RestOfLine) =
  (Ok (Some (token_of i)), mkLexer (32 :: rest) RestOfLine).
Proof.
  intros Hok Hsz. destruct (loop_item i rest Hok Hsz) as (k & Hk & E).
  by apply next_token_of_loop with (S k); [|done|lia].
Qed.

Lemma render_head i : item_ok i = true →
  ∃ c cs, render i = c :: cs ∧ is_eol c = false ∧ is_whitespace c = false.
Proof.
  destruct i as [w|w|ws]; simpl; [|by eexists _, _..].
  intros [Hw Hf]%andb_true_iff. destruct w as [|c w]; [done|]. exists c, w. split; [done|].
  simpl in Hw. apply andb_true_iff in Hw as [((Hctl & Hs)%is_word_spec & _)%word_char_spec _].
  split; [|done]. unfold is_eol.
  destruct (Z.eqb_spec c 13) as [->|]; [done|]. by destruct (Z.eqb_spec c 10) as [->|].
Qed.

Lemma next_token_first i rest : item_ok i = true → (item_size i ≤ 4000)%nat →
  next_token (mkLexer (render i ++ 32 :: rest) StartLine) =
  (Ok (Some (token_of i)), mkLexer (32 :: rest) RestOfLine).
Proof.
  intros Hok Hsz. destruct (loop_item i rest Hok Hsz) as (k & Hk & E).
  apply next_token_of_loop with (S k); [|done|lia]. cbn [next_token_loop].
  destruct (render_head i Hok) as (c & cs & Er & He & Hs). rewrite Er in *.
  unfold next_token_step at 1. simpl lx_state. cbv iota. unfold peek, txt. cbn [app head].
  by rewrite He, Hs.
Qed.

Lemma next_token_newline rest :
  next_token (mkLexer (32 :: 10 :: rest) RestOfLine) = (Ok (Some Token.EOL), mkLexer rest StartLine).
Proof. by apply next_token_of_loop with 3%nat; [|done|lia]. Qed.

Definition items_ok (its : list item) : Prop :=
  Forall (λ i, item_ok i = true ∧ (item_size i ≤ 4000)%nat) its.

(** After its first item a line yields the others. *)
Lemma lexes_items its rest : items_ok its →
  lexes (mkLexer (32 :: concat ((λ i, render i ++ [32]) <$> its) ++ rest) RestOfLine)
    (token_of <$> its) (mkLexer (32 :: rest) RestOfLine).
Proof.
  induction 1 as [|i its [Hok Hsz] _ IH]; [constructor|].
  rewrite !fmap_cons. cbn [concat app]. rewrite <-!app_assoc. cbn [app].
  eapply lexes_cons; [by apply next_token_item|done].
Qed.

Lemma lexes_unfinished its rest : items_ok its → its ≠ [] →
  lexes (mkLexer (concat ((λ i, render i ++ [32]) <$> its) ++ rest) StartLine)
    (token_of <$> its) (mkLexer (32 :: rest) RestOfLine).
Proof.
  intros Hok Hne. destruct its as [|i its]; [done|]. inversion_clear Hok as [|? ? [Hi Hsz] Hits].
  rewrite !fmap_cons. cbn [concat app]. rewrite <-!app_assoc. cbn [app].
  eapply lexes_cons; [by apply next_token_first|by apply lexes_items].
Qed.

Lemma lexes_app lx ts lx' ts' lx'' : lexes lx ts lx' → lexes lx' ts' lx'' → lexes lx (ts ++ ts') lx''.
Proof. induction 1; [done|]. intros. econstructor; eauto. Qed.

Lemma lexes_line its rest : items_ok its → its ≠ [] →
  lexes (mkLexer (render_line its ++ rest) StartLine) ((token_of <$> its) ++ [Token.EOL])
    (mkLexer rest StartLine).
Proof.
  intros Hok Hne. unfold render_line. rewrite <-app_assoc. cbn [app].
  eapply lexes_app; [by apply lexes_unfinished|]. eapply lexes_cons; [apply next_token_newline|constructor].
Qed.

Lemma lexes_lines lines rest :
  Forall (λ its, items_ok its ∧ its ≠ []) lines →
  lexes (mkLexer (concat (render_line <$> lines) ++ rest) StartLine)
    (concat ((λ its, (token_of <$> its) ++ [Token.EOL]) <$> lines)) (mkLexer rest StartLine).
Proof.
  induction 1 as [|its lines [Hok Hne] _ IH]; [constructor|]. rewrite !fmap_cons. cbn [concat].
  rewrite <-(app_assoc (render_line its)). eapply lexes_app; [by apply lexes_line|done].
Qed.

(** ** Comments, blanks, [@] and control words *)

(** How a line ends: with an optional comment, and a line feed that a carriage return may precede. *)
Record ending : Type := mkEnding {
  en_comment : option (list char);
  en_crlf : bool;
}.

Definition ending_ok (e : ending) : Prop :=
  Forall (λ c, is_eol c = false) (default [] (en_comment e)) ∧ (length (default [] (en_comment e)) ≤ 4000)%nat.

Definition render_ending (e : ending) : list char :=
  from_option (cons 59) [] (en_comment e) ++ (if en_crlf e then [13; 10] else [10]).

Lemma loop_comment_skip cs rest k :
  Forall (λ c, is_eol c = false) cs →
  next_token_loop (length cs + k) (mkLexer (cs ++ rest) (Comment false)) None None =
  next_token_loop k (mkLexer rest (Comment false)) None None.
Proof.
  induction 1 as [|c cs Hc _ IH]; [done|]. cbn [length plus app next_token_loop].
  unfold next_token_step at 1. simpl lx_state. cbv iota. unfold peek. cbn [txt head]. by rewrite Hc.
Qed.

(** The end of a line, after a blank or without one, at its start or later. *)
Lemma next_token_ending (sp : bool) st e rest :
  ending_ok e → st = RestOfLine ∨ st = StartLine ∧ sp = false →
  next_token (mkLexer ((if sp then [32] else []) ++ render_ending e ++ rest) st) =
  (Ok (Some Token.EOL), mkLexer rest StartLine).
Proof.
  intros [Hc Hl] Hst. destruct e as [[cs|] crlf]; unfold render_ending in *; cbn [from_option default en_comment en_crlf] in *.
  - assert (Hc' : Forall (λ c, is_eol c = false) (59 :: cs)) by (by constructor).
    assert (Hskip : ∀ k, (3 ≤ k)%nat → next_token_loop (length (59 :: cs) + k)
        (mkLexer ((59 :: cs) ++ (if crlf : bool then [13; 10] else [10]) ++ rest) (Comment false)) None None =
      (Ok (Some Token.EOL), mkLexer rest StartLine)).
    { intros k Hk. rewrite loop_comment_skip by done. destruct k as [|[|[|k]]]; [lia..|]. by destruct crlf. }
    apply next_token_of_loop with (2 + (S (length cs) + 3))%nat; [|done|unfold id in Hl; lia].
    rewrite <-!app_assoc. pose proof (Hskip 3%nat ltac:(lia)) as H3. pose proof (Hskip 4%nat ltac:(lia)) as H4.
    rewrite Nat.add_succ_r in H4. destruct sp, Hst as [->|[-> [=]]]; assumption.
  - destruct sp, Hst as [->|[-> [=]]], crlf; by apply next_token_of_loop with 5%nat; [|done|lia].
Qed.

Lemma next_token_blank rest :
  next_token (mkLexer (32 :: rest) StartLine) = (Ok (Some Token.Blank), mkLexer rest RestOfLine).
Proof. by apply next_token_of_loop with 2%nat; [|done|lia]. Qed.

Lemma next_token_at_sign rest :
  next_token (mkLexer (64 :: 32 :: rest) StartLine) = (Ok (Some Token.At), mkLexer (32 :: rest) RestOfLine).
Proof. by apply next_token_of_loop with 3%nat; [|done|lia]. Qed.

Lemma next_token_origin rest :
  next_token (mkLexer (36 :: bytes_of_str "ORIGIN" ++ 32 :: rest) StartLine) =
  (Ok (Some Token.Origin), mkLexer (32 :: rest) RestOfLine).
Proof. by apply next_token_of_loop with 9%nat; [|done|lia]. Qed.

Lemma next_token_ttl rest :
  next_token (mkLexer (36 :: bytes_of_str "TTL" ++ 32 :: rest) StartLine) =
  (Ok (Some Token.Ttl), mkLexer (32 :: rest) RestOfLine).
Proof. by apply next_token_of_loop with 6%nat; [|done|lia]. Qed.

(** The items of a line that begins with a blank. *)
Lemma lexes_items_now its rest : items_ok its → its ≠ [] →
  lexes (mkLexer (concat ((λ i, render i ++ [32]) <$> its) ++ rest) RestOfLine)
    (token_of <$> its) (mkLexer (32 :: rest) RestOfLine).
Proof.
  intros Hok Hne. destruct its as [|i its]; [done|]. inversion_clear Hok as [|? ? [Hi Hsz] Hits].
  rewrite !fmap_cons. cbn [concat app]. rewrite <-!app_assoc. cbn [app].
  destruct (loop_item i (concat ((λ i, render i ++ [32]) <$> its) ++ rest) Hi Hsz) as (k & Hk & E).
  eapply lexes_cons; [by apply next_token_of_loop with k; [exact E|done|lia]|by apply lexes_items].
Qed.

(** ** The limit of a call *)

Lemma loop_comment cs rest cd cv k b :
  Forall (λ c, is_eol c = false) cs → (k ≤ length cs)%nat →
  (next_token_loop k (mkLexer (cs ++ rest) (Comment b)) cd cv).1 = Panic.
Proof.
  intros H. revert k. induction H as [|c cs Hc _ IH]; intros k Hk; simpl in Hk.
  { by replace k with 0%nat by lia. }
  destruct k as [|k]; [done|]. cbn [next_token_loop app]. unfold next_token_step at 1. simpl lx_state.
  cbv iota. unfold peek. cbn [txt head]. rewrite Hc. apply IH. lia.
Qed.
End lines.

(** ** The lexer's contract *)

Section contract.
Context `{N : Numeric}.

(** Every call ends.  A token is paid for with at least one character and leaves the
    lexer where the next call can begin, so a file has at most as many tokens as
    characters; a call with at most 1363 characters left never trips the assertion on
    the number of turns, but a comment of 4094 characters or more always does: the
    process that loads such a file dies. *)
Theorem next_token_bounded self :
  at_boundary self →
  (next_token self).1 ≠ Diverge ∧
  (∀ t self', next_token self = (Ok (Some t), self') →
     (length (txt self') < length (txt self))%nat ∧ at_boundary self') ∧
  ((length (txt self) ≤ 1363)%nat → (next_token self).1 ≠ Panic) ∧
  (∀ cs rest, lx_state self = LexState.RestOfLine → txt self = 59 :: cs ++ rest →
     Forall (λ c, is_eol c = false) cs → (4093 ≤ length cs)%nat → (next_token self).1 = Panic).
Proof.
  intros Hb. split_and!; [by apply next_token_no_diverge| |by apply next_token_returns|].
  - intros t self'. by apply next_token_consumes.
  - intros cs rest Hst Htxt Hcs Hlen. destruct self as [t st]. simpl in *. subst.
    unfold next_token. replace (Z.to_nat 4095) with (2 + Z.to_nat 4093)%nat by lia.
    change (next_token_loop (2 + Z.to_nat 4093) _ _ _) with
      (next_token_loop (Z.to_nat 4093) (mkLexer (cs ++ rest) (LexState.Comment false)) None None).
    apply loop_comment; [done|lia].
Qed.

(** Lines of words, quoted strings and parenthesised groups, each item no longer than
    4000 characters, are read as exactly these items, each line closed by an [EOL]. *)
Theorem lex_lines lines rest :
  Forall (λ its, items_ok its ∧ its ≠ []) lines →
  lexes (mkLexer (concat (render_line <$> lines) ++ rest) LexState.StartLine)
    (concat ((λ its, (token_of <$> its) ++ [Token.EOL]) <$> lines))
    (mkLexer rest LexState.StartLine).
Proof.
  apply lexes_lines.
Qed.
End contract.

Lemma next_token_bounded_witness :
  (next_token (N:=ascii_numeric) (mkLexer (59 :: replicate (Z.to_nat 4093) 97 ++ []) LexState.RestOfLine)).1 = Panic.
Proof.
  refine (proj2 (proj2 (proj2 (next_token_bounded (N:=ascii_numeric)
    (mkLexer (59 :: replicate (Z.to_nat 4093) 97 ++ []) LexState.RestOfLine) _)))
    (replicate (Z.to_nat 4093) 97) [] eq_refl eq_refl _ _).
  - right. left. reflexivity.
  - apply Forall_replicate. reflexivity.
  - rewrite length_replicate. lia.
Defined.

Lemma lex_lines_witness :
  lexes (N:=ascii_numeric)
    (mkLexer (concat (render_line <$> [[Word [97]; Quoted [98; 32]; Group [[49]; [50]]]]) ++ [99])
       LexState.StartLine)
    [Token.CharData [97]; Token.CharData [98; 32]; Token.List [[49]; [50]]; Token.EOL]
    (mkLexer [99] LexState.StartLine).
Proof.
  refine (lex_lines (N:=ascii_numeric) [[Word [97]; Quoted [98; 32]; Group [[49]; [50]]]] [99] _).
  apply List.Forall_cons; [|apply List.Forall_nil]. split; [|discriminate].
  unfold items_ok. repeat (apply List.Forall_cons; [split; [reflexivity|simpl; lia]|]). apply List.Forall_nil.
Defined.
