(* ===== verification/Master.v ===== *)
(** * Master: zones from master files

    [Parser::parse] and [parse_time] of [client/src/serialize/txt/master.rs], the
    [parse] functions of [client/src/rr/rdata/*.rs] and [RData::parse] of
    [record_data.rs].  The parser is a state machine over the lexer's tokens that fills
    the map of record sets an authority is made of. *)

From S2P Require Import Prelude Codec Wire Domain Enums RData Resource RecordSet BTree.
From S2P Require Import Header KeyPair Signer Message Journal Authority AuthorityProps Returns Text Lexer.

Open Scope Z_scope.

(** ** Record data from tokens *)

(** [token.next().ok_or(MissingToken(what)).and_then(|t| if let CharData(s) = t ..)] *)
Definition next_char_data (what : string) (tokens : list Token) :
    res parse_error (bytes * list Token) :=
  match tokens with
  | [] => Err (MissingToken what)
  | Token.CharData s :: tokens => Ok (s, tokens)
  | t :: _ => Err (UnexpectedToken t)
  end.

(** [list.next().ok_or(MissingToken(what))] *)
Definition next_string (what : string) (l : list bytes) : res parse_error (bytes * list bytes) :=
  match l with
  | [] => Err (MissingToken what)
  | s :: l => Ok (s, l)
  end.

Section rdata_parse.
Context `{N : Numeric}.

Definition a_parse (tokens : list Token) : res parse_error Ipv4Addr :=
  try* s := next_char_data "ipv4 address" tokens in
  parse_ipv4 s.1.

Definition aaaa_parse (tokens : list Token) : res parse_error Ipv6Addr :=
  try* s := next_char_data "ipv6 address" tokens in
  parse_ipv6 s.1.

Definition mx_parse (tokens : list Token) (origin : option Name) : res parse_error MX :=
  try* s := next_char_data "preference" tokens in
  try* preference := parse_u16 s.1 in
  try* s := next_char_data "exchange" s.2 in
  try* exchange := Name_parse s.1 origin in
  Ok (mkMX preference exchange).

Definition name_parse (tokens : list Token) (origin : option Name) : res parse_error Name :=
  try* s := next_char_data "name" tokens in
  Name_parse s.1 origin.

(** [unimplemented!()] *)
Definition null_parse (tokens : list Token) : res parse_error NULL := Panic.

Definition soa_parse (tokens : list Token) (origin : option Name) : res parse_error SOA :=
  try* s := next_char_data "mname" tokens in
  try* mname := Name_parse s.1 origin in
  try* s := next_char_data "rname" s.2 in
  try* rname := Name_parse s.1 origin in
  try* l := match s.2 with
               | [] => Err (MissingToken "List")
               | Token.List v :: _ => Ok v
               | t :: _ => Err (UnexpectedToken t)
               end in
  try* s := next_string "serial" l in
  try* serial := parse_u32 s.1 in
  try* s := next_string "refresh" s.2 in
  try* refresh := parse_i32 s.1 in
  try* s := next_string "retry" s.2 in
  try* retry := parse_i32 s.1 in
  try* s := next_string "expire" s.2 in
  try* expire := parse_i32 s.1 in
  try* s := next_string "minimum" s.2 in
  try* minimum := parse_u32 s.1 in
  Ok (mkSOA mname rname serial refresh retry expire minimum).

Definition srv_parse (tokens : list Token) (origin : option Name) : res parse_error SRV :=
  try* s := next_char_data "priority" tokens in
  try* priority := parse_u16 s.1 in
  try* s := next_char_data "weight" s.2 in
  try* weight := parse_u16 s.1 in
  try* s := next_char_data "port" s.2 in
  try* port := parse_u16 s.1 in
  try* s := next_char_data "target" s.2 in
  try* target := Name_parse s.1 origin in
  Ok (mkSRV priority weight port target).

Fixpoint txt_parse_loop (txt_data : list bytes) (tokens : list Token) : res parse_error (list bytes) :=
  match tokens with
  | [] => Ok txt_data
  | Token.CharData s :: tokens => txt_parse_loop (txt_data ++ [s]) tokens
  | t :: _ => Err (UnexpectedToken t)
  end.
Definition txt_parse (tokens : list Token) : res parse_error TXT :=
  try* txt_data := txt_parse_loop [] tokens in Ok (mkTXT txt_data).

(** Types whose text form makes no sense, or whose records the zone makes itself,
    panic. *)
Definition RData_parse (record_type : RecordType) (tokens : list Token) (origin : option Name) :
    res parse_error RData :=
  match record_type with
  | RecordType.A => try* x := a_parse tokens in Ok (RData.A x)
  | RecordType.AAAA => try* x := aaaa_parse tokens in Ok (RData.AAAA x)
  | RecordType.ANY | RecordType.AXFR => Panic
  | RecordType.CNAME => try* x := name_parse tokens origin in Ok (RData.CNAME x)
  | RecordType.KEY | RecordType.DNSKEY | RecordType.DS | RecordType.IXFR => Panic
  | RecordType.MX => try* x := mx_parse tokens origin in Ok (RData.MX x)
  | RecordType.NULL => try* x := null_parse tokens in Ok (RData.NULL x)
  | RecordType.NS => try* x := name_parse tokens origin in Ok (RData.NS x)
  | RecordType.NSEC | RecordType.NSEC3 | RecordType.NSEC3PARAM | RecordType.OPT => Panic
  | RecordType.PTR => try* x := name_parse tokens origin in Ok (RData.PTR x)
  | RecordType.RRSIG | RecordType.SIG => Panic
  | RecordType.SOA => try* x := soa_parse tokens origin in Ok (RData.SOA x)
  | RecordType.SRV => try* x := srv_parse tokens origin in Ok (RData.SRV x)
  | RecordType.TXT => try* x := txt_parse tokens in Ok (RData.TXT x)
  end.
End rdata_parse.

(** ** [parse_time] *)

(** [u32] arithmetic that panics on overflow. *)
Definition checked_u32 {E} (z : Z) : res E Z := if z <=? u32_max then Ok z else Panic.

(** The factor of a unit. *)
Definition time_unit (c : char) : option Z :=
  if (c =? 83) || (c =? 115) then Some 1
  else if (c =? 77) || (c =? 109) then Some 60
  else if (c =? 72) || (c =? 104) then Some 3600
  else if (c =? 68) || (c =? 100) then Some 86400
  else if (c =? 87) || (c =? 119) then Some 604800
  else None.

Fixpoint parse_time_loop (ttl_str : bytes) (value collect : Z) (cs : list char) : res parse_error Z :=
  match cs with
  | [] => checked_u32 (value + collect)
  | c :: cs =>
      if in_range 48 57 c then
        try* collect := checked_u32 (collect * 10) in
        try* d := ok_or (to_digit c) (CharToIntError c) in
        try* collect := checked_u32 (collect + d) in
        parse_time_loop ttl_str value collect cs
      else
        match time_unit c with
        | Some f =>
            try* product := checked_u32 (collect * f) in
            try* value := checked_u32 (value + product) in
            parse_time_loop ttl_str value 0 cs
        | None => Err (ParseTimeError ttl_str)
        end
  end.

Definition parse_time (ttl_str : bytes) : res parse_error Z :=
  parse_time_loop ttl_str 0 0 (str_chars ttl_str).

(** ** [Parser::parse] *)

Module MasterState.
Inductive State : Type := StartLine | TtlClassType | Ttl | Record | Include | Origin.
End MasterState.

(** The locals of the loop. *)
Record Parsing : Type := mkParsing {
  ps_records : BTreeMap RrKey RecordSet;
  ps_origin : option Name;
  ps_current_name : option Name;
  ps_rtype : option RecordType;
  ps_ttl : option Z;
  ps_class : option DNSClass;
  ps_state : MasterState.State;
  ps_tokens : list Token;
}.

Definition Parsing_new (origin : option Name) : Parsing :=
  mkParsing [] origin None None None None MasterState.StartLine [].

Definition set_records p m := mkParsing m (ps_origin p) (ps_current_name p) (ps_rtype p) (ps_ttl p)
  (ps_class p) (ps_state p) (ps_tokens p).
Definition set_origin p o := mkParsing (ps_records p) o (ps_current_name p) (ps_rtype p) (ps_ttl p)
  (ps_class p) (ps_state p) (ps_tokens p).
Definition set_current_name p n := mkParsing (ps_records p) (ps_origin p) n (ps_rtype p) (ps_ttl p)
  (ps_class p) (ps_state p) (ps_tokens p).
Definition set_rtype p t := mkParsing (ps_records p) (ps_origin p) (ps_current_name p) t (ps_ttl p)
  (ps_class p) (ps_state p) (ps_tokens p).
Definition set_ttl p t := mkParsing (ps_records p) (ps_origin p) (ps_current_name p) (ps_rtype p) t
  (ps_class p) (ps_state p) (ps_tokens p).
Definition set_class p c := mkParsing (ps_records p) (ps_origin p) (ps_current_name p) (ps_rtype p)
  (ps_ttl p) c (ps_state p) (ps_tokens p).
Definition goto p st := mkParsing (ps_records p) (ps_origin p) (ps_current_name p) (ps_rtype p)
  (ps_ttl p) (ps_class p) st (ps_tokens p).
Definition set_tokens p ts := mkParsing (ps_records p) (ps_origin p) (ps_current_name p) (ps_rtype p)
  (ps_ttl p) (ps_class p) (ps_state p) ts.

(** A [Result] of the decoder behind [try!]. *)
Definition from_decode {A} (r : res decode_error A) : res parse_error A :=
  match r with Ok a => Ok a | Err e => Err (ParseDecode e) | Panic => Panic | Diverge => Diverge end.

Definition class_of (data : bytes) : res parse_error DNSClass :=
  from_decode (DNSClass_from_str (str_of_bytes data) tt).1.
Definition type_of (data : bytes) : res parse_error RecordType :=
  from_decode (RecordType_from_str (str_of_bytes data) tt).1.

Section parser.
Context `{N : Numeric} `{L : Lowercase}.

Definition start_line (p : Parsing) (t : Token) : res parse_error Parsing :=
  let p := set_tokens (set_rtype p None) [] in
  match t with
  | Token.Include => Panic
  | Token.Origin => Ok (goto p MasterState.Origin)
  | Token.Ttl => Ok (goto p MasterState.Ttl)
  | Token.CharData data =>
      try* n := Name_parse data (ps_origin p) in
      Ok (goto (set_current_name p (Some n)) MasterState.TtlClassType)
  | Token.At => Ok (goto (set_current_name p (ps_origin p)) MasterState.TtlClassType)
  | Token.Blank => Ok (goto p MasterState.TtlClassType)
  | Token.EOL => Ok (goto p MasterState.StartLine)
  | _ => Err (UnexpectedToken t)
  end.

Definition ttl_class_type (p : Parsing) (t : Token) : res parse_error Parsing :=
  match t with
  | Token.CharData data =>
      match parse_time data with
      | Ok ttl => Ok (goto (set_ttl p (Some ttl)) MasterState.TtlClassType)
      | Panic => Panic
      | Diverge => Diverge
      | Err _ =>
          match class_of data with
          | Ok class => Ok (goto (set_class p (Some class)) MasterState.TtlClassType)
          | _ =>
              try* rtype := type_of data in
              Ok (goto (set_rtype p (Some rtype)) MasterState.Record)
          end
      end
  | Token.EOL => Ok (goto p MasterState.StartLine)
  | _ => Err (UnexpectedToken t)
  end.

(** The end of a record's line: the record, and the TTL later records default to. *)
Definition make_record (p : Parsing) (rtype : RecordType) : res parse_error (RRecord * option Z) :=
  try* rdata := RData_parse rtype (ps_tokens p) (ps_origin p) in
  let record := Record_new in
  try* name := ok_or (ps_current_name p) (ParseMessage "record name not specified") in
  let record := Record_name record name in
  let record := Record_rr_type record rtype in
  try* class := ok_or (ps_class p) (ParseMessage "record class not specified") in
  let record := Record_dns_class record class in
  try* rt := match rtype with
    | RecordType.SOA =>
        match rdata with
        | RData.SOA soa =>
            Ok (Record_ttl record (as_u32 (soa_expire soa)),
                match ps_ttl p with None => Some (soa_minimum soa) | Some _ => ps_ttl p end)
        | _ => Panic
        end
    | _ =>
        try* ttl := ok_or (ps_ttl p) (ParseMessage "record ttl not specified") in
        Ok (Record_ttl record ttl, ps_ttl p)
    end in
  Ok (Record_rdata rt.1 rdata, rt.2).

Definition add_record (rtype : RecordType) (record : RRecord) (records : BTreeMap RrKey RecordSet) :
    res parse_error (BTreeMap RrKey RecordSet) :=
  let key := RrKey_new (r_name_labels record) (r_rr_type record) in
  match rtype with
  | RecordType.SOA =>
      match BTreeMap_get key records with
      | Some _ => Err (ParseMessage "SOA is already specified")
      | None => Ok (BTreeMap_set key (RecordSet_from record) records)
      end
  | _ =>
      let set := default (RecordSet_new (r_name_labels record) (r_rr_type record) 0)
                   (BTreeMap_get key records) in
      try* r := RecordSet_insert set record 0 in
      Ok (BTreeMap_set key r.2 records)
  end.

Definition end_record (p : Parsing) : res parse_error Parsing :=
  try* rtype := ok_or (ps_rtype p) (ParseMessage "record type not specified") in
  try* r := make_record p rtype in
  try* records := add_record rtype r.1 (ps_records p) in
  Ok (goto (set_ttl (set_records p records) r.2) MasterState.StartLine).

Definition parse_step (p : Parsing) (t : Token) : res parse_error Parsing :=
  match ps_state p with
  | MasterState.StartLine => start_line p t
  | MasterState.Ttl =>
      match t with
      | Token.CharData data =>
          try* ttl := parse_time data in
          Ok (goto (set_ttl p (Some ttl)) MasterState.StartLine)
      | _ => Err (UnexpectedToken t)
      end
  | MasterState.Origin =>
      match t with
      | Token.CharData data =>
          try* o := Name_parse data None in
          Ok (goto (set_origin p (Some o)) MasterState.StartLine)
      | _ => Err (UnexpectedToken t)
      end
  | MasterState.Include => Panic
  | MasterState.TtlClassType => ttl_class_type p t
  | MasterState.Record =>
      match t with
      | Token.EOL => end_record p
      | _ => Ok (goto (set_tokens p (ps_tokens p ++ [t])) MasterState.Record)
      end
  end.

Definition parse_finish (p : Parsing) : res parse_error (Name * BTreeMap RrKey RecordSet) :=
  try* origin := ok_or (ps_origin p) (ParseMessage "$ORIGIN was not specified") in
  Ok (origin, ps_records p).

Fixpoint parse_loop (fuel : nat) (lexer : Lexer) (p : Parsing) :
    res parse_error (Name * BTreeMap RrKey RecordSet) :=
  match fuel with
  | O => Diverge
  | S fuel =>
      match next_token lexer with
      | (Ok (Some t), lexer) => try* p := parse_step p t in parse_loop fuel lexer p
      | (Ok None, _) => parse_finish p
      | (Err e, _) => Err (ParseLexer e)
      | (Panic, _) => Panic
      | (Diverge, _) => Diverge
      end
  end.

(** A token consumes a character: one turn for each, and the last one. *)
Definition Parser_parse (lexer : Lexer) (origin : option Name) :
    res parse_error (Name * BTreeMap RrKey RecordSet) :=
  parse_loop (S (length (txt lexer))) lexer (Parsing_new origin).
End parser.

(** ** The parser ends *)

Lemma ends_ok_or {E A} (o : option A) (e : E) : ends_r (ok_or o e).
Proof. by destruct o. Qed.
#[export] Hint Resolve ends_ok_or : ends.

Lemma total_append {E} n o : ends_r (Name_append (E:=E) n o).
Proof.
  unfold Name_append. generalize (labels o). intros ls. revert n.
  induction ls as [|l ls IH]; intros n; simpl; total.
Qed.
#[export] Hint Resolve total_append : ends.

Lemma total_parse_time s : ends_r (parse_time s).
Proof.
  unfold parse_time. enough (∀ v c, ends_r (parse_time_loop s v c (str_chars s))) by done.
  induction (str_chars s) as [|ch cs IH]; intros v c; simpl; total.
Qed.
Lemma total_parse_ipv4 s : ends_r (parse_ipv4 s).
Proof. unfold parse_ipv4. total. Qed.
Lemma total_parse_ipv6 s : ends_r (parse_ipv6 s).
Proof. unfold parse_ipv6. total. Qed.
Lemma total_parse_int lo hi s : ends_r (ok_or (parse_int lo hi s) ParseInt).
Proof. total. Qed.
#[export] Hint Resolve total_parse_time total_parse_ipv4 total_parse_ipv6 total_parse_int : ends.

Section total.
Context `{N : Numeric} `{L : Lowercase}.

Lemma total_Name_parse s o : ends_r (Name_parse s o).
Proof.
  unfold Name_parse. apply ends_r_bind.
  - generalize Name_new as n, (@nil Z) as l, ParseLabel as st.
    induction (str_chars s) as [|ch cs IH]; intros n l st; simpl; [done|].
    apply ends_r_bind; [|intros; apply IH]. unfold Name_parse_step. total.
  - intros [n l] _. total.
Qed.
#[local] Hint Resolve total_Name_parse : ends.

Lemma total_txt_parse_loop l ts : ends_r (txt_parse_loop l ts).
Proof. revert l. induction ts as [|[] ts IH]; intros l; simpl; total. Qed.
#[local] Hint Resolve total_txt_parse_loop : ends.

Lemma total_RData_parse t ts o : ends_r (RData_parse t ts o).
Proof.
  destruct t; simpl; try done; apply ends_r_bind; try done;
    unfold a_parse, aaaa_parse, mx_parse, name_parse, soa_parse, srv_parse, txt_parse,
      parse_u16, parse_u32, parse_i32; total.
Qed.
#[local] Hint Resolve total_RData_parse : ends.

Lemma total_type_of d : ends_r (type_of d).
Proof.
  unfold type_of, from_decode. case_match eqn:E; try done.
  exfalso. revert E. unfold RecordType_from_str. repeat case_match; done.
Qed.
#[local] Hint Resolve total_type_of : ends.

Lemma total_make_record p t : ends_r (make_record p t).
Proof. unfold make_record. total. Qed.
End total.

(** ** What the parser builds *)

Section parser_ok.
Context `{N : Numeric} `{L : Lowercase}.

Lemma RData_parse_soa ts o d : RData_parse RecordType.SOA ts o = Ok d → ∃ soa, d = RData.SOA soa.
Proof. simpl. destruct (soa_parse ts o) as [soa| | |]; intros [= <-]. eauto. Qed.

Lemma make_record_spec p t r ttl : make_record p t = Ok (r, ttl) →
  r_rr_type r = t ∧ (t = RecordType.SOA → is_soa r) ∧ ps_current_name p = Some (r_name_labels r) ∧
  ps_class p = Some (r_dns_class r) ∧ RData_parse t (ps_tokens p) (ps_origin p) = Ok (r_rdata r) ∧
  (t ≠ RecordType.SOA → ps_ttl p = Some (r_ttl r)).
Proof.
  unfold make_record. destruct (RData_parse t _ _) as [d| | |] eqn:Ed; [|done..].
  destruct (ps_current_name p) as [n|]; [|done]. destruct (ps_class p) as [c|]; [|done].
  cbn [rbind ok_or]. intros H.
  assert (t ≠ RecordType.SOA →
    (try* ttl := ok_or (ps_ttl p) (ParseMessage "record ttl not specified") in
     Ok (Record_rdata (Record_ttl (Record_dns_class (Record_rr_type (Record_name Record_new n) t) c) ttl) d,
         ps_ttl p)) = Ok (r, ttl)) as Hother.
  { intros Ht. destruct t; try done; by destruct (ps_ttl p). }
  destruct (decide (t = RecordType.SOA)) as [->|Ht].
  - apply RData_parse_soa in Ed as (soa & ->). cbn [rbind] in H. simplify_eq. simpl.
    split_and!; try done. intros _. by exists soa.
  - specialize (Hother Ht). destruct (ps_ttl p) as [v|]; [|done]. cbn [rbind ok_or] in Hother.
    by simplify_eq.
Qed.

Lemma add_record_ok t r m : records_ok m → r_rr_type r = t → (t = RecordType.SOA → is_soa r) →
  match add_record t r m with Ok m' => records_ok m' | Err _ => True | _ => False end.
Proof.
  intros Hm Ht Hsoa. unfold add_record. set (k := RrKey_new _ _).
  assert (match (try* r0 := RecordSet_insert (E:=parse_error)
            (default (RecordSet_new (r_name_labels r) (r_rr_type r) 0) (BTreeMap_get k m)) r 0 in
            Ok (BTreeMap_set k r0.2 m)) with Ok m' => records_ok m' | Err _ => True | _ => False end) as Hins.
  { set (s0 := default _ _).
    assert (Hs0 : rset_ok s0 ∧ Name_eq (r_name_labels r) (rs_name s0) = true ∧
                  r_rr_type r = rs_record_type s0).
    { unfold s0. destruct (BTreeMap_get k m) as [s|] eqn:Hg; [apply (get_entry _ k s Hm Hg)|].
      split_and!; [apply rset_ok_new|apply Name_eq_refl|done]. }
    destruct Hs0 as (Hs0 & Hn & Hty).
    destruct (insert_ok (E:=parse_error) s0 r 0 Hs0) as (b & s & -> & Hs & Hname & Htype & _).
    { split; [done|done|]. intros Hso. apply Hsoa. congruence. }
    cbn [rbind snd]. apply records_ok_set; [done|done|by rewrite Hname|by rewrite Htype]. }
  destruct t; try done. destruct (BTreeMap_get k m); [done|].
  apply records_ok_set; [done| |apply Name_eq_refl|done].
  split; simpl; rewrite ?Ht.
  - apply NoDup_singleton.
  - constructor; [apply Name_eq_refl|constructor].
  - by repeat constructor.
  - intros _. lia.
  - intros _. constructor; [auto|constructor].
Qed.

Definition step_ok {E} (r : res E Parsing) : Prop :=
  match r with Ok p => records_ok (ps_records p) | Diverge => False | _ => True end.

Lemma step_ok_bind {E A} (r : res E A) k :
  ends_r r → (∀ a, r = Ok a → step_ok (k a)) → step_ok (rbind r k).
Proof. unfold ends_r. destruct r; simpl; auto. Qed.

Lemma parse_step_ok p t : records_ok (ps_records p) → step_ok (parse_step p t).
Proof.
  intros Hm. unfold parse_step.
  destruct (ps_state p); unfold start_line, ttl_class_type, end_record; destruct t; try done.
  all: try (apply step_ok_bind; [auto using total_Name_parse, total_parse_time|done]).
  - destruct (parse_time s) eqn:Et; try done; [|by apply total_parse_time in Et].
    destruct (class_of s); try done; apply step_ok_bind; auto using total_type_of.
  - apply step_ok_bind; [apply ends_ok_or|]. intros t _.
    apply step_ok_bind; [apply total_make_record|]. intros [r ttl] (Hty & Hsoa & _)%make_record_spec.
    pose proof (add_record_ok t r _ Hm Hty Hsoa) as Hadd. cbn [fst snd].
    by destruct (add_record t r (ps_records p)).
Qed.

Lemma parse_loop_ok fuel lx p :
  at_boundary lx → (length (txt lx) < fuel)%nat → records_ok (ps_records p) →
  match parse_loop fuel lx p with Ok (_, m) => records_ok m | Diverge => False | _ => True end.
Proof.
  revert lx p. induction fuel as [|fuel IH]; intros lx p Hb Hlen Hm; [lia|]. simpl.
  destruct (next_token lx) as [[[t|]|e| |] lx'] eqn:En; try done.
  - apply next_token_consumes in En as [Hlt Hb']; [|done].
    pose proof (parse_step_ok p t Hm) as Hs. destruct (parse_step p t) as [p'| | |]; simpl in *; try done.
    apply IH; [done|lia|done].
  - unfold parse_finish. by destruct (ps_origin p).
  - apply (next_token_no_diverge lx Hb). by rewrite En.
Qed.

Lemma records_ok_nil : records_ok [].
Proof. split; [apply btree_ok_nil|constructor]. Qed.

Lemma Parser_parse_ok t o :
  match Parser_parse (Lexer_new t) o with Ok (_, m) => records_ok m | Diverge => False | _ => True end.
Proof. apply parse_loop_ok; [by left|lia|apply records_ok_nil]. Qed.
End parser_ok.

(** ** [parse_time] against its documentation *)

Definition is_digit (c : char) : Prop := 48 ≤ c ≤ 57.

(** The number digits stand for, after digits that stand for [c]. *)
Definition number_from (c : Z) (ds : list char) : Z := foldl (λ a d, a * 10 + (d - 48)) c ds.

(** A number and its unit. *)
Definition group_ok (g : list char * char) : Prop := Forall is_digit g.1 ∧ is_Some (time_unit g.2).
Definition group_text (g : list char * char) : list char := g.1 ++ [g.2].
Definition group_seconds (g : list char * char) : Z := number_from 0 g.1 * default 0 (time_unit g.2).

Lemma number_from_mono c ds : 0 ≤ c → Forall is_digit ds → c ≤ number_from c ds.
Proof.
  intros Hc H. revert c Hc. induction H as [|d ds Hd _ IH]; intros c Hc; simpl; [lia|].
  unfold is_digit in Hd. specialize (IH (c * 10 + (d - 48)) ltac:(lia)). unfold number_from in *. lia.
Qed.

Lemma parse_time_digits s v c ds rest : 0 ≤ c → Forall is_digit ds →
  (number_from c ds ≤ u32_max → parse_time_loop s v c (ds ++ rest) =
     parse_time_loop s v (number_from c ds) rest) ∧
  (c ≤ u32_max < number_from c ds → parse_time_loop s v c (ds ++ rest) = Panic).
Proof.
  intros Hc H. revert c Hc. induction H as [|d ds Hd Hds IH]; intros c Hc; simpl; [split; [done|lia]|].
  unfold is_digit in Hd. assert (Er : in_range 48 57 d = true) by (unfold in_range; lia).
  unfold to_digit. rewrite Er. simpl.
  pose proof (number_from_mono (c * 10 + (d - 48)) ds ltac:(lia) Hds) as Hmono.
  destruct (IH (c * 10 + (d - 48)) ltac:(lia)) as [IH1 IH2]. unfold number_from in *. simpl.
  unfold checked_u32. destruct (Z.leb_spec (c * 10) u32_max); cbn [rbind ok_or]; [|split; [lia|done]].
  destruct (Z.leb_spec (c * 10 + (d - 48)) u32_max); cbn [rbind]; [|split; [lia|done]].
  split; [done|]. intros. apply IH2. lia.
Qed.

Lemma time_unit_pos c f : time_unit c = Some f → 0 < f ∧ in_range 48 57 c = false ∧ 0 ≤ c < 128.
Proof.
  unfold time_unit, in_range. intros H.
  repeat match type of H with context [if ?b then _ else _] => destruct b eqn:?; simplify_eq end; lia.
Qed.

Lemma group_seconds_nonneg g : group_ok g → 0 ≤ group_seconds g.
Proof.
  intros [Hd [f Hf]]. unfold group_seconds. rewrite Hf. simpl. apply time_unit_pos in Hf as [Hf _].
  pose proof (number_from_mono 0 g.1 ltac:(lia) Hd). nia.
Qed.

Lemma sum_nonneg gs : Forall group_ok gs → 0 ≤ foldr Z.add 0 (group_seconds <$> gs).
Proof.
  induction 1 as [|g gs Hg _ IH]; simpl; [lia|]. apply group_seconds_nonneg in Hg. unfold fmap in IH. lia.
Qed.

Lemma parse_time_groups s gs ds v :
  0 ≤ v ≤ u32_max → Forall group_ok gs → Forall is_digit ds →
  parse_time_loop s v 0 (concat (group_text <$> gs) ++ ds) =
  checked_u32 (v + foldr Z.add 0 (group_seconds <$> gs) + number_from 0 ds).
Proof.
  intros Hv Hgs Hds. revert v Hv. induction Hgs as [|g gs Hg Hgs IH]; intros v Hv.
  - simpl. rewrite <-(app_nil_r ds) at 1. rewrite Z.add_0_r.
    destruct (parse_time_digits s v 0 ds [] ltac:(lia) Hds) as [H1 H2].
    destruct (Z.leb_spec (number_from 0 ds) u32_max); [by rewrite H1|].
    rewrite H2 by (unfold u32_max in *; lia). unfold checked_u32. by zcases.
  - pose proof (sum_nonneg gs Hgs) as Hsum. pose proof (number_from_mono 0 ds ltac:(lia) Hds) as Hn.
    pose proof (group_seconds_nonneg g Hg) as Hgs0. destruct Hg as [Hd [f Hf]].
    rewrite !fmap_cons. cbn [concat foldr]. unfold group_text at 1. rewrite <-!app_assoc. simpl.
    destruct (time_unit_pos _ _ Hf) as (Hf0 & Hr & _).
    pose proof (number_from_mono 0 g.1 ltac:(lia) Hd) as Hg0.
    assert (Eg : group_seconds g = number_from 0 g.1 * f) by (unfold group_seconds; by rewrite Hf).
    destruct (parse_time_digits s v 0 g.1 (g.2 :: concat (group_text <$> gs) ++ ds) ltac:(lia) Hd) as [H1 H2].
    destruct (Z.leb_spec (number_from 0 g.1) u32_max).
    2:{ rewrite H2 by (unfold u32_max in *; lia). unfold checked_u32. zcases; [nia|done]. }
    rewrite H1 by done. cbn [parse_time_loop]. rewrite Hr, Hf. unfold checked_u32 at 1.
    destruct (Z.leb_spec (number_from 0 g.1 * f) u32_max); cbn [rbind].
    2:{ unfold checked_u32. by zcases. }
    unfold checked_u32 at 1. destruct (Z.leb_spec (v + number_from 0 g.1 * f) u32_max); cbn [rbind].
    2:{ unfold checked_u32. by zcases. }
    rewrite IH by lia. f_equal. lia.
Qed.

Lemma str_chars_ascii s : Forall (λ c, 0 ≤ c < 128) s → str_chars s = s.
Proof.
  induction 1 as [|c s Hc _ IH]; [done|]. simpl. by destruct (Z.ltb_spec c 128); [rewrite IH|lia].
Qed.

(** A time is a sequence of numbers with a unit, in any order, and a last number of
    seconds: its value is their sum, and a value that does not fit [u32] is an
    overflow.  The class [HS] and the type [DS] are made of unit letters only: they
    are read as the time 0. *)
Theorem parse_time_spec gs ds :
  Forall group_ok gs → Forall is_digit ds →
  parse_time (concat (group_text <$> gs) ++ ds) =
    checked_u32 (foldr Z.add 0 (group_seconds <$> gs) + number_from 0 ds) ∧
  parse_time (bytes_of_str "HS") = Ok 0 ∧ parse_time (bytes_of_str "DS") = Ok 0.
Proof.
  intros Hgs Hds. split; [|done]. unfold parse_time. rewrite str_chars_ascii.
  - rewrite parse_time_groups by (done || (unfold u32_max; lia)). by rewrite Z.add_0_l.
  - apply Forall_app. split; [|eapply Forall_impl; [done|]; unfold is_digit; lia].
    apply Forall_concat, Forall_fmap. eapply Forall_impl; [done|]. intros g [Hd [f Hf]]. simpl.
    apply time_unit_pos in Hf as (_ & _ & Hc). apply Forall_app. split; [|by constructor].
    eapply Forall_impl; [done|]. unfold is_digit. lia.
Qed.

Lemma parse_time_spec_witness :
  parse_time (bytes_of_str "1s2d3w") = Ok (1 + 2 * 86400 + 3 * 604800).
Proof.
  refine (proj1 (parse_time_spec [([49], 115); ([50], 100); ([51], 119)] [] _ _)).
  - repeat apply List.Forall_cons; [..|apply List.Forall_nil];
      (split; [apply List.Forall_cons; [unfold is_digit; simpl; lia|apply List.Forall_nil]|eexists; reflexivity]).
  - apply List.Forall_nil.
Defined.

(** ** A file as its tokens *)

Section files.
Context `{N : Numeric} `{L : Lowercase}.

Fixpoint parse_tokens (p : Parsing) (ts : list Token) : res parse_error Parsing :=
  match ts with
  | [] => Ok p
  | t :: ts => try* p := parse_step p t in parse_tokens p ts
  end.

(** The zone of a list of records, as a fold. *)
Fixpoint add_records (rs : list RRecord) (m : BTreeMap RrKey RecordSet) :
    res parse_error (BTreeMap RrKey RecordSet) :=
  match rs with
  | [] => Ok m
  | r :: rs => try* m := add_record (r_rr_type r) r m in add_records rs m
  end.

Lemma parse_tokens_app p ts ts' :
  parse_tokens p (ts ++ ts') = try* p := parse_tokens p ts in parse_tokens p ts'.
Proof.
  revert p. induction ts as [|t ts IH]; intros p; [done|]. simpl. by destruct (parse_step p t); simpl.
Qed.

Lemma parse_loop_lexes lx ts lx' p k : lexes lx ts lx' →
  parse_loop (length ts + k) lx p = try* p' := parse_tokens p ts in parse_loop k lx' p'.
Proof.
  intros H. revert p. induction H as [|lx t lx1 ts lx' Ht _ IH]; intros p; [done|]. simpl.
  rewrite Ht. destruct (parse_step p t); simpl; [apply IH|done..].
Qed.

Lemma parse_loop_mono k lx p m : parse_loop k lx p ≠ Diverge → parse_loop (k + m) lx p = parse_loop k lx p.
Proof.
  revert lx p. induction k as [|k IH]; intros lx p H; [done|]. simpl in *.
  destruct (next_token lx) as [[[t|]|e| |] lx']; try done.
  destruct (parse_step p t); simpl in *; [by apply IH|done..].
Qed.

(** Data tokens are collected. *)
Lemma parse_tokens_data p its : ps_state p = MasterState.Record →
  parse_tokens p (token_of <$> its) = Ok (set_tokens p (ps_tokens p ++ (token_of <$> its))).
Proof.
  revert p. induction its as [|i its IH]; intros p Hp.
  { simpl. rewrite app_nil_r. by destruct p. }
  rewrite fmap_cons. cbn [parse_tokens]. unfold parse_step. rewrite Hp.
  assert (Hi : ∀ X Y : res parse_error Parsing, match token_of i with Token.EOL => X | _ => Y end = Y)
    by (by destruct i).
  rewrite Hi. cbn [rbind]. rewrite IH by done. destruct p. unfold set_tokens, goto. simpl in *. subst.
  by rewrite <-app_assoc.
Qed.

Lemma RData_parse_type t ts o d :
  RData_parse t ts o = Ok d →
  match d with RData.SOA _ => t = RecordType.SOA | _ => t ≠ RecordType.SOA end.
Proof.
  destruct t; simpl; try done; intros H;
    match type of H with rbind ?x _ = _ => destruct x; simpl in H; simplify_eq; done end.
Qed.

(** Enough fuel for the tokens is enough for the characters. *)
Lemma parse_loop_fuel lx p k : at_boundary lx → records_ok (ps_records p) →
  parse_loop (S (length (txt lx))) lx p = parse_loop (k + S (length (txt lx))) lx p.
Proof.
  intros Hb Hm. rewrite Nat.add_comm, parse_loop_mono; [done|].
  pose proof (parse_loop_ok (S (length (txt lx))) lx p Hb ltac:(lia) Hm). intros E. by rewrite E in *.
Qed.

Lemma parse_file_tokens lx ts lx' o :
  at_boundary lx → lexes lx ts lx' → (next_token lx').1 = Ok None →
  Parser_parse lx o = try* p := parse_tokens (Parsing_new o) ts in parse_finish p.
Proof.
  intros Hb Hl Hn. unfold Parser_parse. rewrite (parse_loop_fuel lx (Parsing_new o) (length ts) Hb records_ok_nil).
  rewrite (parse_loop_lexes _ _ _ _ _ Hl). destruct (parse_tokens (Parsing_new o) ts); try done.
  cbn [rbind parse_loop]. by destruct (next_token lx') as [[[]| | |] ?].
Qed.

End files.

(** ** Zones from files *)

Section zone_files.
Context `{N : Numeric} `{L : Lowercase} `{C : Crypto} `{SQ : Sqlite}.

(** [parse_file] of [server/src/named.rs], of the contents read. *)
Definition parse_file (buf : bytes) (origin : option Name) (zone_type : ZoneType)
    (allow_update is_dnssec_enabled : bool) : res parse_error Authority :=
  let lexer := Lexer_new buf in
  try* r := Parser_parse lexer origin in
  Ok (Authority_new r.1 r.2 zone_type allow_update is_dnssec_enabled).

(** C31: Whatever a zone file holds, loading it ends, and the zone it loads is well formed:
    the map is ordered, every record is filed under its own name and type, no set holds
    the same data twice, and there is at most one record in an SOA or CNAME set. *)
Theorem parse_file_zone_ok buf origin zone_type allow_update is_dnssec_enabled :
  parse_file buf origin zone_type allow_update is_dnssec_enabled ≠ Diverge ∧
  ∀ a, parse_file buf origin zone_type allow_update is_dnssec_enabled = Ok a → zone_ok a.
Proof.
  unfold parse_file. pose proof (Parser_parse_ok buf origin) as H.
  destruct (Parser_parse (Lexer_new buf) origin) as [[o m]| | |]; [|done..]. split; [done|].
  intros a [= <-]. exact H.
Qed.
End zone_files.

(** ** Examples *)

Definition ex_text : bytes := bytes_of_str "www 1h IN A 10.0.0.1 " ++ [10].

Lemma parse_file_zone_ok_witness :
  ∃ a, parse_file (N:=ascii_numeric) (L:=ascii_lowercase) (C:=toy_crypto) (SQ:=list_sqlite) ex_text
         (Some (mkName [bytes_of_str "a"])) Master true false = Ok a ∧ zone_ok (L:=ascii_lowercase) a.
Proof.
  eexists. split; [vm_compute; reflexivity|].
  apply (proj2 (parse_file_zone_ok (N:=ascii_numeric) (L:=ascii_lowercase) (C:=toy_crypto) (SQ:=list_sqlite) ex_text
    (Some (mkName [bytes_of_str "a"])) Master true false)).
  vm_compute. reflexivity.
Defined.
