(* ===== verification/ZoneText.v ===== *)
(** * ZoneText: what the lines of a master file mean

    The entries that [client/src/serialize/txt/master.rs] documents before [Parser] (RFC 1035,
    section 5.1) as a small language: empty lines, [$ORIGIN] and [$TTL], records with their owner
    named, [@] or left out, and with any of TTL and class in any order or defaulted; every line
    may end with a comment.  A meaning is given to a line, from what the lines before it have
    stated, and the automaton of [Parser::parse] over the tokens of [Lexer::next_token] is shown to
    file exactly the records of that meaning. *)

From S2P Require Import Prelude Codec Wire Domain Enums Header RData RDataProps Resource Message RecordSet.
From S2P Require Import BTree Journal Authority AuthorityProps Text Lexer Master.

Open Scope Z_scope.

(** ** The language *)

(** The first column of a record. *)
Inductive owner : Type :=
  | OwnerName (w : list char)
  | AtOrigin
  | LastOwner.

Inductive line : Type :=
  | LNothing (blank : bool)
  | LOrigin (w : list char)
  | LTtl (w : list char)
  | LRecord (o : owner) (fields : list (list char)) (type : list char) (data : list item).

Definition owner_text (o : owner) : list char :=
  match o with OwnerName w => w ++ [32] | AtOrigin => [64; 32] | LastOwner => [32] end.
Definition owner_token (o : owner) : Token :=
  match o with OwnerName w => Token.CharData (string_of w) | AtOrigin => Token.At | LastOwner => Token.Blank end.

(** The items of a record after its owner. *)
Definition record_items (fields : list (list char)) (type : list char) (data : list item) : list item :=
  (Word <$> fields) ++ Word type :: data.

Definition items_text (its : list item) : list char := concat ((λ i, render i ++ [32]) <$> its).

Definition line_text (l : line) : list char :=
  match l with
  | LNothing blank => if blank then [32] else []
  | LOrigin w => 36 :: bytes_of_str "ORIGIN" ++ 32 :: w ++ [32]
  | LTtl w => 36 :: bytes_of_str "TTL" ++ 32 :: w ++ [32]
  | LRecord o fields type data => owner_text o ++ items_text (record_items fields type data)
  end.

Definition line_tokens (l : line) : list Token :=
  match l with
  | LNothing blank => if blank then [Token.Blank] else []
  | LOrigin w => [Token.Origin; Token.CharData (string_of w)]
  | LTtl w => [Token.Ttl; Token.CharData (string_of w)]
  | LRecord o fields type data => owner_token o :: (token_of <$> record_items fields type data)
  end.

(** The words can be written as words, and are not too long for the lexer. *)
Definition line_ok (l : line) : Prop :=
  match l with
  | LNothing _ => True
  | LOrigin w | LTtl w => items_ok [Word w]
  | LRecord o fields type data =>
      match o with OwnerName w => items_ok [Word w] | _ => True end ∧ items_ok (record_items fields type data)
  end.

(** A file: its lines, each with its ending. *)
Definition file_text (ls : list (line * ending)) : list char :=
  concat ((λ l, line_text l.1 ++ render_ending l.2) <$> ls).
Definition file_tokens (ls : list (line * ending)) : list Token :=
  concat ((λ l, line_tokens l.1 ++ [Token.EOL]) <$> ls).
Definition file_ok (ls : list (line * ending)) : Prop := Forall (λ l, line_ok l.1 ∧ ending_ok l.2) ls.

(** ** Its meaning *)

(** What the lines so far have stated. *)
Record stated : Type := mkStated {
  st_origin : option Name;
  st_owner : option Name;
  st_ttl : option Z;
  st_class : option DNSClass;
}.

Section meaning.
Context `{N : Numeric}.

(** A word before the type: a time is a TTL, anything else has to be a class. *)
Definition state_field (st : stated) (w : list char) : option stated :=
  match parse_time (string_of w) with
  | Ok ttl => Some (mkStated (st_origin st) (st_owner st) (Some ttl) (st_class st))
  | Err _ =>
      match class_of (string_of w) with
      | Ok c => Some (mkStated (st_origin st) (st_owner st) (st_ttl st) (Some c))
      | _ => None
      end
  | _ => None
  end.

Fixpoint state_fields (st : stated) (ws : list (list char)) : option stated :=
  match ws with
  | [] => Some st
  | w :: ws => st ← state_field st w; state_fields st ws
  end.

(** A word that is no time, no class and a type. *)
Definition type_word (w : list char) : option RecordType :=
  match parse_time (string_of w), class_of (string_of w), type_of (string_of w) with
  | Err _, Err _, Ok t => Some t
  | _, _, _ => None
  end.

(** The name in the first column: relative to the origin, the origin itself, or the last one stated. *)
Definition owner_name (st : stated) (o : owner) : option Name :=
  match o with
  | OwnerName w => match Name_parse (string_of w) (st_origin st) with Ok n => Some n | _ => None end
  | AtOrigin => st_origin st
  | LastOwner => st_owner st
  end.

(** The record of a line, and the TTL that is stated after it: an SOA record lives until it expires,
    and its minimum is the TTL of the lines to come if none was stated. *)
Definition record_of (st : stated) (t : RecordType) (data : list item) : option (RRecord * option Z) :=
  name ← st_owner st;
  class ← st_class st;
  match RData_parse t (token_of <$> data) (st_origin st) with
  | Ok (RData.SOA soa) =>
      Some (mkRecord name t class (as_u32 (soa_expire soa)) (RData.SOA soa),
            Some (default (soa_minimum soa) (st_ttl st)))
  | Ok d => ttl ← st_ttl st; Some (mkRecord name t class ttl d, Some ttl)
  | _ => None
  end.

Definition line_meaning (st : stated) (l : line) : option (stated * list RRecord) :=
  match l with
  | LNothing _ => Some (st, [])
  | LOrigin w =>
      match Name_parse (string_of w) None with
      | Ok o => Some (mkStated (Some o) (st_owner st) (st_ttl st) (st_class st), [])
      | _ => None
      end
  | LTtl w =>
      match parse_time (string_of w) with
      | Ok ttl => Some (mkStated (st_origin st) (st_owner st) (Some ttl) (st_class st), [])
      | _ => None
      end
  | LRecord o fields type data =>
      name ← owner_name st o;
      st ← state_fields (mkStated (st_origin st) (Some name) (st_ttl st) (st_class st)) fields;
      t ← type_word type;
      '(r, ttl) ← record_of st t data;
      Some (mkStated (st_origin st) (st_owner st) ttl (st_class st), [r])
  end.

Fixpoint file_meaning (st : stated) (ls : list (line * ending)) : option (stated * list RRecord) :=
  match ls with
  | [] => Some (st, [])
  | l :: ls =>
      '(st, rs) ← line_meaning st l.1;
      '(st, rs') ← file_meaning st ls;
      Some (st, rs ++ rs')
  end.
End meaning.

(** Before the first line only an origin may be known. *)
Definition nothing_stated (origin : option Name) : stated := mkStated origin None None None.

(** ** The text is read as the tokens of its lines *)

Section text.
Context `{N : Numeric}.

(** The end of a line: of an empty one at its start, of the others after a blank. *)
Lemma lexes_ending (sp : bool) st e rest : ending_ok e →
  st = LexState.RestOfLine ∨ st = LexState.StartLine ∧ sp = false →
  lexes (mkLexer ((if sp then [32] else []) ++ render_ending e ++ rest) st) [Token.EOL]
    (mkLexer rest LexState.StartLine).
Proof. intros He Hst. eapply lexes_cons; [by apply next_token_ending|constructor]. Qed.

Lemma lexes_one i rest : items_ok [i] →
  lexes (mkLexer (32 :: render i ++ 32 :: rest) LexState.RestOfLine) [token_of i]
    (mkLexer (32 :: rest) LexState.RestOfLine).
Proof. intros H. pose proof (lexes_items [i] rest H) as Hl. simpl in Hl. by rewrite app_nil_r, <-app_assoc in Hl. Qed.

Lemma lexes_owner o its rest : match o with OwnerName w => items_ok [Word w] | _ => True end →
  items_ok its → its ≠ [] →
  lexes (mkLexer (owner_text o ++ items_text its ++ rest) LexState.StartLine)
    (owner_token o :: (token_of <$> its)) (mkLexer (32 :: rest) LexState.RestOfLine).
Proof.
  intros Ho Hits Hne. destruct o as [w| |]; cbn [owner_text owner_token].
  - apply Forall_singleton in Ho as [Hw Hsz]. rewrite <-app_assoc. cbn [app].
    eapply lexes_cons; [exact (next_token_first (Word w) _ Hw Hsz)|by apply lexes_items].
  - eapply lexes_cons; [apply next_token_at_sign|by apply lexes_items].
  - eapply lexes_cons; [apply next_token_blank|by apply lexes_items_now].
Qed.

Lemma record_items_ne fields type data : record_items fields type data ≠ [].
Proof. unfold record_items. by destruct fields. Qed.

Lemma lexes_text_line l e rest : line_ok l → ending_ok e →
  lexes (mkLexer (line_text l ++ render_ending e ++ rest) LexState.StartLine) (line_tokens l ++ [Token.EOL])
    (mkLexer rest LexState.StartLine).
Proof.
  intros Hl He. destruct l as [[|]|w|w|o fields type data]; cbn [line_text line_tokens line_ok] in *.
  - eapply lexes_cons; [apply next_token_blank|]. apply (lexes_ending false); auto.
  - apply (lexes_ending false); auto.
  - eapply lexes_app with (ts := line_tokens (LOrigin w)); [|apply (lexes_ending true LexState.RestOfLine e rest He); by left].
    eapply lexes_cons; [|exact (lexes_one (Word w) _ Hl)]. rewrite <-next_token_origin. simpl. by rewrite <-app_assoc.
  - eapply lexes_app with (ts := line_tokens (LTtl w)); [|apply (lexes_ending true LexState.RestOfLine e rest He); by left].
    eapply lexes_cons; [|exact (lexes_one (Word w) _ Hl)]. rewrite <-next_token_ttl. simpl. by rewrite <-app_assoc.
  - destruct Hl as [Ho Hi]. rewrite <-app_assoc. eapply lexes_app; [apply lexes_owner; [done..|apply record_items_ne]|].
    apply (lexes_ending true); auto.
Qed.

Lemma lexes_file ls rest : file_ok ls →
  lexes (mkLexer (file_text ls ++ rest) LexState.StartLine) (file_tokens ls) (mkLexer rest LexState.StartLine).
Proof.
  induction 1 as [|[l e] ls [Hl He] _ IH]; [constructor|].
  change (file_text ((l, e) :: ls)) with ((line_text l ++ render_ending e) ++ file_text ls). rewrite <-!app_assoc.
  change (file_tokens ((l, e) :: ls)) with ((line_tokens l ++ [Token.EOL]) ++ file_tokens ls).
  eapply lexes_app; [by apply lexes_text_line|exact IH].
Qed.
End text.

(** ** The automaton follows the meaning *)

Section parser.
Context `{N : Numeric} `{L : Lowercase}.

Definition stated_in (p : Parsing) : stated := mkStated (ps_origin p) (ps_current_name p) (ps_ttl p) (ps_class p).

(** The automaton between two lines, or before the type of a record, having stated [st]. *)
Definition parsing (st : stated) m rt state ts : Parsing :=
  mkParsing m (st_origin st) (st_owner st) rt (st_ttl st) (st_class st) state ts.

Lemma parsing_stated p : p = parsing (stated_in p) (ps_records p) (ps_rtype p) (ps_state p) (ps_tokens p).
Proof. by destruct p. Qed.

Lemma parse_owner st m rt ts o name :
  owner_name st o = Some name →
  parse_step (parsing st m rt MasterState.StartLine ts) (owner_token o) =
  Ok (parsing (mkStated (st_origin st) (Some name) (st_ttl st) (st_class st)) m None MasterState.TtlClassType []).
Proof.
  intros Ho. destruct st. unfold parse_step, start_line. destruct o as [w| |]; cbn in *.
  - destruct (Name_parse _ _); by simplify_eq/=.
  - by subst.
  - by subst.
Qed.

Lemma parse_fields ws st st' m ts :
  state_fields st ws = Some st' →
  parse_tokens (parsing st m None MasterState.TtlClassType ts) (token_of <$> (Word <$> ws)) =
  Ok (parsing st' m None MasterState.TtlClassType ts).
Proof.
  revert st. induction ws as [|w ws IH]; intros st H; [by simplify_eq/=|]. simpl in H.
  destruct (state_field st w) as [st1|] eqn:Hw; [|done]. rewrite !fmap_cons. cbn [parse_tokens token_of].
  enough (parse_step (parsing st m None MasterState.TtlClassType ts) (Token.CharData (string_of w)) =
          Ok (parsing st1 m None MasterState.TtlClassType ts)) as -> by (by apply IH).
  unfold state_field in Hw. cbn [parse_step parsing ps_state ttl_class_type].
  destruct (parse_time (string_of w)); [by simplify_eq| |done..].
  destruct (class_of (string_of w)); by simplify_eq.
Qed.

Lemma state_fields_origin ws st st' : state_fields st ws = Some st' → st_origin st' = st_origin st.
Proof.
  revert st. induction ws as [|w ws IH]; intros st; simpl; [by intros [= <-]|].
  intros (st1 & Hw & ->%IH)%bind_Some. unfold state_field in Hw.
  destruct (parse_time _); [by simplify_eq| |done..]. by destruct (class_of _); simplify_eq.
Qed.

Lemma parse_type w st t m ts :
  type_word w = Some t →
  parse_step (parsing st m None MasterState.TtlClassType ts) (Token.CharData (string_of w)) =
  Ok (parsing st m (Some t) MasterState.Record ts).
Proof.
  unfold type_word. intros H. cbn [parse_step parsing ps_state ttl_class_type].
  destruct (parse_time (string_of w)), (class_of (string_of w)), (type_of (string_of w)); by simplify_eq.
Qed.

Lemma make_record_of st t data r ttl m :
  record_of st t data = Some (r, ttl) →
  make_record (parsing st m (Some t) MasterState.Record (token_of <$> data)) t = Ok (r, ttl) ∧ r_rr_type r = t ∧
  (t = RecordType.SOA → is_soa r).
Proof.
  unfold record_of, make_record. cbn [parsing ps_tokens ps_origin ps_current_name ps_class ps_ttl].
  destruct (st_owner st) as [name|]; [|done]. destruct (st_class st) as [class|]; [|done]. cbn.
  destruct (RData_parse t (token_of <$> data) (st_origin st)) as [d| | |] eqn:Hd; try done. cbn [rbind].
  pose proof (RData_parse_type _ _ _ _ Hd) as Ht.
  destruct d; cbn [rbind ok_or]; try (destruct (st_ttl st) as [z|]; [|done]; intros [= <- <-];
    split; [by destruct t|by split]).
  intros [= <- <-]. subst t. split; [|split; [done|by eexists]]. by destruct (st_ttl st).
Qed.

(** A record's line up to its end is only kept aside. *)
Lemma parse_record_items st m rt ts o fields type data st' t name :
  owner_name st o = Some name →
  state_fields (mkStated (st_origin st) (Some name) (st_ttl st) (st_class st)) fields = Some st' →
  type_word type = Some t →
  parse_tokens (parsing st m rt MasterState.StartLine ts) (line_tokens (LRecord o fields type data)) =
  Ok (parsing st' m (Some t) MasterState.Record (token_of <$> data)).
Proof.
  intros Ho Hf Ht. cbn [line_tokens parse_tokens]. rewrite (parse_owner _ _ _ _ _ _ Ho). cbn [rbind].
  unfold record_items. rewrite fmap_app, parse_tokens_app, (parse_fields _ _ _ _ _ Hf), fmap_cons.
  cbn [rbind parse_tokens token_of]. rewrite (parse_type _ _ _ _ _ Ht). cbn [rbind]. by rewrite parse_tokens_data.
Qed.

Lemma parse_text_line st m rt ts l st' rs :
  line_meaning st l = Some (st', rs) →
  ∃ rt' ts', parse_tokens (parsing st m rt MasterState.StartLine ts) (line_tokens l ++ [Token.EOL]) =
    try* m' := add_records rs m in Ok (parsing st' m' rt' MasterState.StartLine ts').
Proof.
  destruct l as [[|]|w|w|o fields type data]; cbn [line_meaning].
  - intros [= <- <-]. by eexists _, _.
  - intros [= <- <-]. by eexists _, _.
  - intros H. cbn. destruct (Name_parse (string_of w) None); simplify_eq. by eexists _, _.
  - intros H. cbn. destruct (parse_time (string_of w)); simplify_eq. by eexists _, _.
  - intros (name & Ho & (st1 & Hf & (t & Ht & ([r ttl] & Hr & [= <- <-])%bind_Some)%bind_Some)%bind_Some)%bind_Some.
    exists (Some t), (token_of <$> data).
    rewrite parse_tokens_app, (parse_record_items _ _ _ _ _ _ _ _ _ _ _ Ho Hf Ht).
    cbn [rbind parse_tokens]. unfold parse_step at 1. cbn [parsing ps_state]. unfold end_record.
    fold (parsing st1 m (Some t) MasterState.Record (token_of <$> data)).
    cbn [ps_rtype parsing ok_or rbind]. fold (parsing st1 m (Some t) MasterState.Record (token_of <$> data)).
    destruct (make_record_of _ _ _ _ _ m Hr) as (-> & Hty & _). cbn [rbind fst snd add_records]. rewrite Hty.
    cbn [ps_records parsing]. by destruct (add_record t r m).
Qed.

Lemma add_records_app rs rs' m :
  add_records (rs ++ rs') m = try* m' := add_records rs m in add_records rs' m'.
Proof.
  revert m. induction rs as [|r rs IH]; intros m; [done|]. simpl. by destruct (add_record (r_rr_type r) r m); simpl.
Qed.

Lemma parse_text_lines ls st m rt ts st' rs :
  file_meaning st ls = Some (st', rs) →
  ∃ rt' ts', parse_tokens (parsing st m rt MasterState.StartLine ts) (file_tokens ls) =
    try* m' := add_records rs m in Ok (parsing st' m' (rt' m') MasterState.StartLine (ts' m')).
Proof.
  revert st m rt ts rs. induction ls as [|[l e] ls IH]; intros st m rt ts rs; cbn [file_meaning].
  { intros [= <- <-]. by exists (λ _, rt), (λ _, ts). }
  intros ([st1 rs1] & Hl & ([st2 rs2] & Hls & [= <- <-])%bind_Some)%bind_Some. cbn [fst] in Hl.
  change (file_tokens ((l, e) :: ls)) with ((line_tokens l ++ [Token.EOL]) ++ file_tokens ls).
  rewrite parse_tokens_app, add_records_app. destruct (parse_text_line st m rt ts l st1 rs1 Hl) as (rt1 & ts1 & ->).
  destruct (add_records rs1 m) as [m1| | |]; cbn [rbind];
    [|by exists (λ _, None), (λ _, [])..].
  destruct (IH st1 m1 rt1 ts1 rs2 Hls) as (rt2 & ts2 & ->). by exists rt2, ts2.
Qed.

(** The records of a file are well formed where the zone relies on it. *)
Lemma file_meaning_soa ls st st' rs :
  file_meaning st ls = Some (st', rs) → Forall (λ r, r_rr_type r = RecordType.SOA → is_soa r) rs.
Proof.
  revert st rs. induction ls as [|[l e] ls IH]; intros st rs; cbn [file_meaning].
  { intros [= _ <-]. constructor. }
  intros ([st1 rs1] & Hl & ([st2 rs2] & Hls & [= -> <-])%bind_Some)%bind_Some. apply Forall_app. split; [|by eapply IH].
  destruct l as [?|w|w|o fields type data]; cbn [fst line_meaning] in Hl.
  - by injection Hl as _ <-.
  - destruct (Name_parse _ _); simplify_eq. constructor.
  - destruct (parse_time _); simplify_eq. constructor.
  - apply bind_Some in Hl as (name & _ & (st3 & _ & (t & _ & ([r ttl] & Hr & [= _ <-])%bind_Some)%bind_Some)%bind_Some).
    apply Forall_singleton. destruct (make_record_of _ _ _ _ _ [] Hr) as (_ & -> & H). exact H.
Qed.

(** An origin that is known stays known. *)
Lemma file_meaning_origin ls st st' rs :
  file_meaning st ls = Some (st', rs) → is_Some (st_origin st) → is_Some (st_origin st').
Proof.
  revert st rs. induction ls as [|[l e] ls IH]; intros st rs; cbn [file_meaning].
  { by intros [= <- _]. }
  intros ([st1 rs1] & Hl & ([st2 rs2] & Hls & [= -> <-])%bind_Some)%bind_Some Ho. eapply IH; [done|].
  destruct l as [?|w|w|o fields type data]; cbn [fst line_meaning] in Hl.
  - by injection Hl as <- _.
  - destruct (Name_parse _ _); simplify_eq. by eexists.
  - destruct (parse_time _); by simplify_eq.
  - apply bind_Some in Hl as (name & _ & (st3 & Hf & (t & _ & ([r ttl] & _ & [= <- _])%bind_Some)%bind_Some)%bind_Some).
    apply state_fields_origin in Hf. cbn in *. by rewrite Hf.
Qed.

(** The end of the text: the origin, as it was last stated, and the records that were filed. *)
Definition zone_of (origin : option Name) (rs : list RRecord) : res parse_error (Name * BTreeMap RrKey RecordSet) :=
  try* m := add_records rs [] in
  match origin with Some o => Ok (o, m) | None => Err (ParseMessage "$ORIGIN was not specified") end.

Lemma parse_text ls rest ts lx' origin st rs :
  file_ok ls → file_meaning (nothing_stated origin) ls = Some (st, rs) →
  lexes (mkLexer rest LexState.StartLine) ts lx' → (next_token lx').1 = Ok None →
  (∀ m rt ts', ∃ p, parse_tokens (parsing st m rt MasterState.StartLine ts') ts = Ok p ∧
     ps_origin p = st_origin st ∧ ps_records p = m) →
  Parser_parse (mkLexer (file_text ls ++ rest) LexState.StartLine) origin = zone_of (st_origin st) rs.
Proof.
  intros Hok Hm Hlex Hend Hrest.
  rewrite (parse_file_tokens _ (file_tokens ls ++ ts) lx'); [|by left|eapply lexes_app; [by apply lexes_file|done]|done].
  change (Parsing_new origin) with (parsing (nothing_stated origin) [] None MasterState.StartLine []).
  rewrite parse_tokens_app. destruct (parse_text_lines ls _ [] None [] st rs Hm) as (rt' & ts' & ->).
  unfold zone_of. destruct (add_records rs []) as [m| | |]; [|done..]. cbn [rbind].
  destruct (Hrest m (rt' m) (ts' m)) as (p & -> & Ho & Hr). cbn [rbind]. unfold parse_finish. rewrite Ho, Hr. by destruct (st_origin st).
Qed.

Lemma parse_whole_file ls origin st rs :
  file_ok ls → file_meaning (nothing_stated origin) ls = Some (st, rs) →
  Forall (λ c, is_scalar c = true) (file_text ls) →
  Parser_parse (Lexer_new (string_of (file_text ls))) origin = zone_of (st_origin st) rs.
Proof.
  intros Hok Hm Hsc. unfold Lexer_new. rewrite str_chars_string_of by done. rewrite <-(app_nil_r (file_text ls)).
  eapply parse_text; [done..|constructor|done|]. intros m rt ts'. by eexists.
Qed.

End parser.

(** ** Examples *)

(** A file with a comment, a control entry, a defaulted TTL, class and owner, and [@]. *)
Definition ex_line : line :=
  LRecord (OwnerName (bytes_of_str "www")) [bytes_of_str "1h"; bytes_of_str "IN"] (bytes_of_str "A")
    [Word (bytes_of_str "10.0.0.1")].
Definition plain_ending : ending := mkEnding None false.
Definition ex_entries : list (line * ending) := [(ex_line, plain_ending)].
Definition ex_entry_record : RRecord :=
  mkRecord (mkName [bytes_of_str "www"; bytes_of_str "a"]) RecordType.A DNSClass.IN 3600
    (RData.A (mkIpv4 10 0 0 1)).

Definition ex_soa_items : list item :=
  [Word (bytes_of_str "ns"); Word (bytes_of_str "me");
   Group (bytes_of_str <$> ["1"%string; "200"%string; "30"%string; "4000"%string; "500"%string])].
Definition ex_lines : list (line * ending) :=
  [(LNothing false, mkEnding (Some (bytes_of_str " a zone")) true);
   (LOrigin (bytes_of_str "b.a."), plain_ending);
   (LRecord AtOrigin [bytes_of_str "IN"] (bytes_of_str "SOA") ex_soa_items, plain_ending);
   (LNothing true, mkEnding (Some []) false);
   (LRecord LastOwner [] (bytes_of_str "NS") [Word (bytes_of_str "ns")], mkEnding (Some (bytes_of_str "no TTL")) false);
   (LTtl (bytes_of_str "60"), plain_ending);
   (ex_line, plain_ending);
   (LRecord LastOwner [] (bytes_of_str "A") [Word (bytes_of_str "10.0.0.2")], plain_ending)].

Definition ex_stated : stated :=
  mkStated (Some (mkName [bytes_of_str "b"; bytes_of_str "a"]))
    (Some (mkName [bytes_of_str "www"; bytes_of_str "b"; bytes_of_str "a"])) (Some 3600) (Some DNSClass.IN).
Definition ex_lines_records : list RRecord :=
  let origin := [bytes_of_str "b"; bytes_of_str "a"] in
  let www := mkName (bytes_of_str "www" :: origin) in
  let ns := mkName (bytes_of_str "ns" :: origin) in
  [mkRecord (mkName origin) RecordType.SOA DNSClass.IN 4000
     (RData.SOA (mkSOA ns (mkName (bytes_of_str "me" :: origin)) 1 200 30 4000 500));
   mkRecord (mkName origin) RecordType.NS DNSClass.IN 500 (RData.NS ns);
   mkRecord www RecordType.A DNSClass.IN 3600 (RData.A (mkIpv4 10 0 0 1));
   mkRecord www RecordType.A DNSClass.IN 3600 (RData.A (mkIpv4 10 0 0 2))].

#[export] Instance items_ok_dec its : Decision (items_ok its).
Proof. unfold items_ok. apply _. Defined.
#[export] Instance line_ok_dec l : Decision (line_ok l).
Proof. destruct l as [?|?|?|[]]; simpl; apply _. Defined.
#[export] Instance file_ok_dec ls : Decision (file_ok ls).
Proof. unfold file_ok, ending_ok. apply _. Defined.

