(* ===== verification/ZoneFile.v ===== *)
(** * ZoneFile: what a zone file says is what the zone holds

    The records of a master file, filed by [Parser::parse] one after the other, against the zone
    they make: nothing is in the zone that is not in the file, and nothing of the file is lost
    but repeated data. *)

From S2P Require Import Prelude Codec Wire Domain Enums Header RData RDataProps Resource Message RecordSet.
From S2P Require Import KeyPair Signer Update BTree Journal Authority AuthorityProps Text Lexer Master ZoneText.

Open Scope Z_scope.

Section filing.
Context `{L : Lowercase}.

Abbreviation keys l := ((rdata_key ∘ r_rdata) <$> l).

Definition rr_key_of (r : RRecord) : RrKey := RrKey_new (r_name_labels r) (r_rr_type r).

(** ** One insertion *)

Lemma insert_records {E} s r serial b s' :
  rset_ok s → fits s r → RecordSet_insert (E:=E) s r serial = Ok (b, s') →
  Forall (λ x, x = r ∨ x ∈ rs_records s) (rs_records s') ∧
  (¬ single_type (rs_record_type s) →
   rdata_key (r_rdata r) ∈ keys (rs_records s') ∧ keys (rs_records s) ⊆ keys (rs_records s')).
Proof.
  intros Hs Hf. rewrite RecordSet_insert_cases by done.
  assert (Hcleared : insert_rdata (E:=E) (rs_with_records s []) r serial = Ok (b, s') →
    single_type (rs_record_type s) →
    Forall (λ x, x = r ∨ x ∈ rs_records s) (rs_records s') ∧
    (¬ single_type (rs_record_type s) →
     rdata_key (r_rdata r) ∈ keys (rs_records s') ∧ keys (rs_records s) ⊆ keys (rs_records s'))).
  { rewrite insert_cleared. intros [= <- <-] Hst. simpl. split; [|done]. apply Forall_singleton. by left. }
  assert (Hsame : Ok (false, s) = Ok (E:=E) (b, s') → single_type (rs_record_type s) →
    Forall (λ x, x = r ∨ x ∈ rs_records s) (rs_records s') ∧
    (¬ single_type (rs_record_type s) →
     rdata_key (r_rdata r) ∈ keys (rs_records s') ∧ keys (rs_records s) ⊆ keys (rs_records s'))).
  { intros [= <- <-] Hst. split; [|done]. apply Forall_forall. auto. }
  case_decide as Hsoa.
  { assert (single_type (rs_record_type s)) by (by left).
    destruct (rs_records s) as [|x [|y l]]; [by auto| |by auto].
    destruct (r_rdata r); try (by auto). destruct (r_rdata x); try done. destruct (_ <=? _); auto. }
  case_decide as Hcn; [intros ?; apply Hcleared; [done|by right]|]. clear Hcleared Hsame.
  destruct (insert_rdata_spec (E:=E) s r serial (rso_unique _ Hs)) as [[_ ->]|(j & rr & Hj & Hk & ->)].
  - intros [= <- <-]. simpl. split.
    + apply Forall_forall. intros x [?|?%list_elem_of_singleton]%elem_of_app; auto.
    + intros _. rewrite fmap_app. set_solver.
  - assert (Hin : rdata_key (r_rdata r) ∈ keys (rs_records s)).
    { apply list_elem_of_fmap. exists rr. split; [done|]. by eapply list_elem_of_lookup_2. }
    destruct (Record_eq rr r); intros [= <- <-].
    { split; [apply Forall_forall; auto|]. intros _. by split. }
    simpl. split.
    + apply Forall_insert; [apply Forall_forall; auto|by left].
    + intros _. by rewrite (NoDup_insert_key _ j rr r (rso_unique _ Hs) Hj Hk).
Qed.

(** ** A file *)

Record filed (rs : list RRecord) (m : BTreeMap RrKey RecordSet) : Prop := {
  fl_ok : records_ok m;
  fl_sound : Forall (λ x, Forall (λ r, r ∈ rs) (rs_records x.2)) m;
  fl_complete r : r ∈ rs → ¬ single_type (r_rr_type r) →
    ∃ s, BTreeMap_get (rr_key_of r) m = Some s ∧ rdata_key (r_rdata r) ∈ keys (rs_records s);
}.

Lemma filed_set rs r m s0 s :
  filed rs m → records_ok (BTreeMap_set (rr_key_of r) s m) →
  s0 = from_option rs_records [] (BTreeMap_get (rr_key_of r) m) →
  Forall (λ x, x = r ∨ x ∈ s0) (rs_records s) →
  (¬ single_type (r_rr_type r) → rdata_key (r_rdata r) ∈ keys (rs_records s) ∧ keys s0 ⊆ keys (rs_records s)) →
  filed (rs ++ [r]) (BTreeMap_set (rr_key_of r) s m).
Proof.
  intros [Hok Hsound Hcomp] Hok' -> Hs Hkeys.
  assert (Hall : Forall (λ x, x ∈ rs ++ [r]) (rs_records s)).
  { eapply Forall_impl; [exact Hs|]. intros x [->|Hx]; [set_solver|].
    destruct (BTreeMap_get (rr_key_of r) m) as [s1|] eqn:Hg; simpl in Hx; [|by apply elem_of_nil in Hx].
    destruct (get_Forall _ _ _ _ (zo_tree _ Hok) Hsound Hg) as (k' & Hk' & _). simpl in Hk'.
    rewrite Forall_forall in Hk'. set_solver. }
  split; [done| |].
  - apply Forall_set; [|done|done]. eapply Forall_impl; [exact Hsound|]. intros x Hx.
    eapply Forall_impl; [exact Hx|]. set_solver.
  - intros r' Hr' Hst. rewrite get_set by apply Hok. destruct (cmp (rr_key_of r') (rr_key_of r)) eqn:Hc.
    + exists s. split; [done|]. pose proof Hc as [_ Ht]%RrKey_eq. simpl in Ht. rewrite Ht in Hst.
      destruct (Hkeys Hst) as [Hr Hsub]. apply elem_of_app in Hr' as [Hr'| ->%list_elem_of_singleton]; [|done].
      rewrite <-Ht in Hst. destruct (Hcomp r' Hr' Hst) as (s1 & Hg & Hin).
      rewrite (get_eq _ _ _ Hc) in Hg. rewrite Hg in Hsub. by apply Hsub.
    + apply elem_of_app in Hr' as [Hr'| ->%list_elem_of_singleton]; [by apply Hcomp|]. by rewrite cmp_refl in Hc.
    + apply elem_of_app in Hr' as [Hr'| ->%list_elem_of_singleton]; [by apply Hcomp|]. by rewrite cmp_refl in Hc.
Qed.

Lemma add_record_filed rs r m m' :
  filed rs m → (r_rr_type r = RecordType.SOA → is_soa r) → add_record (r_rr_type r) r m = Ok m' →
  filed (rs ++ [r]) m'.
Proof.
  intros Hf Hsoa Hadd. pose proof (fl_ok _ _ Hf) as Hok.
  pose proof (add_record_ok (r_rr_type r) r m Hok eq_refl Hsoa) as Hok'. rewrite Hadd in Hok'.
  unfold add_record in Hadd. fold (rr_key_of r) in Hadd.
  destruct (decide (r_rr_type r = RecordType.SOA)) as [Ht|Ht].
  - rewrite Ht in Hadd. destruct (BTreeMap_get (rr_key_of r) m) eqn:Hg; [done|]. injection Hadd as <-.
    eapply filed_set; [done|done|done| |]; simpl.
    + apply Forall_singleton. by left.
    + intros Hst. destruct Hst. by left.
  - set (s0 := default _ (BTreeMap_get (rr_key_of r) m)) in Hadd.
    assert (Hs0 : rset_ok s0 ∧ fits s0 r ∧ r_rr_type r = rs_record_type s0 ∧
                  rs_records s0 = from_option rs_records [] (BTreeMap_get (rr_key_of r) m)).
    { unfold s0. destruct (BTreeMap_get (rr_key_of r) m) as [s|] eqn:Hg.
      - destruct (get_entry _ _ _ Hok Hg) as (H1 & H2 & H3). simpl in *. split_and!; try done.
        split; [done|done|]. intros. apply Hsoa. congruence.
      - split_and!; [apply rset_ok_new| |done|done]. split; [apply Name_eq_refl|done|done]. }
    destruct Hs0 as (Hs0 & Hfit & Hty & Hrec).
    assert (Hins : ∃ b s', RecordSet_insert (E:=parse_error) s0 r 0 = Ok (b, s') ∧ m' = BTreeMap_set (rr_key_of r) s' m).
    { destruct (insert_ok (E:=parse_error) s0 r 0 Hs0 Hfit) as (b & s' & Hi & _). exists b, s'. split; [done|].
      rewrite Hi in Hadd. destruct (r_rr_type r); try done; by injection Hadd. }
    destruct Hins as (b & s' & Hi & ->). apply insert_records in Hi as [H1 H2]; [|done..].
    apply (filed_set rs r m (rs_records s0)); [done..|]. by rewrite Hty.
Qed.

Lemma add_records_filed rs : ∀ done m m',
  filed done m → Forall (λ r, r_rr_type r = RecordType.SOA → is_soa r) rs → add_records rs m = Ok m' →
  filed (done ++ rs) m'.
Proof.
  induction rs as [|r rs IH]; intros done m m' Hf Hsoa; simpl.
  { intros [= <-]. by rewrite app_nil_r. }
  apply Forall_cons in Hsoa as [Hr Hsoa].
  destruct (add_record (r_rr_type r) r m) as [m1| | |] eqn:Hadd; try discriminate. cbn [rbind]. intros H.
  rewrite (cons_middle r done rs), app_assoc. eapply IH; [|exact Hsoa|exact H]. by eapply add_record_filed.
Qed.

Lemma filed_nil : filed [] [].
Proof. split; [apply records_ok_nil|constructor|]. intros r Hr. by apply elem_of_nil in Hr. Qed.
End filing.

(** ** Zones from files *)

Section zone_files.
Context `{N : Numeric} `{L : Lowercase} `{C : Crypto} `{SQ : Sqlite}.

(** The zone of a file whose entries mean the records [rs]. *)
Lemma parse_file_filed ls origin st o rs zone_type allow_update dnssec a :
  file_ok ls → file_meaning (nothing_stated origin) ls = Some (st, rs) → st_origin st = Some o →
  Forall (λ c, is_scalar c = true) (file_text ls) →
  parse_file (string_of (file_text ls)) origin zone_type allow_update dnssec = Ok a →
  a_origin a = o ∧ filed rs (a_records a).
Proof.
  intros Hok Hm Ho Hsc. unfold parse_file. rewrite (parse_whole_file ls origin st rs Hok Hm Hsc). unfold zone_of.
  rewrite Ho. destruct (add_records rs []) as [m| | |] eqn:Hadd; try done. cbn [rbind fst snd]. intros [= <-]. simpl.
  split; [done|]. apply (add_records_filed rs [] [] m filed_nil); [|done]. by eapply file_meaning_soa.
Qed.

(** What a question to that zone is answered with. *)
Lemma filed_lookup rs a name t r :
  filed rs (a_records a) → r ∈ zone_records a → answers a name t r → r ∈ rs.
Proof.
  intros Hf (k & s & Hin & Hr)%elem_of_zone_records _. pose proof (fl_sound _ _ Hf) as Hs.
  rewrite Forall_forall in Hs. specialize (Hs _ Hin). rewrite Forall_forall in Hs. auto.
Qed.

Lemma filed_answered rs a r :
  filed rs (a_records a) → r ∈ rs → ¬ single_type (r_rr_type r) →
  ∃ r', r' ∈ zone_records a ∧ r_rr_type r' = r_rr_type r ∧ Name_eq (r_name_labels r') (r_name_labels r) = true ∧
        RData_eq (r_rdata r') (r_rdata r) = true.
Proof.
  intros Hf Hr Hst. pose proof (fl_ok _ _ Hf) as Hok.
  destruct (fl_complete _ _ Hf r Hr Hst) as (s & Hg & Hk). apply list_elem_of_fmap in Hk as (r' & Hk & Hr').
  apply get_elem in Hg as (k & Hin & Hc); [|apply Hok]. apply RrKey_eq in Hc as [Hn Ht]. simpl in *.
  destruct (entry_record a k s r' Hok Hin Hr') as (_ & Hn' & Ht' & _).
  exists r'. split_and!; [apply elem_of_zone_records; eauto|congruence| |].
  - eapply Name_eq_trans; [exact Hn'|]. by apply Name_eq_sym.
  - by apply RData_eq_key.
Qed.
End zone_files.
