(* ===== verification/ClientHandle.v ===== *)
(** * ClientHandle: the requests a client makes

    The trait [ClientHandle] of [client/src/client/client_future.rs] (the messages of
    a query, a notify and the dynamic updates), and the handles that wrap another one:
    [RetryClientHandle] and [MemoizeClientHandle] with its [RcFuture].  The theorems say
    what the server's authority makes of the updates, what a retry promises, and what
    the memoised handle answers. *)

From S2P Require Import Prelude Codec Wire Domain Enums Header RData RDataProps Resource Message RecordSet.
From S2P Require Import KeyPair Signer Update BTree Journal Authority AuthorityProps ZoneInstances.

Open Scope Z_scope.

(** ** Errors *)

(** [ClientErrorKind], the kinds the client code makes.  Cloning an error loses its kind: a clone is
    a message with the text of the original. *)
Inductive client_error : Type :=
  | ClientDecode (e : decode_error)
  | ClientEncode (e : encode_error)
  | ClientDnsSec (e : dnssec_error)
  | ClientIo
  | ClientCanceled
  | ClientMessage (msg : string)
  | ClientNoRrsigs (name : Name) (record_type : RecordType)
  | ClientTimeout
  | ClientCloned (e : client_error).

(** ** The interface *)

(** A handle sends a message and yields the reply.  [Clone] shares what the handle
    refers to, so the state of a handle is threaded through the calls made of any of
    its clones. *)
Class ClientHandle (H : Type) := send : Message → M H client_error Message.
#[global] Hint Mode ClientHandle ! : typeclass_instances.

(** [rrset.into_iter()]: the records, then the signatures. *)
Definition RecordSet_into_iter (rrset : RecordSet) : list RRecord := rs_records rrset ++ rs_rrsigs rrset.

(** The block [let edns = message.get_edns_mut(); ..]. *)
Definition extended_dns (message : Message) : Message :=
  let '(edns, message) := Message_get_edns_mut message in
  Message_set_edns message (Edns_set_version (Edns_set_max_payload edns 1500) 0).

(** [zone.name(..).query_class(..).query_type(RecordType::SOA)] *)
Definition zone_query (zone_origin : Name) (dns_class : DNSClass) : Query :=
  Query_query_type (Query_query_class (Query_name Query_new zone_origin) dns_class) RecordType.SOA.

(** The message of an update, before its sections are filled; [id] is
    [rand::random()]. *)
Definition update_message (id : Z) (zone_origin : Name) (dns_class : DNSClass) : Message :=
  let message := Message_new in
  let message := Message_id message id in
  let message := Message_message_type message MessageType.Query in
  let message := Message_op_code message OpCode.Update in
  let message := Message_recursion_desired message false in
  add_zone message (zone_query zone_origin dns_class).

(** ** The messages *)

Section messages.
Context `{L : Lowercase}.

(** [assert!(zone_origin.zone_of(name))] *)
Definition assert_zone_of {E A} (zone_origin name : Name) (k : res E A) : res E A :=
  try* b := Name_zone_of zone_origin name in if (b : bool) then k else Panic.

Definition query_message (id : Z) (name : Name) (query_class : DNSClass) (query_type : RecordType) :
    Message :=
  let message := Message_new in
  let message := Message_id message id in
  let message := Message_message_type message MessageType.Query in
  let message := Message_op_code message OpCode.Query in
  let message := Message_recursion_desired message true in
  let message := extended_dns message in
  let query := Query_query_type (Query_query_class (Query_name Query_new name) query_class) query_type in
  Message_add_query message query.

Definition notify_message (id : Z) (name : Name) (query_class : DNSClass) (query_type : RecordType)
    (rrset : option RecordSet) : Message :=
  let message := Message_new in
  let message := Message_id message id in
  let message := Message_message_type message MessageType.Query in
  let message := Message_op_code message OpCode.Notify in
  let message := extended_dns message in
  let query := Query_query_type (Query_query_class (Query_name Query_new name) query_class) query_type in
  let message := Message_add_query message query in
  match rrset with
  | Some rrset => Message_add_answers message (RecordSet_into_iter rrset)
  | None => message
  end.

Definition create_message {E} (id : Z) (rrset : RecordSet) (zone_origin : Name) : res E Message :=
  assert_zone_of zone_origin (rs_name rrset)
    (let message := update_message id zone_origin (rs_dns_class rrset) in
     let prerequisite := Record_with (rs_name rrset) (rs_record_type rrset) 0 in
     let prerequisite := Record_dns_class prerequisite DNSClass.NONE in
     let message := add_pre_requisite message prerequisite in
     let message := add_updates message (RecordSet_into_iter rrset) in
     Ok (extended_dns message)).

Definition append_message {E} (id : Z) (rrset : RecordSet) (zone_origin : Name) (must_exist : bool) :
    res E Message :=
  assert_zone_of zone_origin (rs_name rrset)
    (let message := update_message id zone_origin (rs_dns_class rrset) in
     let message :=
       if must_exist then
         let prerequisite := Record_with (rs_name rrset) (rs_record_type rrset) 0 in
         let prerequisite := Record_dns_class prerequisite DNSClass.ANY in
         add_pre_requisite message prerequisite
       else message in
     let message := add_updates message (RecordSet_into_iter rrset) in
     Ok (extended_dns message)).

Definition compare_and_swap_message {E} (id : Z) (current new : RecordSet) (zone_origin : Name) :
    res E Message :=
  assert_zone_of zone_origin (rs_name current)
    (assert_zone_of zone_origin (rs_name new)
      (let message := update_message id zone_origin (rs_dns_class new) in
       let prerequisite := RecordSet_set_ttl current 0 in
       let message := add_pre_requisites message (RecordSet_into_iter prerequisite) in
       let delete := RecordSet_set_dns_class current DNSClass.NONE in
       let delete := RecordSet_set_ttl delete 0 in
       let message := add_updates message (RecordSet_into_iter delete) in
       let message := add_updates message (RecordSet_into_iter new) in
       Ok (extended_dns message))).

Definition delete_by_rdata_message {E} (id : Z) (rrset : RecordSet) (zone_origin : Name) :
    res E Message :=
  assert_zone_of zone_origin (rs_name rrset)
    (let message := update_message id zone_origin (rs_dns_class rrset) in
     let rrset := RecordSet_set_dns_class rrset DNSClass.NONE in
     let rrset := RecordSet_set_ttl rrset 0 in
     let message := add_updates message (RecordSet_into_iter rrset) in
     Ok (extended_dns message)).

Definition delete_rrset_message {E} (id : Z) (record : RRecord) (zone_origin : Name) : res E Message :=
  assert_zone_of zone_origin (r_name_labels record)
    (let message := update_message id zone_origin (r_dns_class record) in
     let record := Record_dns_class record DNSClass.ANY in
     let record := Record_ttl record 0 in
     let record := Record_rdata record (RData.NULL NULL_new) in
     let message := add_update message record in
     Ok (extended_dns message)).

Definition delete_all_message {E} (id : Z) (name_of_records zone_origin : Name) (dns_class : DNSClass) :
    res E Message :=
  assert_zone_of zone_origin name_of_records
    (let message := update_message id zone_origin dns_class in
     let record := Record_with name_of_records RecordType.ANY 0 in
     let record := Record_dns_class record DNSClass.ANY in
     let message := add_update message record in
     Ok (extended_dns message)).
End messages.

(** ** The methods: the message, sent *)

Section handle.
Context `{L : Lowercase} {H : Type} `{CH : ClientHandle H}.

Definition query (id : Z) (name : Name) (query_class : DNSClass) (query_type : RecordType) :
    M H client_error Message :=
  send (query_message id name query_class query_type).
Definition notify (id : Z) (name : Name) (query_class : DNSClass) (query_type : RecordType)
    (rrset : option RecordSet) : M H client_error Message :=
  send (notify_message id name query_class query_type rrset).
Definition create (id : Z) (rrset : RecordSet) (zone_origin : Name) : M H client_error Message :=
  let* message := lift (create_message id rrset zone_origin) in send message.
Definition append (id : Z) (rrset : RecordSet) (zone_origin : Name) (must_exist : bool) :
    M H client_error Message :=
  let* message := lift (append_message id rrset zone_origin must_exist) in send message.
Definition compare_and_swap (id : Z) (current new : RecordSet) (zone_origin : Name) :
    M H client_error Message :=
  let* message := lift (compare_and_swap_message id current new zone_origin) in send message.
Definition delete_by_rdata (id : Z) (rrset : RecordSet) (zone_origin : Name) :
    M H client_error Message :=
  let* message := lift (delete_by_rdata_message id rrset zone_origin) in send message.
Definition delete_rrset (id : Z) (record : RRecord) (zone_origin : Name) : M H client_error Message :=
  let* message := lift (delete_rrset_message id record zone_origin) in send message.
Definition delete_all (id : Z) (name_of_records zone_origin : Name) (dns_class : DNSClass) :
    M H client_error Message :=
  let* message := lift (delete_all_message id name_of_records zone_origin dns_class) in send message.
End handle.

(** ** [RetryClientHandle] *)

Record RetryClientHandle (H : Type) : Type := mkRetry { rt_client : H; rt_attempts : nat }.
Arguments mkRetry {H} _ _.
Arguments rt_client {H} _.
Arguments rt_attempts {H} _.

(** The loop of [RetrySendFuture::poll], with the future it polls run to its end. *)
Fixpoint retry_loop {H} `{CH : ClientHandle H} (remaining_attempts : nat) (message : Message) :
    M H client_error Message := λ client,
  match send message client with
  | (Err e, client) =>
      match remaining_attempts with
      | O => (Err e, client)
      | S remaining_attempts => retry_loop remaining_attempts message client
      end
  | r => r
  end.

#[global] Instance RetryClientHandle_send {H} `{CH : ClientHandle H} : ClientHandle (RetryClientHandle H) :=
  λ message self,
    let '(r, client) := retry_loop (rt_attempts self) message (rt_client self) in
    (r, mkRetry client (rt_attempts self)).

(** ** [RcFuture] *)

(** What a future of a reply ends with. *)
Definition outcome : Type := res client_error Message.

(** [Clone] of the result of a poll. *)
Definition outcome_clone (r : outcome) : outcome :=
  match r with Err e => Err (ClientCloned e) | _ => r end.

(** A future and the result it has ended with, which its clones share. *)
Record RcFuture (F : Type) : Type := mkRcFuture { rf_future : F; rf_result : option outcome }.
Arguments mkRcFuture {F} _ _.
Arguments rf_future {F} _.
Arguments rf_result {F} _.

Definition rc_future {F} (future : F) : RcFuture F := mkRcFuture future None.

(** [poll] is that of the future, [None] when it is not ready; one that panics stores nothing. *)
Definition RcFuture_poll {F} (poll : F → option outcome * F) (self : RcFuture F) : option outcome * RcFuture F :=
  match rf_result self with
  | Some result => (Some (outcome_clone result), self)
  | None =>
      match poll (rf_future self) with
      | (None, future) => (None, mkRcFuture future None)
      | (Some ((Ok _ | Err _) as result), future) => (Some result, mkRcFuture future (Some (outcome_clone result)))
      | (Some result, future) => (Some result, mkRcFuture future None)
      end
  end.

(** ** [MemoizeClientHandle] *)

(** A request that has been run to its end, as a future. *)
Definition finished (r : outcome) : option outcome * outcome := (Some r, r).

Definition run_rc (self : RcFuture outcome) : outcome * RcFuture outcome :=
  let '(r, self) := RcFuture_poll finished self in (default Diverge r, self).

(** [HashMap<Query, RcFuture<..>>]: keys are equal when their names are, without regard
    to case, and their types and classes are. *)
Record MemoizeClientHandle (H : Type) : Type := mkMemoize {
  mz_client : H;
  mz_active_queries : list (Query * RcFuture outcome);
}.
Arguments mkMemoize {H} _ _.
Arguments mz_client {H} _.
Arguments mz_active_queries {H} _.

Definition Query_eq `{Lowercase} (x y : Query) : bool :=
  Name_eq (q_name x) (q_name y) && bool_decide (q_query_type x = q_query_type y) &&
  bool_decide (q_query_class x = q_query_class y).

Fixpoint find_query `{Lowercase} (q : Query) (l : list (Query * RcFuture outcome)) : option (RcFuture outcome) :=
  match l with
  | [] => None
  | (q', r) :: l => if Query_eq q q' then Some r else find_query q l
  end.

(** The caller runs the future it is given; polling one that has a result does not change it. *)
#[global] Instance MemoizeClientHandle_send `{L : Lowercase} {H} `{CH : ClientHandle H} :
    ClientHandle (MemoizeClientHandle H) := λ message self,
  match m_queries message with
  | [] => (Panic, self)
  | query :: _ =>
      match find_query query (mz_active_queries self) with
      | Some request => ((run_rc request).1, self)
      | None =>
          let '(r, client) := send message (mz_client self) in
          let '(r, request) := run_rc (rc_future r) in
          (r, mkMemoize client ((query, request) :: mz_active_queries self))
      end
  end.

(** ** The client and the authority *)

Lemma extended_dns_sections m :
  m_answers (extended_dns m) = m_answers m ∧ m_name_servers (extended_dns m) = m_name_servers m ∧
  m_queries (extended_dns m) = m_queries m.
Proof. unfold extended_dns, Message_get_edns_mut. by destruct (m_edns m). Qed.

(** Sections of a message built by the code above. *)
Ltac sections H :=
  cbv zeta in H; injection H as <-;
  rewrite ?(proj1 (extended_dns_sections _)), ?(proj1 (proj2 (extended_dns_sections _)));
  rewrite ?add_name_servers_eq, ?add_answers_eq.

Section client_server.
Context `{L : Lowercase} `{HO : HashOrder} `{C : Crypto} `{SQ : Sqlite} `{CK : Clock}.

(** A set of records an update can carry to the zone: well formed, unsigned, of the
    zone's class and of an ordinary type. *)
Record sendable (a : Authority) (s : RecordSet) : Prop := {
  sd_ok : rset_ok s;
  sd_unsigned : rs_rrsigs s = [];
  sd_class : Forall (λ r, r_dns_class r = a_class a) (rs_records s);
  sd_set_class : rs_dns_class s = a_class a;
  sd_type : rs_record_type s ≠ RecordType.ANY ∧ rs_record_type s ≠ RecordType.AXFR ∧
            rs_record_type s ≠ RecordType.IXFR;
}.

(** The class of a zone is one of records. *)
Definition data_class (c : DNSClass) : Prop := c = DNSClass.IN ∨ c = DNSClass.CH ∨ c = DNSClass.HS.

(** [zone_of] does not tell equal names apart. *)
Lemma zone_of_eq {E} z n n' : Name_eq n n' = true →
  Name_zone_of (E:=E) z n = Name_zone_of z n'.
Proof.
  rewrite Name_eq_cmp, Name_cmp_eq_labels. intros Hl. unfold Name_zone_of, Name_to_lowercase.
  by rewrite Hl.
Qed.

Lemma zone_of_loop_any {E E'} s n l :
  zone_of_loop (E:=E) s n l = Ok true → zone_of_loop (E:=E') s n l = Ok true.
Proof. induction l as [|i l IH]; [done|]. simpl. repeat case_decide; done || auto. Qed.

Lemma assert_zone_of_Ok {E A} z n (k : res E A) x :
  assert_zone_of z n k = Ok x → Name_zone_of (E:=ResponseCode) z n = Ok true ∧ k = Ok x.
Proof.
  unfold assert_zone_of. intros Hk.
  assert (Hz : Name_zone_of (E:=E) z n = Ok true) by (by destruct (Name_zone_of z n) as [[]| | |]).
  rewrite Hz in Hk. split; [|done]. revert Hz.
  unfold Name_zone_of, Name_to_lowercase, Name_with_labels, Name_checked.
  repeat case_decide; cbn [rbind]; try done. apply zone_of_loop_any.
Qed.

Lemma sendable_in_zone a s r :
  sendable a s → Name_zone_of (E:=ResponseCode) (a_origin a) (rs_name s) = Ok true → r ∈ rs_records s →
  Name_zone_of (E:=ResponseCode) (a_origin a) (r_name_labels r) = Ok true ∧ r_rr_type r = rs_record_type s ∧
  r_dns_class r = a_class a.
Proof.
  intros Hs Hz Hr. pose proof (rso_names _ (sd_ok _ _ Hs)) as Hn. pose proof (rso_types _ (sd_ok _ _ Hs)) as Ht.
  pose proof (sd_class _ _ Hs) as Hc. rewrite Forall_forall in Hn, Ht, Hc.
  split_and!; [|by apply Ht|by apply Hc]. rewrite <-Hz. by apply zone_of_eq, Hn.
Qed.

Lemma pre_scan_all a rs : (∀ r, r ∈ rs → pre_scan_record a r = Ok ()) → Authority_pre_scan a rs = Ok ().
Proof.
  induction rs as [|r rs IH]; intros Hrs; [done|]. simpl. rewrite Hrs by left. cbn [rbind].
  apply IH. intros r' Hr'. apply Hrs. by right.
Qed.

Lemma pre_scan_app a rs rs' :
  Authority_pre_scan a rs = Ok () → Authority_pre_scan a rs' = Ok () →
  Authority_pre_scan a (rs ++ rs') = Ok ().
Proof.
  intros H1 H2. induction rs as [|r rs IH]; [done|]. simpl in *.
  destruct (pre_scan_record a r); try done. by apply IH.
Qed.

(** Additions and deletions of records of a set that can be sent. *)
Lemma pre_scan_add a s :
  sendable a s → Name_zone_of (E:=ResponseCode) (a_origin a) (rs_name s) = Ok true →
  Authority_pre_scan a (RecordSet_into_iter s) = Ok ().
Proof.
  intros Hs Hz. unfold RecordSet_into_iter. rewrite (sd_unsigned _ _ Hs), app_nil_r.
  apply pre_scan_all. intros r Hr. destruct (sendable_in_zone a s r Hs Hz Hr) as (Hrz & Ht & Hc).
  unfold pre_scan_record. rewrite Hrz, Hc, Ht. cbn [rbind negb]. rewrite decide_True by done.
  destruct (sd_type _ _ Hs) as (? & ? & ?). by destruct (rs_record_type s).
Qed.

Lemma pre_scan_delete a s :
  data_class (a_class a) → sendable a s →
  Name_zone_of (E:=ResponseCode) (a_origin a) (rs_name s) = Ok true →
  Authority_pre_scan a (RecordSet_into_iter (RecordSet_set_ttl (RecordSet_set_dns_class s DNSClass.NONE) 0))
  = Ok ().
Proof.
  intros Hcl Hs Hz. unfold RecordSet_into_iter. simpl. rewrite (sd_unsigned _ _ Hs), app_nil_r.
  apply pre_scan_all. intros r' Hr'. apply list_elem_of_fmap in Hr' as (r1 & -> & Hr1).
  apply list_elem_of_fmap in Hr1 as (r & -> & Hr).
  destruct (sendable_in_zone a s r Hs Hz Hr) as (Hrz & Ht & Hc).
  unfold pre_scan_record. simpl. rewrite Hrz, Ht. cbn [rbind negb].
  rewrite decide_False by (destruct Hcl as [->|[->| ->]]; done).
  destruct (sd_type _ _ Hs) as (? & ? & ?). by destruct (rs_record_type s).
Qed.

(** The deletion of a record set or of a name. *)
Lemma pre_scan_delete_any a r :
  data_class (a_class a) → Name_zone_of (E:=ResponseCode) (a_origin a) (r_name_labels r) = Ok true →
  r_dns_class r = DNSClass.ANY → r_ttl r = 0 → is_null (r_rdata r) = true →
  r_rr_type r ≠ RecordType.AXFR ∧ r_rr_type r ≠ RecordType.IXFR → Authority_pre_scan a [r] = Ok ().
Proof.
  intros Hcl Hz Hc Ht Hn [H1 H2]. apply pre_scan_all. intros r' ->%list_elem_of_singleton. unfold pre_scan_record.
  rewrite Hz, Hc, Ht, Hn. cbn [rbind negb Z.eqb]. rewrite decide_False by (by destruct Hcl as [->|[->| ->]]).
  by destruct (r_rr_type r).
Qed.

Lemma prerequisites_cons a r rs :
  Authority_verify_prerequisites a (r :: rs) =
  try* _ := verify_prerequisite a r in Authority_verify_prerequisites a rs.
Proof. done. Qed.

(** A prerequisite on the whole set: that it exists ([ANY]) or not ([NONE]). *)
Lemma prerequisite_set a s (c : DNSClass) :
  sendable a s → Name_zone_of (E:=ResponseCode) (a_origin a) (rs_name s) = Ok true →
  c = DNSClass.ANY ∨ c = DNSClass.NONE →
  verify_prerequisite a (Record_dns_class (Record_with (rs_name s) (rs_record_type s) 0) c) =
  let found := Authority_lookup a (rs_name s) (rs_record_type s) false no_algorithms in
  if decide (c = DNSClass.ANY) then if decide (found = []) then Err ResponseCode.NXRRSet else Ok ()
  else if decide (found = []) then Ok () else Err ResponseCode.YXRRSet.
Proof.
  intros Hs Hz Hc. unfold verify_prerequisite. simpl. rewrite Hz. cbn [rbind negb].
  destruct (sd_type _ _ Hs) as (Hany & _ & _).
  destruct Hc as [-> | ->]; destruct (rs_record_type s); try done; cbv beta zeta iota;
    repeat case_decide; try done; tauto.
Qed.

(** A prerequisite on the data: some record of the zone equals it. *)
Lemma prerequisite_data a r :
  data_class (a_class a) → r_dns_class r = a_class a → r_ttl r = 0 →
  Name_zone_of (E:=ResponseCode) (a_origin a) (r_name_labels r) = Ok true →
  verify_prerequisite a r =
  if existsb (λ rr, Record_eq rr r) (Authority_lookup a (r_name_labels r) (r_rr_type r) false no_algorithms)
  then Ok () else Err ResponseCode.NXRRSet.
Proof.
  intros Hcl Hc Ht Hz. unfold verify_prerequisite. rewrite Ht, Hz, Hc. cbn [rbind negb Z.eqb].
  by destruct Hcl as [->|[->| ->]]; rewrite decide_True.
Qed.

(** The messages' sections. *)
Lemma create_sections {E} id s z m : create_message (E:=E) id s z = Ok m →
  Name_zone_of (E:=ResponseCode) z (rs_name s) = Ok true ∧
  m_answers m = [Record_dns_class (Record_with (rs_name s) (rs_record_type s) 0) DNSClass.NONE] ∧
  m_name_servers m = RecordSet_into_iter s.
Proof.
  intros [Hz Hm]%assert_zone_of_Ok. split; [done|].
  sections Hm. by split.
Qed.

Lemma create_zones {E} id s z m : create_message (E:=E) id s z = Ok m → get_zones m = [zone_query z (rs_dns_class s)].
Proof. intros [_ Hm]%assert_zone_of_Ok. simpl. by sections Hm. Qed.

Lemma append_sections {E} id s z b m : append_message (E:=E) id s z b = Ok m →
  Name_zone_of (E:=ResponseCode) z (rs_name s) = Ok true ∧
  m_answers m =
    (if b : bool then [Record_dns_class (Record_with (rs_name s) (rs_record_type s) 0) DNSClass.ANY] else []) ∧
  m_name_servers m = RecordSet_into_iter s.
Proof.
  intros [Hz Hm]%assert_zone_of_Ok. split; [done|].
  sections Hm. by destruct b.
Qed.

Lemma cas_sections {E} id current new z m : compare_and_swap_message (E:=E) id current new z = Ok m →
  Name_zone_of (E:=ResponseCode) z (rs_name current) = Ok true ∧
  Name_zone_of (E:=ResponseCode) z (rs_name new) = Ok true ∧
  m_answers m = RecordSet_into_iter (RecordSet_set_ttl current 0) ∧
  m_name_servers m =
    RecordSet_into_iter (RecordSet_set_ttl (RecordSet_set_dns_class current DNSClass.NONE) 0) ++
    RecordSet_into_iter new.
Proof.
  intros [Hz Hm]%assert_zone_of_Ok. apply assert_zone_of_Ok in Hm as [Hz' Hm].
  split; [done|]. split; [done|].
  sections Hm. by split.
Qed.

Lemma prerequisites_data a rs :
  data_class (a_class a) →
  Forall (λ r, r_dns_class r = a_class a ∧ r_ttl r = 0 ∧
    Name_zone_of (E:=ResponseCode) (a_origin a) (r_name_labels r) = Ok true) rs →
  Authority_verify_prerequisites a rs =
  if forallb (λ r, existsb (λ rr, Record_eq rr r)
       (Authority_lookup a (r_name_labels r) (r_rr_type r) false no_algorithms)) rs
  then Ok () else Err ResponseCode.NXRRSet.
Proof.
  intros Hcl. induction 1 as [|r rs (Hc & Ht & Hz) _ IH]; [done|].
  rewrite prerequisites_cons, prerequisite_data by done. cbn [forallb].
  by destruct (existsb _ _).
Qed.

Lemma forallb_map_ttl a s :
  forallb (λ r, existsb (λ rr, Record_eq rr r)
    (Authority_lookup a (r_name_labels r) (r_rr_type r) false no_algorithms))
    ((λ r, Record_ttl r 0) <$> s) =
  forallb (λ r, existsb (λ rr, Record_eq rr r)
    (Authority_lookup a (r_name_labels r) (r_rr_type r) false no_algorithms)) s.
Proof. induction s as [|r s IH]; [done|]. rewrite fmap_cons. cbn [forallb]. by rewrite IH. Qed.

Lemma cas_prerequisites a s :
  data_class (a_class a) → sendable a s →
  Name_zone_of (E:=ResponseCode) (a_origin a) (rs_name s) = Ok true →
  Authority_verify_prerequisites a (RecordSet_into_iter (RecordSet_set_ttl s 0)) =
  if forallb (λ r, existsb (λ rr, Record_eq rr r)
       (Authority_lookup a (r_name_labels r) (r_rr_type r) false no_algorithms)) (rs_records s)
  then Ok () else Err ResponseCode.NXRRSet.
Proof.
  intros Hcl Hs Hz. unfold RecordSet_into_iter. simpl. rewrite (sd_unsigned _ _ Hs), app_nil_r.
  rewrite prerequisites_data; [by rewrite forallb_map_ttl|done|].
  apply Forall_fmap, Forall_forall. intros r Hr.
  by destruct (sendable_in_zone a s r Hs Hz Hr) as (? & ? & ?).
Qed.

(** C27: What the updates a client builds for a zone mean on the server. All six pass
    the prescan. [create] requires that no such set exists, and [append] with
    [must_exist] that one does; [compare_and_swap] requires that every record to be
    replaced is there, but not, as its documentation says with RFC 2136, 2.4.2, that the
    set has no other records; the other three and [append] without [must_exist] require
    nothing. The sets are unsigned, of the zone's class and of a type that is not a
    question's (ANY, AXFR, IXFR). *)
Theorem client_updates_meaning a s new record name id :
  data_class (a_class a) → sendable a s → sendable a new →
  r_rr_type record ≠ RecordType.AXFR ∧ r_rr_type record ≠ RecordType.IXFR →
  let found := Authority_lookup a (rs_name s) (rs_record_type s) false no_algorithms in
  let accepted m := Authority_pre_scan a (m_name_servers m) = Ok () ∧ Authority_verify_prerequisites a (m_answers m) = Ok () in
  (∀ m, create_message (E:=client_error) id s (a_origin a) = Ok m →
     Authority_pre_scan a (m_name_servers m) = Ok () ∧
     Authority_verify_prerequisites a (m_answers m) =
       if decide (found = []) then Ok () else Err ResponseCode.YXRRSet) ∧
  (∀ m, append_message (E:=client_error) id s (a_origin a) true = Ok m →
     Authority_pre_scan a (m_name_servers m) = Ok () ∧
     Authority_verify_prerequisites a (m_answers m) =
       if decide (found = []) then Err ResponseCode.NXRRSet else Ok ()) ∧
  (∀ m, append_message (E:=client_error) id s (a_origin a) false = Ok m → accepted m) ∧
  (∀ m, compare_and_swap_message (E:=client_error) id s new (a_origin a) = Ok m →
     Authority_pre_scan a (m_name_servers m) = Ok () ∧
     Authority_verify_prerequisites a (m_answers m) =
       if forallb (λ r, existsb (λ rr, Record_eq rr r)
            (Authority_lookup a (r_name_labels r) (r_rr_type r) false no_algorithms)) (rs_records s)
       then Ok () else Err ResponseCode.NXRRSet) ∧
  (∀ m, delete_by_rdata_message (E:=client_error) id s (a_origin a) = Ok m → accepted m) ∧
  (∀ m, delete_rrset_message (E:=client_error) id record (a_origin a) = Ok m → accepted m) ∧
  (∀ m, delete_all_message (E:=client_error) id name (a_origin a) (a_class a) = Ok m → accepted m).
Proof.
  intros Hcl Hs Hnew Hrt found accepted. unfold accepted. clear accepted. split_and!.
  - intros m (Hz & -> & ->)%create_sections. split; [by apply pre_scan_add|].
    rewrite prerequisites_cons, (prerequisite_set a s _ Hs Hz) by auto. cbv zeta.
    rewrite decide_False by done. fold found. by case_decide.
  - intros m (Hz & -> & ->)%append_sections. split; [by apply pre_scan_add|].
    rewrite prerequisites_cons, (prerequisite_set a s _ Hs Hz) by auto. cbv zeta.
    rewrite decide_True by done. fold found. by case_decide.
  - intros m (Hz & -> & ->)%append_sections. split; [by apply pre_scan_add|done].
  - intros m (Hz & Hz' & -> & ->)%cas_sections. split; [|by apply cas_prerequisites].
    apply pre_scan_app; [by apply pre_scan_delete|by apply pre_scan_add].
  - intros m [Hz Hm]%assert_zone_of_Ok. sections Hm. split; [by apply pre_scan_delete|done].
  - intros m [Hz Hm]%assert_zone_of_Ok. sections Hm. split; [|done]. by apply pre_scan_delete_any.
  - intros m [Hz Hm]%assert_zone_of_Ok. sections Hm. split; [|done]. by apply pre_scan_delete_any.
Qed.

(** ** What an accepted creation leaves in the zone *)

Abbreviation rdata_keys l := ((rdata_key ∘ r_rdata) <$> l).

Lemma insert_new {E} s r serial :
  rset_ok s → fits s r → ¬ single_type (rs_record_type s) → rdata_key (r_rdata r) ∉ rdata_keys (rs_records s) →
  RecordSet_insert (E:=E) s r serial =
  Ok (true, mkRecordSet (rs_name s) (rs_record_type s) (rs_dns_class s) (r_ttl r)
              (rs_records s ++ [r]) [] serial).
Proof.
  intros Hs Hf Hns Hk. rewrite RecordSet_insert_cases by done. unfold single_type in Hns.
  rewrite !decide_False by tauto.
  destruct (insert_rdata_spec (E:=E) s r serial (rso_unique _ Hs)) as [[_ ->]|(j & rr & Hj & Hrr & _)]; [done|].
  destruct Hk. rewrite <-Hrr. apply list_elem_of_fmap. exists rr. split; [done|].
  by eapply list_elem_of_lookup_2.
Qed.

(** What is stored under a key, an absent set being empty. *)
Definition stored (a : Authority) (k : RrKey) : list RRecord :=
  match BTreeMap_get k (a_records a) with Some s => rs_records s | None => [] end.

Lemma lookup_stored a name t :
  t ≠ RecordType.ANY ∧ t ≠ RecordType.AXFR ∧ t ≠ RecordType.IXFR → ¬ single_type t →
  Authority_lookup a name t false no_algorithms = stored a (RrKey_new name t).
Proof.
  intros (? & ? & _) Hns. unfold Authority_lookup, stored, single_type in *. rewrite decide_False by tauto. by destruct t.
Qed.

(** The zone [a'] is [a] with the records [rs] added under the key [k]; a set keeps its name, and one
    that is new has the name of the first record. *)
Record added (k : RrKey) (rs : list RRecord) (a a' : Authority) : Prop := {
  ad_zone : zone_ok a';
  ad_same : a' = with_records a (a_records a');
  ad_stored : stored a' k = stored a k ++ rs;
  ad_kept s : BTreeMap_get k (a_records a) = Some s →
    ∃ s', BTreeMap_get k (a_records a') = Some s' ∧ rs_name s' = rs_name s;
  ad_new r : BTreeMap_get k (a_records a) = None → head rs = Some r →
    ∃ s', BTreeMap_get k (a_records a') = Some s' ∧ rs_name s' = r_name_labels r;
  ad_other k' : cmp k' k ≠ Eq → BTreeMap_get k' (a_records a') = BTreeMap_get k' (a_records a);
}.

Lemma added_nil k a : zone_ok a → added k [] a a.
Proof. intros Hz. split; [done|by rewrite with_records_same|by rewrite app_nil_r|eauto|done|done]. Qed.

Lemma added_cons k r rs a a1 a' : added k [r] a a1 → added k rs a1 a' → added k (r :: rs) a a'.
Proof.
  intros [Hz1 Hs1 Hst1 Hk1 Hn1 Ho1] [Hz2 Hs2 Hst2 Hk2 _ Ho2]. split; [done| | | | |].
  - rewrite Hs2, Hs1. done.
  - by rewrite Hst2, Hst1, <-app_assoc.
  - intros s (s1 & Hg1 & <-)%Hk1. by apply Hk2.
  - intros r' Hnone [= <-]. destruct (Hn1 r Hnone eq_refl) as (s1 & Hg1 & <-). by apply Hk2.
  - intros k' Hk'. by rewrite Ho2, Ho1.
Qed.

Lemma update_add serial a r k :
  zone_ok a → r_dns_class r = a_class a → cmp k (RrKey_new (r_name_labels r) (r_rr_type r)) = Eq →
  ¬ single_type (r_rr_type r) → rdata_key (r_rdata r) ∉ rdata_keys (stored a k) →
  ∃ a', update_record serial a r = Ok (true, a') ∧ added k [r] a a'.
Proof.
  intros Hz Hc Hk Hns Hnew. unfold update_record. rewrite decide_True by done.
  set (rk := RrKey_new _ _) in *.
  assert (Had : addable a r) by (split; [done|]; intros Ht; destruct Hns; by left).
  destruct (upsert_ok (E:=ResponseCode) a r serial Hz Had) as (b & s' & Hup & Hm & _).
  rewrite Hup. unfold Authority_upsert in Hup. rewrite decide_True in Hup by done. fold rk in Hup, Hm |- *.
  set (s0 := default _ _) in Hup.
  assert (Hs0 : rset_ok s0 ∧ Name_eq (r_name_labels r) (rs_name s0) = true ∧
                r_rr_type r = rs_record_type s0 ∧ rs_records s0 = stored a k).
  { unfold s0, stored. rewrite (get_eq k rk) by done.
    destruct (BTreeMap_get rk (a_records a)) as [s|] eqn:Hg.
    - by destruct (get_entry _ rk s Hz Hg) as (? & ? & ?).
    - split_and!; [apply rset_ok_new|apply Name_eq_refl|done|done]. }
  destruct Hs0 as (Hs0 & Hn & Ht & Hst). rewrite <-Hst in Hnew.
  rewrite (insert_new s0 r serial) in Hup; [|done| |by rewrite <-Ht|done].
  2:{ split; [done|done|]. intros Hso. destruct Hns. left. congruence. }
  cbn [rbind fst snd] in Hup. pose proof Hup as Hb. injection Hb as <- _.
  apply (f_equal (λ x, match x with Ok (_, x) => BTreeMap_get rk (a_records x) | _ => None end)) in Hup.
  cbn [a_records with_records] in Hup. rewrite !get_set, cmp_refl in Hup by apply Hz. injection Hup as <-.
  eexists. split; [done|].
  split; [exact Hm|done| | | |]; unfold stored; cbn [a_records with_records]; rewrite ?get_set, ?Hk by apply Hz.
  - simpl. by rewrite Hst.
  - intros s Hg. eexists. split; [done|]. simpl. unfold s0. rewrite (get_eq k rk) in Hg by done. by rewrite Hg.
  - intros r' Hg [= <-]. eexists. split; [done|]. simpl. unfold s0. rewrite (get_eq k rk) in Hg by done. by rewrite Hg.
  - intros k' Hk'. rewrite (cmp_eq_r k' k rk Hk) in Hk'. rewrite get_set by apply Hz. by destruct (cmp k' rk).
Qed.

Lemma update_add_all serial rs a k u :
  zone_ok a → Forall (λ r, r_dns_class r = a_class a ∧
    cmp k (RrKey_new (r_name_labels r) (r_rr_type r)) = Eq ∧ ¬ single_type (r_rr_type r)) rs →
  NoDup (rdata_keys (stored a k ++ rs)) →
  ∃ a', update_loop serial u rs a = (Ok (bool_decide (rs ≠ []) || u), a') ∧ added k rs a a'.
Proof.
  revert a u. induction rs as [|r rs IH]; intros a u Hz Hrs Hnd.
  { exists a. split; [done|by apply added_nil]. }
  inversion_clear Hrs as [|? ? (Hc & Hk & Hns) Hrs'].
  rewrite fmap_app, fmap_cons in Hnd. apply NoDup_app in Hnd as (Hnd1 & Hdis & Hnd2).
  destruct (update_add serial a r k Hz Hc Hk Hns) as (a1 & Hu & Had).
  { intros Hin. apply (Hdis _ Hin). by left. }
  destruct (IH a1 (true || u) (ad_zone _ _ _ _ Had)) as (a' & Hl & Had').
  { rewrite (ad_same _ _ _ _ Had). done. }
  { rewrite (ad_stored _ _ _ _ Had), <-app_assoc, fmap_app. cbn [app]. rewrite fmap_cons. by apply NoDup_app. }
  exists a'. simpl. rewrite Hu, Hl. split; [by destruct (bool_decide _)|by eapply added_cons].
Qed.

(** Creating a set asks for the set to be absent or empty, *)
Lemma create_prerequisite a s id m :
  sendable a s → ¬ single_type (rs_record_type s) → create_message (E:=client_error) id s (a_origin a) = Ok m →
  Authority_verify_prerequisites a (m_answers m) = Ok () →
  stored a (RrKey_new (rs_name s) (rs_record_type s)) = [].
Proof.
  intros Hs Hns (Hin & Hans & _)%create_sections Hpre.
  rewrite Hans, prerequisites_cons, (prerequisite_set a s _ Hs Hin) in Hpre by auto.
  cbv zeta in Hpre. rewrite decide_False in Hpre by done.
  destruct (decide (Authority_lookup a (rs_name s) (rs_record_type s) false no_algorithms = []))
    as [Hempty|]; [|done]. by rewrite lookup_stored in Hempty by (done || apply Hs).
Qed.

(** and then adds the records. *)
Lemma create_update a s id m serial :
  zone_ok a → sendable a s → ¬ single_type (rs_record_type s) →
  create_message (E:=client_error) id s (a_origin a) = Ok m →
  stored a (RrKey_new (rs_name s) (rs_record_type s)) = [] →
  ∃ a', update_loop serial false (m_name_servers m) a = (Ok (bool_decide (rs_records s ≠ [])), a') ∧
    added (RrKey_new (rs_name s) (rs_record_type s)) (rs_records s) a a'.
Proof.
  intros Hz Hs Hns (Hin & _ & Hup)%create_sections Hempty. set (k := RrKey_new _ _) in *.
  rewrite Hup. unfold RecordSet_into_iter. rewrite (sd_unsigned _ _ Hs), app_nil_r.
  destruct (update_add_all serial (rs_records s) a k false Hz) as (a' & Hl & Had).
  { apply Forall_forall. intros r Hr. destruct (sendable_in_zone a s r Hs Hin Hr) as (_ & Ht & Hc).
    split_and!; [done| |by rewrite Ht]. apply RrKey_eq. simpl. split; [|done].
    apply Name_eq_sym. pose proof (rso_names _ (sd_ok _ _ Hs)) as Hn. rewrite Forall_forall in Hn. by apply Hn. }
  { rewrite Hempty. apply (rso_unique _ (sd_ok _ _ Hs)). }
  exists a'. by rewrite Hl, orb_false_r.
Qed.

(** A creation that the prerequisite lets through puts exactly the client's records under
    their name and type, in their order. *)
Theorem client_create_then_lookup a s id m serial :
  zone_ok a → sendable a s → ¬ single_type (rs_record_type s) →
  create_message (E:=client_error) id s (a_origin a) = Ok m →
  Authority_verify_prerequisites a (m_answers m) = Ok () →
  ∃ a', (update_loop serial false (m_name_servers m) a) = (Ok (bool_decide (rs_records s ≠ [])), a') ∧
    zone_ok a' ∧ Authority_lookup a' (rs_name s) (rs_record_type s) false no_algorithms = rs_records s.
Proof.
  intros Hz Hs Hns Hm Hpre. apply (create_prerequisite a s id m Hs Hns Hm) in Hpre.
  destruct (create_update a s id m serial Hz Hs Hns Hm Hpre) as (a' & Hl & [Hz' _ Hst _ _ _]).
  exists a'. split_and!; [done..|]. by rewrite lookup_stored, Hst, Hpre by (done || apply Hs).
Qed.
End client_server.

(** ** Retrying *)

Section retry.
Context {H : Type} `{CH : ClientHandle H}.

(** A run of failed sends. *)
Inductive fails (message : Message) : nat → H → H → Prop :=
  | fails_O client : fails message 0 client client
  | fails_S k client client' client'' e :
      send message client = (Err e, client') → fails message k client' client'' →
      fails message (S k) client client''.

Lemma retry_loop_spec n message client r client' :
  retry_loop n message client = (r, client') ↔
  ∃ k c, (k ≤ n)%nat ∧ fails message k client c ∧ send message c = (r, client') ∧
         ((∃ e, r = Err e) → k = n).
Proof.
  revert client. induction n as [|n IH]; intros client.
  - assert (E : retry_loop 0 message client = send message client).
    { simpl. by destruct (send message client) as [[] ?]. }
    rewrite E. split.
    + intros Hs. exists 0%nat, client. split_and!; [lia|constructor|done|done].
    + intros (k & c & Hk & Hf & Hs & _). assert (k = 0)%nat as -> by lia. by inversion Hf; subst.
  - cbn [retry_loop]. split.
    + destruct (send message client) as [[m|e| |] c1] eqn:Es; intros Hr.
      2:{ apply IH in Hr as (k & c & Hk & Hf & Hs & Hlast). exists (S k), c.
          split_and!; [lia|by econstructor|done|]. intros He. by rewrite (Hlast He). }
      all: injection Hr as <- <-; exists 0%nat, client;
        (split_and!; [lia|constructor|done|]); by intros [? ?].
    + intros (k & c & Hk & Hf & Hs & Hlast). inversion Hf as [|k' ? c1 ? e Hsend Hf']; subst.
      * rewrite Hs. destruct r as [m|e| |]; try done. by specialize (Hlast (ex_intro _ e eq_refl)).
      * rewrite Hsend. apply IH. exists k', c. split_and!; [lia|done|done|].
        intros He. specialize (Hlast He). lia.
Qed.

(** A retrying handle gives the outcome of the first send that does not fail, among the
    first one and [attempts] repetitions of the same message; it fails, with the last
    error, only when all of them have. *)
Theorem RetryClientHandle_spec (self : RetryClientHandle H) message r self' :
  send message self = (r, self') ↔
  ∃ k c, (k ≤ rt_attempts self)%nat ∧ fails message k (rt_client self) c ∧
         send message c = (r, rt_client self') ∧ rt_attempts self' = rt_attempts self ∧
         ((∃ e, r = Err e) → k = rt_attempts self).
Proof.
  unfold send at 1, RetryClientHandle_send. destruct self as [client n], self' as [client' n']. simpl.
  destruct (retry_loop n message client) as [r1 c1] eqn:E. split.
  - intros [= -> -> ->]. apply retry_loop_spec in E as (k & c & ? & ? & ? & ?). eauto 10.
  - intros (k & c & Hk & Hf & Hs & -> & Hlast).
    assert (retry_loop n message client = (r, client')) as E' by (apply retry_loop_spec; eauto 10).
    rewrite E in E'. by injection E' as -> ->.
Qed.
End retry.

(** ** Memoising *)

Section memoize.
Context `{L : Lowercase} {H : Type} `{CH : ClientHandle H}.

Lemma Query_eq_l (q q' x : Query) : Query_eq q' q = true → Query_eq q' x = Query_eq q x.
Proof.
  unfold Query_eq. intros [[Hn Ht%bool_decide_eq_true]%andb_true_iff Hc%bool_decide_eq_true]%andb_true_iff.
  by rewrite (Name_eq_l _ _ (q_name x) Hn), Ht, Hc.
Qed.

Lemma find_query_eq q q' l : Query_eq q' q = true → find_query q' l = find_query q l.
Proof. intros E. induction l as [|[x r] l IH]; [done|]. simpl. by rewrite (Query_eq_l q q' x E), IH. Qed.

Lemma Query_eq_refl q : Query_eq q q = true.
Proof. unfold Query_eq. by rewrite Name_eq_refl, !bool_decide_eq_true_2. Qed.

Lemma memoize_unfold message (self : MemoizeClientHandle H) :
  send message self =
  match m_queries message with
  | [] => (Panic, self)
  | query :: _ =>
      match find_query query (mz_active_queries self) with
      | Some request => ((run_rc request).1, self)
      | None =>
          let '(r, client) := send message (mz_client self) in
          let '(r, request) := run_rc (rc_future r) in
          (r, mkMemoize client ((query, request) :: mz_active_queries self))
      end
  end.
Proof. done. Qed.

(** The outcome of a question is the outcome of every later message with that
    question, whatever its kind, but for the kind of an error, and the wrapped handle is
    not used again. *)
Definition same_outcome (r r' : outcome) : Prop :=
  match r with Err _ => ∃ e, r' = Err e | _ => r' = r end.

Lemma run_rc_again r r' rc : run_rc (rc_future r) = (r', rc) → same_outcome r' (run_rc rc).1.
Proof. destruct r; intros [= <- <-]; [done|by eexists|done..]. Qed.

Lemma memoize_again (self : MemoizeClientHandle H) message q qs r self' message' q' qs' :
  m_queries message = q :: qs → send message self = (r, self') →
  m_queries message' = q' :: qs' → Query_eq q' q = true →
  ∃ r', send message' self' = (r', self') ∧ same_outcome r r'.
Proof.
  intros Hq Hs Hq' He. rewrite memoize_unfold in Hs |- *. rewrite Hq in Hs. rewrite Hq'.
  destruct (find_query q (mz_active_queries self)) as [r0|] eqn:Ef.
  - injection Hs as <- <-. rewrite (find_query_eq q q'), Ef by done. eexists. split; [done|].
    destruct (run_rc r0).1; [done|by eexists|done..].
  - destruct (send message (mz_client self)) as [r1 c1].
    destruct (run_rc (rc_future r1)) as [r2 rc] eqn:Er. injection Hs as <- <-. cbn [mz_active_queries find_query].
    rewrite He. eexists. split; [done|]. by apply (run_rc_again r1).
Qed.

(** The memoised answers are kept by the question alone.  After a client has asked for a
    zone's SOA record, none of its updates of that zone is sent: each is answered with
    the reply to the query, or fails if the query did (an update's zone section is the
    question for the SOA record). *)
Theorem memoize_swallows_updates (self self' : MemoizeClientHandle H) id z c r s id' m :
  query id z c RecordType.SOA self = (r, self') →
  rs_dns_class s = c →
  create_message (E:=client_error) id' s z = Ok m →
  ∃ r', create id' s z self' = (r', self') ∧ same_outcome r r'.
Proof.
  intros Hq Hc Hm. unfold create, bind, lift. rewrite Hm. unfold query in Hq.
  eapply memoize_again; [|exact Hq| |apply Query_eq_refl]; [done|].
  unfold create_message in Hm. apply assert_zone_of_Ok in Hm as [_ Hm]. cbv zeta in Hm.
  injection Hm as <-. rewrite (proj2 (proj2 (extended_dns_sections _))), add_name_servers_eq. simpl.
  by rewrite Hc.
Qed.

(** Failures are memoised too: retrying through a memoised handle sends nothing more. *)
Theorem retry_through_memoize n message (self : MemoizeClientHandle H) :
  m_queries message ≠ [] →
  (retry_loop n message self).2 = (send message self).2 ∧
  same_outcome (send message self).1 (retry_loop n message self).1.
Proof.
  intros Hq. destruct (m_queries message) as [|q qs] eqn:Em; [done|]. revert self. induction n as [|n IH]; intros self; simpl.
  - destruct (send message self) as [[]]; simpl; try done. by split; [|eexists].
  - destruct (send message self) as [[m|e| |] self'] eqn:Es; try done.
    destruct (memoize_again _ _ _ _ _ _ _ _ _ Em Es Em (Query_eq_refl q)) as (r' & Hagain & e' & ->).
    destruct (IH self') as [H1 H2]. rewrite Hagain in H1, H2. done.
Qed.
End memoize.

(** ** Instances *)

Section examples.
#[local] Existing Instance ascii_lowercase.
#[local] Existing Instance list_hash_order.
#[local] Existing Instance toy_crypto.
#[local] Existing Instance list_sqlite.
#[local] Existing Instance fixed_clock.

Definition ex_host : Name := mkName [[98]; [97]].
Definition ex_host_record (x : Z) : RRecord :=
  mkRecord ex_host RecordType.A DNSClass.IN 60 (RData.A (mkIpv4 10 0 0 x)).
Definition ex_host_set : RecordSet :=
  mkRecordSet ex_host RecordType.A DNSClass.IN 60 [ex_host_record 1; ex_host_record 2] [] 0.

Lemma ex_host_sendable : sendable ex_auth ex_host_set.
Proof.
  split; [|done|by repeat constructor|done|done].
  split; simpl; [|by repeat constructor..|by intros [?|?]|done].
  by_decision.
Qed.

(** A handle that counts its sends and always fails. *)
Definition failing : ClientHandle nat := λ _ n, (Err ClientTimeout, S n).

Definition ex_create : Message :=
  match create_message (E:=client_error) 7 ex_host_set ex_zone with Ok m => m | _ => Message_new end.

Lemma client_updates_meaning_witness :
  ∃ m, create_message (E:=client_error) 7 ex_host_set ex_zone = Ok m ∧
    Authority_pre_scan ex_auth (m_name_servers m) = Ok () ∧
    Authority_verify_prerequisites ex_auth (m_answers m) = Ok ().
Proof.
  exists ex_create. split; [vm_compute; reflexivity|].
  refine (proj1 (client_updates_meaning ex_auth ex_host_set ex_host_set Record_new ex_zone 7
    (or_introl eq_refl) ex_host_sendable ex_host_sendable _) _ _).
  - split; discriminate.
  - vm_compute. reflexivity.
Defined.

Lemma client_create_then_lookup_witness :
  ∃ m a', create_message (E:=client_error) 7 ex_host_set ex_zone = Ok m ∧
    update_loop 10 false (m_name_servers m) ex_auth = (Ok true, a') ∧
    zone_ok a' ∧ Authority_lookup a' ex_host RecordType.A false no_algorithms =
      [ex_host_record 1; ex_host_record 2].
Proof.
  exists ex_create. edestruct (client_create_then_lookup ex_auth ex_host_set 7 ex_create 10 ex_auth_ok ex_host_sendable)
    as (a' & H1 & H2 & H3); [by intros [?|?]|vm_compute; reflexivity|vm_compute; reflexivity|].
  exists a'. split; [vm_compute; reflexivity|]. split; [exact H1|]. split; [exact H2|exact H3].
Defined.

(** A failure that is remembered. *)
Definition ex_failed (n : nat) (q : Query) : MemoizeClientHandle nat :=
  mkMemoize n [(q, mkRcFuture (Err ClientTimeout) (Some (Err (ClientCloned ClientTimeout))))].

Lemma memoize_swallows_updates_witness :
  ∃ m e, create_message (E:=client_error) 8 ex_host_set ex_zone = Ok m ∧
  create (CH:=MemoizeClientHandle_send (CH:=failing)) 8 ex_host_set ex_zone (ex_failed 1 (zone_query ex_zone DNSClass.IN)) =
    (Err e, ex_failed 1 (zone_query ex_zone DNSClass.IN)).
Proof.
  eexists.
  destruct (memoize_swallows_updates (CH:=failing) (mkMemoize 0%nat []) (ex_failed 1 (zone_query ex_zone DNSClass.IN))
    7 ex_zone DNSClass.IN (Err ClientTimeout) ex_host_set 8 _
    ltac:(vm_compute; reflexivity) ltac:(vm_compute; reflexivity) ltac:(vm_compute; reflexivity)) as (r & Hr & e & ->).
  exists e. split; [vm_compute; reflexivity|exact Hr].
Defined.

Lemma retry_through_memoize_witness :
  (retry_loop (CH:=MemoizeClientHandle_send (CH:=failing)) 5
    (query_message 7 ex_zone DNSClass.IN RecordType.A) (mkMemoize 0%nat [])).2 =
  ex_failed 1 (mkQuery ex_zone RecordType.A DNSClass.IN).
Proof.
  refine (eq_trans (proj1 (retry_through_memoize (CH:=failing) 5 _ _ _)) _); [discriminate|reflexivity].
Defined.
End examples.
