(* ===== verification/Validate.v ===== *)
(** * Validate: DNSSEC validation of replies

    [SecureClientHandle] of [client/src/client/secure_client_handle.rs] and [DS::covers] of
    [rr/rdata/ds.rs]: a reply is split into record sets, each is checked against its
    signatures, the keys are asked for and checked in turn, up to a trust anchor.

    The wrapped handle is an oracle: the replies of the network are arbitrary, and each
    request is told apart by the path of calls that led to it.  The futures of the sets
    of a reply run concurrently: the order in which they complete is a parameter too.
    [SecureSync.v] has the futures themselves, on the event loop of a client. *)

From S2P Require Import Prelude Codec Wire Domain Enums Header RData RDataProps Resource Message RecordSet.
From S2P Require Import KeyPair Signer Update BTree Journal Authority Catalog ClientHandle.

Open Scope Z_scope.

(** ** The environment *)

(** The calls between a request and the one the application made. *)
Definition path : Type := list nat.

Class Network := {
  (** The wrapped handle's [send]. *)
  upstream : path → Message → res client_error Message;
  (** [rand::random()] in [ClientHandle::query]. *)
  random_id : path → Z;
  (** The order in which [n] concurrent futures complete. *)
  completion : path → nat → list nat;
  completion_perm p n : completion p n ≡ₚ seq 0 n;
}.

(** ** The types *)

(** [SecureClientHandle], less the wrapped client. *)
Record SecureClientHandle : Type := mkSecure {
  sc_trust_anchor : TrustAnchor;
  sc_request_depth : nat;
  sc_minimum_key_len : nat;
  sc_minimum_algorithm : Algorithm;
}.

Definition SecureClientHandle_with_trust_anchor (trust_anchor : TrustAnchor) : SecureClientHandle :=
  mkSecure trust_anchor 0 0 Algorithm.RSASHA256.

Definition clone_with_context (self : SecureClientHandle) : SecureClientHandle :=
  mkSecure (sc_trust_anchor self) (sc_request_depth self + 1) (sc_minimum_key_len self)
    (sc_minimum_algorithm self).

Record Rrset : Type := mkRrset {
  rr_name : Name;
  rr_record_type : RecordType;
  rr_record_class : DNSClass;
  rr_records : list RRecord;
}.

(** ** Pieces *)

(** The index moves on, then [j] is kept or removed. *)
Fixpoint preserve_loop {A} (js : list nat) (i : option nat) (indexes : list nat) (vec : list A) : list A :=
  match js with
  | [] => vec
  | j :: js =>
      let '(i, indexes) :=
        match i with
        | Some i' => if (j <? i')%nat then (head indexes, tail indexes) else (i, indexes)
        | None => (i, indexes)
        end in
      let keep := match i with Some i => (i =? j)%nat | None => false end in
      preserve_loop js i indexes (if keep then vec else delete j vec)
  end.
Definition preserve {A} (vec : list A) (indexes : list nat) : list A :=
  let indexes := rev indexes in
  preserve_loop (rev (seq 0 (length vec))) (head indexes) (tail indexes) vec.

(** [Result::is_ok] of a call that may panic, and [unwrap_or(false)]. *)
Definition is_ok_m {E E' A} (r : res E A) : res E' bool :=
  match r with Ok _ => Ok true | Err _ => Ok false | Panic => Panic | Diverge => Diverge end.
Definition unwrap_or_false {E E'} (r : res E bool) : res E' bool :=
  match r with Ok b => Ok b | Err _ => Ok false | Panic => Panic | Diverge => Diverge end.

(** [Iterator::find] with a test that may panic. *)
Fixpoint find_m {E A} (f : A → res E bool) (l : list A) : res E (option A) :=
  match l with
  | [] => Ok None
  | x :: l => try* b := f x in if (b : bool) then Ok (Some x) else find_m f l
  end.

(** [Iterator::filter] with a test that may panic, on indices. *)
Fixpoint filter_m {E A} (f : A → res E bool) (l : list A) : res E (list A) :=
  match l with
  | [] => Ok []
  | x :: l =>
      try* b := f x in
      try* rest := filter_m f l in
      Ok (if (b : bool) then x :: rest else rest)
  end.

(** [futures::select_ok], polled in order of completion: the first success, or the last
    error; a panic unwinds. *)
Fixpoint select_ok {A} (results : list (res client_error A)) : res client_error A :=
  match results with
  | [] => Panic
  | [r] => r
  | Err _ :: results => select_ok results
  | r :: _ => r
  end.

Definition dnskey_of (r : RRecord) : option DNSKEY :=
  match r_rdata r with RData.DNSKEY key => Some key | _ => None end.
Definition ds_of (r : RRecord) : option DS :=
  match r_rdata r with RData.DS ds => Some ds | _ => None end.
Definition is_type (t : RecordType) (r : RRecord) : Prop := r_rr_type r = t.
#[global] Instance is_type_dec t r : Decision (is_type t r).
Proof. unfold is_type. apply _. Defined.

(** [if let RData::SIG(sig) = .. else panic!] *)
Definition expect_sig {E} (r : RRecord) : res E SIG :=
  match r_rdata r with RData.SIG sig => Ok sig | _ => Panic end.

Definition sections (m : Message) : list RRecord := m_answers m ++ m_name_servers m.
Definition all_sections (m : Message) : list RRecord := sections m ++ m_additionals m.

Section secure.
Context `{L : Lowercase} `{HO : HashOrder} `{C : Crypto} `{NW : Network}.

(** The anchor that is built in. *)
Definition SecureClientHandle_new {E} (root_key : option Rsa) : res E SecureClientHandle :=
  try* trust_anchor := TrustAnchor_default root_key in
  Ok (SecureClientHandle_with_trust_anchor trust_anchor).

Definition DS_covers (self : DS) (name : Name) (key : DNSKEY) : res dnssec_error bool :=
  try* hash := DNSKEY_to_digest key name (ds_digest_type self) in
  Ok (bool_decide (hash = ds_digest self)).

Definition verify_rrset_with_dnskey (dnskey : DNSKEY) (sig : SIG) (rrset : Rrset) :
    res client_error () :=
  if dk_revoke dnskey then Err (ClientMessage "revoked")
  else if negb (dk_zone_key dnskey) then Err (ClientMessage "is not a zone key")
  else if negb (bool_decide (dk_algorithm dnskey = sig_algorithm sig)) then
    Err (ClientMessage "mismatched algorithm")
  else
    match KeyPair_from_public_bytes (dk_public_key dnskey) (dk_algorithm dnskey) with
    | Err _ => Err (ClientMessage "error getting key from vec")
    | Panic => Panic
    | Diverge => Diverge
    | Ok pkey =>
        let signer := Signer_new_verifier (dk_algorithm dnskey) pkey (sig_signer_name sig)
                        (dk_zone_key dnskey) false in
        match Signer_hash_rrset_with_sig (rr_name rrset) (rr_record_class rrset) sig (rr_records rrset) with
        | Ok rrset_hash =>
            match Signer_verify signer rrset_hash (sig_sig sig) with
            | Ok _ => Ok ()
            | Err e => Err (ClientDnsSec e)
            | Panic => Panic
            | Diverge => Diverge
            end
        | Err e => Err (ClientDnsSec e)
        | Panic => Panic
        | Diverge => Diverge
        end
    end.

Definition nsec_types {E} (r : RRecord) (k : NSEC → bool) : res E bool :=
  match r_rdata r with RData.NSEC nsec => Ok (k nsec) | _ => Panic end.

Definition verify_nsec {E} (query : Query) (nsecs : list RRecord) : res E bool :=
  try* b := any_m (λ r,
    if Name_eq (q_name query) (r_name_labels r) then
      nsec_types r (λ rdata, negb (bool_decide (q_query_type query ∈ nsec_type_bit_maps rdata)))
    else Ok false) nsecs in
  if (b : bool) then Ok true
  else
    any_m (λ r,
      match cmp (q_name query) (r_name_labels r) with
      | Gt => nsec_types r (λ rdata,
                match cmp (q_name query) (nsec_next_domain_name rdata) with Lt => true | _ => false end)
      | _ => Ok false
      end) (filter (λ r, Name_eq (q_name query) (r_name_labels r) = false) nsecs).

(** [set_option(DAU)], [set_option(DHU)] and the header bits of a validated query. *)
Definition secure_message (message : Message) : Message :=
  let '(edns, message) := Message_get_edns_mut message in
  let edns := Edns_set_dnssec_ok edns true in
  let edns := Edns_set_option edns (EdnsOption.DAU server_algorithms) in
  let edns := Edns_set_option edns (EdnsOption.DHU server_algorithms) in
  let message := Message_set_edns message edns in
  let message := Message_authentic_data message true in
  Message_checking_disabled message false.

(** ** Validation, given the handle's own [send] *)

Section recursion.
Variable secure_send : SecureClientHandle → path → Message → res client_error Message.

(** [ClientHandle::query] *)
Definition secure_query (client : SecureClientHandle) (p : path) (name : Name) (query_class : DNSClass)
    (query_type : RecordType) : res client_error Message :=
  secure_send client p (query_message (random_id p) name query_class query_type).

(** The indices of the keys that pass a test. *)
Definition dnskeys_where (rrset : Rrset) (test : DNSKEY → res client_error bool) :
    res client_error (list nat) :=
  let keys := filter (λ x, is_type RecordType.DNSKEY x.2) (imap pair (rr_records rrset)) in
  let keys := omap (λ x, key ← dnskey_of x.2; Some (x.1, key)) keys in
  try* keys := filter_m (λ x, test x.2) keys in
  Ok (fst <$> keys).

Definition verify_dnskey_rrset (client : SecureClientHandle) (p : path) (rrset : Rrset) :
    res client_error Rrset :=
  let with_records records :=
    mkRrset (rr_name rrset) (rr_record_type rrset) (rr_record_class rrset) records in
  try* anchored_keys :=
    dnskeys_where rrset (λ key, Ok (TrustAnchor_contains (sc_trust_anchor client) (dk_public_key key))) in
  if bool_decide (anchored_keys ≠ []) then
    Ok (with_records (preserve (rr_records rrset) anchored_keys))
  else
    try* ds_message := secure_query client (0%nat :: 1%nat :: p) (rr_name rrset) (rr_record_class rrset)
                         RecordType.DS in
    let dss := omap ds_of (filter (is_type RecordType.DS) (m_answers ds_message)) in
    try* valid_keys :=
      dnskeys_where rrset (λ key, any_m (λ ds, unwrap_or_false (DS_covers ds (rr_name rrset) key)) dss) in
    if bool_decide (valid_keys ≠ []) then
      Ok (with_records (preserve (rr_records rrset) valid_keys))
    else Err (ClientMessage "Could not validate all DNSKEYs").

(** The records' keys, tried in turn. *)
Definition verified_by (rrset : Rrset) (sig : SIG) (r : RRecord) : res client_error bool :=
  match dnskey_of r with
  | Some dnskey => is_ok_m (verify_rrset_with_dnskey dnskey sig rrset)
  | None => Panic
  end.

(** One signature, with the keys asked of its signer. *)
Definition verify_with_signer (client : SecureClientHandle) (p : path) (rrset : Rrset) (sig : SIG) :
    res client_error Rrset :=
  try* message := secure_query client p (sig_signer_name sig) (rr_record_class rrset) RecordType.DNSKEY in
  try* found := find_m (verified_by rrset sig)
                  (filter (is_type RecordType.DNSKEY) (m_answers message)) in
  match found with
  | Some _ => Ok rrset
  | None => Err (ClientMessage "validation failed")
  end.

Fixpoint expect_sigs {E} (rrsigs : list RRecord) : res E (list SIG) :=
  match rrsigs with
  | [] => Ok []
  | r :: rrsigs => try* sig := expect_sig r in try* sigs := expect_sigs rrsigs in Ok (sig :: sigs)
  end.

Definition verify_default_rrset (client : SecureClientHandle) (p : path) (rrset : Rrset)
    (rrsigs : list RRecord) : res client_error Rrset :=
  let rrsigs := filter (is_type RecordType.RRSIG) rrsigs in
  try* self_signed := any_m (λ rrsig,
    try* sig := expect_sig rrsig in
    Ok (bool_decide (rr_record_type rrset = RecordType.DNSKEY) &&
        Name_eq (sig_signer_name sig) (rr_name rrset))) rrsigs in
  if (self_signed : bool) then
    try* found := find_m (λ rrsig,
      try* sig := expect_sig rrsig in any_m (verified_by rrset sig) (rr_records rrset)) rrsigs in
    match found with
    | Some _ => Ok rrset
    | None => Err (ClientMessage "self-signed dnskey is invalid")
    end
  else
    try* sigs := expect_sigs rrsigs in
    if bool_decide (sigs = []) then Err (ClientNoRrsigs (rr_name rrset) (rr_record_type rrset))
    else
      let verifications :=
        imap (λ j sig, verify_with_signer (clone_with_context client) (j :: 0%nat :: p) rrset sig) sigs in
      select_ok (omap (λ j, verifications !! j) (completion (0%nat :: p) (length verifications))).

Definition verify_rrset (client : SecureClientHandle) (p : path) (rrset : Rrset)
    (rrsigs : list RRecord) : res client_error Rrset :=
  if bool_decide (rr_record_type rrset = RecordType.DNSKEY) && bool_decide (rrsigs = []) then
    verify_dnskey_rrset (clone_with_context client) p rrset
  else
    try* rrset := verify_default_rrset (clone_with_context client) p rrset rrsigs in
    match rr_record_type rrset with
    | RecordType.DNSKEY => verify_dnskey_rrset client p rrset
    | _ => Ok rrset
    end.

(** The pairs of a [HashSet<(Name, RecordType)>]. *)
Definition same_set (x y : Name * RecordType) : bool := Name_eq x.1 y.1 && bool_decide (x.2 = y.2).
Definition set_contains (s : list (Name * RecordType)) (x : Name * RecordType) : bool :=
  existsb (same_set x) s.
Definition set_insert (s : list (Name * RecordType)) (x : Name * RecordType) : list (Name * RecordType) :=
  if set_contains s x then s else s ++ [x].

Definition record_pair (r : RRecord) : Name * RecordType := (r_name_labels r, r_rr_type r).

(** Below the first request only the keys and their digests matter. *)
Definition of_interest (client : SecureClientHandle) (r : RRecord) : Prop :=
  r_rr_type r ≠ RecordType.RRSIG ∧
  ((sc_request_depth client ≤ 1)%nat ∨ r_rr_type r = RecordType.DNSKEY ∨ r_rr_type r = RecordType.DS).
#[global] Instance of_interest_dec client r : Decision (of_interest client r).
Proof. unfold of_interest. apply _. Defined.

Definition rrset_types (client : SecureClientHandle) (message_result : Message) : list (Name * RecordType) :=
  foldl set_insert [] (record_pair <$> filter (of_interest client) (sections message_result)).

Definition rrset_of (message_result : Message) (dns_class : DNSClass) (x : Name * RecordType) : Rrset :=
  mkRrset x.1 x.2 dns_class
    (filter (λ r, r_rr_type r = x.2 ∧ Name_eq (r_name_labels r) x.1 = true) (all_sections message_result)).

Definition covers_type (t : RecordType) (r : RRecord) : Prop :=
  r_rr_type r = RecordType.RRSIG ∧
  match r_rdata r with RData.SIG sig => sig_type_covered sig = t | _ => False end.
#[global] Instance covers_type_dec t r : Decision (covers_type t r).
Proof. unfold covers_type. destruct (r_rdata r); apply _. Defined.

Definition rrsigs_of (message_result : Message) (x : Name * RecordType) : list RRecord :=
  filter (covers_type x.2) (all_sections message_result).

(** The loop of [VerifyRrsetsFuture::poll]: an error counts only when it is the last to
    come. *)
Fixpoint verify_loop (verified : list (Name * RecordType)) (results : list (res client_error Rrset)) :
    res client_error (list (Name * RecordType)) :=
  match results with
  | [] => Ok verified
  | Ok rrset :: remaining => verify_loop (set_insert verified (rr_name rrset, rr_record_type rrset)) remaining
  | Err e :: remaining => if bool_decide (remaining = []) then Err e else verify_loop verified remaining
  | Panic :: _ => Panic
  | Diverge :: _ => Diverge
  end.

(** The records of the sets that were verified are kept. *)
Definition filter_message (verified : list (Name * RecordType)) (message_result : Message) :
    res client_error Message :=
  let keep := filter (λ record, set_contains verified (record_pair record) = true) in
  let '(answers, message_result) := Message_take_answers message_result in
  let answers := keep answers in
  let '(name_servers, message_result) := Message_take_name_servers message_result in
  let name_servers := keep name_servers in
  let '(additionals, message_result) := Message_take_additionals message_result in
  let additionals := keep additionals in
  try* message_result := Message_insert_answers message_result answers in
  try* message_result := Message_insert_name_servers message_result name_servers in
  Message_insert_additionals message_result additionals.

Definition verify_rrsets (client : SecureClientHandle) (p : path) (message_result : Message)
    (dns_class : DNSClass) : res client_error Message :=
  let types := rrset_types client message_result in
  if bool_decide (types = []) then Err (ClientMessage "no results to verify")
  else
    let rrsets := imap (λ i x,
      verify_rrset (clone_with_context client) (i :: p) (rrset_of message_result dns_class x)
        (rrsigs_of message_result x)) types in
    try* verified := verify_loop [] (omap (λ i, rrsets !! i) (completion p (length rrsets))) in
    filter_message verified message_result.

(** [SecureClientHandle::send] *)
Definition send_step (self : SecureClientHandle) (p : path) (message : Message) :
    res client_error Message :=
  if (20 <? sc_request_depth self)%nat then Err (ClientMessage "exceeded max validation depth")
  else
    match h_op_code (m_header message) with
    | OpCode.Query =>
        match m_queries message with
        | [] => Panic
        | query :: _ =>
            let client := clone_with_context self in
            let message := secure_message message in
            let dns_class := q_query_class query in
            try* message_response := upstream p message in
            try* verified_message := verify_rrsets client p message_response dns_class in
            if bool_decide (m_answers verified_message = []) then
              let nsecs := filter (is_type RecordType.NSEC) (m_name_servers verified_message) in
              try* b := verify_nsec query nsecs in
              if negb b then Err (ClientMessage "could not validate nxdomain with NSEC")
              else Ok verified_message
            else Ok verified_message
        end
    | _ => upstream p message
    end.
End recursion.

Fixpoint secure_send (fuel : nat) (self : SecureClientHandle) (p : path) (message : Message) :
    res client_error Message :=
  match fuel with
  | O => Diverge
  | S fuel => send_step (secure_send fuel) self p message
  end.
End secure.
