(* ===== verification/ValidateProps.v ===== *)
(** * ValidateProps: what validation promises

    An inductive definition of the trust that a validated reply carries, the proof that
    every record of a validated reply has it, that validation ends, what [preserve] and
    [verify_nsec] compute; and the ways in which that trust falls short of DNSSEC's. *)

From S2P Require Import Prelude Codec Wire Domain Enums Header RData RDataProps Resource Message RecordSet.
From S2P Require Import KeyPair Signer Update BTree Journal Authority AuthorityProps Catalog ClientHandle Returns Validate.

Open Scope Z_scope.

(** ** Iterators with tests that may panic *)

Lemma find_m_Some {E A} (f : A → res E bool) l x :
  find_m f l = Ok (Some x) → x ∈ l ∧ f x = Ok true.
Proof.
  induction l as [|y l IH]; simpl; [done|]. destruct (f y) as [[]| | |] eqn:Ef; simpl; try done.
  - intros [= <-]. split; [by left|done].
  - intros [Hx Hf]%IH. split; [by right|done].
Qed.

Lemma filter_m_elem {E A} (f : A → res E bool) l l' x :
  filter_m f l = Ok l' → x ∈ l' → x ∈ l ∧ f x = Ok true.
Proof.
  revert l'. induction l as [|y l IH]; intros l'; simpl; [intros [= <-] ?%elem_of_nil; done|].
  destruct (f y) as [b| | |] eqn:Ef; simpl; try done.
  destruct (filter_m f l) as [rest| | |]; simpl; try done. intros [= <-].
  destruct b; [intros [->|Hx]%elem_of_cons|intros Hx].
  - split; [by left|done].
  - destruct (IH _ eq_refl Hx). split; [by right|done].
  - destruct (IH _ eq_refl Hx). split; [by right|done].
Qed.

Lemma is_ok_m_true {E E' A} (r : res E A) : is_ok_m (E':=E') r = Ok true → ∃ a, r = Ok a.
Proof. destruct r; simpl; naive_solver. Qed.

Lemma select_ok_elem {A} (results : list (res client_error A)) a :
  select_ok results = Ok a → Ok a ∈ results.
Proof.
  induction results as [|r [|r' rs] IH]; [done| |].
  - simpl. destruct r; try done. intros [= ->]. by left.
  - simpl in *. destruct r; try done.
    + intros [= ->]. by left.
    + intros H. right. by apply IH.
Qed.

Lemma elem_of_completions {A} (l : list A) (js : list nat) x : x ∈ omap (λ j, l !! j) js → x ∈ l.
Proof. intros (j & _ & Hj)%list_elem_of_omap. by eapply list_elem_of_lookup_2. Qed.

Lemma elem_of_imap_inv {A B} (f : nat → A → B) l y : y ∈ imap f l → ∃ i x, x ∈ l ∧ y = f i x.
Proof.
  intros (i & Hi)%list_elem_of_lookup. rewrite list_lookup_imap in Hi.
  destruct (l !! i) as [x|] eqn:E; simplify_eq/=. exists i, x. split; [|done].
  by eapply list_elem_of_lookup_2.
Qed.

Section trust.
Context `{L : Lowercase} `{HO : HashOrder} `{C : Crypto} `{NW : Network}.
Variable anchor : TrustAnchor.

(** ** Trust *)

Definition has_key (s : Rrset) (key : DNSKEY) : Prop :=
  ∃ r, r ∈ rr_records s ∧ dnskey_of r = Some key.
Definition signed_by (key : DNSKEY) (sig : SIG) (s : Rrset) : Prop :=
  verify_rrset_with_dnskey key sig s = Ok ().

(** A set of keys is trusted for one key of it, which is an anchor or has a trusted digest;
    other data for a signature by a key of a trusted set. *)
Inductive trusted : Rrset → Prop :=
  | trusted_anchor s key :
      rr_record_type s = RecordType.DNSKEY → has_key s key →
      TrustAnchor_contains anchor (dk_public_key key) = true → trusted s
  | trusted_ds s key dss r ds :
      rr_record_type s = RecordType.DNSKEY → has_key s key →
      trusted dss → rr_record_type dss = RecordType.DS → r ∈ rr_records dss → ds_of r = Some ds →
      DS_covers ds (rr_name s) key = Ok true → trusted s
  | trusted_sig s ks key sig :
      rr_record_type s ≠ RecordType.DNSKEY → trusted ks → rr_record_type ks = RecordType.DNSKEY →
      has_key ks key → signed_by key sig s → trusted s.

(** The record is of a trusted set. *)
Definition vouched (r : RRecord) : Prop :=
  ∃ s, trusted s ∧ r ∈ rr_records s ∧ rr_record_type s = r_rr_type r ∧
       Name_eq (r_name_labels r) (rr_name s) = true.

Lemma dnskeys_where_elem s test l i :
  dnskeys_where s test = Ok l → i ∈ l → ∃ key, has_key s key ∧ test key = Ok true.
Proof.
  unfold dnskeys_where. destruct (filter_m _ _) as [keys| | |] eqn:Ef; simpl; try done. intros [= <-].
  intros ([j key] & -> & Hin)%list_elem_of_fmap.
  destruct (filter_m_elem _ _ _ _ Ef Hin) as [Hk Ht]. exists key. split; [|done].
  apply list_elem_of_omap in Hk as ([j' r] & Hr & Hkey). simpl in Hkey.
  destruct (dnskey_of r) as [key'|] eqn:Er; simplify_eq/=.
  apply list_elem_of_filter in Hr as [_ Hr]. apply elem_of_imap_inv in Hr as (? & r' & Hr' & [= _ <-]).
  by exists r.
Qed.

(** ** The pieces are sound when the recursive [send] is *)

Section step.
Variable recur : SecureClientHandle → path → Message → res client_error Message.
Hypothesis recur_sound : ∀ client p m m', sc_trust_anchor client = anchor →
  h_op_code (m_header m) = OpCode.Query → recur client p m = Ok m' → Forall vouched (all_sections m').

Lemma query_sound client p name c t m' :
  sc_trust_anchor client = anchor → secure_query recur client p name c t = Ok m' →
  Forall vouched (m_answers m').
Proof.
  intros Ha Hq. apply recur_sound in Hq; [|done|done].
  unfold all_sections, sections in Hq. by rewrite !Forall_app in Hq; destruct Hq as [[? _] _].
Qed.

Lemma verify_dnskey_sound client p s s' :
  sc_trust_anchor client = anchor → rr_record_type s = RecordType.DNSKEY →
  verify_dnskey_rrset recur client p s = Ok s' →
  trusted s ∧ rr_name s' = rr_name s ∧ rr_record_type s' = rr_record_type s.
Proof.
  intros Ha Ht. unfold verify_dnskey_rrset. rewrite Ha.
  destruct (dnskeys_where s _) as [keys| | |] eqn:Ek; [|done..]. cbn [rbind].
  case_bool_decide as Hne.
  - intros [= <-]. split; [|done]. destruct keys as [|i keys]; [done|].
    destruct (dnskeys_where_elem _ _ _ i Ek) as (key & Hk & [= Hc]); [by left|]. by eapply trusted_anchor.
  - destruct (secure_query _ _ _ _ _ _) as [m| | |] eqn:Eq; [|done..]. cbn [rbind].
    match goal with |- rbind ?x _ = _ → _ => destruct x as [valid| | |] eqn:Ev end; [|done..]. cbn [rbind].
    case_bool_decide as Hv; [|done]. intros [= <-]. split; [|done]. destruct valid as [|i valid]; [done|].
    destruct (dnskeys_where_elem _ _ _ i Ev) as (key & Hk & Hc); [by left|].
    apply any_m_true in Hc as (ds & Hds & Hcov).
    apply list_elem_of_omap in Hds as (r & Hr & Hds).
    apply list_elem_of_filter in Hr as [Hty Hr].
    pose proof (query_sound _ _ _ _ _ _ Ha Eq) as Hall. rewrite Forall_forall in Hall.
    destruct (Hall r Hr) as (dss & Htr & Hin & Hdt & _). unfold is_type in Hty.
    eapply (trusted_ds s key dss r ds); [done|done|done|by rewrite Hdt|done|done|].
    unfold unwrap_or_false in Hcov. by destruct (DS_covers _ _ _); simplify_eq.
Qed.

Lemma verify_with_signer_sound client p s sig s' :
  sc_trust_anchor client = anchor → verify_with_signer recur client p s sig = Ok s' →
  s' = s ∧ ∃ ks key, trusted ks ∧ rr_record_type ks = RecordType.DNSKEY ∧ has_key ks key ∧ signed_by key sig s.
Proof.
  intros Ha. unfold verify_with_signer. destruct (secure_query _ _ _ _ _ _) as [m| | |] eqn:Eq; [|done..].
  cbn [rbind]. destruct (find_m _ _) as [[r|]| | |] eqn:Ef; [|done..]. intros [= <-]. split; [done|].
  apply find_m_Some in Ef as [Hr Hv]. apply list_elem_of_filter in Hr as [Hty Hr].
  pose proof (query_sound _ _ _ _ _ _ Ha Eq) as Hall. rewrite Forall_forall in Hall.
  destruct (Hall r Hr) as (ks & Htr & Hin & Hkt & _). unfold verified_by in Hv.
  destruct (dnskey_of r) as [key|] eqn:Ek; [|done]. apply is_ok_m_true in Hv as ([] & Hv).
  exists ks, key. split_and!; [done|by rewrite Hkt| |done]. by exists r.
Qed.

Lemma verify_default_sound client p s rrsigs s' :
  sc_trust_anchor client = anchor → verify_default_rrset recur client p s rrsigs = Ok s' →
  s' = s ∧ (rr_record_type s ≠ RecordType.DNSKEY → trusted s).
Proof.
  intros Ha. unfold verify_default_rrset.
  destruct (any_m _ _) as [[]| | |] eqn:Es; [| |done..]; cbn [rbind].
  - destruct (find_m _ _) as [[r|]| | |]; [|done..]. intros [= <-]. split; [done|]. intros Ht. exfalso.
    apply any_m_true in Es as (r' & _ & Hr'). destruct (expect_sig r') as [sig| | |]; [|done..].
    cbn [rbind] in Hr'. injection Hr' as [Hb _]%andb_true_iff. by apply bool_decide_eq_true in Hb.
  - destruct (expect_sigs _) as [sigs| | |]; [|done..]. cbn [rbind]. destruct (bool_decide (sigs = [])); [done|].
    intros Hs%select_ok_elem%elem_of_completions%elem_of_imap_inv. destruct Hs as (j & sig & _ & Hs).
    symmetry in Hs. apply verify_with_signer_sound in Hs as [-> (ks & key & ? & ? & ? & ?)]; [|done].
    split; [done|]. intros Ht. by eapply trusted_sig.
Qed.

Lemma verify_rrset_sound client p s rrsigs s' :
  sc_trust_anchor client = anchor → verify_rrset recur client p s rrsigs = Ok s' →
  trusted s ∧ rr_name s' = rr_name s ∧ rr_record_type s' = rr_record_type s.
Proof.
  intros Ha. unfold verify_rrset.
  destruct (decide (rr_record_type s = RecordType.DNSKEY)) as [Ht|Ht].
  - rewrite bool_decide_eq_true_2 by done. cbn [andb]. case_bool_decide; [by apply verify_dnskey_sound|].
    destruct (verify_default_rrset _ _ _ _ _) as [s1| | |] eqn:Ed; [|done..]. cbn [rbind].
    apply verify_default_sound in Ed as [-> _]; [|done]. rewrite Ht.
    intros Hk. apply verify_dnskey_sound in Hk as (? & ? & ?); [|done|done]. split_and!; congruence.
  - rewrite bool_decide_eq_false_2 by done. cbn [andb].
    destruct (verify_default_rrset _ _ _ _ _) as [s1| | |] eqn:Ed; [|done..]. cbn [rbind].
    apply verify_default_sound in Ed as [-> Htr]; [|done]. intros Hs.
    assert (s' = s) as -> by (by destruct (rr_record_type s); simplify_eq). split; [by apply Htr|done].
Qed.

(** ** A reply *)

Lemma verify_loop_elem results verified v x :
  verify_loop v results = Ok verified → x ∈ verified →
  x ∈ v ∨ ∃ s, Ok s ∈ results ∧ x = (rr_name s, rr_record_type s).
Proof.
  revert v. induction results as [|r results IH]; intros v; simpl; [intros [= <-]; auto|].
  destruct r as [s|e| |]; try done.
  - intros Hl Hx. destruct (IH _ Hl Hx) as [Hv|(s' & ? & ->)].
    + unfold set_insert in Hv. destruct (set_contains v _); [by left|].
      apply elem_of_app in Hv as [?|Hv]; [by left|]. apply list_elem_of_singleton in Hv as ->.
      right. exists s. split; [by left|done].
    + right. exists s'. split; [by right|done].
  - case_bool_decide; [done|]. intros Hl Hx. destruct (IH _ Hl Hx) as [?|(s' & ? & ->)]; [by left|].
    right. exists s'. split; [by right|done].
Qed.

Lemma filter_message_spec verified m :
  filter_message verified m =
  let keep := filter (λ r, set_contains verified (record_pair r) = true) in
  Ok (mkMessage (m_header m) (m_queries m) (keep (m_answers m)) (keep (m_name_servers m))
        (keep (m_additionals m)) (m_sig0 m) (m_edns m)).
Proof. done. Qed.

Lemma verify_rrsets_sound client p m c m' :
  sc_trust_anchor client = anchor → verify_rrsets recur client p m c = Ok m' →
  Forall vouched (all_sections m').
Proof.
  intros Ha. unfold verify_rrsets. case_bool_decide; [done|].
  destruct (verify_loop _ _) as [verified| | |] eqn:El; [|done..]. cbn [rbind].
  rewrite filter_message_spec. cbv zeta. intros [= <-]. unfold all_sections, sections. simpl.
  rewrite <-!filter_app. apply Forall_forall. intros r [Hc Hr]%list_elem_of_filter.
  unfold set_contains in Hc. apply existsb_exists in Hc as (x & Hx%list_elem_of_In & Hsame).
  apply andb_true_iff in Hsame as [Hname Hty%bool_decide_eq_true]. simpl in Hname, Hty.
  destruct (verify_loop_elem _ _ _ x El Hx) as [?%elem_of_nil|(s & Hs & ->)]; [done|].
  apply elem_of_completions, elem_of_imap_inv in Hs as (i & y & Hy & Hs). symmetry in Hs.
  apply verify_rrset_sound in Hs as (Htr & Hn & Ht); [|done]. simpl in Hname, Hty.
  exists (rrset_of m c y). split; [done|]. simpl in *. rewrite Hn in Hname. rewrite Ht in Hty.
  split_and!; [|done|done]. apply list_elem_of_filter. by split.
Qed.

Lemma send_step_sound client p m m' :
  sc_trust_anchor client = anchor → h_op_code (m_header m) = OpCode.Query →
  send_step recur client p m = Ok m' → Forall vouched (all_sections m').
Proof.
  intros Ha Ho. unfold send_step. case_match; [done|]. rewrite Ho.
  destruct (m_queries m) as [|q qs]; [done|]. destruct (upstream _ _) as [m1| | |]; [|done..]. cbn [rbind].
  destruct (verify_rrsets _ _ _ _ _) as [m2| | |] eqn:Ev; [|done..]. cbn [rbind].
  apply verify_rrsets_sound in Ev; [|done].
  case_bool_decide; [|by intros [= <-]].
  destruct (verify_nsec _ _) as [[]| | |]; cbn [rbind negb]; try done. by intros [= <-].
Qed.
End step.

Lemma secure_send_vouched fuel client p m m' :
  sc_trust_anchor client = anchor → h_op_code (m_header m) = OpCode.Query →
  secure_send fuel client p m = Ok m' → Forall vouched (all_sections m').
Proof.
  revert client p m m'. induction fuel as [|fuel IH]; intros client p m m'; [done|]. simpl.
  intros Ha Ho. by apply send_step_sound.
Qed.
End trust.

(** ** Validation ends *)

Lemma ends_assert_ok {S E A} (m : M S E A) : ends m → ends (assert_ok m).
Proof. intros H s. specialize (H s). unfold assert_ok. by destruct (m s) as [[] ?]. Qed.
#[export] Hint Resolve ends_assert_ok : ends.

Section ending.
Context `{L : Lowercase} `{HO : HashOrder} `{C : Crypto}.

Lemma ends_run {E A} (m : X A) e (f : A → BinEncoder → res E bytes) (g : res E bytes) :
  ends m → (∀ a e, ends_r (f a e)) → ends_r g →
  ends_r (match m e with (Ok a, e) => f a e | (Diverge, _) => Diverge | _ => g end).
Proof. intros H Hf Hg. specialize (H e). by destruct (m e) as [[] ?]; simpl in *. Qed.

Lemma ends_canonical_rdata {E} r : ends_r (canonical_rdata (E:=E) r).
Proof.
  unfold canonical_rdata. apply (ends_run _ _ (λ _ e, Ok (ebuf e)) Panic); [|done..].
  apply ends_assert_ok. total.
Qed.
#[local] Hint Resolve ends_canonical_rdata : ends.

Lemma ends_to_lowercase {E} n : ends_r (Name_to_lowercase (E:=E) n).
Proof. total. Qed.
#[local] Hint Resolve ends_to_lowercase : ends.

Lemma ends_hash_rrset_record n t c ttl r : ends (hash_rrset_record n t c ttl r).
Proof. unfold hash_rrset_record. repeat (apply ends_bind; [|intros ?]); try apply ends_assert_ok; total. Qed.

Lemma ends_RData_to_bytes {E} r : ends_r (RData_to_bytes (E:=E) r).
Proof.
  unfold RData_to_bytes. pose proof (ends_rdata_emit r (BinEncoder_new [])) as H.
  by destruct (RData_emit r _) as [[] ?].
Qed.
#[local] Hint Resolve ends_RData_to_bytes : ends.

Lemma ends_sort_insert {E} x l : ends_r (sort_insert (E:=E) x l).
Proof. induction l as [|y l IH]; simpl; total. Qed.
#[local] Hint Resolve ends_sort_insert : ends.
Lemma ends_sort_records {E} l : ends_r (sort_records (E:=E) l).
Proof. induction l as [|x l IH]; simpl; total. Qed.
#[local] Hint Resolve ends_hash_rrset_record ends_sort_records : ends.

Lemma ends_append {E} n o : ends_r (Name_append (E:=E) n o).
Proof.
  unfold Name_append. generalize (labels o). intros ls. revert n.
  induction ls as [|l ls IH]; intros n; simpl; total.
Qed.
#[local] Hint Resolve ends_append : ends.

Lemma ends_hash_rrset_with_sig n c sig rs : ends_r (Signer_hash_rrset_with_sig n c sig rs).
Proof.
  unfold Signer_hash_rrset_with_sig, Signer_hash_rrset. apply ends_r_bind; [total|]. intros l _.
  apply ends_r_bind; [total|]. intros [name|] _; [|done].
  match goal with |- ends_r (let '(r, e) := ?m ?s in _) =>
    assert (ends m) as Hm; [|specialize (Hm s); by destruct (m s) as [[] ?]] end.
  repeat (apply ends_bind; [|intros ?]); [total| |apply ends_for_each; total].
  apply ends_assert_ok. total.
Qed.

Lemma ends_to_digest key n dt : ends_r (DNSKEY_to_digest key n dt).
Proof.
  unfold DNSKEY_to_digest.
  match goal with |- ends_r (let '(r, e) := ?m ?s in _) =>
    assert (ends m) as Hm; [total|specialize (Hm s); destruct (m s) as [[] ?]; try done] end.
  total.
Qed.

Lemma ends_from_public_bytes pk a : ends_r (KeyPair_from_public_bytes pk a).
Proof. total. Qed.
Lemma ends_verify s h sg : ends_r (Signer_verify s h sg).
Proof. total. Qed.

Lemma ends_verify_rrset_with_dnskey key sig s : ends_r (verify_rrset_with_dnskey key sig s).
Proof.
  unfold verify_rrset_with_dnskey. pose proof (ends_from_public_bytes (dk_public_key key) (dk_algorithm key)).
  pose proof (ends_hash_rrset_with_sig (rr_name s) (rr_record_class s) sig (rr_records s)).
  repeat (case_match; try done).
  all: match goal with H : Signer_verify ?x ?y ?z = Diverge |- _ => by apply ends_verify in H end.
Qed.
End ending.

Lemma ends_any_m {E A} (f : A → res E bool) l : (∀ x, ends_r (f x)) → ends_r (any_m f l).
Proof. intros H. induction l as [|x l IH]; simpl; total. Qed.
Lemma ends_find_m {E A} (f : A → res E bool) l : (∀ x, ends_r (f x)) → ends_r (find_m f l).
Proof. intros H. induction l as [|x l IH]; simpl; total. Qed.
Lemma ends_filter_m {E A} (f : A → res E bool) l : (∀ x, ends_r (f x)) → ends_r (filter_m f l).
Proof. intros H. induction l as [|x l IH]; simpl; total. Qed.
Lemma ends_is_ok_m {E E' A} (r : res E A) : ends_r r → ends_r (is_ok_m (E':=E') r).
Proof. by destruct r. Qed.
Lemma ends_unwrap_or_false {E E'} (r : res E bool) : ends_r r → ends_r (unwrap_or_false (E':=E') r).
Proof. by destruct r. Qed.

Lemma ends_select_ok {A} (results : list (res client_error A)) :
  (∀ r, r ∈ results → ends_r r) → ends_r (select_ok results).
Proof.
  induction results as [|r [|r' rs] IH]; intros H; [done| |].
  { assert (ends_r r) as Hr by (apply H; by left). by destruct r. }
  assert (ends_r r) as Hr by (apply H; by left).
  simpl in *. destruct r; try done. apply IH. intros x Hx. apply H. by right.
Qed.

Lemma ends_verify_loop `{Lowercase} results v :
  (∀ r, r ∈ results → ends_r r) → ends_r (verify_loop v results).
Proof.
  revert v. induction results as [|r rs IH]; intros v H1; [done|].
  assert (ends_r r) as Hr by (apply H1; by left).
  assert (∀ x, x ∈ rs → ends_r x) as Hrs by (intros x Hx; apply H1; by right).
  simpl. destruct r; try done; [by apply IH|]. case_bool_decide; [done|by apply IH].
Qed.

Section validation_ends.
Context `{L : Lowercase} `{HO : HashOrder} `{C : Crypto} `{NW : Network}.

Section step.
Variable d : nat.
Variable recur : SecureClientHandle → path → Message → res client_error Message.
Hypothesis recur_ends : ∀ client p m, (d < sc_request_depth client)%nat → ends_r (recur client p m).

Lemma ends_dnskeys_where s test : (∀ key, ends_r (test key)) → ends_r (dnskeys_where s test).
Proof. intros H. unfold dnskeys_where. apply ends_r_bind; [apply ends_filter_m; auto|done]. Qed.

Lemma ends_verify_dnskey client p s :
  (d < sc_request_depth client)%nat → ends_r (verify_dnskey_rrset recur client p s).
Proof.
  intros Hd. unfold verify_dnskey_rrset. apply ends_r_bind; [by apply ends_dnskeys_where|]. intros keys _.
  case_match; [done|]. apply ends_r_bind; [by apply recur_ends|]. intros m _.
  apply ends_r_bind; [|total]. apply ends_dnskeys_where. intros key. apply ends_any_m. intros ds.
  apply ends_unwrap_or_false. unfold DS_covers. apply ends_r_bind; [apply ends_to_digest|done].
Qed.

Lemma ends_verified_by s sig r : ends_r (verified_by s sig r).
Proof. unfold verified_by. case_match; [|done]. apply ends_is_ok_m, ends_verify_rrset_with_dnskey. Qed.

Lemma ends_expect_sig {E} r : ends_r (expect_sig (E:=E) r).
Proof. total. Qed.
Lemma ends_expect_sigs {E} rs : ends_r (expect_sigs (E:=E) rs).
Proof. induction rs as [|r rs IH]; [done|]. simpl. total. Qed.

Lemma ends_verify_default client p s rrsigs :
  (d ≤ sc_request_depth client)%nat → ends_r (verify_default_rrset recur client p s rrsigs).
Proof.
  intros Hd. unfold verify_default_rrset. apply ends_r_bind.
  { apply ends_any_m. intros r. apply ends_r_bind; [apply ends_expect_sig|done]. }
  intros [] _.
  - apply ends_r_bind; [|total]. apply ends_find_m. intros r.
    apply ends_r_bind; [apply ends_expect_sig|]. intros sig _. apply ends_any_m, ends_verified_by.
  - apply ends_r_bind; [apply ends_expect_sigs|]. intros sigs _. case_match; [done|].
    apply ends_select_ok. intros r Hr%elem_of_completions%elem_of_imap_inv. destruct Hr as (j & sig & _ & ->).
    unfold verify_with_signer. apply ends_r_bind; [apply recur_ends; simpl; lia|]. intros m _.
    apply ends_r_bind; [apply ends_find_m, ends_verified_by|]. total.
Qed.

Lemma ends_verify_rrset client p s rrsigs :
  (d < sc_request_depth client)%nat → ends_r (verify_rrset recur client p s rrsigs).
Proof.
  intros Hd. unfold verify_rrset. case_match; [apply ends_verify_dnskey; simpl; lia|].
  apply ends_r_bind; [apply ends_verify_default; simpl; lia|]. intros s' _.
  destruct (rr_record_type s'); try done. by apply ends_verify_dnskey.
Qed.

Lemma ends_verify_nsec {E} q l : ends_r (verify_nsec (E:=E) q l).
Proof.
  unfold verify_nsec, nsec_types. apply ends_r_bind; [apply ends_any_m; intros r; total|].
  intros [] _; [done|]. apply ends_any_m. intros r. total.
Qed.

Lemma ends_send_step client p m :
  (∀ p m, ends_r (upstream p m)) → (d ≤ sc_request_depth client)%nat → ends_r (send_step recur client p m).
Proof.
  intros Hup Hd. unfold send_step. case_match; [done|]. destruct (h_op_code (m_header m)); try apply Hup.
  destruct (m_queries m) as [|q qs]; [done|]. apply ends_r_bind; [apply Hup|]. intros m1 _.
  apply ends_r_bind.
  - unfold verify_rrsets. case_match; [done|]. apply ends_r_bind; [|done].
    apply ends_verify_loop. intros r Hr%elem_of_completions%elem_of_imap_inv. destruct Hr as (i & x & _ & ->).
    apply ends_verify_rrset. simpl. lia.
  - intros m2 _. case_match; [|done]. apply ends_r_bind; [apply ends_verify_nsec|]. intros b _. by destruct b.
Qed.
End step.

Lemma secure_send_ends fuel client p m :
  (∀ p m, ends_r (upstream p m)) → (0 < fuel)%nat → (21 < fuel + sc_request_depth client)%nat →
  ends_r (secure_send fuel client p m).
Proof.
  intros Hup. revert client p m. induction fuel as [|fuel IH]; intros client p m Hpos Hf; [lia|]. simpl.
  destruct (Nat.ltb_spec 20 (sc_request_depth client)) as [Hd|Hd].
  { unfold send_step. by rewrite (proj2 (Nat.ltb_lt _ _) Hd). }
  apply (ends_send_step (sc_request_depth client)); [|done|lia].
  intros client' p' m' Hd'. apply IH; lia.
Qed.
End validation_ends.

(** ** [preserve] *)

(** What the state of the iterator stands for: the indices still to come, the one in
    hand not above [k]. *)
Definition in_hand (k : nat) (i : option nat) (indexes : list nat) : Prop :=
  match i with
  | Some i => (i ≤ k)%nat ∧ StronglySorted gt (i :: indexes)
  | None => indexes = []
  end.
Definition pending (i : option nat) (indexes : list nat) : list nat :=
  match i with Some i => i :: indexes | None => indexes end.
Definition live (k : nat) (i : option nat) (indexes : list nat) : list nat :=
  filter (λ j, (j < k)%nat) (pending i indexes).

Lemma live_all k i indexes : StronglySorted gt (i :: indexes) → (i < k)%nat → live k (Some i) indexes = i :: indexes.
Proof.
  intros Hs Hi. apply filter_all. intros j [->|Hj]%elem_of_cons; [done|].
  apply StronglySorted_inv in Hs as [_ Hs]. rewrite Forall_forall in Hs. specialize (Hs j Hj). lia.
Qed.

Lemma filter_none {A} (P : A → Prop) `{!∀ x, Decision (P x)} l : (∀ x, ¬ P x) → filter P l = [].
Proof. intros HP. induction l as [|x l IH]; [done|]. by rewrite filter_cons, decide_False. Qed.

(** Moving on past an index that is above [j]. *)
Lemma advance_ok j i indexes :
  in_hand (S j) i indexes →
  let '(i', indexes') :=
    match i with
    | Some i' => if (j <? i')%nat then (head indexes, tail indexes) else (i, indexes)
    | None => (i, indexes)
    end in
  in_hand j i' indexes' ∧ live (S j) i indexes = pending i' indexes'.
Proof.
  intros Hh. destruct i as [i|]; simpl in Hh; [|subst; by split].
  destruct Hh as [Hi Hs]. pose proof (StronglySorted_inv Hs) as [Hs' Hall].
  destruct (Nat.ltb_spec j i).
  - assert (i = S j) as -> by lia. unfold live. cbn [pending]. rewrite filter_cons, decide_False by lia.
    rewrite filter_all.
    2:{ intros x Hx. rewrite Forall_forall in Hall. specialize (Hall x Hx). lia. }
    destruct indexes as [|i' indexes]; [by split|]. simpl. split; [|done].
    apply Forall_cons in Hall as [? _]. split; [lia|done].
  - split; [split; [lia|done]|]. apply live_all; [done|lia].
Qed.

Lemma preserve_loop_spec {A} (l kept : list A) i indexes :
  in_hand (length l) i indexes →
  preserve_loop (rev (seq 0 (length l))) i indexes (l ++ kept) =
  omap (λ i, l !! i) (rev (live (length l) i indexes)) ++ kept.
Proof.
  revert kept i indexes. induction l as [|x l IH] using rev_ind; intros kept i indexes Hh.
  { simpl. unfold live. by rewrite filter_none by (intros; lia). }
  rewrite length_app in *. cbn [length] in *. rewrite Nat.add_1_r in *. rewrite seq_S, rev_app_distr.
  cbn [rev app preserve_loop plus]. pose proof (advance_ok _ _ _ Hh) as Hadv.
  destruct (match i with Some _ => _ | None => _ end) as [i' indexes'] eqn:Em. destruct Hadv as [Hh' ->].
  assert (Hkeep : ∀ js, Forall (λ j, j < length l)%nat js →
    omap (λ j, (l ++ [x]) !! j) js = omap (λ j, l !! j) js).
  { induction 1 as [|j js Hj _ IHj]; [done|]. csimpl. by rewrite lookup_app_l, IHj. }
  assert (Hdel : delete (length l) ((l ++ [x]) ++ kept) = l ++ kept).
  { rewrite <-app_assoc. apply (delete_middle l kept x). }
  assert (Hlt : ∀ j js, StronglySorted gt (j :: js) → (j < length l)%nat →
    Forall (λ j, j < length l)%nat (rev (j :: js))).
  { intros j js Hs Hj. apply Forall_rev. constructor; [done|].
    apply StronglySorted_inv in Hs as [_ Hs]. eapply Forall_impl; [exact Hs|]. simpl. lia. }
  destruct i' as [j|]; cbn [pending].
  - destruct (Nat.eqb_spec j (length l)) as [->|Hj].
    + rewrite <-app_assoc, IH by done. destruct Hh' as [_ Hs]. pose proof (StronglySorted_inv Hs) as [_ Hall].
      unfold live. cbn [pending]. rewrite filter_cons, decide_False by lia.
      rewrite filter_all by (intros y Hy; rewrite Forall_forall in Hall; specialize (Hall y Hy); lia).
      cbn [rev]. rewrite omap_app. csimpl. rewrite lookup_app_r, Nat.sub_diag by lia. csimpl.
      rewrite Hkeep, <-app_assoc; [done|]. apply Forall_rev. eapply Forall_impl; [exact Hall|]. simpl. lia.
    + rewrite Hdel, IH by done. destruct Hh' as [Hj' Hs]. rewrite live_all by (done || lia).
      rewrite Hkeep; [done|]. apply Hlt; [done|lia].
  - simpl in Hh'. subst. rewrite Hdel, IH by done. done.
Qed.

(** ** [verify_nsec] *)

Section nsec.
Context `{L : Lowercase}.

(** The record denies the type at its own name, or spans the name. *)
Definition denies_type (q : Query) (r : RRecord) : Prop :=
  Name_eq (q_name q) (r_name_labels r) = true ∧
  ∃ nsec, r_rdata r = RData.NSEC nsec ∧ q_query_type q ∉ nsec_type_bit_maps nsec.
Definition spans (q : Query) (r : RRecord) : Prop :=
  cmp (r_name_labels r) (q_name q) = Lt ∧
  ∃ nsec, r_rdata r = RData.NSEC nsec ∧ cmp (q_name q) (nsec_next_domain_name nsec) = Lt.

Lemma any_m_iff {E A} (f : A → res E bool) (P : A → Prop) l :
  (∀ x, x ∈ l → ∃ b, f x = Ok b ∧ (b = true ↔ P x)) → ∃ b, any_m f l = Ok b ∧ (b = true ↔ Exists P l).
Proof.
  induction l as [|x l IH]; intros Hl.
  { exists false. split; [done|]. split; [done|]. by intros ?%Exists_nil. }
  destruct (Hl x ltac:(by left)) as (b & Hb & HP). simpl. rewrite Hb. cbn [rbind]. destruct b.
  - exists true. split; [done|]. split; [|done]. intros _. left. by apply HP.
  - destruct IH as (b' & Hb' & HP'); [intros y Hy; apply Hl; by right|]. exists b'. split; [done|].
    rewrite HP', Exists_cons. split; [by right|]. intros [Hx|?]; [|done]. by apply HP in Hx.
Qed.

Lemma verify_nsec_iff {E} q nsecs :
  Forall (λ r, ∃ nsec, r_rdata r = RData.NSEC nsec) nsecs →
  ∃ b, verify_nsec (E:=E) q nsecs = Ok b ∧ (b = true ↔ Exists (denies_type q) nsecs ∨ Exists (spans q) nsecs).
Proof.
  intros Hd. rewrite Forall_forall in Hd. unfold verify_nsec, nsec_types.
  destruct (any_m_iff (E:=E) (λ r, if Name_eq (q_name q) (r_name_labels r) then
      match r_rdata r with
      | RData.NSEC nsec => Ok (negb (bool_decide (q_query_type q ∈ nsec_type_bit_maps nsec)))
      | _ => Panic end else Ok false) (denies_type q) nsecs) as (b1 & H1 & Hb1).
  { intros r Hr. destruct (Hd r Hr) as [nsec En]. unfold denies_type. rewrite En.
    destruct (Name_eq _ _); [|exists false; split; [done|]; split; [done|by intros [? _]]].
    eexists. split; [done|]. rewrite negb_true_iff, bool_decide_eq_false. split.
    - intros Hn. split; [done|]. by exists nsec.
    - intros (_ & nsec' & [= <-] & Hn). done. }
  rewrite H1. cbn [rbind]. destruct b1; [exists true; split; [done|]; tauto|].
  destruct (any_m_iff (E:=E) (λ r, match cmp (q_name q) (r_name_labels r) with
      | Gt => match r_rdata r with
              | RData.NSEC nsec => Ok match cmp (q_name q) (nsec_next_domain_name nsec) with Lt => true | _ => false end
              | _ => Panic end
      | _ => Ok false end) (spans q) (filter (λ r, Name_eq (q_name q) (r_name_labels r) = false) nsecs))
    as (b2 & H2 & Hb2).
  { intros r [_ Hr]%list_elem_of_filter. destruct (Hd r Hr) as [nsec En]. unfold spans. rewrite En.
    rewrite (cmp_opp (q_name q) (r_name_labels r)).
    destruct (cmp (q_name q) (r_name_labels r)); simpl;
      [exists false; (split; [done|]); (split; [done|by intros [? _]])..|].
    eexists. split; [done|]. split.
    - intros Hn. split; [done|]. exists nsec. split; [done|]. by destruct (cmp _ _).
    - intros (_ & nsec' & [= <-] & Hn). by rewrite Hn. }
  rewrite H2. exists b2. split; [done|]. rewrite Hb2. rewrite !Exists_exists. split.
  - intros (r & Hr%list_elem_of_filter & Hs). right. exists r. tauto.
  - intros [He|(r & Hr & Hs)]; [by rewrite <-Exists_exists, <-Hb1 in He|].
    exists r. split; [|done]. apply list_elem_of_filter. split; [|done].
    destruct (Name_eq _ _) eqn:En; [|done]. apply Name_eq_cmp in En. destruct Hs as [Hs _].
    rewrite (cmp_opp (q_name q) (r_name_labels r)), En in Hs. done.
Qed.
End nsec.

(** ** The contract *)

Section contract.
Context `{L : Lowercase} `{HO : HashOrder} `{C : Crypto} `{NW : Network}.

Lemma send_step_reply recur client p m m' :
  h_op_code (m_header m) = OpCode.Query → send_step recur client p m = Ok m' →
  ∃ reply, upstream p (secure_message m) = Ok reply ∧ m_header m' = m_header reply ∧
    m_answers m' `sublist_of` m_answers reply ∧ m_name_servers m' `sublist_of` m_name_servers reply ∧
    m_additionals m' `sublist_of` m_additionals reply.
Proof.
  intros Ho. unfold send_step. case_match; [done|]. rewrite Ho.
  destruct (m_queries m) as [|q qs]; [done|]. destruct (upstream _ _) as [reply| | |]; [|done..]. cbn [rbind].
  destruct (verify_rrsets _ _ _ _ _) as [m2| | |] eqn:Ev; [|done..]. cbn [rbind].
  assert (Hm2 : m_header m2 = m_header reply ∧ m_answers m2 `sublist_of` m_answers reply ∧
    m_name_servers m2 `sublist_of` m_name_servers reply ∧ m_additionals m2 `sublist_of` m_additionals reply).
  { revert Ev. unfold verify_rrsets. case_match; [done|].
    destruct (verify_loop _ _) as [verified| | |]; [|done..]. cbn [rbind]. rewrite filter_message_spec.
    cbv zeta. intros [= <-]. simpl. split_and!; [done|apply sublist_filter..]. }
  intros Hm'. exists reply. split; [done|]. revert Hm'. case_bool_decide; [|by intros [= <-]].
  destruct (verify_nsec _ _) as [[]| | |]; cbn [rbind negb]; try done. by intros [= <-].
Qed.

(** C5: A validated reply holds nothing but records of the network's reply, and every one of
    them is vouched for: there is a chain from its set to a trust anchor, through signatures
    that were verified and digests that were matched, whatever the network answers and in
    whatever order the checks complete. *)
Theorem secure_send_sound anchor fuel p m m' :
  h_op_code (m_header m) = OpCode.Query →
  secure_send fuel (SecureClientHandle_with_trust_anchor anchor) p m = Ok m' →
  Forall (vouched anchor) (all_sections m') ∧
  ∃ reply, upstream p (secure_message m) = Ok reply ∧ m_header m' = m_header reply ∧
    m_answers m' `sublist_of` m_answers reply ∧ m_name_servers m' `sublist_of` m_name_servers reply ∧
    m_additionals m' `sublist_of` m_additionals reply.
Proof.
  intros Ho Hs. split; [eapply secure_send_vouched; [|exact Ho|exact Hs]; done|]. destruct fuel as [|fuel]; [done|].
  by eapply send_step_reply.
Qed.

(** C35: Validation ends whatever the network answers: the depth of the requests a reply gives rise
    to is bounded, and 22 nested calls are enough. *)
Theorem secure_send_terminates anchor p m :
  (∀ p m, upstream p m ≠ Diverge) →
  secure_send 22 (SecureClientHandle_with_trust_anchor anchor) p m ≠ Diverge.
Proof. intros Hup. apply secure_send_ends; [done|lia|simpl; lia]. Qed.

(** The keys that are kept of a set are exactly those at the given indices, in order. *)
Theorem preserve_spec {A} (vec : list A) indexes :
  StronglySorted lt indexes → Forall (λ i, i < length vec)%nat indexes →
  preserve vec indexes = omap (λ i, vec !! i) indexes.
Proof.
  intros Hs Hb. unfold preserve.
  assert (Hrev : StronglySorted gt (rev indexes)).
  { clear Hb. induction Hs as [|i l _ IH Hall]; [constructor|]. cbn [rev].
    assert (Hrall : Forall (λ j, j > i)%nat (rev l)).
    { apply Forall_rev. eapply Forall_impl; [exact Hall|]. simpl. lia. }
    clear Hall. induction IH as [|j k _ IHk Hk]; [repeat constructor|].
    inversion_clear Hrall. simpl. constructor; [by apply IHk|]. apply Forall_app. split; [done|].
    constructor; [lia|constructor]. }
  rewrite <-(app_nil_r vec) at 1. rewrite app_nil_r.
  pose proof (preserve_loop_spec vec [] (head (rev indexes)) (tail (rev indexes))) as Hl.
  rewrite !app_nil_r in Hl. rewrite Hl.
  - f_equal. unfold live. transitivity (rev (rev indexes)); [|apply rev_involutive]. f_equal.
    transitivity (pending (head (rev indexes)) (tail (rev indexes))); [|by destruct (rev indexes)].
    apply filter_all. intros i Hi.
    assert (i ∈ rev indexes) as Hi' by (by destruct (rev indexes)).
    apply List.Forall_rev in Hb. rewrite Forall_forall in Hb. by apply Hb.
  - apply List.Forall_rev in Hb. destruct (rev indexes) as [|i l]; [done|]. simpl.
    apply Forall_cons in Hb as [? _]. split; [lia|done].
Qed.

(** C39: An answer without records is accepted exactly when some NSEC record is at the queried name
    and does not list the type, or spans it.  The last NSEC record of a zone, which points
    back to the zone's own name, spans no name at all: that nothing follows it cannot be
    proved. *)
Theorem verify_nsec_spec q nsecs :
  Forall (λ r, ∃ nsec, r_rdata r = RData.NSEC nsec) nsecs →
  (verify_nsec (E:=client_error) q nsecs = Ok true ↔
     Exists (denies_type q) nsecs ∨ Exists (spans q) nsecs) ∧
  ∀ r nsec, r_rdata r = RData.NSEC nsec → cmp (nsec_next_domain_name nsec) (r_name_labels r) ≠ Gt →
    Name_eq (q_name q) (r_name_labels r) = false → verify_nsec (E:=client_error) q [r] = Ok false.
Proof.
  intros Hd. split.
  - destruct (verify_nsec_iff (E:=client_error) q nsecs Hd) as (b & -> & <-). split; [by intros [= ->]|by intros ->].
  - intros r nsec Hr Hlast Hne.
    destruct (verify_nsec_iff (E:=client_error) q [r]) as (b & -> & Hb); [by repeat econstructor|].
    destruct b; [|done]. exfalso. destruct (proj1 Hb eq_refl) as [He|He]; apply Exists_cons in He as [He|He%Exists_nil];
      try done.
    + destruct He as [He _]. congruence.
    + destruct He as (Hlt & nsec' & Hr' & Hlt'). rewrite Hr in Hr'. injection Hr' as <-.
      pose proof (cmp_lt_trans _ _ _ Hlt Hlt') as Hc. apply cmp_gt_lt in Hc. done.
Qed.
End contract.
