(* ===== verification/ValidateExamples.v ===== *)
(** * ValidateExamples: validation on concrete replies

    Instances of the theorems on validation, and replies that are accepted although
    DNSSEC would have them refused.  Signatures are modelled by a library in which a
    signature is the modulus of the key followed by the data: only the key's own
    signatures verify. *)

From S2P Require Import Prelude Codec Wire Domain Enums Header RData RDataProps Resource Message RecordSet.
From S2P Require Import KeyPair Signer Update BTree Journal Authority Catalog ClientHandle Returns Validate ValidateProps.

Open Scope Z_scope.

Definition keyed_crypto : Crypto := {|
  BigNum := bytes;
  Rsa := bytes * bytes;
  EcKey := ();
  EcPoint := ();
  PKey := bytes * bytes;
  BigNum_from_slice bs := Some bs;
  BigNum_to_vec b := b;
  Rsa_from_public_components n e := Some (n, e);
  Rsa_n r := Some r.1;
  Rsa_e r := Some r.2;
  Rsa_private_key_from_pem _ := None;
  EcPoint_from_bytes _ _ := None;
  EcPoint_to_bytes _ _ := None;
  EcKey_from_public_key _ _ := None;
  EcKey_has_group _ := false;
  EcKey_public_key _ := None;
  EcKey_private_key_from_pem _ := None;
  PKey_from_rsa r := Some r;
  PKey_rsa p := Some p;
  PKey_from_ec_key _ := None;
  PKey_ec_key _ := None;
  PKey_private_key_to_pem _ := None;
  openssl_hash _ m := Some m;
  openssl_sign _ k m := Some (Some (k.1 ++ m));
  openssl_verify _ k m s := Some (Some (bool_decide (k.1 ++ m = s)));
  ring_sign _ _ m := Some m;
  ring_verify _ m s := bool_decide (m = s);
|}.

#[local] Existing Instance ascii_lowercase.
#[local] Existing Instance list_hash_order.
#[local] Existing Instance keyed_crypto.

(** ** Names, keys and records *)

Definition ex_zone_a : Name := mkName [[97]].
Definition ex_www : Name := mkName [[119]; [97]].
Definition ex_other : Name := mkName [[120]; [98]].

(** The anchor's key and another one. *)
Definition good_key : DNSKEY := mkDNSKEY true true false Algorithm.RSASHA256 [1; 3; 187].
Definition evil_key : DNSKEY := mkDNSKEY true true false Algorithm.RSASHA256 [1; 3; 66].
Definition anchor_a : TrustAnchor := mkTrustAnchor [[1; 3; 187]].

Definition key_record (key : DNSKEY) : RRecord :=
  mkRecord ex_zone_a RecordType.DNSKEY DNSClass.IN 60 (RData.DNSKEY key).
Definition address (n : Name) (c : DNSClass) (x : Z) : RRecord :=
  mkRecord n RecordType.A c 60 (RData.A (mkIpv4 10 0 0 x)).

(** A signature over address records by the zone [a]'s key with this modulus, expired
    since 1970. *)
Definition address_sig (modulus : Z) (n : Name) (records : list RRecord) : RRecord :=
  let sig bs := mkSIG RecordType.A Algorithm.RSASHA256 2 60 0 0 7 ex_zone_a bs in
  let data := match Signer_hash_rrset_with_sig n DNSClass.IN (sig []) records with Ok b => b | _ => [] end in
  mkRecord n RecordType.RRSIG DNSClass.IN 60 (RData.SIG (sig (modulus :: data))).

Definition reply (answers : list RRecord) : Message :=
  mkMessage Header_new [] answers [] [] [] None.

(** A network that gives one reply to questions for keys and another to all others, the
    checks completing in their order or in reverse. *)
Definition network (keys other : Message) (backwards : bool) : Network.
Proof.
  refine {|
    upstream _ m :=
      match m_queries m with
      | q :: _ => if decide (q_query_type q = RecordType.DNSKEY) then Ok keys else Ok other
      | [] => Err ClientIo
      end;
    random_id _ := 7;
    completion _ n := if backwards then rev (seq 0 n) else seq 0 n;
  |}.
  intros _ n. destruct backwards; [|done]. symmetry. apply Permutation_rev.
Defined.

Definition ask (keys other : Message) (backwards : bool) (n : Name) : res client_error Message :=
  secure_send (NW:=network keys other backwards) 22 (SecureClientHandle_with_trust_anchor anchor_a) []
    (query_message 7 n DNSClass.IN RecordType.A).

Definition answers_of (r : res client_error Message) : option (list RRecord) :=
  match r with Ok m => Some (m_answers m) | _ => None end.

(** ** The theorems at work *)

Definition good_reply : Message :=
  reply [address ex_www DNSClass.IN 1; address_sig 187 ex_www [address ex_www DNSClass.IN 1]].

Example ex_good : answers_of (ask (reply [key_record good_key]) good_reply false ex_www) =
  Some [address ex_www DNSClass.IN 1].
Proof. vm_compute. reflexivity. Qed.

Definition good_network : Network := network (reply [key_record good_key]) good_reply false.

Lemma secure_send_sound_witness :
  ∃ m', ask (reply [key_record good_key]) good_reply false ex_www = Ok m' ∧
    Forall (vouched anchor_a) (all_sections m').
Proof.
  eexists. split; [vm_compute; reflexivity|].
  refine (proj1 (secure_send_sound (NW:=good_network) anchor_a 22 []
    (query_message 7 ex_www DNSClass.IN RecordType.A) _ eq_refl _)).
  vm_compute. reflexivity.
Defined.

Lemma secure_send_terminates_witness :
  secure_send (NW:=good_network) 22 (SecureClientHandle_with_trust_anchor anchor_a) []
    (query_message 7 ex_www DNSClass.IN RecordType.A) ≠ Diverge.
Proof.
  refine (secure_send_terminates (NW:=good_network) anchor_a [] _ _).
  intros p m. unfold upstream, good_network, network. repeat case_match; discriminate.
Defined.

Lemma preserve_spec_witness : preserve [10; 20; 30] [0%nat; 2%nat] = [10; 30].
Proof.
  refine (preserve_spec [10; 20; 30] [0%nat; 2%nat] _ _).
  - repeat constructor; lia.
  - repeat constructor; simpl; lia.
Defined.

Definition ex_nsec_record : RRecord :=
  mkRecord ex_zone_a RecordType.NSEC DNSClass.IN 60 (RData.NSEC (mkNSEC ex_www [RecordType.SOA])).

Lemma verify_nsec_spec_witness :
  verify_nsec (E:=client_error) (mkQuery ex_zone_a RecordType.A DNSClass.IN) [ex_nsec_record] = Ok true.
Proof.
  refine (proj2 (proj1 (verify_nsec_spec (mkQuery ex_zone_a RecordType.A DNSClass.IN) [ex_nsec_record] _)) _).
  - apply List.Forall_cons; [eexists; reflexivity|apply List.Forall_nil].
  - left. apply Exists_cons_hd. split; [reflexivity|]. eexists. split; [reflexivity|].
    simpl. intros H%list_elem_of_singleton. discriminate.
Defined.

(** ** What it accepts *)

(** An unsigned reply of keys is accepted whole when one of them is the anchor: a key that
    nothing vouches for but its company there signs records that the anchor's key has not
    signed, and they are accepted. *)
Theorem validation_smuggled_key :
  let forged := reply [address ex_www DNSClass.IN 66;
                       address_sig 66 ex_www [address ex_www DNSClass.IN 66]] in
  answers_of (ask (reply [key_record good_key]) forged false ex_www) = None ∧
  answers_of (ask (reply [key_record good_key; key_record evil_key]) forged false ex_www) =
    Some [address ex_www DNSClass.IN 66].
Proof. vm_compute. done. Qed.

(** A record of another class has no part in the hash of its set, and comes through with the
    set that was signed without it. *)
Theorem validation_unsigned_class :
  let r := address ex_www DNSClass.IN 1 in
  let stray := address ex_www DNSClass.CH 66 in
  answers_of (ask (reply [key_record good_key]) (reply [r; stray; address_sig 187 ex_www [r]]) false ex_www) =
    Some [r; stray].
Proof. vm_compute. done. Qed.

(** A zone's key signs for any name: the signer need not be above the owner; and a signature
    that expired in 1970 is as good as any. *)
Theorem validation_foreign_signer :
  let r := address ex_other DNSClass.IN 66 in
  Name_zone_of (E:=client_error) ex_zone_a ex_other = Ok false ∧
  answers_of (ask (reply [key_record good_key]) (reply [r; address_sig 187 ex_other [r]]) false ex_other) =
    Some [r].
Proof. vm_compute. done. Qed.

(** A reply with a set that verifies and one that does not is stripped of the second, or
    refused as a whole, depending on which of the two checks completes last. *)
Theorem validation_order_dependent :
  let r := address ex_www DNSClass.IN 1 in
  let mx := mkRecord ex_www RecordType.MX DNSClass.IN 60 (RData.MX (mkMX 1 ex_www)) in
  let m := reply [r; address_sig 187 ex_www [r]; mx] in
  answers_of (ask (reply [key_record good_key]) m true ex_www) = Some [r] ∧
  ask (reply [key_record good_key]) m false ex_www = Err (ClientNoRrsigs ex_www RecordType.MX).
Proof. vm_compute. done. Qed.
