(* ===== verification/SignedZone.v ===== *)
(** * SignedZone: what the server signs, the client accepts

    The two ends of DNSSEC together: [Authority::add_secure_key] and
    [Authority::secure_zone] of the server, [Catalog::handle_request], and the validation
    of [SecureClientHandle] on the replies.  The theorems say that the signatures a zone
    carries verify under the keys it publishes, and that a client whose trust anchor is
    the zone's key is given exactly the zone's records. *)

From S2P Require Import Prelude Codec Wire Domain Enums Header RData RDataProps Resource Message RecordSet.
From S2P Require Import KeyPair Signer Update BTree Journal Authority AuthorityProps ZoneSecurity Catalog CatalogProps.
From S2P Require Import ClientHandle Validate ValidateProps.

Open Scope Z_scope.

(** ** A key that signs *)

Section signed.
Context `{L : Lowercase} `{HO : HashOrder} `{CL : CryptoLaws} `{SQ : Sqlite} `{CK : Clock}.

(** A signer with an RSA key that publishes the bytes [bs]. *)
Definition rsa_signer (signer : Signer) (bs : bytes) : Prop :=
  rsa_algorithm (s_algorithm signer) ∧
  ∃ pkey e n, s_key signer = KeyPair.RSA pkey ∧ public_part pkey = Some (e, n) ∧
    (0 < length (BigNum_to_vec e))%nat ∧ rsa_length_ok bs ∧
    bs = rsa_public_bytes (BigNum_to_vec e) (BigNum_to_vec n).

Definition published (signer : Signer) (bs : bytes) : DNSKEY :=
  mkDNSKEY true true false (s_algorithm signer) bs.

Lemma rsa_signer_key signer bs :
  rsa_signer signer bs →
  ∃ pkey q c, s_key signer = KeyPair.RSA pkey ∧ public_part pkey = Some c ∧ public_part q = Some c ∧
    KeyPair_to_public_bytes (s_key signer) = Ok bs ∧
    KeyPair_from_public_bytes bs (s_algorithm signer) = Ok (KeyPair.RSA q).
Proof.
  intros (Ha & pkey & e & n & Hk & Hp & He & Hlen & Hbs). rewrite Hbs in Hlen.
  destruct (KeyPair_rsa_public_roundtrip pkey e n (s_algorithm signer) Hp Ha He Hlen)
    as (bs' & q & Hto & Hfrom & Hq & _).
  assert (bs' = bs) as ->.
  { revert Hto. unfold KeyPair_to_public_bytes, public_part, rsa_components in *.
    destruct (PKey_rsa pkey) as [r|]; [|done]. simpl in *.
    destruct (Rsa_e r) as [e'|], (Rsa_n r) as [n'|]; try done. simpl in *. congruence. }
  exists pkey, q, (e, n). by rewrite Hk.
Qed.

Lemma rsa_signer_dnskey signer bs :
  rsa_signer signer bs → KeyPair_to_dnskey (s_key signer) (s_algorithm signer) = Ok (published signer bs).
Proof.
  intros (pkey & q & c & _ & _ & _ & Hto & _)%rsa_signer_key. unfold KeyPair_to_dnskey. by rewrite Hto.
Qed.

(** ** A signature verifies *)

(** What the signature [rrsig] over the set [s] of class [class] promises: any reply that
    holds the set's records, in any order, verifies. *)
Definition sig_covers (class : DNSClass) (signer : Signer) (bs : bytes) (s : RecordSet) (rrsig : RRecord) :
    Prop :=
  ∃ sig, r_rdata rrsig = RData.SIG sig ∧ r_name_labels rrsig = rs_name s ∧
    r_rr_type rrsig = RecordType.RRSIG ∧ sig_type_covered sig = rs_record_type s ∧
    sig_algorithm sig = s_algorithm signer ∧ sig_signer_name sig = s_signer_name signer ∧
    ∀ rs, rs ≡ₚ rs_records s →
      verify_rrset_with_dnskey (published signer bs) sig (mkRrset (rs_name s) (rs_record_type s) class rs) =
      Ok ().

Lemma sign_verifies signer bs hash signature :
  rsa_signer signer bs → Signer_sign signer hash = Ok signature →
  ∃ q, KeyPair_from_public_bytes bs (s_algorithm signer) = Ok (KeyPair.RSA q) ∧
    ∀ n z u, Signer_verify (Signer_new_verifier (s_algorithm signer) (KeyPair.RSA q) n z u) hash signature =
    Ok ().
Proof.
  intros (pkey & q & c & Hk & Hp & Hq & _ & Hfrom)%rsa_signer_key. unfold Signer_sign. rewrite Hk.
  unfold KeyPair_sign. exists q. split; [done|]. intros n z u. unfold Signer_verify. simpl.
  destruct (DigestType_to_openssl_digest _) as [d| | |]; try done. simpl in *.
  destruct (openssl_sign d pkey hash) as [[s'|]|] eqn:Hs; try done. simpl in *.
  assert (s' = signature) as -> by congruence.
  by rewrite (openssl_verify_sign d pkey q c hash signature Hp Hq Hs).
Qed.

Lemma sign_rrset_covers class now ttl s signer bs rrsig :
  rsa_signer signer bs → Forall record_ok (rs_records s) →
  sign_rrset class now ttl s signer = Ok (Some rrsig) → sig_covers class signer bs s rrsig.
Proof.
  intros Hrsa Hok. unfold sign_rrset. destruct (DateTime_add _ _) as [expiration|]; [|done].
  destruct (Signer_calculate_key_tag signer) as [tag| | |]; try done. cbn [rbind].
  destruct (Signer_hash_rrset _ _ _ _ _ _ _ _ _ _ _) as [hash| | |] eqn:Hh; try done.
  destruct (Signer_sign signer hash) as [signature| | |] eqn:Hs; try done. intros [= <-].
  destruct (sign_verifies signer bs hash signature Hrsa Hs) as (q & Hfrom & Hver).
  eexists. repeat (split; [reflexivity|]). intros rs Hrs.
  unfold verify_rrset_with_dnskey. cbn [dk_revoke dk_zone_key dk_algorithm dk_public_key published negb sig_algorithm].
  rewrite bool_decide_eq_true_2 by done. cbn [negb]. rewrite Hfrom.
  unfold Signer_hash_rrset_with_sig. cbn -[Signer_hash_rrset Signer_verify Signer_new_verifier].
  rewrite (hash_rrset_perm _ _ _ _ _ _ _ _ _ _ rs (rs_records s)); [|by rewrite Hrs|done].
  cbn [RecordSet_get_records] in Hh. rewrite Hh, Hver. done.
Qed.

(** ** The signatures of a set *)

(** The library signs whatever it is given. *)
Definition can_sign (signer : Signer) : Prop := ∀ hash, ∃ signature, Signer_sign signer hash = Ok signature.

(** The data of a set can be written, so hashing it gives the bytes or panics. *)
Lemma hash_rrset_no_error name c t alg ttl exp inc tag signer rs e :
  Forall record_ok rs →
  Signer_hash_rrset name c (Name_num_labels name) t alg ttl exp inc tag signer rs ≠ Err e.
Proof.
  intros Hok. unfold Signer_hash_rrset.
  set (l := filter _ rs).
  destruct (sort_records_spec (E:=dnssec_error) name t c l) as (l' & -> & _).
  { apply Forall_forall. intros r [(Hc & Ht & Hn) Hr]%list_elem_of_filter.
    rewrite Forall_forall in Hok. split; auto. }
  cbn [rbind]. unfold Signer_determine_name. rewrite Z.eqb_refl. cbn [rbind].
  match goal with |- (let '(_, _) := ?x in _) ≠ _ => destruct x as [[]] end; done.
Qed.

Lemma sign_rrset_signs class now ttl s signer o :
  can_sign signer → Forall record_ok (rs_records s) →
  sign_rrset class now ttl s signer = Ok o → is_Some o.
Proof.
  intros Hsign Hok. unfold sign_rrset. destruct (DateTime_add _ _) as [expiration|]; [|done].
  destruct (Signer_calculate_key_tag signer) as [tag| | |]; try done. cbn [rbind].
  destruct (Signer_hash_rrset _ _ _ _ _ _ _ _ _ _ _) as [hash|e| |] eqn:Hh; try done.
  - destruct (Hsign hash) as [signature ->]. by intros [= <-].
  - by apply hash_rrset_no_error in Hh.
Qed.

Definition rs_with_rrsigs (s : RecordSet) (rrsigs : list RRecord) : RecordSet :=
  mkRecordSet (rs_name s) (rs_record_type s) (rs_dns_class s) (rs_ttl s) (rs_records s) rrsigs
    (rs_serial s).

(** A signer and a signature it made over the set. *)
Definition signs (class : DNSClass) (s : RecordSet) (signer : Signer) (rrsig : RRecord) : Prop :=
  ∀ bs, rsa_signer signer bs → sig_covers class signer bs s rrsig.

Lemma sign_with_keys_spec class now ttl keys s s' :
  Forall can_sign keys → sign_with_keys class now ttl keys s = (Ok (), s') →
  ∃ rrsigs, s' = rs_with_rrsigs s (rs_rrsigs s ++ rrsigs) ∧
    (Forall record_ok (rs_records s) → Forall2 (signs class s) keys rrsigs).
Proof.
  intros Hkeys. revert s. induction Hkeys as [|signer keys Hsigner Hkeys IH]; intros s; simpl.
  { intros [= <-]. exists []. rewrite app_nil_r. split; [by destruct s|constructor]. }
  destruct (sign_rrset class now ttl s signer) as [[rrsig|]| | |] eqn:Hs; try done; intros Hrest.
  - destruct (IH (RecordSet_insert_rrsig s rrsig) Hrest) as (rrsigs & -> & Hall).
    exists (rrsig :: rrsigs). split; [by unfold rs_with_rrsigs; simpl; rewrite <-app_assoc|].
    intros Hok. constructor; [|by apply Hall]. intros bs Hrsa. by eapply sign_rrset_covers.
  - destruct (IH s Hrest) as (rrsigs & -> & _). exists rrsigs. split; [done|]. intros Hok.
    by destruct (sign_rrset_signs _ _ _ _ _ _ Hsigner Hok Hs).
Qed.

(** A set before and after the zone was signed. *)
Definition set_signed (class : DNSClass) (keys : list Signer) (s s' : RecordSet) : Prop :=
  if decide (rs_record_type s = RecordType.DNSKEY) then s' = s
  else ∃ rrsigs, s' = rs_with_rrsigs s rrsigs ∧
         (Forall record_ok (rs_records s) → Forall2 (signs class s') keys rrsigs).

Definition entry_signed (class : DNSClass) (keys : list Signer) (x x' : RrKey * RecordSet) : Prop :=
  x'.1 = x.1 ∧ set_signed class keys x.2 x'.2.

Lemma sign_sets_spec class now ttl keys m m' :
  Forall can_sign keys → sign_sets class now ttl keys m = (Ok (), m') →
  Forall2 (entry_signed class keys) m m'.
Proof.
  intros Hkeys. revert m'. induction m as [|[k s] m IH]; intros m'; cbn [sign_sets].
  { intros [= <-]. constructor. }
  destruct (if decide _ then _ else _) as [[[]| | |] s'] eqn:Hone; try done.
  destruct (sign_sets class now ttl keys m) as [r rest] eqn:Hrest. intros [= -> <-].
  constructor; [|by apply IH]. split; [done|]. unfold set_signed. simpl in *.
  case_decide; [by injection Hone as <-|].
  apply sign_with_keys_spec in Hone as (rrsigs & -> & Hall); [|done..]. by exists rrsigs.
Qed.

Lemma sign_zone_spec a a' :
  Forall can_sign (a_secure_keys a) → Authority_sign_zone a = (Ok (), a') →
  a' = with_records a (a_records a') ∧
  Forall2 (entry_signed (a_class a) (a_secure_keys a)) (a_records a) (a_records a').
Proof.
  intros Hkeys. unfold Authority_sign_zone.
  destruct (sign_sets _ _ _ _ _) as [r m] eqn:Hs. intros [= -> <-].
  split; [done|]. by eapply sign_sets_spec.
Qed.

(** C21: Every signature of a zone that was signed verifies: each record set but those of the
    zone's keys carries one signature for each key, in the order of the keys, when its records
    can be written; and a reply that holds the set's records in any order verifies with
    the signature of an RSA key under the DNSKEY record that publishes the key.  Nothing else in
    the zone has changed. *)
Theorem Authority_sign_zone_verifies a a' :
  Forall can_sign (a_secure_keys a) → Authority_sign_zone a = (Ok (), a') →
  a' = with_records a (a_records a') ∧
  Forall2 (entry_signed (a_class a) (a_secure_keys a)) (a_records a) (a_records a').
Proof. apply sign_zone_spec. Qed.

(** ** Reading a signed zone *)

Lemma signed_get class keys m m' k :
  Forall2 (entry_signed class keys) m m' →
  match BTreeMap_get k m with
  | Some s => ∃ s', BTreeMap_get k m' = Some s' ∧ set_signed class keys s s'
  | None => BTreeMap_get k m' = None
  end.
Proof.
  induction 1 as [|[j s] [j' s'] m m' [Hj Hs] Hm IH]; [done|]. simpl in *. subst j'.
  by destruct (cmp k j); [exists s'|..].
Qed.

Lemma set_signed_fields class keys s s' :
  set_signed class keys s s' →
  rs_name s' = rs_name s ∧ rs_record_type s' = rs_record_type s ∧ rs_records s' = rs_records s.
Proof. unfold set_signed. case_decide; [by intros ->|by intros (? & -> & _)]. Qed.

(** The answer to a client that understands the one algorithm the zone is signed with. *)
Lemma get_records_signed class signer s s' bs algs :
  set_signed class [signer] s s' → rs_record_type s ≠ RecordType.DNSKEY →
  rsa_signer signer bs → Forall record_ok (rs_records s) →
  SupportedAlgorithms_has algs (s_algorithm signer) = true →
  ∃ rrsig, RecordSet_get_records s' true algs = rs_records s ++ [rrsig] ∧ sig_covers class signer bs s rrsig.
Proof.
  intros Hs Ht Hrsa Hok Halg. unfold set_signed in Hs. rewrite decide_False in Hs by done.
  destruct Hs as (rrsigs & -> & Hall). specialize (Hall Hok).
  apply Forall2_cons_inv_l in Hall as (rrsig & rrsigs' & Hsig & Hnil & ->).
  apply Forall2_nil_inv_l in Hnil as ->. exists rrsig. pose proof (Hsig bs Hrsa) as Hc.
  split; [|exact Hc]. destruct Hc as (sig & Hr & _ & _ & _ & Ha & _).
  unfold RecordSet_get_records. simpl. rewrite filter_cons_True; [done|].
  unfold rrsig_supported. rewrite Hr, Ha. done.
Qed.

(** ** Securing a zone *)

Lemma upsert_inv {E} a r serial b a' :
  zone_ok a → (r_rr_type r = RecordType.SOA → is_soa r) →
  Authority_upsert (E:=E) a r serial = Ok (b, a') →
  zone_ok a' ∧ ∃ s, a' = with_records a (BTreeMap_set (RrKey_new (r_name_labels r) (r_rr_type r)) s (a_records a)).
Proof.
  intros Hz Hsoa Hup. destruct (decide (a_class a = r_dns_class r)) as [Hc|Hc].
  - destruct (upsert_ok (E:=E) a r serial Hz) as (b' & s & Hup' & Hm & _); [by split|].
    rewrite Hup' in Hup. injection Hup as <- <-. by split; [|exists s].
  - unfold Authority_upsert in Hup. by rewrite decide_False in Hup.
Qed.

(** Where two zones agree: on the sets that are of none of the types [ts]. *)
Definition same_but (ts : list RecordType) (a a' : Authority) : Prop :=
  a' = with_records a (a_records a') ∧
  ∀ k, rk_record_type k ∉ ts → BTreeMap_get k (a_records a') = BTreeMap_get k (a_records a).

Lemma increment_keeps {E} a v a' :
  zone_ok a → Authority_increment_soa_serial (E:=E) a = Ok (v, a') →
  zone_ok a' ∧ same_but [RecordType.SOA] a a'.
Proof.
  intros Hz. unfold Authority_increment_soa_serial.
  destruct (Authority_get_soa a) as [x|] eqn:Hsoa; cycle 1.
  { intros [= <- <-]. split; [done|]. split; [by rewrite with_records_same|done]. }
  destruct (r_rdata x) eqn:Hx; try done.
  destruct (SOA_increment_serial _) as [soa'| | |]; try done. cbn [rbind].
  destruct (Authority_upsert _ _ _) as [[b a1]| | |] eqn:Hup; try done. cbn [rbind snd].
  intros [= <- <-].
  assert (Hxt : r_rr_type x = RecordType.SOA).
  { unfold Authority_get_soa, Authority_lookup in Hsoa. rewrite decide_True in Hsoa by done.
    destruct (BTreeMap_get _ _) as [s|] eqn:Hg; [|done].
    destruct (get_entry _ _ _ Hz Hg) as (Hs & _ & Ht). simpl in *.
    pose proof (rso_types _ Hs) as Hty. destruct (rs_records s); [done|]. injection Hsoa as ->.
    apply Forall_cons in Hty as [-> _]. done. }
  apply upsert_inv in Hup as (Hz' & s & ->); [|done|intros _; by eexists].
  split; [done|]. split; [done|]. intros k Hk. simpl. rewrite get_set by apply Hz.
  destruct (cmp k _) eqn:Hcmp; [|done..]. apply RrKey_eq in Hcmp as [_ Hcmp]. simpl in Hcmp.
  rewrite Hxt in Hcmp. set_solver.
Qed.

Lemma add_secure_key_inv signer bs a a' :
  zone_ok a → rsa_signer signer bs →
  BTreeMap_get (RrKey_new (a_origin a) RecordType.DNSKEY) (a_records a) = None →
  Authority_add_secure_key signer a = (Ok (), a') →
  zone_ok a' ∧ ∃ r serial,
    r = Record_from_rdata (a_origin a) (Authority_get_minimum_ttl a) RecordType.DNSKEY
          (RData.DNSKEY (published signer bs)) ∧
    a' = with_secure_keys (with_records a (BTreeMap_set (RrKey_new (a_origin a) RecordType.DNSKEY)
           (mkRecordSet (a_origin a) RecordType.DNSKEY DNSClass.IN (r_ttl r) [r] [] serial) (a_records a)))
           (a_secure_keys a ++ [signer]).
Proof.
  intros Hz Hrsa Hnone. unfold Authority_add_secure_key. rewrite (rsa_signer_dnskey signer bs Hrsa).
  set (r := Record_from_rdata _ _ _ _). unfold step.
  destruct (Authority_get_serial a) as [serial| | |]; try done. cbn [rbind].
  destruct (Authority_upsert a r serial) as [[b a1]| | |] eqn:Hup; try done. cbn [rbind snd].
  intros [= <-]. apply upsert_inv in Hup as Hz1; [destruct Hz1 as [Hz1 _]|done|done]. split; [exact Hz1|].
  exists r, serial. split; [done|]. revert Hup. unfold Authority_upsert. case_decide; [|done].
  change (RrKey_new (r_name_labels r) (r_rr_type r)) with (RrKey_new (a_origin a) RecordType.DNSKEY).
  rewrite Hnone. cbn [default from_option id]. unfold RecordSet_insert. simpl. rewrite Name_eq_refl.
  simpl. by intros [= <- <-].
Qed.

(** The types of the sets that securing a zone writes itself. *)
Definition managed_types : list RecordType := [RecordType.SOA; RecordType.NSEC; RecordType.DNSKEY].

(** A record that publishes a zone's key. *)
Definition key_rr (a : Authority) (ttl : Z) (signer : Signer) (bs : bytes) : RRecord :=
  Record_from_rdata (a_origin a) ttl RecordType.DNSKEY (RData.DNSKEY (published signer bs)).

(** The zone publishes the key of [signer], and no other. *)
Definition publishes (signer : Signer) (bs : bytes) (a : Authority) : Prop :=
  ∃ s ttl, BTreeMap_get (RrKey_new (a_origin a) RecordType.DNSKEY) (a_records a) = Some s ∧
    rs_record_type s = RecordType.DNSKEY ∧ rs_records s = [key_rr a ttl signer bs] ∧ rs_rrsigs s = [].

(** The zone [a] is [a0] with the key of [signer] published and its other sets signed. *)
Record zone_secured (signer : Signer) (bs : bytes) (a0 a : Authority) : Prop := {
  zs_origin : a_origin a = a_origin a0;
  zs_key : publishes signer bs a;
  zs_sets k : rk_record_type k ∉ managed_types →
    match BTreeMap_get k (a_records a0) with
    | Some s => ∃ s', BTreeMap_get k (a_records a) = Some s' ∧ set_signed (a_class a0) [signer] s s'
    | None => BTreeMap_get k (a_records a) = None
    end;
}.

(** Securing a zone that publishes its key. *)
Lemma secure_again signer bs a1 a :
  zone_ok a1 → a_class a1 = DNSClass.IN → a_secure_keys a1 = [signer] → publishes signer bs a1 → can_sign signer →
  Authority_secure_zone a1 = (Ok (), a) → zone_secured signer bs a1 a.
Proof.
  intros Hz1 Hc Hk1 (sk & ttl & Hgk & Hskt & Hsk & Hskr) Hsign. unfold Authority_secure_zone, bind, step.
  destruct (nsec_zone_ok (E:=dnssec_error) a1 Hz1) as (m2 & gs & -> & Hm2 & _ & _ & _ & Hsame2 & _);
    [by rewrite Hk1|done|].
  destruct (Authority_increment_soa_serial (with_records a1 m2)) as [[v a3]| | |] eqn:H3; try done.
  cbn [rbind snd]. apply increment_keeps in H3 as (Hz3 & Ha3 & Hsame3); [|done].
  assert (Hk3 : a_secure_keys a3 = [signer] ∧ a_class a3 = a_class a1 ∧ a_origin a3 = a_origin a1)
    by (by rewrite Ha3).
  destruct Hk3 as (Hk3 & Hc3 & Ho3). intros [Ha Hall]%sign_zone_spec; [|rewrite Hk3; by constructor].
  rewrite Hk3, Hc3 in Hall.
  assert (Hget : ∀ k, rk_record_type k ∉ [RecordType.SOA; RecordType.NSEC] →
    BTreeMap_get k (a_records a3) = BTreeMap_get k (a_records a1)).
  { intros k Hkt. rewrite Hsame3 by set_solver. apply Hsame2. set_solver. }
  assert (Ho : a_origin a = a_origin a1) by (by rewrite Ha).
  split; [done| |].
  - pose proof (signed_get _ _ _ _ (RrKey_new (a_origin a1) RecordType.DNSKEY) Hall) as Hd.
    rewrite Hget, Hgk in Hd by (simpl; set_solver). destruct Hd as (s & Hs & Hss).
    unfold set_signed in Hss. rewrite decide_True in Hss by done. subst s.
    exists sk, ttl. rewrite Ho. split_and!; [done..| |done]. rewrite Hsk. unfold key_rr. by rewrite Ho.
  - intros k Hkt. pose proof (signed_get _ _ _ _ k Hall) as Hd. unfold managed_types in Hkt.
    rewrite Hget in Hd by set_solver. by destruct (BTreeMap_get k (a_records a1)).
Qed.

Lemma secure_zone_inv signer bs a0 a :
  zone_ok a0 → a_class a0 = DNSClass.IN → a_secure_keys a0 = [] →
  BTreeMap_get (RrKey_new (a_origin a0) RecordType.DNSKEY) (a_records a0) = None →
  rsa_signer signer bs → can_sign signer →
  (Authority_add_secure_key signer ;;; Authority_secure_zone) a0 = (Ok (), a) →
  zone_secured signer bs a0 a.
Proof.
  intros Hz Hc Hk Hnone Hrsa Hsign. unfold bind.
  destruct (Authority_add_secure_key signer a0) as [[[]| | |] a1] eqn:H1; try done.
  apply (add_secure_key_inv signer bs) in H1 as (Hz1 & r & serial & Hr & Ha1); [|done..].
  rewrite Hk in Ha1. intros Hs.
  destruct (secure_again signer bs a1 a) as [Ho Hkey Hsets]; [done|by rewrite Ha1|by rewrite Ha1| |done|done|].
  { rewrite Ha1. eexists _, _. simpl. rewrite get_set, cmp_refl by apply Hz. split_and!; [done|done| |done].
    simpl. by rewrite Hr. }
  split; [by rewrite Ho, Ha1|done|]. intros k Hkt. specialize (Hsets k Hkt). rewrite Ha1 in Hsets. simpl in Hsets.
  rewrite get_set in Hsets by apply Hz. unfold managed_types in Hkt.
  destruct (cmp k _) eqn:Hcmp; [|done..]. apply RrKey_eq in Hcmp as [_ Hcmp]. simpl in Hcmp. set_solver.
Qed.

(** ** The server's reply *)

(** What a validating client is answered, when the zone has what it asks for. *)
Lemma handle_secure_query {E} c request edns name class t n a :
  m_edns request = Some edns → e_version edns = 0 → dnssec_request request = (true, server_algorithms) →
  h_message_type (m_header request) = MessageType.Query → h_op_code (m_header request) = OpCode.Query →
  m_queries request = [mkQuery name t class] →
  Catalog_find_auth_recurse c name = Some (n, RwLock_new a) → t ≠ RecordType.AXFR →
  Authority_lookup a name t true server_algorithms ≠ [] →
  ∃ m, Catalog_handle_request (E:=E) request c = (Ok m, c) ∧
    m_answers m = Authority_lookup a name t true server_algorithms ∧
    m_name_servers m = Authority_get_ns a true server_algorithms ∧ m_additionals m = [].
Proof.
  intros He Hv Hd Hmt Hoc Hq Hf Ht Hne. unfold Catalog_handle_request, bind, dispatch_request.
  rewrite He, Hv, Hmt, Hoc. change (0 <? 0) with false. cbv iota beta.
  unfold Catalog_lookup. rewrite Hq. cbn [lookup_queries].
  change (q_name (mkQuery name t class)) with name. rewrite Hf. cbn [RwLock_read l_poisoned RwLock_new l_value rbind].
  eexists. split; [reflexivity|]. cbn [finish_response].
  unfold answer_query. rewrite Hd. unfold Authority_search. cbn [q_query_type q_name].
  rewrite (bool_decide_eq_false_2 (t = RecordType.AXFR)), (decide_False (P:=t = RecordType.AXFR)) by done. cbn [andb].
  rewrite bool_decide_eq_false_2 by done. cbn [negb].
  case_bool_decide as Hns; rewrite ?add_name_servers_eq, add_answers_eq; simpl; [by rewrite Hns|done].
Qed.
End signed.
