(* ===== verification/SignedReply.v ===== *)
(** * SignedReply: a client validates the replies of a signed zone

    The validation of [SecureClientHandle] on what [Catalog::handle_request] answers from a
    zone that [Authority::secure_zone] signed: the zone's key is asked for and found under
    the trust anchor, each set's signature verifies, and the records come through.  Requests
    and replies go between the two as bytes. *)

From S2P Require Import Prelude Codec Wire Domain Enums Header RData RDataProps Resource Message RecordSet.
From S2P Require Import KeyPair Signer Update BTree Journal Authority AuthorityProps Catalog CatalogProps Responses.
From S2P Require Import ClientHandle Validate ValidateProps SignedZone.

Open Scope Z_scope.

(** ** The sections of a reply *)

Section parts.
Context `{L : Lowercase}.

(** Records of one name and type, followed by signatures over that type. *)
Record part : Type := mkPart { pt_name : Name; pt_type : RecordType; pt_records : list RRecord; pt_sigs : list RRecord }.

Definition part_list (x : part) : list RRecord := pt_records x ++ pt_sigs x.

Definition pair_of (x : part) : Name * RecordType := (pt_name x, pt_type x).

Record part_ok (x : part) : Prop := {
  po_type : pt_type x ≠ RecordType.RRSIG;
  po_records : Forall (λ r, record_pair r = pair_of x) (pt_records x);
  po_sigs : Forall (covers_type (pt_type x)) (pt_sigs x);
}.

Lemma filter_nothing {A} (P : A → Prop) `{!∀ x, Decision (P x)} l : Forall (λ x, ¬ P x) l → filter P l = [].
Proof. induction 1; [done|]. by rewrite filter_cons_False. Qed.

(** A test that looks at the name and type of a record and refuses signatures keeps the
    records of a part or drops the part. *)
Lemma filter_part (P : RRecord → Prop) `{!∀ r, Decision (P r)} (Q : Name * RecordType → bool) x :
  part_ok x → (∀ r, P r ↔ Q (record_pair r) = true) →
  (∀ n, Q (n, RecordType.RRSIG) = false) →
  filter P (part_list x) = if Q (pair_of x) then pt_records x else [].
Proof.
  intros [Ht Hr Hs] HP HQ. unfold part_list. rewrite filter_app, (filter_nothing _ (pt_sigs x)), app_nil_r.
  - destruct (Q (pair_of x)) eqn:HQx.
    + apply filter_all, Forall_forall. eapply Forall_impl; [exact Hr|]. intros r Hp. apply HP. by rewrite Hp.
    + apply filter_nothing. eapply Forall_impl; [exact Hr|]. intros r Hp ?%HP. rewrite Hp in *. congruence.
  - eapply Forall_impl; [exact Hs|]. intros r [Hty _] Hr'%HP. unfold record_pair in Hr'.
    rewrite Hty, HQ in Hr'. done.
Qed.

Lemma filter_part_sigs x t :
  part_ok x → filter (covers_type t) (part_list x) = if decide (pt_type x = t) then pt_sigs x else [].
Proof.
  intros [Ht Hr Hs]. unfold part_list. rewrite filter_app, (filter_nothing _ (pt_records x)).
  - case_decide; [subst; by apply filter_all, Forall_forall|]. apply filter_nothing.
    eapply Forall_impl; [exact Hs|]. intros r [_ H1] [_ H2]. by destruct (r_rdata r); subst.
  - eapply Forall_impl; [exact Hr|]. intros r [= Hn Hty] [Hsig _]. congruence.
Qed.

(** A reply that consists of two parts. *)
Definition two_parts (m : Message) (x y : part) : Prop :=
  m_answers m = part_list x ∧ m_name_servers m = part_list y ∧ m_additionals m = [] ∧
  part_ok x ∧ part_ok y ∧ pt_type x ≠ pt_type y.

Lemma all_two_parts m x y : two_parts m x y → all_sections m = part_list x ++ part_list y.
Proof. intros (Ha & Hn & Had & _). unfold all_sections, sections. by rewrite Ha, Hn, Had, app_nil_r. Qed.

Lemma set_contains_head v x : set_contains (x :: v) x = true.
Proof.
  unfold set_contains, same_set. simpl. by rewrite Name_eq_refl, bool_decide_eq_true_2.
Qed.

Lemma set_insert_same v n t : set_insert (v ++ [(n, t)]) (n, t) = v ++ [(n, t)].
Proof.
  unfold set_insert, set_contains. rewrite existsb_app. simpl. unfold same_set. simpl.
  by rewrite Name_eq_refl, bool_decide_eq_true_2, orb_true_r.
Qed.

Lemma set_insert_fresh v n t : Forall (λ x, x.2 ≠ t) v → set_insert v (n, t) = v ++ [(n, t)].
Proof.
  intros Hv. unfold set_insert, set_contains. destruct (existsb _ v) eqn:He; [|done].
  apply existsb_exists in He as (x & Hx%list_elem_of_In & Hs). rewrite Forall_forall in Hv.
  unfold same_set in Hs. apply andb_true_iff in Hs as [_ Hs%bool_decide_eq_true]. simpl in Hs.
  by destruct (Hv x Hx).
Qed.

Lemma insert_pairs v n t rs :
  Forall (λ x, x.2 ≠ t) v → Forall (λ r, record_pair r = (n, t)) rs →
  foldl set_insert v (record_pair <$> rs) = v ++ (if decide (rs = []) then [] else [(n, t)]).
Proof.
  intros Hv Hrs. destruct Hrs as [|r rs Hr Hrs]; simpl; [by rewrite app_nil_r|].
  rewrite Hr, set_insert_fresh by done. induction Hrs as [|r' rs Hr' Hrs IH]; [done|]. simpl.
  by rewrite Hr', set_insert_same.
Qed.

(** The parts that are verified: below the first request only keys and digests. *)
Definition wanted (client : SecureClientHandle) (t : RecordType) : Prop :=
  (sc_request_depth client ≤ 1)%nat ∨ t = RecordType.DNSKEY ∨ t = RecordType.DS.
Definition shown (client : SecureClientHandle) (z : part) : Prop :=
  wanted client (pt_type z) ∧ pt_records z ≠ [].
#[global] Instance wanted_dec client t : Decision (wanted client t).
Proof. unfold wanted. apply _. Defined.
#[global] Instance shown_dec client z : Decision (shown client z).
Proof. unfold shown. apply _. Defined.

Definition shown_pair (client : SecureClientHandle) (z : part) : list (Name * RecordType) :=
  if decide (shown client z) then [pair_of z] else [].

Lemma insert_part client z v :
  part_ok z → Forall (λ p, p.2 ≠ pt_type z) v →
  foldl set_insert v (record_pair <$> filter (of_interest client) (part_list z)) =
  v ++ shown_pair client z.
Proof.
  intros Hz Hv. set (Q := λ p : Name * RecordType,
    negb (bool_decide (p.2 = RecordType.RRSIG)) && bool_decide (wanted client p.2)).
  rewrite (filter_part _ Q z) by (done || (intros r; unfold of_interest, Q; simpl;
    by rewrite andb_true_iff, negb_true_iff, bool_decide_eq_false, bool_decide_eq_true)).
  unfold Q, pair_of, shown_pair, shown. cbn [snd].
  rewrite (bool_decide_eq_false_2 (pt_type z = RecordType.RRSIG)) by apply Hz. cbn [negb andb].
  case_bool_decide as Hi.
  - rewrite (insert_pairs _ (pt_name z) (pt_type z)) by (done || apply Hz). f_equal.
    case_decide; case_decide; naive_solver.
  - rewrite decide_False by naive_solver. simpl. by rewrite app_nil_r.
Qed.

Lemma rrset_types_two client m x y :
  two_parts m x y → rrset_types client m = shown_pair client x ++ shown_pair client y.
Proof.
  intros (Ha & Hn & _ & Hx & Hy & Hxy). unfold rrset_types, sections.
  rewrite Ha, Hn, filter_app, fmap_app, list.foldl_app, (insert_part client x []) by (done || constructor).
  rewrite (insert_part client y); [done..|]. unfold shown_pair. simpl. case_decide; by repeat constructor.
Qed.

Definition part_rrset (c : DNSClass) (z : part) : Rrset := mkRrset (pt_name z) (pt_type z) c (pt_records z).

Lemma same_set_part z q : same_set q (pair_of z) = Name_eq q.1 (pt_name z) && bool_decide (q.2 = pt_type z).
Proof. done. Qed.

Lemma rrset_of_two m c x y z :
  two_parts m x y → z = x ∨ z = y →
  rrset_of m c (pair_of z) = part_rrset c z ∧ rrsigs_of m (pair_of z) = pt_sigs z.
Proof.
  intros Htwo Hz. pose proof Htwo as (_ & _ & _ & Hx & Hy & Hxy).
  assert (Hpz : part_ok z) by (by destruct Hz as [->| ->]).
  set (Q := λ p : Name * RecordType, bool_decide (p.2 = pt_type z) && Name_eq p.1 (pt_name z)).
  assert (HQ : ∀ n, Q (n, RecordType.RRSIG) = false).
  { intros n. unfold Q. simpl. rewrite bool_decide_eq_false_2; [done|].
    intros Hr. by apply (po_type z Hpz). }
  assert (HQx : ∀ w, pt_type w ≠ pt_type z → Q (pair_of w) = false).
  { intros w Hw. unfold Q. simpl. by rewrite bool_decide_eq_false_2. }
  assert (HQz : Q (pair_of z) = true).
  { unfold Q. simpl. by rewrite bool_decide_eq_true_2, Name_eq_refl. }
  unfold rrset_of, rrsigs_of, part_rrset. rewrite (all_two_parts m x y Htwo), !filter_app.
  rewrite !(filter_part _ Q) by (done || (intros r; unfold Q; simpl;
    by rewrite andb_true_iff, bool_decide_eq_true)).
  rewrite !filter_part_sigs by done. cbn [pair_of fst snd].
  destruct Hz as [->| ->].
  - rewrite HQz, (HQx y), decide_True, decide_False, !app_nil_r by done. done.
  - rewrite HQz, (HQx x), decide_False, decide_True by done. done.
Qed.

(** ** The sets that were verified *)

Lemma same_set_l x y z : same_set x y = true → same_set x z = same_set y z.
Proof.
  unfold same_set. intros [Hn Ht%bool_decide_eq_true]%andb_true_iff. by rewrite (Name_eq_l _ _ _ Hn), Ht.
Qed.

Lemma same_set_r x y z : same_set x y = true → same_set z x = same_set z y.
Proof.
  unfold same_set. intros [Hn Ht%bool_decide_eq_true]%andb_true_iff. by rewrite (Name_eq_r _ _ _ Hn), Ht.
Qed.

Lemma set_contains_insert v x y : set_contains (set_insert v x) y = set_contains v y || same_set y x.
Proof.
  unfold set_insert. destruct (set_contains v x) eqn:Hx.
  - destruct (same_set y x) eqn:Hyx; [|by rewrite orb_false_r]. rewrite orb_true_r. revert Hx.
    unfold set_contains. rewrite !existsb_exists. intros (z & Hz & Hxz). exists z. split; [done|].
    by rewrite (same_set_l _ _ _ Hyx).
  - unfold set_contains. rewrite existsb_app. simpl. by rewrite orb_false_r.
Qed.

Lemma verify_loop_all v results :
  Forall (λ r, ∃ s, r = Ok s) results →
  ∃ verified, verify_loop v results = Ok verified ∧
    ∀ y, set_contains verified y = true ↔
         set_contains v y = true ∨ ∃ s, Ok s ∈ results ∧ same_set y (rr_name s, rr_record_type s) = true.
Proof.
  intros Hall. revert v. induction Hall as [|r results [s ->] Hall IH]; intros v; simpl.
  - exists v. split; [done|]. intros y. split; [auto|]. intros [?|(s & Hs & _)]; [done|]. by apply elem_of_nil in Hs.
  - destruct (IH (set_insert v (rr_name s, rr_record_type s))) as (verified & -> & Hv).
    exists verified. split; [done|]. intros y. rewrite Hv, set_contains_insert, orb_true_iff.
    setoid_rewrite elem_of_cons. naive_solver.
Qed.

Lemma verify_loop_perm results sets :
  results ≡ₚ Ok <$> sets →
  ∃ verified, verify_loop [] results = Ok verified ∧
    ∀ y, set_contains verified y = true ↔
         ∃ q, q ∈ (λ s, (rr_name s, rr_record_type s)) <$> sets ∧ same_set y q = true.
Proof.
  intros Hp. destruct (verify_loop_all [] results) as (verified & Hl & Hv).
  { rewrite Hp. apply Forall_fmap, Forall_forall. intros s _. by exists s. }
  exists verified. split; [done|]. intros y. rewrite Hv. simpl. setoid_rewrite Hp.
  setoid_rewrite list_elem_of_fmap. naive_solver.
Qed.

Lemma completions_perm {A} (l : list A) js : js ≡ₚ seq 0 (length l) → omap (λ j, l !! j) js ≡ₚ l.
Proof.
  intros ->. induction l as [|x l IH] using rev_ind; [done|].
  rewrite length_app. simpl. rewrite seq_app, omap_app. simpl.
  rewrite list_lookup_middle by done. rewrite <-IH at 2. apply Permutation_app; [|done].
  apply reflexive_eq. apply list_omap_ext. apply Forall2_same_length_lookup_2; [done|].
  intros i a b Ha Hb. rewrite Ha in Hb. injection Hb as <-.
  apply lookup_seq in Ha as [-> Hlt]. by rewrite lookup_app_l.
Qed.
End parts.

(** ** Validating a reply *)

Section validate.
Context `{L : Lowercase} `{HO : HashOrder} `{CL : CryptoLaws} `{SQ : Sqlite} `{CK : Clock} `{NW : Network}.

Section steps.
Variable recur : SecureClientHandle → path → Message → res client_error Message.

(** The set of a part verifies, and keeps its name and type. *)
Definition part_verifies (client : SecureClientHandle) (c : DNSClass) (z : part) : Prop :=
  ∀ p, ∃ s, verify_rrset recur client p (part_rrset c z) (pt_sigs z) = Ok s ∧
            rr_name s = pt_name z ∧ rr_record_type s = pt_type z.

Lemma verify_parts client p m c x y zs :
  two_parts m x y → Forall (λ z, z = x ∨ z = y) zs →
  Forall (part_verifies (clone_with_context client) c) zs →
  ∃ sets, imap (λ i q, verify_rrset recur (clone_with_context client) (i :: p) (rrset_of m c q) (rrsigs_of m q))
            (pair_of <$> zs) = Ok <$> sets ∧
    (λ s, (rr_name s, rr_record_type s)) <$> sets = pair_of <$> zs.
Proof.
  intros Htwo. generalize 0%nat as k.
  enough (∀ k, Forall (λ z, z = x ∨ z = y) zs → Forall (part_verifies (clone_with_context client) c) zs →
    ∃ sets, imap (λ i q, verify_rrset recur (clone_with_context client) ((k + i)%nat :: p) (rrset_of m c q) (rrsigs_of m q))
            (pair_of <$> zs) = Ok <$> sets ∧
    (λ s, (rr_name s, rr_record_type s)) <$> sets = pair_of <$> zs) as H by (intros _; apply (H 0%nat)).
  intros k Hz Hv. revert k. induction Hv as [|z zs Hv Hvs IH]; intros k; [by exists []|].
  apply Forall_cons in Hz as [Hz Hzs]. rewrite fmap_cons, imap_cons.
  destruct (rrset_of_two m c x y z Htwo Hz) as [-> ->].
  destruct (Hv ((k + 0)%nat :: p)) as (s & -> & Hn & Ht). destruct (IH Hzs (S k)) as (sets & Hs & Hp).
  exists (s :: sets). rewrite !fmap_cons, Hp, Hn, Ht. split; [|done]. rewrite <-Hs. f_equal.
  apply imap_ext. intros i q _. simpl. by rewrite Nat.add_succ_r.
Qed.

Lemma verify_rrsets_two client p m c x y :
  two_parts m x y → shown client x →
  Forall (λ z, shown client z → part_verifies (clone_with_context client) c z) [x; y] →
  ∃ m', verify_rrsets recur client p m c = Ok m' ∧ m_answers m' = pt_records x ∧
    m_name_servers m' = (if decide (shown client y) then pt_records y else []) ∧ m_additionals m' = [].
Proof.
  intros Htwo Hx Hv. pose proof Htwo as (Ha & Hns & Had & Hpx & Hpy & Hxy).
  set (zs := filter (shown client) [x; y]).
  assert (Htypes : rrset_types client m = pair_of <$> zs).
  { rewrite (rrset_types_two client m x y Htwo). unfold zs, shown_pair.
    rewrite filter_cons, filter_cons, filter_nil. by do 2 case_decide. }
  destruct (verify_parts client p m c x y zs Htwo) as (sets & Hsets & Hpairs).
  { apply Forall_forall. intros z [_ Hz]%list_elem_of_filter. set_solver. }
  { apply Forall_forall. intros z [Hs Hz]%list_elem_of_filter. rewrite Forall_forall in Hv. auto. }
  unfold verify_rrsets. rewrite Htypes, Hsets.
  rewrite bool_decide_eq_false_2 by (unfold zs; by rewrite filter_cons_True).
  destruct (verify_loop_perm _ sets (completions_perm (Ok (E:=client_error) <$> sets) _ (completion_perm p _)))
    as (verified & -> & Hin). rewrite Hpairs in Hin. cbn [rbind].
  rewrite filter_message_spec. cbv zeta. eexists. split; [reflexivity|].
  cbn [m_answers m_name_servers m_additionals].
  assert (Hsig : ∀ n, set_contains verified (n, RecordType.RRSIG) = false).
  { intros n. apply not_true_iff_false. intros (q & Hq & Hs)%Hin.
    apply list_elem_of_fmap in Hq as (z & -> & [_ Hz]%list_elem_of_filter).
    rewrite same_set_part in Hs. apply andb_true_iff in Hs as [_ Hs%bool_decide_eq_true].
    assert (part_ok z) as [Ht _ _] by set_solver. simpl in Hs. congruence. }
  assert (Hmem : ∀ z, z = x ∨ z = y → set_contains verified (pair_of z) = true ↔ shown client z).
  { intros z Hz. rewrite Hin. split.
    - intros (q & Hq & Hs). apply list_elem_of_fmap in Hq as (w & -> & [Hw Hwin]%list_elem_of_filter).
      rewrite same_set_part in Hs. apply andb_true_iff in Hs as [_ Hs%bool_decide_eq_true].
      simpl in Hs. assert (w = x ∨ w = y) by set_solver. naive_solver.
    - intros Hs. exists (pair_of z). split; [|by rewrite same_set_part; simpl; rewrite Name_eq_refl, bool_decide_eq_true_2].
      apply list_elem_of_fmap_2. apply list_elem_of_filter. set_solver. }
  rewrite Ha, Hns, Had, !(filter_part _ (set_contains verified)) by done.
  rewrite (proj2 (Hmem x (or_introl eq_refl)) Hx). split_and!; [done| |done].
  case_decide as Hy.
  - by rewrite (proj2 (Hmem y (or_intror eq_refl)) Hy).
  - destruct (set_contains verified (pair_of y)) eqn:Hc; [|done]. by apply Hmem in Hc; [|right].
Qed.

(** A set with one signature is verified with the key its signer publishes. *)
Lemma signed_part_verifies client c z rrsig signer bs set key :
  pt_type z ≠ RecordType.DNSKEY → pt_sigs z = [rrsig] →
  sig_covers c signer bs set rrsig → part_rrset c z = mkRrset (rs_name set) (rs_record_type set) c (rs_records set) →
  r_rr_type key = RecordType.DNSKEY → r_rdata key = RData.DNSKEY (published signer bs) →
  (∀ p, ∃ m, secure_query recur (clone_with_context (clone_with_context client)) p (s_signer_name signer) c
               RecordType.DNSKEY = Ok m ∧ m_answers m = [key]) →
  part_verifies client c z.
Proof.
  intros Ht Hsigs (sig & Hr & _ & Hty & _ & _ & Hsn & Hver) Hset Hkt Hkey Hask p.
  exists (part_rrset c z). split; [|done]. unfold verify_rrset. rewrite Hsigs.
  rewrite (bool_decide_eq_false_2 (rr_record_type (part_rrset c z) = RecordType.DNSKEY)) by done. cbn [andb].
  assert (Hdef : verify_default_rrset recur (clone_with_context client) p (part_rrset c z) [rrsig] =
                 Ok (part_rrset c z)).
  { unfold verify_default_rrset. rewrite filter_cons_True, filter_nil by done. cbn [any_m].
    unfold expect_sig. rewrite Hr. cbn [rbind].
    rewrite (bool_decide_eq_false_2 (rr_record_type (part_rrset c z) = RecordType.DNSKEY)) by done. cbn [andb rbind].
    cbn [expect_sigs]. unfold expect_sig. rewrite Hr. cbn [rbind]. rewrite bool_decide_eq_false_2 by done.
    cbn [imap length]. pose proof (completion_perm (0%nat :: p) 1) as Hc.
    apply Permutation_sym, Permutation_singleton_l in Hc. rewrite <-Hc. simpl.
    unfold verify_with_signer. rewrite Hsn.
    destruct (Hask (0%nat :: 0%nat :: p)) as (m & Hm & Ha). cbn [part_rrset rr_record_class]. rewrite Hm. cbn [rbind].
    rewrite Ha, filter_cons_True, filter_nil by done. cbn [find_m]. unfold verified_by, dnskey_of.
    rewrite Hkey, Hset. rewrite Hver by done. done. }
  rewrite Hdef. cbn [rbind]. simpl. by destruct (pt_type z).
Qed.

(** A set of keys that holds the anchor is accepted as it is. *)
Lemma key_part_verifies client c n key bs signer :
  r_rr_type key = RecordType.DNSKEY → r_rdata key = RData.DNSKEY (published signer bs) →
  TrustAnchor_contains (sc_trust_anchor client) bs = true →
  part_verifies client c (mkPart n RecordType.DNSKEY [key] []).
Proof.
  intros Hkt Hkey Ha p. exists (mkRrset n RecordType.DNSKEY c [key]). split; [|done]. unfold verify_rrset.
  unfold part_rrset. simpl. unfold verify_dnskey_rrset, dnskeys_where. simpl.
  rewrite filter_cons_True, filter_nil by done. simpl. unfold dnskey_of. rewrite Hkey. simpl.
  rewrite Ha. simpl. done.
Qed.
End steps.

(** ** A zone and its client *)

(** Records that can be written, with data, spelled like their set. *)
Definition servable (s : RecordSet) : Prop :=
  Forall (λ r, record_ok r ∧ r_name_labels r = rs_name s ∧ record_norm r = r) (rs_records s).

#[global] Instance servable_dec s : Decision (servable s).
Proof. unfold servable. apply _. Defined.

Definition set_records (o : option RecordSet) : list RRecord := from_option rs_records [] o.

(** Types of which a zone has sets that it does not write itself. *)
Definition plain_type (t : RecordType) : Prop :=
  t ∉ managed_types ++ [RecordType.ANY; RecordType.AXFR; RecordType.RRSIG].

Lemma lookup_plain a name t secure algs :
  t ≠ RecordType.ANY → t ≠ RecordType.AXFR → t ≠ RecordType.SOA →
  Authority_lookup a name t secure algs =
  match BTreeMap_get (RrKey_new name t) (a_records a) with
  | Some s => RecordSet_get_records s secure algs
  | None => []
  end.
Proof. intros H1 H2 H3. unfold Authority_lookup. rewrite decide_False by done. by destruct t. Qed.

(** The message [m] is written and sent to the catalog [c], and [m'] is what is read from the
    bytes that come back. *)
Definition exchanged (c : Catalog) (m m' : Message) : Prop :=
  ∃ datagram request response reply,
    Message_to_vec m = Ok datagram ∧ Message_from_vec datagram = Ok request ∧
    (Catalog_handle_request (E:=client_error) request c).1 = Ok response ∧
    Message_to_vec response = Ok reply ∧ Message_from_vec reply = Ok m'.

(** The same, computed. *)
Definition wire_exchange (c : Catalog) (m : Message) : res client_error Message :=
  let lost {E A} (r : res E A) : res client_error A := map_err (λ _, ClientMessage "lost") r in
  try* datagram := lost (Message_to_vec m) in
  try* request := lost (Message_from_vec datagram) in
  try* response := (Catalog_handle_request request c).1 in
  try* reply := lost (Message_to_vec response) in
  lost (Message_from_vec reply).

Lemma wire_exchange_Ok c m m' : exchanged c m m' → wire_exchange c m = Ok m'.
Proof.
  intros (datagram & request & response & reply & H1 & H2 & H3 & H4 & H5). unfold wire_exchange. rewrite H1. cbn [map_err rbind]. rewrite H2. cbn [map_err rbind]. rewrite H3.
  cbn [map_err rbind]. rewrite H4. cbn [map_err rbind]. by rewrite H5.
Qed.

(** The network sends a question to the catalog [c], under an id it chooses, and returns the reply. *)
Definition delivers (c : Catalog) (p : path) : Prop :=
  ∀ id name t, ∃ id', u16 id' ∧
    ∀ m', exchanged c (secure_message (query_message id' name DNSClass.IN t)) m' →
      upstream p (secure_message (query_message id name DNSClass.IN t)) = Ok m'.

(** A server whose zone [a] is [a0] signed with its one key. *)
Record server_ok (c : Catalog) (a0 a : Authority) (signer : Signer) (bs : bytes) : Prop := {
  st_zone : zone_ok a0;
  st_class : a_class a0 = DNSClass.IN;
  st_key : rsa_signer signer bs;
  st_algorithm : s_algorithm signer = Algorithm.RSASHA256;
  st_signer : Name_eq (s_signer_name signer) (a_origin a0) = true;
  st_ns s : BTreeMap_get (RrKey_new (a_origin a0) RecordType.NS) (a_records a0) = Some s → servable s;
  st_found : ∃ n, Catalog_find_auth_recurse c (s_signer_name signer) = Some (n, RwLock_new a);
  st_signer_name : name_ok (s_signer_name signer);
  st_writable : map_Forall (λ _ lock, zone_writable (l_value lock)) (c_authorities c);
}.

(** Such a server, and a network that carries the bytes of requests to it and those of replies back. *)
Definition setting (c : Catalog) (a0 a : Authority) (signer : Signer) (bs : bytes) : Prop :=
  server_ok c a0 a signer bs ∧ ∀ p, delivers c p.

(** The zone [a0] of an operator was given its first key and secured. *)
Record newly_signed (a0 a : Authority) (signer : Signer) : Prop := {
  ns_unsigned : a_secure_keys a0 = [];
  ns_no_key : BTreeMap_get (RrKey_new (a_origin a0) RecordType.DNSKEY) (a_records a0) = None;
  ns_signs : can_sign signer;
  ns_secure : (Authority_add_secure_key signer ;;; Authority_secure_zone) a0 = (Ok (), a);
}.

(** ** On the wire *)

Lemma secure_query_ok id name t :
  u16 id → name_ok name → t ≠ RecordType.IXFR →
  let m := secure_message (query_message id name DNSClass.IN t) in
  message_ok m ∧ Z.of_nat (message_size m) ≤ u32_max.
Proof.
  intros Hid Hn Ht m. assert (He : if m_edns m is Some edns then edns_ok edns else True).
  { apply server_options_ok; [|reflexivity].
    split; [unfold u8; simpl; lia|unfold u8; simpl; lia|simpl; lia|apply map_Forall_empty|vm_compute; discriminate]. }
  assert (Hok : message_ok m).
  { split; try done; try constructor; try done; try by constructor.
    all: unfold u16_max; simpl; lia. }
  split; [done|]. apply response_size; try done; simpl; lia.
Qed.

(** A question of the client reaches the server, and the reply is what the zone has. *)
Lemma exchange_query c id name t n a :
  u16 id → name_ok name → t ≠ RecordType.IXFR → t ≠ RecordType.AXFR →
  map_Forall (λ _ lock, zone_writable (l_value lock)) (c_authorities c) →
  Catalog_find_auth_recurse c name = Some (n, RwLock_new a) →
  Authority_lookup a name t true server_algorithms ≠ [] →
  ∃ m, exchanged c (secure_message (query_message id name DNSClass.IN t)) m ∧
    m_answers m = record_norm <$> Authority_lookup a name t true server_algorithms ∧
    m_name_servers m = record_norm <$> Authority_get_ns a true server_algorithms ∧ m_additionals m = [].
Proof.
  intros Hid Hn Hi Hx Hw Hf Hne. destruct (secure_query_ok id name t Hid Hn Hi) as [Hok Hs].
  set (m := secure_message _) in *. destruct (reply_written m Hok Hs) as (datagram & Hto & Hfrom).
  destruct (m_edns m) as [edns|] eqn:He; [|by vm_compute in He].
  destruct (handle_secure_query (E:=client_error) c (message_norm m) edns name DNSClass.IN t n a)
    as (response & Hh & Ha & Hns & Had); [done|by injection He as <-| |done..|].
  { unfold dnssec_request. change (m_edns (message_norm m)) with (m_edns m). rewrite He. injection He as <-.
    vm_compute. reflexivity. }
  destruct (handle_response_ok (E:=client_error) (message_norm m) c response c) as [Hrok Hrs];
    [apply (one_question_answerable _ (mkQuery name t DNSClass.IN)); split; [done..| |];
       [by split|intros e [= <-]; simpl; lia]|done..|].
  destruct (reply_written response Hrok Hrs) as (reply & Hto' & Hfrom').
  exists (message_norm response). split.
  - exists datagram, (message_norm m), response, reply. rewrite Hh. by split_and!.
  - cbn [message_norm m_answers m_name_servers m_additionals]. rewrite Ha, Hns, Had. by split_and!.
Qed.

Lemma servable_norm s : servable s → record_norm <$> rs_records s = rs_records s.
Proof.
  intros Hs. rewrite <-(list_fmap_id (rs_records s)) at 2. apply list_fmap_ext. intros i r Hr.
  unfold servable in Hs. rewrite Forall_lookup in Hs. by apply (Hs i).
Qed.

Section served.
Context (c : Catalog) (a0 a : Authority) (signer : Signer) (bs : bytes).
Hypothesis ST : server_ok c a0 a signer bs.
Hypothesis UP : ∀ p, delivers c p.
Hypothesis SEC : zone_secured signer bs a0 a.

(** What is looked up in the signed zone is a part of a reply. *)
Lemma lookup_part name t s :
  plain_type t → BTreeMap_get (RrKey_new name t) (a_records a0) = Some s → servable s →
  ∃ rrsig, let z := mkPart (rs_name s) t (rs_records s) [rrsig] in
    Authority_lookup a name t true server_algorithms = part_list z ∧ part_ok z ∧
    sig_covers DNSClass.IN signer bs s rrsig ∧ rs_record_type s = t ∧ record_norm <$> part_list z = part_list z.
Proof.
  intros Ht Hg Hs. unfold plain_type, managed_types in Ht. unfold servable in Hs.
  destruct (get_entry _ _ _ (st_zone _ _ _ _ _ ST) Hg) as (Hso & _ & Hst). simpl in Hst.
  pose proof (zs_sets _ _ _ _ SEC (RrKey_new name t)) as Hsets. simpl in Hsets.
  rewrite Hg, (st_class _ _ _ _ _ ST) in Hsets. destruct Hsets as (s' & Hg' & Hsigned); [set_solver|].
  destruct (get_records_signed _ signer s s' bs server_algorithms Hsigned) as (rrsig & Hrec & Hcov).
  { rewrite <-Hst. set_solver. }
  { apply ST. }
  { eapply Forall_impl; [exact Hs|]. by intros r (? & _). }
  { by rewrite (st_algorithm _ _ _ _ _ ST). }
  assert (Hnorm : record_norm <$> rs_records s = rs_records s) by (by apply servable_norm).
  exists rrsig. cbv zeta. split_and!; [| |done|done|].
  - rewrite lookup_plain by set_solver. by rewrite Hg', Hrec.
  - split; simpl; [set_solver| |].
    + pose proof (rso_types _ Hso) as Hty. rewrite Forall_forall in Hty, Hs |- *. intros r Hr.
      unfold record_pair, pair_of. simpl. rewrite (proj1 (proj2 (Hs r Hr))), (Hty r Hr). congruence.
    + apply Forall_singleton. destruct Hcov as (sig & Hr & _ & Hrt & Hcv & _). split; [done|].
      rewrite Hr. congruence.
  - unfold part_list. cbn [pt_records pt_sigs]. rewrite fmap_app, Hnorm. f_equal.
    destruct Hcov as (sig & Hr & _). destruct rrsig. simpl in Hr. by subst.
Qed.

(** The name servers that go with an answer. *)
Definition ns_records : list RRecord :=
  set_records (BTreeMap_get (RrKey_new (a_origin a0) RecordType.NS) (a_records a0)).

Lemma ns_part :
  ∃ y, Authority_get_ns a true server_algorithms = part_list y ∧ part_ok y ∧
    pt_type y = RecordType.NS ∧ pt_records y = ns_records ∧ record_norm <$> part_list y = part_list y ∧
    (pt_records y ≠ [] → ∃ rrsig s, pt_sigs y = [rrsig] ∧ sig_covers DNSClass.IN signer bs s rrsig ∧
       part_rrset DNSClass.IN y = mkRrset (rs_name s) (rs_record_type s) DNSClass.IN (rs_records s)).
Proof.
  unfold Authority_get_ns, ns_records. rewrite (zs_origin _ _ _ _ SEC).
  destruct (BTreeMap_get (RrKey_new (a_origin a0) RecordType.NS) (a_records a0)) as [s|] eqn:Hg.
  - destruct (lookup_part (a_origin a0) RecordType.NS s) as (rrsig & Hl & Hok & Hcov & Hst & Hnorm).
    { unfold plain_type, managed_types. set_solver. } { done. } { by apply ST. }
    eexists. split_and!; [exact Hl|done..|]. intros _. exists rrsig, s. unfold part_rrset. simpl. by rewrite Hst.
  - exists (mkPart (a_origin a0) RecordType.NS [] []). split_and!; [|by repeat constructor|done..].
    rewrite lookup_plain by done.
    pose proof (zs_sets _ _ _ _ SEC (RrKey_new (a_origin a0) RecordType.NS)) as Hs.
    rewrite Hg in Hs. rewrite Hs; [done|]. unfold managed_types. simpl. set_solver.
Qed.

Lemma key_lookup :
  ∃ ttl, Authority_lookup a (s_signer_name signer) RecordType.DNSKEY true server_algorithms = [key_rr a0 ttl signer bs].
Proof.
  rewrite lookup_plain by done. destruct (zs_key _ _ _ _ SEC) as (s & ttl & Hg & _ & Hr & Hsig).
  unfold key_rr in Hr. rewrite (zs_origin _ _ _ _ SEC) in Hg, Hr. exists ttl.
  rewrite (get_eq _ (RrKey_new (a_origin a0) RecordType.DNSKEY)), Hg.
  - unfold RecordSet_get_records. by rewrite Hr, Hsig.
  - apply RrKey_eq. split; [|done]. simpl. apply ST.
Qed.

(** The key of the zone is fetched and found under the anchor. *)
Lemma key_query fuel client p ttl :
  Authority_lookup a (s_signer_name signer) RecordType.DNSKEY true server_algorithms = [key_rr a0 ttl signer bs] →
  (1 ≤ sc_request_depth client ≤ 20)%nat → TrustAnchor_contains (sc_trust_anchor client) bs = true →
  ∃ m, secure_query (secure_send (S fuel)) client p (s_signer_name signer) DNSClass.IN RecordType.DNSKEY = Ok m ∧
       m_answers m = [key_rr a0 ttl signer bs].
Proof.
  intros Hkl Hd Ha. destruct (st_found _ _ _ _ _ ST) as [n Hf].
  destruct (UP p (random_id p) (s_signer_name signer) RecordType.DNSKEY) as (id & Hid & Hup).
  destruct (exchange_query c id (s_signer_name signer) RecordType.DNSKEY n a)
    as (m & Hm%Hup & Hans & Hns & Hadd); [done|apply ST|done|done|apply ST|done|by rewrite Hkl|].
  destruct ns_part as (y & Hy & Hpy & Hty & _ & Hny & _). rewrite Hkl in Hans. rewrite Hy, Hny in Hns.
  set (x := mkPart (a_origin a0) RecordType.DNSKEY [key_rr a0 ttl signer bs] []).
  assert (Htwo : two_parts m x y).
  { split_and!; [by rewrite Hans|done|done| |done|by rewrite Hty]. split; simpl; [done| |constructor].
    by apply Forall_singleton. }
  destruct (verify_rrsets_two (secure_send fuel) (clone_with_context client) p m DNSClass.IN x y Htwo)
    as (m' & Hv & Ha' & _).
  { split; [|done]. right. by left. }
  { apply Forall_cons. split; [|apply Forall_singleton].
    - intros _. by eapply key_part_verifies.
    - intros [[Hs|[Hs|Hs]] _]; simpl in Hs; [lia|congruence|congruence]. }
  exists m'. split; [|done]. unfold secure_query. simpl secure_send. unfold send_step.
  rewrite (proj2 (Nat.ltb_ge _ _)) by lia. change (h_op_code _) with OpCode.Query.
  change (m_queries _) with [mkQuery (s_signer_name signer) RecordType.DNSKEY DNSClass.IN].
  cbv zeta. rewrite Hm. cbn [rbind q_query_class]. rewrite Hv. cbn [rbind].
  rewrite bool_decide_eq_false_2 by (by rewrite Ha'). done.
Qed.

(** A signed part verifies: its key is the one that is found. *)
Lemma zone_part_verifies fuel client z rrsig s :
  (sc_request_depth client ≤ 18)%nat → TrustAnchor_contains (sc_trust_anchor client) bs = true →
  pt_type z ≠ RecordType.DNSKEY → pt_sigs z = [rrsig] → sig_covers DNSClass.IN signer bs s rrsig →
  part_rrset DNSClass.IN z = mkRrset (rs_name s) (rs_record_type s) DNSClass.IN (rs_records s) →
  part_verifies (secure_send (S fuel)) client DNSClass.IN z.
Proof.
  intros Hd Ha Ht Hsig Hcov Hz. destruct key_lookup as [ttl Hkl].
  apply (signed_part_verifies _ client _ z rrsig signer bs s (key_rr a0 ttl signer bs)); try done.
  intros p. apply key_query; [done|simpl; lia|done].
Qed.
(** What a validating client is given. *)
Lemma secured_answer_validates anchor fuel p id name t s n :
  TrustAnchor_contains anchor bs = true → name_ok name →
  Catalog_find_auth_recurse c name = Some (n, RwLock_new a) →
  plain_type t → t ≠ RecordType.NS →
  BTreeMap_get (RrKey_new name t) (a_records a0) = Some s → servable s → rs_records s ≠ [] →
  ∃ m, secure_send (S (S fuel)) (SecureClientHandle_with_trust_anchor anchor) p
         (query_message id name DNSClass.IN t) = Ok m ∧
    m_answers m = rs_records s ∧ m_name_servers m = ns_records ∧ m_additionals m = [].
Proof.
  intros Ha Hname Hf Ht Hns Hg Hs Hne. set (client := SecureClientHandle_with_trust_anchor anchor).
  destruct (lookup_part name t s Ht Hg Hs) as (rrsig & Hl & Hpx & Hcov & Hst & Hnx).
  set (x := mkPart (rs_name s) t (rs_records s) [rrsig]) in *.
  destruct (UP p id name t) as (id' & Hid & Hup).
  destruct (exchange_query c id' name t n a) as (m & Hm%Hup & Hans & Hnsm & Hadd);
    [done|done| | |apply ST|done| |].
  { destruct (get_entry _ _ _ (st_zone _ _ _ _ _ ST) Hg) as (Hso & _ & Hst'). simpl in Hst'. intros ->.
    pose proof (rso_types _ Hso) as Hty. unfold servable in Hs. destruct (rs_records s) as [|r rs]; [done|].
    apply Forall_cons in Hty as [Hty _], Hs as [[[_ Hi _ _ _ _] _] _]. congruence. }
  { intros ->. unfold plain_type in Ht. set_solver. }
  { rewrite Hl. unfold part_list, x. simpl. by destruct (rs_records s). }
  destruct ns_part as (y & Hy & Hpy & Hty & Hry & Hny & Hysig).
  rewrite Hy, Hny in Hnsm. rewrite Hl, Hnx in Hans.
  assert (Htwo : two_parts m x y) by (split_and!; [congruence|done..|simpl; congruence]).
  assert (Htk : t ≠ RecordType.DNSKEY) by (intros ->; unfold plain_type, managed_types in Ht; set_solver).
  destruct (verify_rrsets_two (secure_send (S fuel)) (clone_with_context client) p m DNSClass.IN x y Htwo)
    as (m' & Hv & Ha' & Hn' & Had').
  { split; [left; simpl; lia|done]. }
  { apply Forall_cons. split; [|apply Forall_singleton].
    - intros _. eapply zone_part_verifies; simpl; try done; [lia|].
      unfold part_rrset, x. simpl. by rewrite Hst.
    - intros [_ Hyne]. destruct (Hysig Hyne) as (rrsig' & s' & Hs1 & Hs2 & Hs3).
      eapply zone_part_verifies; simpl; try done; [lia|by rewrite Hty]. }
  exists m'. split; [|split_and!; [done| |done]].
  - change (secure_send (S (S fuel)) ?x) with (send_step (secure_send (S fuel)) x).
    unfold send_step. change (20 <? sc_request_depth client)%nat with false.
    change (h_op_code _) with OpCode.Query. change (m_queries _) with [mkQuery name t DNSClass.IN].
    cbv zeta. rewrite Hm. cbn [rbind q_query_class]. rewrite Hv. cbn [rbind].
    rewrite bool_decide_eq_false_2; [done|]. by rewrite Ha'.
  - rewrite Hn', <-Hry. case_decide as Hsh; [done|]. unfold shown, wanted in Hsh.
    destruct (pt_records y); [done|]. destruct Hsh. split; [left; simpl; lia|done].
Qed.
End served.

(** C6: What the server signs, the client accepts, and nothing is lost on the way: when
    a zone of class IN was given its first key, an RSA key for RSASHA256, and secured,
    and the key is the client's trust anchor, then a validated query for a record set
    that the operator put in the zone, of any type but NS and those the server writes
    itself (SOA, NSEC, DNSKEY, RRSIG), returns exactly the records of the set, with the
    zone's name servers, whatever the order in which the checks complete. Between the
    two are the bytes of the messages; the set is not empty, and its records and the
    name servers can be written and are spelled like their set. The zones of the server
    have at most 32000 records each, and these can be written. Sets of type NS are left
    out: the reply repeats the zone's name servers, and the client, which puts the
    records of all sections together, refuses the zone's own NS set. *)
Theorem signed_answer_validates c a0 a signer bs anchor fuel p id name t s n :
  setting c a0 a signer bs → newly_signed a0 a signer → TrustAnchor_contains anchor bs = true → name_ok name →
  Catalog_find_auth_recurse c name = Some (n, RwLock_new a) →
  plain_type t → t ≠ RecordType.NS →
  BTreeMap_get (RrKey_new name t) (a_records a0) = Some s → servable s → rs_records s ≠ [] →
  ∃ m, secure_send (S (S fuel)) (SecureClientHandle_with_trust_anchor anchor) p
         (query_message id name DNSClass.IN t) = Ok m ∧
    m_answers m = rs_records s ∧ m_name_servers m = ns_records a0 ∧ m_additionals m = [].
Proof.
  intros [ST UP] [Hu Hk Hsig Hsec]. apply (secured_answer_validates c a0 a signer bs ST).
  { exact UP. }
  destruct ST. by apply secure_zone_inv.
Qed.
End validate.
