(* ===== verification/SignedUpdate.v ===== *)
(** * SignedUpdate: what a client creates, another one validates

    The whole life of a record set in a signed zone: a client builds and signs the update that
    creates it ([ClientHandle], [Update]), the server authorises it, adds the records and
    secures the zone again ([Catalog], [Authority]), and a validating client asks for the
    set and is given its records ([Validate]). *)

From S2P Require Import Prelude Codec Wire Domain Enums Header RData RDataProps Resource Message RecordSet.
From S2P Require Import KeyPair Signer Update BTree Journal Authority AuthorityProps Catalog CatalogProps Responses.
From S2P Require Import ClientHandle Validate ValidateProps SignedZone SignedReply.

Open Scope Z_scope.

Section update.
Context `{L : Lowercase} `{HO : HashOrder} `{CL : CryptoLaws} `{SQ : Sqlite} `{CK : Clock}.

(** ** The server *)

(** A zone that is signed with the key of [signer], and that the server signs again after an update. *)
Record keyed_zone (signer : Signer) (bs : bytes) (a : Authority) : Prop := {
  kz_zone : zone_ok a;
  kz_class : a_class a = DNSClass.IN;
  kz_master : a_zone_type a = Master;
  kz_dnssec : a_is_dnssec_enabled a = true;
  kz_keys : a_secure_keys a = [signer];
  kz_publishes : publishes signer bs a;
  kz_rsa : rsa_signer signer bs;
  kz_signs : can_sign signer;
  kz_algorithm : s_algorithm signer = Algorithm.RSASHA256;
  kz_signer : Name_eq (s_signer_name signer) (a_origin a) = true;
  kz_signer_name : name_ok (s_signer_name signer);
  kz_ns s : BTreeMap_get (RrKey_new (a_origin a) RecordType.NS) (a_records a) = Some s → servable s;
}.

(** A request with the sections of the update [m]. *)
Record carries (m request : Message) : Prop := {
  cr_sections : update_sections request = update_sections m;
  cr_type : h_message_type (m_header request) = MessageType.Query;
  cr_op_code : h_op_code (m_header request) = OpCode.Update;
  cr_edns edns : m_edns request = Some edns → e_version edns = 0;
}.

Lemma find_auth_upsert c name n a a' :
  Catalog_find_auth_recurse c name = Some (n, RwLock_new a) →
  Catalog_find_auth_recurse (Catalog_upsert c n a') name = Some (n, RwLock_new a').
Proof.
  unfold Catalog_find_auth_recurse. generalize (S (length (labels name))) as fuel. intros fuel. revert name.
  induction fuel as [|fuel IH]; intros name; simpl; [done|].
  destruct (c_authorities c !! map_key name) as [lock|] eqn:Hc.
  - intros [= -> ->]. by rewrite lookup_insert_eq.
  - destruct (decide (map_key name = map_key n)) as [Hk|Hk].
    + destruct (Name_is_root _); [done|]. cbn [negb]. intros Hf. exfalso.
      assert (Hat : c_authorities c !! map_key n = Some (RwLock_new a)).
      { clear -Hf. revert Hf. generalize (Name_base_name name). induction fuel as [|fuel IH]; intros m; simpl; [done|].
        destruct (c_authorities c !! map_key m) eqn:Hm; [by intros [= <- <-]|]. destruct (Name_is_root _); [done|]. apply IH. }
      by rewrite <-Hk, Hc in Hat.
    + rewrite lookup_insert_ne, Hc by done. destruct (Name_is_root _); [done|]. cbn [negb]. apply IH.
Qed.

Lemma handle_update {E} c request q n a b a' m :
  carries m request → get_zones m = [q] → q_query_type q = RecordType.SOA →
  Catalog_find_auth_recurse c (q_name q) = Some (n, RwLock_new a) → a_zone_type a = Master →
  Authority_update request a = (Ok b, a') →
  ∃ response, Catalog_handle_request (E:=E) request c = (Ok response, Catalog_upsert c n a').
Proof.
  intros [Hs Ht Ho He] Hq Hqt Hf Hm Hu. unfold update_sections in Hs. injection Hs as Hz _ _ _. simpl in Hz, Hq.
  assert (Hd : ∃ response, dispatch_request (E:=E) request c = (Ok response, Catalog_upsert c n a')).
  { unfold dispatch_request. rewrite Ht, Ho. unfold Catalog_update. cbn [get_zones Message_UpdateMessage].
    rewrite Hz, Hq, bool_decide_eq_true_2 by done. cbn [negb]. rewrite Hf. cbn [RwLock_new l_poisoned l_value].
    rewrite Hm. unfold RwLock_with_write. cbn [RwLock_new l_poisoned l_value]. rewrite Hu. by eexists. }
  destruct Hd as [response Hd]. unfold Catalog_handle_request, bind. destruct (m_edns request) as [edns|].
  - rewrite (He edns eq_refl). cbn. rewrite Hd. by eexists.
  - rewrite Hd. by eexists.
Qed.

(** ** The zone after the update *)

Lemma update_inv request a b a' :
  Authority_update request a = (Ok b, a') →
  ∃ serial a1 a2, Authority_verify_prerequisites a (get_pre_requisites request) = Ok () ∧
    log_records serial (get_updates request) a = (Ok (), a1) ∧
    update_loop serial false (get_updates request) a1 = (Ok b, a2) ∧
    (if b then finish_update a2 = (Ok (), a') else a' = a2).
Proof.
  unfold Authority_update, Authority_update_records. intros H.
  repeat match type of H with
  | bind _ _ _ = (Ok _, _) => apply bind_Ok_inv in H as (? & ? & ? & H)
  end.
  unfold gets, lift, ret in *. repeat match goal with u : () |- _ => destruct u end. simplify_eq/=.
  eexists _, _, _. split_and!; [done..|].
  destruct b; simpl in *; by simplify_eq/=.
Qed.

Lemma log_records_keeps serial rs a a1 :
  log_records serial rs a = (Ok (), a1) →
  a_records a1 = a_records a ∧ a_class a1 = a_class a ∧ a_origin a1 = a_origin a ∧
  a_secure_keys a1 = a_secure_keys a ∧ a_is_dnssec_enabled a1 = a_is_dnssec_enabled a.
Proof.
  unfold log_records. destruct (a_journal a) as [j|]; [|by intros [= <-]].
  destruct (Journal_insert_records serial rs j) as [[] j']; try done. by intros [= <-].
Qed.

(** The zone [a'] is [a] with the records of [s] added, and secured again. *)
Lemma created_secured signer bs a s id m request b a' :
  keyed_zone signer bs a → sendable a s → plain_type (rs_record_type s) → ¬ single_type (rs_record_type s) →
  rs_records s ≠ [] → create_message (E:=client_error) id s (a_origin a) = Ok m → carries m request →
  Authority_update request a = (Ok b, a') →
  ∃ a2, zone_secured signer bs a2 a' ∧ zone_ok a2 ∧ a_class a2 = a_class a ∧ a_origin a2 = a_origin a ∧
    stored a2 (RrKey_new (rs_name s) (rs_record_type s)) = rs_records s ∧
    (BTreeMap_get (RrKey_new (rs_name s) (rs_record_type s)) (a_records a) = None → ∀ r, head (rs_records s) = Some r →
     ∃ s', BTreeMap_get (RrKey_new (rs_name s) (rs_record_type s)) (a_records a2) = Some s' ∧ rs_name s' = r_name_labels r) ∧
    (∀ k, rk_record_type k ≠ rs_record_type s → BTreeMap_get k (a_records a2) = BTreeMap_get k (a_records a)).
Proof.
  intros KZ Hs Hp Hns Hne Hm [Hsec _ _ _] Hu. unfold update_sections in Hsec. injection Hsec as _ Hpre Hup _.
  simpl in Hpre, Hup. apply update_inv in Hu as (serial & a1 & a2 & Hv & Hlog & Hl & Hf).
  simpl in Hv, Hlog, Hl. rewrite Hpre in Hv. rewrite Hup in Hl.
  apply (create_prerequisite a s id m Hs Hns Hm) in Hv.
  apply log_records_keeps in Hlog as (Hr1 & Hc1 & Ho1 & Hk1 & Hd1).
  assert (Hs1 : sendable a1 s) by (destruct Hs; split; rewrite ?Hc1; done).
  assert (Hz1 : zone_ok a1) by (unfold zone_ok; rewrite Hr1; apply KZ).
  destruct (create_update a1 s id m serial Hz1 Hs1 Hns) as (a2' & Hl' & Had); [by rewrite Ho1|by unfold stored; rewrite Hr1|].
  rewrite Hl in Hl'. simplify_eq. rewrite bool_decide_eq_true_2 in Hf by done.
  destruct Had as [Hz2 Hsame Hst _ Hnew Hoth].
  assert (Hty : rs_record_type s ∉ managed_types) by (unfold plain_type in Hp; set_solver).
  assert (Hget : ∀ k, rk_record_type k ≠ rs_record_type s → BTreeMap_get k (a_records a2') = BTreeMap_get k (a_records a)).
  { intros k Hk. rewrite Hoth, Hr1; [done|]. intros [_ Hcmp]%RrKey_eq. by simpl in Hcmp. }
  assert (Hof : a_origin a2' = a_origin a ∧ a_class a2' = a_class a ∧ a_secure_keys a2' = a_secure_keys a ∧
    a_is_dnssec_enabled a2' = a_is_dnssec_enabled a) by (rewrite Hsame; simpl; by rewrite Ho1, Hc1, Hk1, Hd1).
  destruct Hof as (Ho2 & Hc2 & Hk2 & Hd2). unfold finish_update in Hf. rewrite Hd2, (kz_dnssec _ _ _ KZ) in Hf.
  destruct (Authority_secure_zone a2') as [[[]| | |] a3] eqn:Hsz; try done. injection Hf as ->.
  exists a2'. split_and!; [|done..| | |done].
  - apply secure_again; [done|by rewrite Hc2; apply KZ|by rewrite Hk2; apply KZ| |apply KZ|done].
    destruct (kz_publishes _ _ _ KZ) as (sk & ttl & Hg & Hskt & Hsk & Hskr). exists sk, ttl.
    rewrite Ho2, Hget; [|simpl; unfold managed_types in Hty; set_solver].
    split_and!; [done..| |done]. rewrite Hsk. unfold key_rr. by rewrite Ho2.
  - rewrite Hst. unfold stored. rewrite Hr1. unfold stored in Hv. by rewrite Hv.
  - rewrite <-Hr1. intros Hnone r. by apply Hnew.
Qed.
End update.

(** ** The two clients *)

Section clients.
Context `{L : Lowercase} `{HO : HashOrder} `{CL : CryptoLaws} `{SQ : Sqlite} `{CK : Clock} `{NW : Network}.

(** A network to the catalog [c], whose zones can be written. *)
Record network_to (c : Catalog) : Prop := {
  nt_writable : map_Forall (λ _ lock, zone_writable (l_value lock)) (c_authorities c);
  nt_upstream p : delivers c p;
}.

(** C7: What one client creates, another one validates: when a record set that a signed
    zone does not have is created by an update that the zone accepts, the server secures
    the zone again, and a client that trusts the zone's key and asks for the set, over
    the wire, is given exactly its records. The zone has one key, an RSA key for
    RSASHA256, which is published in it; the set is of any type but NS, CNAME and those
    the server writes itself (SOA, NSEC, DNSKEY, RRSIG), is not empty and unsigned, and
    its records and the zone's name servers can be written and are spelled like their
    set. The zones of the server have at most 32000 records each, and these can be
    written, after the update. Sets of type NS are left out because a client refuses the
    zone's own one. *)
Theorem created_set_validates c a signer bs s id m request b a' n anchor fuel p qid :
  keyed_zone signer bs a → sendable a s → servable s → rs_records s ≠ [] → name_ok (rs_name s) →
  plain_type (rs_record_type s) → ¬ single_type (rs_record_type s) → rs_record_type s ≠ RecordType.NS →
  BTreeMap_get (RrKey_new (rs_name s) (rs_record_type s)) (a_records a) = None →
  create_message (E:=client_error) id s (a_origin a) = Ok m → carries m request →
  Catalog_find_auth_recurse c (a_origin a) = Some (n, RwLock_new a) →
  Catalog_find_auth_recurse c (rs_name s) = Some (n, RwLock_new a) →
  Catalog_find_auth_recurse c (s_signer_name signer) = Some (n, RwLock_new a) →
  Authority_update request a = (Ok b, a') →
  network_to (Catalog_upsert c n a') → TrustAnchor_contains anchor bs = true →
  ∃ response m',
    Catalog_handle_request (E:=client_error) request c = (Ok response, Catalog_upsert c n a') ∧
    secure_send (S (S fuel)) (SecureClientHandle_with_trust_anchor anchor) p
      (query_message qid (rs_name s) DNSClass.IN (rs_record_type s)) = Ok m' ∧
    m_answers m' = rs_records s.
Proof.
  intros KZ Hs Hsv Hne Hname Hp Hns Hnns Hnone Hm Hcr Hfo Hfs Hfk Hu [Hw Hup] Ha.
  destruct (handle_update (E:=client_error) c request (zone_query (a_origin a) (rs_dns_class s)) n a b a' m)
    as [response Hh]; [done| |done|done|apply KZ|done|].
  { apply create_zones in Hm. exact Hm. }
  exists response.
  destruct (created_secured signer bs a s id m request b a') as (a2 & Hsec & Hz2 & Hc2 & Ho2 & Hst & Hnew & Hoth); [done..|].
  destruct (rs_records s) as [|r rs] eqn:Hrs; [done|]. destruct (Hnew Hnone r eq_refl) as (s2 & Hg2 & Hn2).
  assert (Hrec2 : rs_records s2 = r :: rs) by (unfold stored in Hst; by rewrite Hg2 in Hst).
  assert (Hsv2 : servable s2).
  { unfold servable in Hsv |- *. rewrite Hrs in Hsv. rewrite Hrec2, Hn2.
    apply Forall_cons in Hsv as Hsv'. destruct Hsv' as [(_ & -> & _) _]. exact Hsv. }
  assert (ST : server_ok (Catalog_upsert c n a') a2 a' signer bs).
  { split; [done|by rewrite Hc2; apply KZ|apply KZ|apply KZ|by rewrite Ho2; apply KZ| | |apply KZ|done..].
    - intros s' Hg. rewrite Ho2, Hoth in Hg by (simpl; congruence). by eapply kz_ns.
    - exists n. by eapply find_auth_upsert. }
  destruct (secured_answer_validates _ a2 a' signer bs ST Hup Hsec anchor fuel p qid (rs_name s) (rs_record_type s) s2 n)
    as (m' & Hm' & Hans & _); [done|done|by eapply find_auth_upsert|done|done|done|done|by rewrite Hrec2|].
  exists m'. split_and!; [done..|]. by rewrite Hans.
Qed.
End clients.
