(* ===== verification/SignedExamples.v ===== *)
(** * SignedExamples: a signed zone and a validating client

    A small zone signed with one key and served by a catalog, with the signature library
    of [ValidateExamples]: the theorems of [SignedZone] and [SignedReply] on it, and two
    questions about it that the client cannot get a valid answer to. *)

From S2P Require Import Prelude Codec Wire Domain Enums Header RData RDataProps Resource Message RecordSet.
From S2P Require Import KeyPair Signer Update BTree Journal Authority AuthorityProps ZoneInstances Catalog CatalogProps Responses.
From S2P Require Import ClientHandle Validate ValidateProps ValidateExamples SignedZone SignedReply SignedUpdate.

Open Scope Z_scope.

#[local] Existing Instance ascii_lowercase.
#[local] Existing Instance list_hash_order.
#[local] Existing Instance keyed_crypto.
#[local] Existing Instance list_sqlite.
#[local] Existing Instance fixed_clock.

#[local] Instance keyed_laws : CryptoLaws (C:=keyed_crypto).
Proof.
  split; [done| |].
  - intros [n e] e' n' [= <- <-]. by exists (n, e), (n, e).
  - intros d [n e] [n' e'] c m s [= <-] [= -> ->] [= <-]. simpl. by rewrite bool_decide_eq_true_2.
Qed.

(** ** The zone *)

Definition sx_key : KeyPair := KeyPair.RSA (([187], [3]) : PKey).
Definition sx_signer : Signer := Signer_new Algorithm.RSASHA256 sx_key ex_zone_a (60 * 10^9) true false.

Definition sx_set (name : Name) (rdata : RData) : RrKey * RecordSet :=
  let t := RData_to_record_type rdata in
  (RrKey_new name t, mkRecordSet name t DNSClass.IN 60 [mkRecord name t DNSClass.IN 60 rdata] [] 7).

Definition sx_zone : Authority :=
  Authority_new ex_zone_a
    [sx_set ex_zone_a (RData.NS ex_www);
     sx_set ex_zone_a (RData.SOA (mkSOA ex_zone_a ex_zone_a 7 1 2 3 4));
     sx_set ex_www (RData.A (mkIpv4 10 0 0 1))] Master false true.

(** A name that is added later. *)
Definition sx_new_name : Name := mkName [[120]; [97]].

Definition sx_signed : Authority := ((Authority_add_secure_key sx_signer ;;; Authority_secure_zone) sx_zone).2.
Definition sx_catalog : Catalog := Catalog_upsert Catalog_new ex_zone_a sx_signed.

(** A network that carries the bytes to the server's handler and back, under an id of its own, with the
    checks completing in order. *)
Definition wire_network (c : Catalog) : Network.
Proof. by refine {| upstream _ m := wire_exchange c (Message_id m 7); random_id _ := 7; completion _ n := seq 0 n |}. Defined.

Definition sx_ask (name : Name) (t : RecordType) : res client_error Message :=
  secure_send (NW:=wire_network sx_catalog) 22 (SecureClientHandle_with_trust_anchor anchor_a) []
    (query_message 7 name DNSClass.IN t).

(** ** The theorems on it *)

Lemma sx_zone_ok : zone_ok sx_zone.
Proof. by_decision. Qed.

Lemma sx_servable name rdata : rdata_norm rdata = rdata →
  record_ok (mkRecord name (RData_to_record_type rdata) DNSClass.IN 60 rdata) → servable (sx_set name rdata).2.
Proof. intros Hn Hr. apply Forall_singleton. split_and!; [done..|]. unfold record_norm. simpl. by rewrite Hn. Qed.

Lemma sx_www_ok : name_ok ex_www.
Proof. by_decision. Qed.

Lemma sx_zone_name_ok : name_ok ex_zone_a.
Proof. by_decision. Qed.

Lemma sx_signer_ok : rsa_signer sx_signer [1; 3; 187].
Proof.
  split; [by right; right; left|]. exists ([187], [3]), [3], [187]. split_and!; try reflexivity; [simpl; lia|].
  unfold rsa_length_ok. simpl. lia.
Qed.

Lemma sx_can_sign : can_sign sx_signer.
Proof. intros hash. by exists ([187] ++ hash). Qed.

Lemma sx_a_ok : servable (sx_set ex_www (RData.A (mkIpv4 10 0 0 1))).2.
Proof. apply sx_servable; [done|by_decision]. Qed.

Lemma sx_ns_ok : servable (sx_set ex_zone_a (RData.NS ex_www)).2.
Proof. apply sx_servable; [done|by_decision]. Qed.

Lemma sx_secured : (Authority_add_secure_key sx_signer ;;; Authority_secure_zone) sx_zone = (Ok (), sx_signed).
Proof.
  assert (H : ((Authority_add_secure_key sx_signer ;;; Authority_secure_zone) sx_zone).1 = Ok ())
    by (vm_compute; reflexivity).
  unfold sx_signed. destruct ((Authority_add_secure_key sx_signer ;;; Authority_secure_zone) sx_zone) as [r a].
  cbn [fst snd] in *. by rewrite H.
Qed.

Lemma sx_found a name :
  name = ex_zone_a ∨ name = ex_www ∨ name = sx_new_name →
  Catalog_find_auth_recurse (Catalog_upsert Catalog_new ex_zone_a a) name = Some (ex_zone_a, RwLock_new a).
Proof.
  assert (Hget : ∀ n, c_authorities (Catalog_upsert Catalog_new ex_zone_a a) !! map_key n =
    if decide (map_key n = map_key ex_zone_a) then Some (RwLock_new a) else None).
  { intros n. unfold Catalog_upsert, Catalog_new. cbn [c_authorities]. case_decide as Hn.
    - by rewrite Hn, lookup_insert_eq.
    - by rewrite lookup_insert_ne, fin_maps.lookup_empty. }
  intros [->|[->| ->]]; unfold Catalog_find_auth_recurse;
    cbn [labels length find_auth_loop ex_zone_a ex_www sx_new_name]; rewrite !Hget; reflexivity.
Qed.

Lemma wire_upstream c p : delivers (NW:=wire_network c) c p.
Proof.
  intros id name t. exists 7. split; [split; lia|]. intros m' H. unfold wire_network. cbn [upstream].
  exact (wire_exchange_Ok c (secure_message (query_message 7 name DNSClass.IN t)) m' H).
Qed.

Lemma sx_writable : map_Forall (λ _ lock, zone_writable (l_value lock)) (c_authorities sx_catalog).
Proof.
  unfold sx_catalog, Catalog_upsert, Catalog_new. cbn [c_authorities]. apply map_Forall_insert_2; [|apply map_Forall_empty]. cbn [l_value RwLock_new].
  split; [|vm_compute; discriminate]. by_decision.
Qed.

Lemma sx_server : server_ok sx_catalog sx_zone sx_signed sx_signer [1; 3; 187].
Proof.
  split; [exact sx_zone_ok|reflexivity|exact sx_signer_ok|reflexivity|reflexivity| | |exact sx_zone_name_ok|exact sx_writable].
  - intros s [= <-]. exact sx_ns_ok.
  - exists ex_zone_a. apply sx_found. by left.
Qed.

Lemma signed_answer_validates_witness :
  ∃ m, secure_send (NW:=wire_network sx_catalog) 22 (SecureClientHandle_with_trust_anchor anchor_a) []
         (query_message 7 ex_www DNSClass.IN RecordType.A) = Ok m ∧
    m_answers m = [mkRecord ex_www RecordType.A DNSClass.IN 60 (RData.A (mkIpv4 10 0 0 1))].
Proof.
  destruct (signed_answer_validates (NW:=wire_network sx_catalog) sx_catalog sx_zone sx_signed sx_signer
    [1; 3; 187] anchor_a 20 [] 7 ex_www RecordType.A (sx_set ex_www (RData.A (mkIpv4 10 0 0 1))).2 ex_zone_a)
    as (m & Hm & Ha & _).
  - split; [exact sx_server|exact (wire_upstream sx_catalog)].
  - split; [reflexivity|reflexivity|exact sx_can_sign|exact sx_secured].
  - reflexivity.
  - exact sx_www_ok.
  - apply sx_found. by right; left.
  - unfold plain_type, managed_types. set_solver.
  - discriminate.
  - reflexivity.
  - exact sx_a_ok.
  - discriminate.
  - exists m. split; [exact Hm|exact Ha].
Defined.

Lemma Authority_sign_zone_verifies_witness :
  ∃ a', Authority_sign_zone (with_secure_keys sx_zone [sx_signer]) = (Ok (), a') ∧
    Forall2 (entry_signed DNSClass.IN [sx_signer]) (a_records sx_zone) (a_records a').
Proof.
  destruct (Authority_sign_zone (with_secure_keys sx_zone [sx_signer])) as [r a'] eqn:Hs.
  assert (r = Ok ()) as -> by (apply (f_equal fst) in Hs; vm_compute in Hs; by rewrite <-Hs).
  exists a'. split; [done|].
  apply (Authority_sign_zone_verifies (with_secure_keys sx_zone [sx_signer]) a').
  - apply Forall_singleton. exact sx_can_sign.
  - exact Hs.
Defined.

(** ** An update of the zone *)

(** The zone again, with a key that may update it; both keys are the same here. *)
Definition sx_open_zone : Authority :=
  Authority_new ex_zone_a
    [sx_set ex_zone_a (RData.NS ex_www);
     sx_set ex_zone_a (RData.SOA (mkSOA ex_zone_a ex_zone_a 7 1 2 3 4));
     sx_set ex_zone_a (RData.KEY (mkDNSKEY false false false Algorithm.RSASHA256 [1; 3; 187]));
     sx_set ex_www (RData.A (mkIpv4 10 0 0 1))] Master true true.
Definition sx_keyed : Authority := ((Authority_add_secure_key sx_signer ;;; Authority_secure_zone) sx_open_zone).2.
Definition sx_open_catalog : Catalog := Catalog_upsert Catalog_new ex_zone_a sx_keyed.

(** Two addresses for the new name. *)
Definition sx_new_record (x : Z) : RRecord := mkRecord sx_new_name RecordType.A DNSClass.IN 60 (RData.A (mkIpv4 10 0 0 x)).
Definition sx_new_set : RecordSet :=
  mkRecordSet sx_new_name RecordType.A DNSClass.IN 60 [sx_new_record 2; sx_new_record 3] [] 0.
Definition sx_update : Message :=
  match create_message (E:=client_error) 5 sx_new_set ex_zone_a with Ok m => m | _ => Message_new end.
Definition sx_request : Message :=
  match UpdateMessage_sign sx_update sx_signer 1000 with Ok m => m | _ => Message_new end.
Definition sx_updated : Authority := (Authority_update sx_request sx_keyed).2.
Definition sx_new_catalog : Catalog := Catalog_upsert sx_open_catalog ex_zone_a sx_updated.

Lemma Forall_option_list {A} (P : A → Prop) (o : option A) x : Forall P (option_list o) → o = Some x → P x.
Proof. intros H ->. by inversion H. Qed.

Lemma sx_keyed_zone : keyed_zone sx_signer [1; 3; 187] sx_keyed.
Proof.
  split; try reflexivity; [by_decision| |exact sx_signer_ok|exact sx_can_sign|exact sx_zone_name_ok|].
  - eexists _, 4. split_and!; vm_compute; reflexivity.
  - intros s. apply Forall_option_list. by_decision.
Qed.

Lemma sx_new_sendable : sendable sx_keyed sx_new_set.
Proof. split; [by_decision|reflexivity|by_decision|reflexivity|done]. Qed.

Lemma sx_carries : carries sx_update sx_request.
Proof. split; [vm_compute; reflexivity..|]. intros edns He. vm_compute in He. by injection He as <-. Qed.

Lemma sx_update_accepted : Authority_update sx_request sx_keyed = (Ok true, sx_updated).
Proof.
  assert (H : (Authority_update sx_request sx_keyed).1 = Ok true) by (vm_compute; reflexivity).
  unfold sx_updated. destruct (Authority_update sx_request sx_keyed) as [r a]. cbn [fst snd] in *. by rewrite H.
Qed.

Lemma sx_new_network : network_to (NW:=wire_network sx_new_catalog) sx_new_catalog.
Proof.
  split; [|exact (wire_upstream sx_new_catalog)].
  unfold sx_new_catalog, sx_open_catalog, Catalog_upsert, Catalog_new. cbn [c_authorities].
  repeat apply map_Forall_insert_2; try apply map_Forall_empty; cbn [l_value RwLock_new];
    (split; [by_decision|vm_compute; discriminate]).
Qed.

Lemma created_set_validates_witness :
  ∃ m', secure_send (NW:=wire_network sx_new_catalog) 22 (SecureClientHandle_with_trust_anchor anchor_a) []
          (query_message 9 sx_new_name DNSClass.IN RecordType.A) = Ok m' ∧
    m_answers m' = [sx_new_record 2; sx_new_record 3].
Proof.
  destruct (created_set_validates (NW:=wire_network sx_new_catalog) sx_open_catalog sx_keyed sx_signer [1; 3; 187]
    sx_new_set 5 sx_update sx_request true sx_updated ex_zone_a anchor_a 20 [] 9) as (response & m' & _ & Hm & Ha).
  - exact sx_keyed_zone.
  - exact sx_new_sendable.
  - by_decision.
  - discriminate.
  - by_decision.
  - unfold plain_type, managed_types. simpl. set_solver.
  - by intros [?|?].
  - discriminate.
  - vm_compute. reflexivity.
  - vm_compute. reflexivity.
  - exact sx_carries.
  - apply sx_found. by left.
  - apply sx_found. by right; right.
  - apply sx_found. by left.
  - exact sx_update_accepted.
  - exact sx_new_network.
  - reflexivity.
  - exists m'. by split.
Defined.

(** ** Questions without a valid answer *)

(** The name servers of a signed zone cannot be asked for: the reply has them in the answer
    and again in the authority section, the client puts both into one record set, and the
    signature covers the set without the repetition. *)
Theorem signed_zone_ns_refused :
  is_Some (answers_of (sx_ask ex_www RecordType.A)) ∧
  sx_ask ex_zone_a RecordType.NS = Err (ClientMessage "validation failed").
Proof. split; vm_compute; [by eexists|reflexivity]. Qed.

(** A name that exists with other types only is not denied in a way the client accepts: the
    server sends the first NSEC record of the zone, not the one of the name. *)
Theorem signed_zone_nodata_refused :
  sx_ask ex_www RecordType.MX = Err (ClientMessage "could not validate nxdomain with NSEC").
Proof. vm_compute. reflexivity. Qed.
