(* ===== verification/Streams.v ===== *)
(** * Streams: the interface of the transports

    The futures the transports and the server are made of: what a poll yields
    ([futures::Poll] of a [Stream]), the calls on a socket behind [try_nb!], and the
    interface [BufStream] that UDP, TCP and the timeouts around them implement: messages
    with the address they come from or go to. *)

From S2P Require Import Prelude.

Open Scope Z_scope.

(** [io::ErrorKind], the kinds the streams make, and the socket's own errors. *)
Inductive io_error : Type := IoOther | InvalidData | BrokenPipe | TimedOut | ConnectionRefused | SocketError.

(** The outcome of a call on a socket behind [try_nb!]. *)
Inductive nb (A : Type) : Type := Done (a : A) | Blocked | Failed.
Arguments Done {A} a.
Arguments Blocked {A}.
Arguments Failed {A}.

(** [Poll<Option<Item>, io::Error>] *)
Inductive Poll (Item : Type) : Type :=
  | Ready (item : option Item)
  | NotReady
  | PollErr (e : io_error).
Arguments Ready {Item} item.
Arguments NotReady {Item}.
Arguments PollErr {Item} e.

(** What the reactor tells a poll: the time, whether a timer can be made, and whether the timer
    that is running fails. *)
Record Moment : Type := mkMoment { now : Z; timer_new : bool; timer_error : bool }.

(** A stream of messages with its handle ([BufStreamHandle]).  A poll gives [None] when a
    loop of the model has run out of fuel, which the implementations show it does not. *)
Class BufStream (SocketAddr S : Type) := {
  stream_poll : Moment → S → option (Poll (list Z * SocketAddr) * S);
  stream_send : list Z * SocketAddr → S → S;
}.
#[global] Hint Mode BufStream - ! : typeclass_instances.
