(* ===== verification/Tcp.v ===== *)
(** * Tcp: messages over a byte stream

    [TcpStream::poll] of [client/src/tcp/tcp_stream.rs]: messages with a length of two bytes
    before them, written and read through a socket that takes and gives what it likes.  The
    socket is a script of what its next calls do; the theorems hold for every script: no
    byte is lost, repeated or made up, and what one end is given to send the other end
    yields, however the bytes are cut up on the way. *)

From S2P Require Import Prelude Streams.

Open Scope Z_scope.

(** ** The socket *)

Abbreviation bytes := (list Z) (only parsing).

(** What the next [write] or [flush] does: take up to [n] bytes, block, or fail. *)
Inductive write_event : Type := Accept (n : nat) | WouldBlockW | FailW.

(** What the next [read]s find: bytes, nothing for now, the end of the stream, or a
    failure. *)
Inductive read_event : Type := Chunk (bs : bytes) | WouldBlockR | Eof | FailR.

Record Socket : Type := mkSocket {
  so_out : list write_event;
  so_written : bytes;
  so_in : list read_event;
}.

Definition Socket_write (buf : bytes) (s : Socket) : nb nat * Socket :=
  match so_out s with
  | [] => (Blocked, s)
  | Accept n :: out =>
      let wrote := Nat.min n (length buf) in
      (Done wrote, mkSocket out (so_written s ++ take wrote buf) (so_in s))
  | WouldBlockW :: out => (Blocked, mkSocket out (so_written s) (so_in s))
  | FailW :: out => (Failed, mkSocket out (so_written s) (so_in s))
  end.

Definition Socket_flush (s : Socket) : nb () * Socket :=
  match so_out s with
  | [] => (Blocked, s)
  | Accept _ :: out => (Done (), mkSocket out (so_written s) (so_in s))
  | WouldBlockW :: out => (Blocked, mkSocket out (so_written s) (so_in s))
  | FailW :: out => (Failed, mkSocket out (so_written s) (so_in s))
  end.

(** [read] into a buffer of [n] bytes; into an empty one it reads nothing and succeeds. *)
Definition Socket_read (n : nat) (s : Socket) : nb bytes * Socket :=
  if (n =? 0)%nat then (Done [], s)
  else
    match so_in s with
    | [] => (Blocked, s)
    | Chunk bs :: rest =>
        (Done (take n bs),
         mkSocket (so_out s) (so_written s)
           (if bool_decide (drop n bs = []) then rest else Chunk (drop n bs) :: rest))
    | WouldBlockR :: rest => (Blocked, mkSocket (so_out s) (so_written s) rest)
    | Eof :: _ => (Done [], s)
    | FailR :: rest => (Failed, mkSocket (so_out s) (so_written s) rest)
    end.

(** ** The stream *)

Inductive WriteTcpState : Type :=
  | WriteLenBytes (pos : nat) (length : bytes) (bs : bytes)
  | WriteBytes (pos : nat) (bs : bytes)
  | Flushing.

Inductive ReadTcpState : Type :=
  | ReadLenBytes (pos : nat) (bs : bytes)
  | ReadBytes (pos : nat) (bs : bytes).

Section tcp.
Context {SocketAddr : Type} `{EqDecision SocketAddr}.

Record TcpStream : Type := mkTcp {
  socket : Socket;
  outbound_messages : list (bytes * SocketAddr);
  send_state : option WriteTcpState;
  read_state : ReadTcpState;
  peer_addr : SocketAddr;
}.

Definition TcpStream_from_stream_with_receiver (stream : Socket) (peer : SocketAddr)
    (receiver : list (bytes * SocketAddr)) : TcpStream :=
  mkTcp stream receiver None (ReadLenBytes 0 [0; 0]) peer.

Definition set_socket (t : TcpStream) (s : Socket) : TcpStream :=
  mkTcp s (outbound_messages t) (send_state t) (read_state t) (peer_addr t).
Definition set_send (t : TcpStream) (st : option WriteTcpState) : TcpStream :=
  mkTcp (socket t) (outbound_messages t) st (read_state t) (peer_addr t).
Definition set_read (t : TcpStream) (st : ReadTcpState) : TcpStream :=
  mkTcp (socket t) (outbound_messages t) (send_state t) st (peer_addr t).
Definition set_outbound (t : TcpStream) (o : list (bytes * SocketAddr)) : TcpStream :=
  mkTcp (socket t) o (send_state t) (read_state t) (peer_addr t).

Definition poll : Type := Poll (bytes * SocketAddr).

(** How a turn of one of the loops ends: with the next turn, by leaving the loop, or by
    returning from [poll]. *)
Inductive turn : Type :=
  | Again (t : TcpStream)
  | Leave (t : TcpStream) (ret_buf : option bytes)
  | Return (r : poll) (t : TcpStream).

Definition length_bytes (n : nat) : bytes :=
  [as_u8 (Z.land (Z.shiftr (Z.of_nat n) 8) 255); as_u8 (Z.land (Z.of_nat n) 255)].

(** The state that follows a write. *)
Definition next_send_state (st : WriteTcpState) : option WriteTcpState :=
  match st with
  | WriteLenBytes pos len bs =>
      if (pos <? length len)%nat then Some (WriteLenBytes pos len bs) else Some (WriteBytes 0 bs)
  | WriteBytes pos bs =>
      if (pos <? length bs)%nat then Some (WriteBytes pos bs) else Some Flushing
  | Flushing => None
  end.

Definition send_turn (t : TcpStream) : turn :=
  match send_state t with
  | Some st =>
      let '(r, s) :=
        match st with
        | WriteLenBytes pos len bs =>
            let '(r, s) := Socket_write (drop pos len) (socket t) in
            (match r with Done wrote => Done (WriteLenBytes (pos + wrote) len bs) | Blocked => Blocked | Failed => Failed end, s)
        | WriteBytes pos bs =>
            let '(r, s) := Socket_write (drop pos bs) (socket t) in
            (match r with Done wrote => Done (WriteBytes (pos + wrote) bs) | Blocked => Blocked | Failed => Failed end, s)
        | Flushing =>
            let '(r, s) := Socket_flush (socket t) in
            (match r with Done _ => Done Flushing | Blocked => Blocked | Failed => Failed end, s)
        end in
      let t := set_socket t s in
      match r with
      | Blocked => Return NotReady t
      | Failed => Return (PollErr SocketError) t
      | Done st => Again (set_send t (next_send_state st))
      end
  | None =>
      match outbound_messages t with
      | [] => Leave t None
      | (buffer, dst) :: rest =>
          let t := set_outbound t rest in
          if decide (peer_addr t = dst) then
            Again (set_send t (Some (WriteLenBytes 0 (length_bytes (length buffer)) buffer)))
          else Return (PollErr InvalidData) t
      end
  end.

(** [bytes[*pos..]] overwritten with what was read. *)
Definition fill (pos : nat) (got bs : bytes) : bytes := take pos bs ++ got ++ drop (pos + length got) bs.

Definition read_length (bs : bytes) : nat :=
  Z.to_nat (Z.lor (Z.land (Z.shiftl (nth 0 bs 0) 8) 65280) (Z.land (nth 1 bs 0) 255)).

Definition read_turn (t : TcpStream) : turn :=
  match read_state t with
  | ReadLenBytes pos bs =>
      let '(r, s) := Socket_read (length (drop pos bs)) (socket t) in
      let t := set_socket t s in
      match r with
      | Blocked => Return NotReady t
      | Failed => Return (PollErr SocketError) t
      | Done [] =>
          if (pos =? 0)%nat then Return (Ready None) t else Return (PollErr BrokenPipe) t
      | Done got =>
          let bs := fill pos got bs in
          let pos := (pos + length got)%nat in
          if (pos <? length bs)%nat then Again (set_read t (ReadLenBytes pos bs))
          else Again (set_read t (ReadBytes 0 (replicate (read_length bs) 0)))
      end
  | ReadBytes pos bs =>
      let '(r, s) := Socket_read (length (drop pos bs)) (socket t) in
      let t := set_socket t s in
      match r with
      | Blocked => Return NotReady t
      | Failed => Return (PollErr SocketError) t
      | Done [] => Return (PollErr BrokenPipe) t
      | Done got =>
          let bs := fill pos got bs in
          let pos := (pos + length got)%nat in
          if (pos <? length bs)%nat then Again (set_read t (ReadBytes pos bs))
          else Leave (set_read t (ReadLenBytes 0 [0; 0])) (Some bs)
      end
  end.

Fixpoint run_turns (fuel : nat) (step : TcpStream → turn) (t : TcpStream) : turn :=
  match fuel with
  | O => Again t
  | S fuel => match step t with Again t => run_turns fuel step t | o => o end
  end.

(** A turn of the first loop uses up an outbound message or an event of the socket; one of
    the second reads at least a byte. *)
Definition send_fuel (t : TcpStream) : nat :=
  S (length (outbound_messages t) + length (so_out (socket t))).

Definition input_bytes (s : Socket) : bytes :=
  concat ((λ e, match e with Chunk bs => bs | _ => [] end) <$> so_in s).
Definition read_fuel (t : TcpStream) : nat := S (length (input_bytes (socket t))).

(** [None] when the fuel has run out. *)
Definition TcpStream_poll (t : TcpStream) : option (poll * TcpStream) :=
  match run_turns (send_fuel t) send_turn t with
  | Return r t => Some (r, t)
  | Again _ => None
  | Leave t _ =>
      match run_turns (read_fuel t) read_turn t with
      | Return r t => Some (r, t)
      | Again _ => None
      | Leave t ret_buf =>
          Some (match ret_buf with Some buffer => Ready (Some (buffer, peer_addr t)) | None => NotReady end, t)
      end
  end.

#[global] Instance TcpStream_stream : BufStream SocketAddr TcpStream := {
  stream_poll _ := TcpStream_poll;
  stream_send message t := set_outbound t (outbound_messages t ++ [message]);
}.
End tcp.

(** ** Frames *)

Definition frame (b : bytes) : bytes := length_bytes (length b) ++ b.
Definition message_fits (b : bytes) : Prop := 1 ≤ Z.of_nat (length b) ≤ 65535.

Lemma length_bytes_eq n : length_bytes n = [(Z.of_nat n / 256) mod 256; Z.of_nat n mod 256].
Proof.
  unfold length_bytes, as_u8. change 255 with (Z.ones 8). rewrite !Z.land_ones, Z.shiftr_div_pow2 by lia.
  change (2 ^ 8) with 256. by rewrite !Z.mod_mod by lia.
Qed.

Lemma u16_of_bytes a b : u8 a → u8 b →
  Z.lor (Z.land (Z.shiftl a 8) 65280) (Z.land b 255) = a * 256 + b.
Proof.
  intros Ha Hb. apply Z.eqb_eq. revert b Hb. apply u8_forallb. revert a Ha. by_all_bytes.
Qed.

Lemma read_length_eq a b : u8 a → u8 b → read_length [a; b] = Z.to_nat (a * 256 + b).
Proof. intros. unfold read_length. cbn [nth]. by rewrite u16_of_bytes. Qed.

(** The length a header announces has that header. *)
Lemma length_bytes_read a b : u8 a → u8 b → length_bytes (read_length [a; b]) = [a; b].
Proof.
  unfold u8. intros Ha Hb. rewrite read_length_eq by done. rewrite length_bytes_eq, Z2Nat.id by lia.
  f_equal; [|f_equal].
  - rewrite Z.div_add_l, (Z.div_small b), Z.add_0_r, Z.mod_small by lia. done.
  - rewrite Z.add_comm, Z.mod_add, Z.mod_small by lia. done.
Qed.

Lemma length_bytes_inj n m : Z.of_nat n ≤ 65535 → Z.of_nat m ≤ 65535 → length_bytes n = length_bytes m → n = m.
Proof.
  intros Hn Hm. rewrite !length_bytes_eq. intros [= H1 H2].
  rewrite !Z.mod_small in H1 by (split; [apply Z.div_pos; lia|apply Z.div_lt_upper_bound; lia]).
  pose proof (Z.div_mod (Z.of_nat n) 256 ltac:(lia)). pose proof (Z.div_mod (Z.of_nat m) 256 ltac:(lia)). lia.
Qed.

(** Frames are read back in one way. *)
Lemma frame_app_inj b b' r r' :
  message_fits b → message_fits b' → frame b ++ r = frame b' ++ r' → b = b' ∧ r = r'.
Proof.
  intros Hb Hb' H. unfold frame in H. rewrite <-!app_assoc in H.
  apply app_inj_1 in H as [Hl H]; [|done]. apply length_bytes_inj in Hl; [|unfold message_fits in *; lia..].
  by apply app_inj_1 in H.
Qed.

Lemma frames_prefix ms ms' r :
  Forall message_fits ms → Forall message_fits ms' →
  concat (frame <$> ms') = concat (frame <$> ms) ++ r → ∃ rest, ms' = ms ++ rest ∧ r = concat (frame <$> rest).
Proof.
  intros H. revert ms'. induction H as [|m ms Hm _ IH]; intros ms' H' E; [by exists ms'|].
  rewrite fmap_cons in E. cbn [concat] in E. rewrite <-app_assoc in E.
  destruct H' as [|m' ms' Hm' H']; [by unfold frame in E; rewrite length_bytes_eq in E|].
  rewrite fmap_cons in E. cbn [concat] in E. apply frame_app_inj in E as [-> E]; [|done..].
  destruct (IH ms' H' E) as (rest & -> & ->). by exists rest.
Qed.

Section tcp_props.
Context {SocketAddr : Type} `{EqDecision SocketAddr}.
Implicit Types t : TcpStream (SocketAddr:=SocketAddr).

(** ** Sending *)

Definition unsent (st : option WriteTcpState) : bytes :=
  match st with
  | Some (WriteLenBytes pos len bs) => drop pos len ++ bs
  | Some (WriteBytes pos bs) => drop pos bs
  | Some Flushing | None => []
  end.

(** All that has been written, is being written and waits to be written. *)
Definition outgoing t : bytes :=
  so_written (socket t) ++ unsent (send_state t) ++ concat ((frame ∘ fst) <$> outbound_messages t).

Definition to_peer t : Prop := Forall (λ x, x.2 = peer_addr t) (outbound_messages t).

Definition turn_stream (o : turn (SocketAddr:=SocketAddr)) : TcpStream :=
  match o with Again t | Leave t _ | Return _ t => t end.

Lemma Socket_write_spec buf s r s' : Socket_write buf s = (r, s') →
  so_in s' = so_in s ∧
  match r with
  | Done n => so_written s' = so_written s ++ take n buf ∧ length (so_out s) = S (length (so_out s'))
  | _ => so_written s' = so_written s
  end.
Proof.
  unfold Socket_write. destruct (so_out s) as [|[n| |] out]; intros [= <- <-]; simpl; try done.
Qed.

Lemma unsent_next st : unsent (next_send_state st) = unsent (Some st).
Proof.
  destruct st as [pos len bs|pos bs|]; simpl; [| |done].
  - destruct (Nat.ltb_spec pos (length len)); [done|]. simpl. by rewrite (drop_ge len), drop_0 by lia.
  - destruct (Nat.ltb_spec pos (length bs)); [done|]. simpl. by rewrite (drop_ge bs) by lia.
Qed.

#[local] Arguments next_send_state : simpl never.

(** A turn keeps the bytes that go out, leaves the other direction alone and uses up
    something. *)
Lemma send_turn_spec t : to_peer t →
  let o := send_turn t in
  let t' := turn_stream o in
  outgoing t' = outgoing t ∧ to_peer t' ∧ peer_addr t' = peer_addr t ∧ read_state t' = read_state t ∧
  so_in (socket t') = so_in (socket t) ∧
  match o with
  | Again _ => (send_fuel t' < send_fuel t)%nat
  | Leave _ b => b = None
  | Return r _ => r = NotReady ∨ r = PollErr SocketError
  end.
Proof.
  intros Hp. unfold send_turn. destruct t as [s ob ss rs pa]. simpl in *. destruct ss as [st|].
  2:{ destruct ob as [|[buffer dst] rest]; [by split_and!|]. inversion_clear Hp as [|? ? Hd Hp']. simpl in *. subst.
      rewrite decide_True by done. unfold outgoing, send_fuel. simpl. split_and!; try done; lia. }
  destruct st as [pos len bs|pos bs|].
  - destruct (Socket_write (drop pos len) s) as [[n| |] s'] eqn:E;
      apply Socket_write_spec in E as (Hin & Hw); simpl; unfold outgoing, send_fuel; simpl;
      try (rewrite Hw, Hin; split_and!; auto).
    destruct Hw as [Hw Hl]. rewrite unsent_next, Hw, Hin. simpl. rewrite Hl. split_and!; try done; [|lia].
    rewrite <-!app_assoc. f_equal. rewrite <-(drop_drop len n pos), !app_assoc. by rewrite take_drop.
  - destruct (Socket_write (drop pos bs) s) as [[n| |] s'] eqn:E;
      apply Socket_write_spec in E as (Hin & Hw); simpl; unfold outgoing, send_fuel; simpl;
      try (rewrite Hw, Hin; split_and!; auto).
    destruct Hw as [Hw Hl]. rewrite unsent_next, Hw, Hin. simpl. rewrite Hl. split_and!; try done; [|lia].
    rewrite <-!app_assoc. f_equal. rewrite <-(drop_drop bs n pos), !app_assoc. by rewrite take_drop.
  - unfold Socket_flush. destruct (so_out s) as [|[n| |] out] eqn:Eo; simpl; unfold outgoing, send_fuel; simpl;
      rewrite ?Eo; split_and!; auto. simpl. lia.
Qed.

(** ** Receiving *)

(** The part of a frame that has been read. *)
Definition buffered (st : ReadTcpState) : bytes :=
  match st with
  | ReadLenBytes pos bs => take pos bs
  | ReadBytes pos bs => length_bytes (length bs) ++ take pos bs
  end.

Definition read_ok (st : ReadTcpState) : Prop :=
  match st with
  | ReadLenBytes pos bs => length bs = 2%nat ∧ (pos < 2)%nat ∧ Forall u8 (take pos bs)
  | ReadBytes pos bs => Z.of_nat (length bs) ≤ 65535 ∧ (pos < length bs ∨ bs = [] ∧ pos = 0)%nat
  end.

Definition incoming t : bytes := buffered (read_state t) ++ input_bytes (socket t).

Record stream_ok t : Prop := {
  st_peer : to_peer t;
  st_read : read_ok (read_state t);
  st_bytes : Forall u8 (input_bytes (socket t));
}.

Lemma Socket_read_spec n s r s' : Socket_read n s = (r, s') →
  so_out s' = so_out s ∧ so_written s' = so_written s ∧
  match r with
  | Done got => input_bytes s = got ++ input_bytes s' ∧ (length got ≤ n)%nat
  | _ => input_bytes s' = input_bytes s
  end.
Proof.
  unfold Socket_read. destruct (Nat.eqb_spec n 0); [by intros [= <- <-]; simpl; split_and!; [..|lia]|].
  destruct (so_in s) as [|[bs| | |] rest] eqn:Ei; intros [= <- <-]; unfold input_bytes; simpl; rewrite ?Ei; simpl;
    split_and!; try done; try lia.
  - case_bool_decide as Hd; simpl.
    + rewrite <-(take_drop n bs) at 1. by rewrite Hd, app_nil_r.
    + by rewrite app_assoc, take_drop.
  - rewrite length_take. lia.
Qed.

Lemma fill_length pos got bs : (pos + length got ≤ length bs)%nat → length (fill pos got bs) = length bs.
Proof. intros. unfold fill. rewrite !length_app, length_take, length_drop. lia. Qed.

Lemma take_fill pos got bs : (pos ≤ length bs)%nat → take (pos + length got) (fill pos got bs) = take pos bs ++ got.
Proof.
  intros. unfold fill. rewrite app_assoc. apply take_app_length'. rewrite length_app, length_take. lia.
Qed.

Lemma take_all_fill pos got bs : (pos + length got = length bs)%nat → fill pos got bs = take pos bs ++ got.
Proof. intros. unfold fill. rewrite (drop_ge bs) by lia. by rewrite app_nil_r. Qed.

#[local] Arguments read_length : simpl never.
#[local] Arguments length_bytes : simpl never.

(** A read that yields nothing changes nothing but the script. *)
Lemma same_input t s' : stream_ok t →
  so_written s' = so_written (socket t) → input_bytes s' = input_bytes (socket t) →
  incoming t = incoming (set_socket t s') ∧ stream_ok (set_socket t s') ∧
  outgoing (set_socket t s') = outgoing t ∧ peer_addr (set_socket t s') = peer_addr t.
Proof.
  intros [Hpe Hrd Hby] Hwr Hin. unfold incoming, outgoing. simpl. rewrite Hin, Hwr. split_and!; try done.
  split; simpl; [done..|by rewrite Hin].
Qed.

(** One that yields [got] leaves less. *)
Lemma less_input s s' (got : bytes) : input_bytes s = got ++ input_bytes s' → got ≠ [] → Forall u8 (input_bytes s) →
  Forall u8 got ∧ Forall u8 (input_bytes s') ∧ (length (input_bytes s') < length (input_bytes s))%nat ∧
  (0 < length got)%nat.
Proof.
  intros E Hne Hu. rewrite E in *. apply Forall_app in Hu as [? ?]. rewrite length_app.
  destruct got; [done|]. simpl. split_and!; try done; lia.
Qed.

(** What a turn gives out. *)
Definition yielded (o : turn (SocketAddr:=SocketAddr)) : bytes :=
  match o with Leave _ (Some b) => frame b | _ => [] end.

Lemma read_len_turn t pos bs : stream_ok t → read_state t = ReadLenBytes pos bs →
  let o := read_turn t in
  let t' := turn_stream o in
  incoming t = yielded o ++ incoming t' ∧ stream_ok t' ∧ outgoing t' = outgoing t ∧ peer_addr t' = peer_addr t ∧
  match o with
  | Again _ => (read_fuel t' < read_fuel t)%nat
  | Leave _ b => ∃ m, b = Some m ∧ message_fits m
  | Return r _ => ∀ x, r ≠ Ready (Some x)
  end.
Proof.
  intros Hok Er. pose proof Hok as [Hpe Hrd Hby]. unfold read_turn. rewrite Er. rewrite Er in Hrd. destruct Hrd as (Hl & Hpos & Hu).
  destruct (Socket_read (length (drop pos bs)) (socket t)) as [r s'] eqn:Es.
  apply Socket_read_spec in Es as (Hout & Hwr & Hr).
  pose proof (same_input t s' Hok Hwr) as Hsame.
  destruct r as [[|g got]| |]; [| |by destruct (Hsame Hr) as (? & ? & ? & ?)..].
  { destruct Hr as [Hr _]. destruct (Hsame (eq_sym Hr)) as (? & ? & ? & ?). by destruct (pos =? 0)%nat. }
  destruct Hr as [Hin Hlen]. rewrite length_drop in Hlen.
  destruct (less_input _ _ _ Hin ltac:(done) Hby) as (Hgu & Hby' & Hfuel & Hgg).
  remember (g :: got) as gg eqn:Egg. clear Egg g got. rewrite fill_length by lia.
  destruct (Nat.ltb_spec (pos + length gg) (length bs)).
  - simpl. unfold incoming, outgoing, read_fuel. simpl. rewrite Er, Hwr. simpl. rewrite take_fill by lia.
    split_and!; try done; [by rewrite Hin, <-app_assoc| |lia].
    split; simpl; [done| |done]. rewrite fill_length, take_fill by lia. split_and!; [done|lia|].
    by apply Forall_app.
  - assert (Hfull : fill pos gg bs = take pos bs ++ gg) by (apply take_all_fill; lia).
    assert (Hhead : ∃ a b, take pos bs ++ gg = [a; b] ∧ u8 a ∧ u8 b).
    { assert (length (take pos bs ++ gg) = 2)%nat as H2 by (rewrite length_app, length_take; lia).
      assert (Forall u8 (take pos bs ++ gg)) as Hall by (by apply Forall_app).
      destruct (take pos bs ++ gg) as [|a [|b [|]]]; try done. exists a, b.
      by repeat match goal with H : Forall _ (_ :: _) |- _ => apply Forall_cons in H as [? H] end. }
    destruct Hhead as (a & b & Hab & Ha & Hb). rewrite Hfull, Hab.
    cbn [turn_stream yielded app]. unfold incoming, outgoing, read_fuel. rewrite Er.
    cbn [socket set_read set_socket read_state buffered send_state outbound_messages peer_addr take].
    rewrite Hwr, length_replicate, length_bytes_read, app_nil_r by done.
    split_and!; try done; [|split; simpl; [done| |done]|lia].
    + by rewrite Hin, app_assoc, Hab.
    + rewrite length_replicate. rewrite read_length_eq by done. unfold u8 in *. split; [lia|].
      destruct (Z.to_nat (a * 256 + b)); [right; done|left; lia].
Qed.

Lemma read_bytes_turn t pos bs : stream_ok t → read_state t = ReadBytes pos bs →
  let o := read_turn t in
  let t' := turn_stream o in
  incoming t = yielded o ++ incoming t' ∧ stream_ok t' ∧ outgoing t' = outgoing t ∧ peer_addr t' = peer_addr t ∧
  match o with
  | Again _ => (read_fuel t' < read_fuel t)%nat
  | Leave _ b => ∃ m, b = Some m ∧ message_fits m
  | Return r _ => ∀ x, r ≠ Ready (Some x)
  end.
Proof.
  intros Hok Er. pose proof Hok as [Hpe Hrd Hby]. unfold read_turn. rewrite Er. rewrite Er in Hrd. destruct Hrd as (Hl & Hpos).
  destruct (Socket_read (length (drop pos bs)) (socket t)) as [r s'] eqn:Es.
  apply Socket_read_spec in Es as (Hout & Hwr & Hr).
  pose proof (same_input t s' Hok Hwr) as Hsame.
  destruct r as [[|g got]| |]; [| |by destruct (Hsame Hr) as (? & ? & ? & ?)..].
  { destruct Hr as [Hr _]. by destruct (Hsame (eq_sym Hr)) as (? & ? & ? & ?). }
  destruct Hr as [Hin Hlen]. rewrite length_drop in Hlen.
  destruct (less_input _ _ _ Hin ltac:(done) Hby) as (Hgu & Hby' & Hfuel & Hgg).
  remember (g :: got) as gg eqn:Egg. clear Egg g got. rewrite fill_length by lia.
  destruct (Nat.ltb_spec (pos + length gg) (length bs)).
  - simpl. unfold incoming, outgoing, read_fuel. simpl. rewrite Er, Hwr. simpl.
    rewrite fill_length, take_fill by lia.
    split_and!; try done; [by rewrite Hin, <-!app_assoc| |lia].
    split; simpl; [done| |done]. rewrite fill_length by lia. split; [done|left; lia].
  - simpl. unfold incoming, outgoing. simpl. rewrite Er, Hwr. simpl.
    rewrite take_all_fill by lia. unfold frame. rewrite length_app, length_take.
    split_and!; try done.
    + rewrite Hin. replace (pos `min` length bs + length gg)%nat with (length bs) by lia. by rewrite <-!app_assoc.
    + split; simpl; [done| |done]. split_and!; [done|lia|constructor].
    + eexists. split; [done|]. unfold message_fits. rewrite length_app, length_take. lia.
Qed.

Lemma read_turn_spec t : stream_ok t →
  let o := read_turn t in
  let t' := turn_stream o in
  incoming t = yielded o ++ incoming t' ∧ stream_ok t' ∧ outgoing t' = outgoing t ∧ peer_addr t' = peer_addr t ∧
  match o with
  | Again _ => (read_fuel t' < read_fuel t)%nat
  | Leave _ b => ∃ m, b = Some m ∧ message_fits m
  | Return r _ => ∀ x, r ≠ Ready (Some x)
  end.
Proof.
  intros Hok. destruct (read_state t) as [pos bs|pos bs] eqn:Er;
    [by eapply read_len_turn|by eapply read_bytes_turn].
Qed.

(** ** The loops *)

Lemma send_loop_spec fuel t : stream_ok t → (send_fuel t ≤ fuel)%nat →
  let o := run_turns fuel send_turn t in
  let t' := turn_stream o in
  outgoing t' = outgoing t ∧ incoming t' = incoming t ∧ stream_ok t' ∧ peer_addr t' = peer_addr t ∧
  match o with
  | Again _ => False
  | Leave _ b => b = None ∧ send_state t' = None ∧ outbound_messages t' = []
  | Return r _ => r = NotReady ∨ r = PollErr SocketError
  end.
Proof.
  revert t. induction fuel as [|fuel IH]; intros t Hok Hf; [unfold send_fuel in Hf; lia|]. simpl.
  pose proof (send_turn_spec t (st_peer _ Hok)) as Hs. simpl in Hs.
  assert (Hok' : stream_ok (turn_stream (send_turn t)) ∧ incoming (turn_stream (send_turn t)) = incoming t).
  { destruct Hs as (_ & Hp & _ & Hr & Hin & _). destruct Hok as [_ Hrd Hby]. unfold incoming, input_bytes.
    rewrite Hr, Hin. split; [|done]. split; [done|by rewrite Hr|]. unfold input_bytes. by rewrite Hin. }
  destruct Hok' as [Hok' Hinc]. destruct (send_turn t) as [t1|t1 b|r t1] eqn:Et; simpl in *.
  - destruct (IH t1 Hok') as (? & ? & ? & ? & ?); [lia|]. destruct Hs as (? & _ & ? & _). split_and!; congruence || done.
  - destruct Hs as (? & _ & ? & _ & _ & ->). split_and!; try done.
    + revert Et. unfold send_turn. repeat case_match; intros; simplify_eq; done.
    + revert Et. unfold send_turn. repeat case_match; intros; simplify_eq; done.
  - destruct Hs as (? & _ & ? & _ & _ & ?). done.
Qed.

Lemma read_loop_spec fuel t : stream_ok t → (read_fuel t ≤ fuel)%nat →
  let o := run_turns fuel read_turn t in
  let t' := turn_stream o in
  incoming t = yielded o ++ incoming t' ∧ stream_ok t' ∧ outgoing t' = outgoing t ∧ peer_addr t' = peer_addr t ∧
  match o with
  | Again _ => False
  | Leave _ b => ∃ m, b = Some m ∧ message_fits m
  | Return r _ => ∀ x, r ≠ Ready (Some x)
  end.
Proof.
  revert t. induction fuel as [|fuel IH]; intros t Hok Hf; [unfold read_fuel in Hf; lia|]. simpl.
  pose proof (read_turn_spec t Hok) as Hs. simpl in Hs.
  destruct (read_turn t) as [t1|t1 b|r t1]; simpl in *; [|done..].
  destruct Hs as (Hi & Hok1 & Ho & Hp & Hlt). destruct (IH t1 Hok1) as (Hi' & ? & ? & ? & ?); [lia|].
  split_and!; try congruence; done.
Qed.

(** What a poll hands to its caller. *)
Definition delivered (r : poll (SocketAddr:=SocketAddr)) : list bytes :=
  match r with Ready (Some (b, _)) => [b] | _ => [] end.

Lemma TcpStream_poll_spec t : stream_ok t →
  ∃ r t', TcpStream_poll t = Some (r, t') ∧ stream_ok t' ∧ outgoing t' = outgoing t ∧
    incoming t = concat (frame <$> delivered r) ++ incoming t' ∧ Forall message_fits (delivered r) ∧
    peer_addr t' = peer_addr t ∧
    (∀ b a, r = Ready (Some (b, a)) → a = peer_addr t).
Proof.
  intros Hok. unfold TcpStream_poll.
  pose proof (send_loop_spec (send_fuel t) t Hok ltac:(lia)) as Hs. cbv zeta in Hs.
  destruct (run_turns (send_fuel t) send_turn t) as [t1|t1 b|r t1]; cbn [turn_stream] in Hs.
  - by destruct Hs as (_ & _ & _ & _ & []).
  - destruct Hs as (Ho & Hi & Hok1 & Hp & _).
    pose proof (read_loop_spec (read_fuel t1) t1 Hok1 ltac:(lia)) as Hr. cbv zeta in Hr.
    destruct (run_turns (read_fuel t1) read_turn t1) as [t2|t2 b2|r t2]; cbn [turn_stream] in Hr.
    + by destruct Hr as (_ & _ & _ & _ & []).
    + destruct Hr as (Hi2 & Hok2 & Ho2 & Hp2 & m & -> & Hm). eexists _, _. split; [done|].
      split; [done|]. split; [congruence|]. split; [|split; [|split]].
      * simpl. rewrite app_nil_r. rewrite <-Hi. exact Hi2.
      * by constructor.
      * congruence.
      * intros b' a [= _ <-]. congruence.
    + destruct Hr as (Hi2 & Hok2 & Ho2 & Hp2 & Hr). exists r, t2.
      assert (delivered r = []) as -> by (destruct r as [[[b' a]|]| |]; try done; by destruct (Hr (b', a))).
      split; [done|]. split; [done|]. split; [congruence|]. split; [simpl in *; congruence|].
      split; [constructor|]. split; [congruence|]. intros b' a Hr'. by apply Hr in Hr'.
  - destruct Hs as (Ho & Hi & Hok1 & Hp & Hr). exists r, t1. split; [done|].
    assert (delivered r = []) as -> by (by destruct Hr as [-> | ->]).
    split_and!; try done. intros b a ->. by destruct Hr.
Qed.

(** Any number of polls. *)
Inductive polls : TcpStream (SocketAddr:=SocketAddr) → list bytes → TcpStream (SocketAddr:=SocketAddr) → Prop :=
  | polls_nil t : polls t [] t
  | polls_cons t r t' bs t'' :
      TcpStream_poll t = Some (r, t') → polls t' bs t'' → polls t (delivered r ++ bs) t''.

Lemma polls_spec t bs t' : polls t bs t' → stream_ok t →
  stream_ok t' ∧ outgoing t' = outgoing t ∧ incoming t = concat (frame <$> bs) ++ incoming t' ∧
  Forall message_fits bs.
Proof.
  induction 1 as [t|t r t1 bs t' Hp _ IH]; intros Hok; [done|].
  destruct (TcpStream_poll_spec t Hok) as (r' & t1' & Hp' & Hok1 & Ho & Hi & Hm & _). rewrite Hp in Hp'. simplify_eq.
  destruct (IH Hok1) as (? & ? & Hi' & ?). split_and!; [done|congruence| |by apply Forall_app].
  by rewrite fmap_app, concat_app, <-app_assoc, <-Hi'.
Qed.

(** ** Progress *)

(** A connection that stays up: bytes and pauses. *)
Definition open_event (e : read_event) : Prop :=
  match e with Chunk bs => bs ≠ [] | WouldBlockR => True | Eof | FailR => False end.

Definition events t : nat := length (so_in (socket t)).
Definition idle_open t : Prop :=
  Forall open_event (so_in (socket t)) ∧ send_state t = None ∧ outbound_messages t = [].

Lemma Socket_read_open n s r s' : Socket_read n s = (r, s') →
  Forall open_event (so_in s) → n ≠ 0%nat → input_bytes s ≠ [] →
  Forall open_event (so_in s') ∧
  match r with
  | Done got => got ≠ [] ∧ (length (so_in s') ≤ length (so_in s))%nat
  | Blocked => (length (so_in s') < length (so_in s))%nat
  | Failed => False
  end.
Proof.
  unfold Socket_read. intros H Hq Hn Hi. destruct (Nat.eqb_spec n 0); [done|]. revert H.
  destruct (so_in s) as [|e rest] eqn:Ei; [by unfold input_bytes in Hi; rewrite Ei in Hi|].
  apply Forall_cons in Hq as [He Hq].
  destruct e as [bs| | |]; [|intros [= <- <-]; simpl; by split; [|lia]|done..].
  intros [= <- <-]. simpl in *. case_bool_decide as Hd; simpl.
  - split; [done|]. split; [|lia]. destruct bs, n; done.
  - split; [by constructor|]. split; [|lia]. destruct bs, n; done.
Qed.

(** A frame that is not complete wants more bytes. *)
Lemma frame_wants_more t m rest : stream_ok t → message_fits m → incoming t = frame m ++ rest →
  input_bytes (socket t) ≠ [] ∧
  match read_state t with ReadLenBytes pos bs | ReadBytes pos bs => length (drop pos bs) ≠ 0%nat end.
Proof.
  intros [_ Hrd _] Hm H. unfold incoming, frame in H. unfold message_fits in Hm.
  destruct (read_state t) as [pos bs|pos bs]; cbn [buffered read_ok] in *; rewrite length_drop.
  - destruct Hrd as (Hl & Hpos & _). split; [|lia]. intros Hn. rewrite Hn, app_nil_r in H.
    apply (f_equal length) in H. rewrite length_take in H. simpl in H. lia.
  - destruct Hrd as (Hl & Hpos). rewrite <-!app_assoc in H. apply app_inj_1 in H as [Hb H]; [|done].
    apply length_bytes_inj in Hb; [|lia..]. split.
    + intros Hn. rewrite Hn, app_nil_r in H. apply (f_equal length) in H.
      rewrite length_app, length_take in H. lia.
    + destruct Hpos as [?|[-> _]]; simpl in *; lia.
Qed.

Lemma read_turn_open t m rest : stream_ok t → idle_open t → message_fits m → incoming t = frame m ++ rest →
  let o := read_turn t in
  let t' := turn_stream o in
  idle_open t' ∧ (events t' ≤ events t)%nat ∧
  match o with Return r _ => r = NotReady ∧ (events t' < events t)%nat | _ => True end.
Proof.
  intros Hok (Hq & Hs & Hm) Hfit Hi. destruct (frame_wants_more t m rest Hok Hfit Hi) as [Hne Hn].
  unfold read_turn, events, idle_open. destruct (read_state t) as [pos bs|pos bs];
    destruct (Socket_read (length (drop pos bs)) (socket t)) as [r s'] eqn:Es;
    destruct (Socket_read_open _ _ _ _ Es Hq Hn Hne) as [Hq' Hr];
    destruct r as [[|g got]| |]; try done; try (by destruct Hr);
    try (destruct (_ <? _)%nat); simpl; split_and!; try done; try lia; by destruct Hr.
Qed.

Lemma read_loop_open fuel t m rest : stream_ok t → idle_open t → message_fits m → incoming t = frame m ++ rest →
  let o := run_turns fuel read_turn t in
  let t' := turn_stream o in
  idle_open t' ∧ (events t' ≤ events t)%nat ∧
  match o with Return r _ => r = NotReady ∧ (events t' < events t)%nat | _ => True end.
Proof.
  revert t. induction fuel as [|fuel IH]; intros t Hok Hq Hfit Hi; [done|]. simpl.
  pose proof (read_turn_open t m rest Hok Hq Hfit Hi) as Ho. pose proof (read_turn_spec t Hok) as Hs. simpl in Ho, Hs.
  destruct (read_turn t) as [t1|t1 b|r t1]; simpl in *; [|done..].
  destruct Hs as (Hi1 & Hok1 & _). destruct Ho as (Hq1 & He & _).
  destruct (IH t1 Hok1 Hq1 Hfit) as (? & ? & Hr); [by rewrite <-Hi1|]. split_and!; [done|lia|].
  case_match; try done. destruct Hr. split; [done|lia].
Qed.

(** A poll of an idle stream yields the next message or uses up a pause. *)
Lemma TcpStream_poll_open t m rest : stream_ok t → idle_open t → message_fits m → incoming t = frame m ++ rest →
  ∃ r t', TcpStream_poll t = Some (r, t') ∧ stream_ok t' ∧ idle_open t' ∧ peer_addr t' = peer_addr t ∧
    ((r = Ready (Some (m, peer_addr t)) ∧ incoming t' = rest ∧ (events t' ≤ events t)%nat) ∨
     (r = NotReady ∧ incoming t' = incoming t ∧ (events t' < events t)%nat)).
Proof.
  intros Hok Hq Hfit Hi. destruct (TcpStream_poll_spec t Hok) as (r & t' & Hp & Hok' & _ & Hi' & Hms & Hpa & Ha).
  exists r, t'. do 2 (split; [done|]). revert Hp. unfold TcpStream_poll. pose proof Hq as (_ & Hs & Ho).
  assert (send_turn t = Leave t None) as Hst by (unfold send_turn; by rewrite Hs, Ho).
  unfold send_fuel. cbn [run_turns]. rewrite Hst.
  pose proof (read_loop_open (read_fuel t) t m rest Hok Hq Hfit Hi) as Hl. cbv zeta in Hl.
  pose proof (read_loop_spec (read_fuel t) t Hok ltac:(lia)) as (_ & _ & _ & _ & Hb).
  destruct (run_turns (read_fuel t) read_turn t) as [t1|t1 b|r1 t1]; simpl in Hl, Hb; [done| |];
    intros [= <- <-]; destruct Hl as (Hq1 & He & Hx); (split; [done|]; split; [done|]).
  - destruct Hb as (m' & -> & Hm'). left. simpl in Hi'. rewrite app_nil_r, Hi in Hi'.
    apply frame_app_inj in Hi' as [<- ->]; [|done..]. by rewrite Hpa.
  - destruct Hx as [-> Hlt]. right. simpl in Hi'. by rewrite Hi'.
Qed.

(** [n] polls in a row. *)
Fixpoint poll_times (n : nat) (t : TcpStream (SocketAddr:=SocketAddr)) : option (list bytes * TcpStream) :=
  match n with
  | O => Some ([], t)
  | S n =>
      '(r, t) ← TcpStream_poll t;
      '(bs, t) ← poll_times n t;
      Some (delivered r ++ bs, t)
  end.

Lemma poll_times_delivers n ms t : (events t + length ms ≤ n)%nat → stream_ok t → idle_open t →
  Forall message_fits ms → incoming t = concat (frame <$> ms) →
  ∃ k t', (k ≤ n)%nat ∧ poll_times k t = Some (ms, t') ∧ incoming t' = [].
Proof.
  revert ms t. induction n as [|n IH]; intros ms t Hn Hok Hq Hfit Hi.
  { destruct ms; [|simpl in *; lia]. by exists 0%nat, t. }
  destruct ms as [|m ms]; [exists 0%nat, t; split_and!; [lia|done..]|].
  pose proof Hfit as Hfit0. apply Forall_cons in Hfit as [Hm Hfit].
  pose (rest := concat (frame <$> ms)).
  destruct (TcpStream_poll_open t m rest Hok Hq Hm Hi)
    as (r & t1 & Hp & Hok1 & Hq1 & _ & [(-> & Hi1 & He)|(-> & Hi1 & He)]).
  - destruct (IH ms t1) as (k & t' & Hk & Hd & Hr); [simpl in Hn; lia|done..|]. exists (S k), t'.
    split_and!; [lia| |done]. simpl. rewrite Hp. simpl. by rewrite Hd.
  - destruct (IH (m :: ms) t1) as (k & t' & Hk & Hd & Hr); [lia|done..|by rewrite Hi1|].
    exists (S k), t'. split_and!; [lia| |done]. simpl. rewrite Hp. simpl. by rewrite Hd.
Qed.

(** ** What the two ends see *)

Lemma frame_bytes b : Forall u8 b → Forall u8 (frame b).
Proof.
  intros H. unfold frame. rewrite length_bytes_eq. unfold u8.
  pose proof (Z.mod_pos_bound (Z.of_nat (length b) / 256) 256). pose proof (Z.mod_pos_bound (Z.of_nat (length b)) 256).
  repeat (apply Forall_cons; split; [lia|]). done.
Qed.

Lemma frames_bytes ms : Forall (Forall u8) ms → Forall u8 (concat (frame <$> ms)).
Proof.
  induction 1; [constructor|]. rewrite fmap_cons. cbn [concat]. apply Forall_app. by split; [apply frame_bytes|].
Qed.

Lemma frames_nil ms : concat (frame <$> ms) = [] → ms = [].
Proof. by destruct ms. Qed.

Definition addressed (peer : SocketAddr) (ms : list bytes) : list (bytes * SocketAddr) := (λ m, (m, peer)) <$> ms.

Lemma fresh_stream_ok sock peer ms : Forall u8 (input_bytes sock) →
  stream_ok (TcpStream_from_stream_with_receiver sock peer (addressed peer ms)).
Proof.
  intros H. split; simpl; [|split_and!; [done|lia|constructor]|done].
  unfold to_peer, addressed. simpl. by apply Forall_fmap, Forall_true.
Qed.

Lemma fresh_outgoing sock peer ms :
  outgoing (TcpStream_from_stream_with_receiver sock peer (addressed peer ms)) =
  so_written sock ++ concat (frame <$> ms).
Proof. unfold outgoing, addressed. simpl. by rewrite <-list_fmap_compose. Qed.

(** A poll of a connection ends: neither of its loops runs away, whatever the
    socket does.  It keeps every byte of both directions: what was written, is being written and waits to be
    written stays the same bytes, and what was read and not handed on together with what
    the socket still holds loses the frame of the message that the poll yields and nothing
    else, errors included. *)
Theorem TcpStream_poll_conserves t : stream_ok t →
  ∃ r t', TcpStream_poll t = Some (r, t') ∧ stream_ok t' ∧ outgoing t' = outgoing t ∧
    incoming t = concat (frame <$> delivered r) ++ incoming t' ∧
    Forall message_fits (delivered r) ∧ (∀ b a, r = Ready (Some (b, a)) → a = peer_addr t).
Proof.
  intros H. destruct (TcpStream_poll_spec t H) as (r & t' & ? & ? & ? & ? & ? & _ & ?). by exists r, t'.
Qed.

(** C22: Two streams over one connection implement a queue of messages: however the
    sender's and the receiver's sockets cut the bytes up, block and resume, the messages
    the receiver's polls yield are the first of those given to the sender, whole and in
    order; and they are all of them once the sender has nothing left to write and the
    receiver nothing left to read. *)
Theorem tcp_refines_queue ms ssock speer got sender rsock rpeer bs receiver :
  Forall message_fits ms → Forall (Forall u8) ms → Forall u8 (input_bytes ssock) → so_written ssock = [] →
  polls (TcpStream_from_stream_with_receiver ssock speer (addressed speer ms)) got sender →
  input_bytes rsock = so_written (socket sender) →
  polls (TcpStream_from_stream_with_receiver rsock rpeer []) bs receiver →
  bs `prefix_of` ms ∧
  (outbound_messages sender = [] → unsent (send_state sender) = [] → incoming receiver = [] → bs = ms).
Proof.
  intros Hfit Hu Hsu Hw Hs Hin Hr.
  apply polls_spec in Hs as (_ & Ho & _ & _); [|by apply fresh_stream_ok].
  rewrite fresh_outgoing, Hw in Ho. unfold outgoing in Ho. simpl in Ho.
  assert (Hru : Forall u8 (input_bytes rsock)).
  { rewrite Hin. pose proof (frames_bytes ms Hu) as H. rewrite <-Ho in H. by apply Forall_app in H as [? _]. }
  apply polls_spec in Hr as (_ & _ & Hi & Hb); [|by apply (fresh_stream_ok rsock rpeer [])].
  unfold incoming at 1 in Hi. simpl in Hi. rewrite Hin in Hi. rewrite Hi in Ho. symmetry in Ho. rewrite <-app_assoc in Ho.
  destruct (frames_prefix bs ms _ Hb Hfit Ho) as (rest & -> & Hrest). split; [by exists rest|].
  intros Hn Hss Hrn. rewrite Hn, Hss, Hrn in Hrest. by rewrite (frames_nil rest), app_nil_r.
Qed.

(** C36: Every message that arrives is delivered: on a connection that stays up,
    with the bytes of some messages cut up and delayed in any way, polling at most once
    per message and once per piece yields all of the messages, in order. *)
Theorem tcp_delivers ms sock peer :
  Forall message_fits ms → Forall (Forall u8) ms →
  Forall open_event (so_in sock) → input_bytes sock = concat (frame <$> ms) →
  ∃ k t', (k ≤ length (so_in sock) + length ms)%nat ∧
    poll_times k (TcpStream_from_stream_with_receiver sock peer []) = Some (ms, t') ∧ incoming t' = [].
Proof.
  intros Hfit Hu Ho Hi. apply poll_times_delivers; [done| |done|done|done].
  apply (fresh_stream_ok sock peer []). rewrite Hi. by apply frames_bytes.
Qed.
End tcp_props.

(** ** Examples *)

(** Two messages sent through a socket that takes a byte, then three, blocks, and then
    takes the rest. *)
Definition two_messages : list bytes := [[7; 8; 9]; [1; 2]].
Definition slow_socket : Socket :=
  mkSocket [Accept 1; Accept 3; WouldBlockW; Accept 9; Accept 9; Accept 9; Accept 9; Accept 9; Accept 9] [] [].
Definition pieces : Socket := mkSocket [] [] [Chunk [0]; WouldBlockR; Chunk [3; 7; 8]; Chunk [9; 0; 2]; Chunk [1; 2]].

Definition run_polls (n : nat) (sock : Socket) (ms : list bytes) : option (list bytes * TcpStream (SocketAddr:=nat)) :=
  poll_times n (TcpStream_from_stream_with_receiver sock 53%nat (addressed 53%nat ms)).

Lemma poll_times_polls {A} `{EqDecision A} n (t : TcpStream (SocketAddr:=A)) bs t' :
  poll_times n t = Some (bs, t') → polls t bs t'.
Proof.
  revert t bs. induction n as [|n IH]; intros t bs; simpl; [intros [= <- <-]; constructor|].
  destruct (TcpStream_poll t) as [[r t1]|] eqn:Ep; [simpl|done].
  destruct (poll_times n t1) as [[bs1 t2]|] eqn:En; [simpl|done].
  intros [= <- <-]. by eapply polls_cons; [|apply IH].
Qed.

Ltac small_bytes := repeat constructor; unfold message_fits, u8; simpl; try lia.

Lemma tcp_refines_queue_witness :
  ∃ sender bs receiver,
    run_polls 3 slow_socket two_messages = Some ([], sender) ∧ run_polls 4 pieces [] = Some (bs, receiver) ∧
    input_bytes pieces = so_written (socket sender) ∧ bs = two_messages.
Proof.
  eexists _, _, _. split; [vm_compute; reflexivity|]. split; [vm_compute; reflexivity|]. split; [done|].
  refine (proj2 (tcp_refines_queue two_messages slow_socket 53%nat [] _ pieces 53%nat two_messages _
    _ _ _ _ (poll_times_polls 3 _ _ _ _) _ (poll_times_polls 4 _ _ _ _)) _ _ _);
    try (vm_compute; reflexivity); small_bytes.
Defined.

Lemma tcp_delivers_witness :
  ∃ k t', (k ≤ 7)%nat ∧ poll_times k (TcpStream_from_stream_with_receiver pieces 53%nat []) = Some (two_messages, t') ∧
    incoming t' = [].
Proof. apply (tcp_delivers two_messages pieces 53%nat); [small_bytes|small_bytes|repeat constructor; done|done]. Defined.

Lemma TcpStream_poll_conserves_witness :
  ∃ r t', TcpStream_poll (TcpStream_from_stream_with_receiver pieces 53%nat []) = Some (r, t') ∧
    incoming t' = [0; 3; 7; 8; 9; 0; 2; 1; 2].
Proof.
  destruct (TcpStream_poll_conserves (TcpStream_from_stream_with_receiver pieces 53%nat []))
    as (r & t' & Hp & _ & _ & Hi & _); [apply (fresh_stream_ok pieces 53%nat []); small_bytes|].
  exists r, t'. split; [done|]. vm_compute in Hp. by simplify_eq.
Defined.

(** A stream that has read the length of an empty frame. *)
Definition at_empty_frame (peer : nat) (rest : list read_event) : TcpStream :=
  mkTcp (mkSocket [] [] rest) [] None (ReadBytes 0 []) peer.

Lemma poll_at_empty_frame peer rest :
  TcpStream_poll (at_empty_frame peer rest) = Some (PollErr BrokenPipe, at_empty_frame peer rest).
Proof. done. Qed.

(** A frame of no bytes, which a sender may send, breaks the connection for the receiver:
    the read into an empty buffer returns no bytes, which is taken for the end of the
    stream, and what follows the frame is never read.  A message of 65536 bytes is announced with
    length 0. *)
Theorem tcp_empty_frame (peer : nat) rest :
  frame [] = [0; 0] ∧ length_bytes (Z.to_nat 65536) = [0; 0] ∧
  ∃ t', TcpStream_poll (TcpStream_from_stream_with_receiver (mkSocket [] [] (Chunk (frame []) :: rest)) peer []) =
      Some (PollErr BrokenPipe, t') ∧
    ∀ n, poll_times n t' = Some ([], t').
Proof.
  split; [done|]. split; [by rewrite length_bytes_eq|]. exists (at_empty_frame peer rest). split; [done|].
  induction n as [|n IH]; [done|]. cbn [poll_times]. rewrite poll_at_empty_frame. simpl. by rewrite IH.
Qed.
