(* ===== verification/Udp.v ===== *)
(** * Udp: messages as datagrams

    [UdpStream] of [client/src/udp/udp_stream.rs], the client's streams of
    [udp_client_stream.rs] and [tcp_client_stream.rs], which take the addresses off, and
    the binding of a random port.  The socket is a script of what its next calls do. *)

From S2P Require Import Prelude Streams Tcp.

Open Scope Z_scope.

(** ** The socket *)

(** [poll_write], and what [send_to] does when the socket is ready. *)
Inductive udp_write : Type := Writable (r : nb ()) | NotWritable.

Section udp.
Context {SocketAddr : Type} `{EqDecision SocketAddr}.

(** What [recv_from] finds. *)
Inductive udp_read : Type := Datagram (bs : bytes) (src : SocketAddr) | NoDatagram | RecvError.

Record UdpSocket : Type := mkUdpSocket {
  us_out : list udp_write;
  us_sent : list (bytes * SocketAddr);
  us_in : list udp_read;
}.

(** ** The stream *)

Record UdpStream : Type := mkUdp {
  u_socket : UdpSocket;
  u_outbound_messages : list (bytes * SocketAddr);
}.

Definition UdpStream_with_bound (s : UdpSocket) : UdpStream := mkUdp s [].

(** The loop over the messages to send: a message leaves the queue when the socket has taken
    it.  The first component is what [poll] returns when the loop does not end. *)
Fixpoint udp_send_loop (queue : list (bytes * SocketAddr)) (s : UdpSocket) :
    option (Poll (bytes * SocketAddr)) * UdpStream :=
  match queue with
  | [] => (None, mkUdp s [])
  | message :: rest =>
      match us_out s with
      | [] => (Some NotReady, mkUdp s queue)
      | NotWritable :: out | Writable Blocked :: out =>
          (Some NotReady, mkUdp (mkUdpSocket out (us_sent s) (us_in s)) queue)
      | Writable Failed :: out =>
          (Some (PollErr SocketError), mkUdp (mkUdpSocket out (us_sent s) (us_in s)) queue)
      | Writable (Done _) :: out => udp_send_loop rest (mkUdpSocket out (us_sent s ++ [message]) (us_in s))
      end
  end.

(** [recv_from] into a buffer of [2048] bytes: what does not fit is lost. *)
Definition recv_from (s : UdpSocket) : nb (bytes * SocketAddr) * UdpSocket :=
  match us_in s with
  | [] => (Blocked, s)
  | Datagram bs src :: rest => (Done (take (Z.to_nat 2048) bs, src), mkUdpSocket (us_out s) (us_sent s) rest)
  | NoDatagram :: rest => (Blocked, mkUdpSocket (us_out s) (us_sent s) rest)
  | RecvError :: rest => (Failed, mkUdpSocket (us_out s) (us_sent s) rest)
  end.

Definition UdpStream_poll (u : UdpStream) : Poll (bytes * SocketAddr) * UdpStream :=
  match udp_send_loop (u_outbound_messages u) (u_socket u) with
  | (Some r, u) => (r, u)
  | (None, u) =>
      let '(r, s) := recv_from (u_socket u) in
      (match r with Done item => Ready (Some item) | Blocked => NotReady | Failed => PollErr SocketError end,
       mkUdp s (u_outbound_messages u))
  end.

#[global] Instance UdpStream_stream : BufStream SocketAddr UdpStream := {
  stream_poll _ u := Some (UdpStream_poll u);
  stream_send message u := mkUdp (u_socket u) (u_outbound_messages u ++ [message]);
}.

(** ** The client's side *)

Record UdpClientStream : Type := mkUdpClient { name_server : SocketAddr; udp_stream : UdpStream }.

(** A source that is not the name server is only logged. *)
Definition UdpClientStream_poll (c : UdpClientStream) : Poll bytes * UdpClientStream :=
  let '(r, u) := UdpStream_poll (udp_stream c) in
  (match r with
   | Ready (Some (buffer, _)) => Ready (Some buffer)
   | Ready None => Ready None
   | NotReady => NotReady
   | PollErr e => PollErr e
   end, mkUdpClient (name_server c) u).

Definition TcpClientStream_poll (t : TcpStream (SocketAddr:=SocketAddr)) : option (Poll bytes * TcpStream) :=
  '(r, t) ← TcpStream_poll t;
  Some (match r with
        | Ready (Some (buffer, _)) => Ready (Some buffer)
        | Ready None => Ready None
        | NotReady => NotReady
        | PollErr e => PollErr e
        end, t).

(** [BufClientStreamHandle::send]: the name server is where everything goes. *)
Definition BufClientStreamHandle_send {S} `{BufStream SocketAddr S} (name_server : SocketAddr) (buffer : bytes)
    (s : S) : S := stream_send (buffer, name_server) s.

(** ** A random port *)

(** [port k] is the [k]th of [rand.gen_range(1025, 65535)], and [bind] tells whether a port is
    free; the port that was bound, if one was within ten attempts. *)
Fixpoint bind_attempts (attempts : nat) (port : nat → Z) (bind : Z → bool) (k : nat) : option Z :=
  match attempts with
  | O => None
  | S attempts => if bind (port k) then Some (port k) else bind_attempts attempts port bind (S k)
  end.
Definition NextRandomUdpSocket_poll (port : nat → Z) (bind : Z → bool) : option Z := bind_attempts 10 port bind 0.

(** ** Theorems *)

Lemma udp_send_loop_spec queue s r u : udp_send_loop queue s = (r, u) →
  us_sent (u_socket u) ++ u_outbound_messages u = us_sent s ++ queue ∧ us_in (u_socket u) = us_in s ∧
  us_sent s `prefix_of` us_sent (u_socket u) ∧
  match r with None => u_outbound_messages u = [] | Some r => r = NotReady ∨ r = PollErr SocketError end.
Proof.
  revert s. induction queue as [|message rest IH]; intros s; simpl; [by intros [= <- <-]|].
  destruct (us_out s) as [|[[[]| |]|] out]; try (intros [= <- <-]; simpl; by auto).
  intros (H1 & H2 & H3 & H4)%IH. rewrite H1. simpl in *. rewrite <-app_assoc. split_and!; try done.
  etrans; [|exact H3]. by eexists.
Qed.

(** A poll of a UDP stream sends each message that was queued at most once and in
    order, whether the socket blocks or fails; it yields at most one datagram, the first that
    waits, cut after 2048 bytes and with its source, and only once all messages are sent. *)
Theorem UdpStream_poll_spec u r u' : UdpStream_poll u = (r, u') →
  us_sent (u_socket u') ++ u_outbound_messages u' = us_sent (u_socket u) ++ u_outbound_messages u ∧
  us_sent (u_socket u) `prefix_of` us_sent (u_socket u') ∧
  match r with
  | Ready (Some (b, src)) =>
      u_outbound_messages u' = [] ∧
      ∃ bs rest, us_in (u_socket u) = Datagram bs src :: rest ∧ us_in (u_socket u') = rest ∧ b = take (Z.to_nat 2048) bs
  | Ready None => False
  | NotReady | PollErr _ => ∃ before, us_in (u_socket u) = before ++ us_in (u_socket u') ∧
      Forall (λ e, match e with Datagram _ _ => False | _ => True end) before
  end.
Proof.
  unfold UdpStream_poll. destruct (udp_send_loop _ _) as [o u1] eqn:E.
  apply udp_send_loop_spec in E as (H1 & H2 & H3 & H4). rewrite <-H1, <-H2. destruct o as [r1|].
  { intros [= <- <-]. split_and!; try done. destruct H4 as [-> | ->]; exists []; by split; [|constructor]. }
  unfold recv_from. destruct (us_in (u_socket u1)) as [|[bs src| |] rest] eqn:Ei; intros [= <- <-]; simpl; split_and!; try done.
  - exists []. rewrite Ei. by split; [|constructor].
  - by eexists _, _.
  - exists [NoDatagram]. by repeat constructor.
  - exists [RecvError]. by repeat constructor.
Qed.

(** A UDP client takes a reply from whoever sends it: the source of a datagram is
    not compared with the name server it has asked, except for the log. *)
Theorem UdpClientStream_any_source c bs src rest :
  u_outbound_messages (udp_stream c) = [] → us_in (u_socket (udp_stream c)) = Datagram bs src :: rest →
  Z.of_nat (length bs) ≤ 2048 →
  (UdpClientStream_poll c).1 = Ready (Some bs).
Proof.
  intros Hq Hi Hl. unfold UdpClientStream_poll, UdpStream_poll. rewrite Hq. simpl. unfold recv_from. rewrite Hi.
  cbn [fst]. rewrite take_ge by lia. done.
Qed.

Lemma bind_attempts_spec n port bind k p : (∀ k, 1025 ≤ port k < 65535) →
  bind_attempts n port bind k = Some p → 1025 ≤ p < 65535 ∧ bind p = true.
Proof.
  intros Hp. revert k. induction n as [|n IH]; intros k; simpl; [done|].
  destruct (bind (port k)) eqn:E; [|apply IH]. intros [= <-]. done.
Qed.
End udp.

Arguments UdpSocket : clear implicits.
Arguments UdpStream : clear implicits.

Lemma UdpStream_poll_spec_witness :
  let u := mkUdp (mkUdpSocket [Writable (Done ()); NotWritable] [] [Datagram [1] 53%nat]) [([7], 53%nat); ([8], 53%nat)] in
  us_sent (u_socket (UdpStream_poll u).2) ++ u_outbound_messages (UdpStream_poll u).2 = [([7], 53%nat); ([8], 53%nat)].
Proof. intros u. by destruct (UdpStream_poll_spec u _ _ (surjective_pairing _)) as [-> _]. Defined.

Lemma UdpClientStream_any_source_witness :
  (UdpClientStream_poll (mkUdpClient 53%nat (UdpStream_with_bound (mkUdpSocket [] [] [Datagram [1; 2] 666%nat])))).1 =
    Ready (Some [1; 2]).
Proof. by eapply (UdpClientStream_any_source _ [1; 2] 666%nat []). Defined.
