(* ===== verification/ClientFuture.v ===== *)
(** * ClientFuture: requests in flight

    [ClientFuture] and [BasicClientHandle] of [client/src/client/client_future.rs]: requests
    are taken from a channel, given an id, signed when they are updates, sent, and kept in
    a table until a reply with their id, a timeout or a cancellation ends them.

    A request's [Complete] is a ticket; completing it is an entry in a log.  What the
    reactor, the clock, the stream and the random numbers do is an argument of the poll, and the theorems
    hold for all of it: no request is lost, answered twice or given the reply to an
    id it was not sent with, and none outlives its timeout. *)

From S2P Require Import Prelude Codec Wire Domain Enums Header RData RDataProps Resource Message RecordSet.
From S2P Require Import KeyPair Signer Update BTree Journal Authority AuthorityProps ZoneInstances ClientHandle.

Open Scope Z_scope.

(** ** The environment *)

(** [rand.gen_range(0_u16, u16::max_value())], the numbers in the order they are drawn; the
    upper bound is not included. *)
Class Rng := {
  gen_range : nat → Z;
  gen_range_bound k : 0 ≤ gen_range k < 65535;
}.

(** The sending half of a oneshot channel. *)
Abbreviation ticket := nat (only parsing).

(** What one poll finds: the time, which requests their callers have given up, whether a timer
    fails or cannot be made, and whether the other end of the stream's handle is there. *)
Record Tick : Type := mkTick {
  t_now : Z;
  t_utc : Z;
  t_poll_cancel : ticket → bool;
  t_timeout_error : ticket → bool;
  t_timer_new : ticket → bool;
  t_sink : ticket → bool;
}.

(** What a poll of the stream yields. *)
Inductive stream_event : Type := Buffer (b : bytes) | StreamNotReady | StreamEnd | StreamError.

(** ** The future *)

(** [cf_sent] is what [stream_handle] was given, with the ticket and the id of each message;
    [cf_completed] is what the tickets were completed with; [cf_draws] counts the random
    numbers drawn; [cf_unparked] says that the task has woken itself. *)
Record ClientFuture `{Crypto} : Type := mkFuture {
  cf_stream : list stream_event;
  cf_timeout_duration : Z;
  cf_sent : list (ticket * Z * bytes);
  cf_new_receiver : list (Message * ticket);
  cf_senders : bool;
  cf_active_requests : gmap Z (ticket * Z);
  cf_signer : option Signer;
  cf_completed : list (ticket * res client_error Message);
  cf_draws : nat;
  cf_unparked : bool;
}.

Section client_future.
Context `{L : Lowercase} `{HO : HashOrder} `{C : Crypto} `{R : Rng}.

Definition ClientFuture_with_timeout (stream : list stream_event) (timeout_duration : Z) (signer : option Signer) :
    ClientFuture :=
  mkFuture _ stream timeout_duration [] [] true ∅ signer [] 0 false.

Definition ClientFuture_new (stream : list stream_event) (signer : option Signer) : ClientFuture :=
  ClientFuture_with_timeout stream 5000 signer.

Definition set_stream (self : ClientFuture) (stream : list stream_event) : ClientFuture :=
  mkFuture _ stream (cf_timeout_duration self) (cf_sent self) (cf_new_receiver self) (cf_senders self)
    (cf_active_requests self) (cf_signer self) (cf_completed self) (cf_draws self) (cf_unparked self).
Definition set_sent (self : ClientFuture) (sent : list (ticket * Z * bytes)) : ClientFuture :=
  mkFuture _ (cf_stream self) (cf_timeout_duration self) sent (cf_new_receiver self) (cf_senders self)
    (cf_active_requests self) (cf_signer self) (cf_completed self) (cf_draws self) (cf_unparked self).
Definition set_new_receiver (self : ClientFuture) (queue : list (Message * ticket)) (senders : bool) : ClientFuture :=
  mkFuture _ (cf_stream self) (cf_timeout_duration self) (cf_sent self) queue senders
    (cf_active_requests self) (cf_signer self) (cf_completed self) (cf_draws self) (cf_unparked self).
Definition set_active (self : ClientFuture) (active : gmap Z (ticket * Z)) : ClientFuture :=
  mkFuture _ (cf_stream self) (cf_timeout_duration self) (cf_sent self) (cf_new_receiver self) (cf_senders self)
    active (cf_signer self) (cf_completed self) (cf_draws self) (cf_unparked self).
Definition set_rng (self : ClientFuture) (draws : nat) (unparked : bool) : ClientFuture :=
  mkFuture _ (cf_stream self) (cf_timeout_duration self) (cf_sent self) (cf_new_receiver self) (cf_senders self)
    (cf_active_requests self) (cf_signer self) (cf_completed self) draws unparked.
Definition complete (req : ticket) (r : res client_error Message) (self : ClientFuture) : ClientFuture :=
  mkFuture _ (cf_stream self) (cf_timeout_duration self) (cf_sent self) (cf_new_receiver self) (cf_senders self)
    (cf_active_requests self) (cf_signer self) (cf_completed self ++ [(req, r)]) (cf_draws self) (cf_unparked self).

Definition modify {E} (f : ClientFuture → ClientFuture) : M ClientFuture E () := λ self, (Ok (), f self).

(** ** Cancellation *)

(** The caller has dropped its half, the timeout has run out, or it has failed. *)
Definition canceled (tick : Tick) (request : ticket * Z) : bool :=
  t_poll_cancel tick request.1 || (request.2 <=? t_now tick) || t_timeout_error tick request.1.

Definition drop_one (self : ClientFuture) (id : Z) : ClientFuture :=
  match cf_active_requests self !! id with
  | Some (req, _) =>
      complete req (Err ClientTimeout) (set_active self (delete id (cf_active_requests self)))
  | None => self
  end.

Definition drop_cancelled (tick : Tick) (self : ClientFuture) : ClientFuture :=
  let canceled := filter (λ '(_, request), canceled tick request = true) (cf_active_requests self) in
  foldl drop_one self (hash_order canceled).*1.

(** ** Ids *)

Fixpoint draw_id (tries : nat) (active : gmap Z (ticket * Z)) (draws : nat) : option Z * nat :=
  match tries with
  | O => (None, draws)
  | S tries =>
      let id := gen_range draws in
      match active !! id with
      | None => (Some id, S draws)
      | Some _ => draw_id tries active (S draws)
      end
  end.

Definition next_random_query_id {E} : M ClientFuture E (option Z) := λ self,
  let '(id, draws) := draw_id 100 (cf_active_requests self) (cf_draws self) in
  (Ok id, set_rng self draws (match id with Some _ => cf_unparked self | None => true end)).

(** ** Requests *)

(** An update is signed when there is a signer. *)
Definition sign_update (tick : Tick) (signer : option Signer) (message : Message) : res dnssec_error Message :=
  match h_op_code (m_header message), signer with
  | OpCode.Update, Some signer => Message_sign message signer (as_u32 (t_utc tick))
  | _, _ => Ok message
  end.

(** What dropping an uncompleted [Complete] means to the caller. *)
Definition drop_complete (req : ticket) : ClientFuture → ClientFuture := complete req (Err ClientCanceled).

(** The body of the first loop for a message that was popped.  An early return or a
    panic drops [req]. *)
Definition send_request (tick : Tick) (message : Message) (req : ticket) (query_id : Z) :
    M ClientFuture client_error () := λ self,
  let message := Message_id message query_id in
  match sign_update tick (cf_signer self) message with
  | Err e => (Ok (), complete req (Err (ClientDnsSec e)) self)
  | Panic => (Panic, drop_complete req self)
  | Diverge => (Diverge, drop_complete req self)
  | Ok message =>
      if negb (t_timer_new tick req) then (Ok (), complete req (Err ClientIo) self)
      else
        let timeout := t_now tick + cf_timeout_duration self in
        match Message_to_vec message with
        | Ok buffer =>
            if t_sink tick req then
              let self := set_sent self (cf_sent self ++ [(req, query_id, buffer)]) in
              (Ok (), set_active self (<[h_id (m_header message) := (req, timeout)]> (cf_active_requests self)))
            else (Err ClientIo, drop_complete req self)
        | Err e => (Ok (), complete req (Err (ClientEncode e)) self)
        | Panic => (Panic, drop_complete req self)
        | Diverge => (Diverge, drop_complete req self)
        end
  end.

(** The loop over [new_receiver], whose messages are [queue]. *)
Fixpoint send_requests (tick : Tick) (queue : list (Message * ticket)) : M ClientFuture client_error () :=
  match queue with
  | [] => ret ()
  | (message, req) :: queue =>
      let* query_id := next_random_query_id in
      match query_id with
      | None => ret ()
      | Some query_id =>
          modify (λ self, set_new_receiver self queue (cf_senders self)) ;;;
          send_request tick message req query_id ;;;
          send_requests tick queue
      end
  end.

(** ** Replies *)

Definition handle_buffer (buffer : bytes) : M ClientFuture client_error () := λ self,
  match Message_from_vec buffer with
  | Ok message =>
      let id := h_id (m_header message) in
      match cf_active_requests self !! id with
      | Some (req, _) =>
          (Ok (), complete req (Ok message) (set_active self (delete id (cf_active_requests self))))
      | None => (Ok (), self)
      end
  | Err _ => (Ok (), self)
  | Panic => (Panic, self)
  | Diverge => (Diverge, self)
  end.

Definition QOS_MAX_RECEIVE_MSGS : nat := 100.

(** [n] more turns, the next one being turn [i]. *)
Fixpoint receive_replies (n i messages_received : nat) : M ClientFuture client_error nat := λ self,
  match n with
  | O => (Ok messages_received, self)
  | S n =>
      match cf_stream self with
      | [] | StreamEnd :: _ => (Ok messages_received, self)
      | StreamNotReady :: stream => (Ok messages_received, set_stream self stream)
      | StreamError :: stream => (Err ClientIo, set_stream self stream)
      | Buffer buffer :: stream =>
          (handle_buffer buffer ;;; receive_replies n (S i) i) (set_stream self stream)
      end
  end.

(** ** The poll *)

(** The end of the poll: whether the future is done. *)
Definition finish_poll (messages_received : nat) : M ClientFuture client_error bool :=
  let* done := gets (λ self, bool_decide (cf_new_receiver self = []) && negb (cf_senders self)) in
  let* active := gets cf_active_requests in
  if bool_decide (active = ∅) && done then ret true
  else if (messages_received =? QOS_MAX_RECEIVE_MSGS)%nat then
    modify (λ self, set_rng self (cf_draws self) true) ;;; ret false
  else ret false.

Definition poll_channels (tick : Tick) : M ClientFuture client_error bool :=
  let* queue := gets cf_new_receiver in
  send_requests tick queue ;;;
  let* messages_received := receive_replies QOS_MAX_RECEIVE_MSGS 0 0 in
  finish_poll messages_received.

Definition ClientFuture_poll (tick : Tick) : M ClientFuture client_error bool :=
  modify (drop_cancelled tick) ;;;
  poll_channels tick.

(** The channel of the handles: a message is queued for the future. *)
Definition BasicClientHandle_send (message : Message) (req : ticket) (self : ClientFuture) : ClientFuture :=
  set_new_receiver self (cf_new_receiver self ++ [(message, req)]) (cf_senders self).

(** The tickets the future answers for. *)
Definition tickets (self : ClientFuture) : list ticket :=
  (cf_new_receiver self).*2 ++ (map_to_list (cf_active_requests self)).*2.*1 ++ (cf_completed self).*1.
End client_future.

(** ** No request is lost *)

Section props.
Context `{L : Lowercase} `{HO : HashOrder} `{C : Crypto} `{R : Rng}.
Implicit Types self : ClientFuture.

(** Each request in the table was sent with the id it is found by, and so was each that
    was answered with the id of its reply; a request that was sent and is not completed is in the table
    under its id. *)
Record ids_ok self : Prop := {
  ids_active id req d : cf_active_requests self !! id = Some (req, d) → (req, id) ∈ (cf_sent self).*1;
  ids_replied req m : (req, Ok m) ∈ cf_completed self → (req, h_id (m_header m)) ∈ (cf_sent self).*1;
  ids_range : Forall (λ id, 0 ≤ id < 65535) (cf_sent self).*1.*2;
  ids_waiting req id : (req, id) ∈ (cf_sent self).*1 →
    req ∈ (cf_completed self).*1 ∨ ∃ d, cf_active_requests self !! id = Some (req, d);
}.

(** What a piece of the poll does to the requests. *)
Record advances self self' : Prop := {
  adv_tickets : tickets self' ≡ₚ tickets self;
  adv_completed : cf_completed self `prefix_of` cf_completed self';
  adv_sent : cf_sent self `prefix_of` cf_sent self';
  adv_ids : ids_ok self → ids_ok self';
}.

#[global] Instance advances_preorder : PreOrder advances.
Proof.
  split.
  - intros self. by split.
  - intros a b c [H1 H2 H3 H4] [G1 G2 G3 G4]. split; [by rewrite G1|by etrans..|auto].
Qed.

Lemma advances_bind {A B} (m : M ClientFuture client_error A) (k : A → M ClientFuture client_error B) self :
  advances self (m self).2 → (∀ a self', advances self' (k a self').2) → advances self (bind m k self).2.
Proof. unfold bind. destruct (m self) as [[] self']; simpl; intros H Hk; [by etrans|done..]. Qed.

Lemma tickets_delete self id req d r : cf_active_requests self !! id = Some (req, d) →
  tickets (complete req r (set_active self (delete id (cf_active_requests self)))) ≡ₚ tickets self.
Proof.
  intros H. unfold tickets. simpl. apply map_to_list_delete in H. rewrite <-H. simpl.
  rewrite fmap_app. simpl. by rewrite (app_assoc _ _ [req]), <-Permutation_cons_append.
Qed.

Lemma tickets_insert self id req d : cf_active_requests self !! id = None →
  tickets (set_active self (<[id := (req, d)]> (cf_active_requests self))) ≡ₚ req :: tickets self.
Proof.
  intros H. unfold tickets. simpl. rewrite map_to_list_insert by done. simpl. by rewrite <-Permutation_middle.
Qed.

Lemma tickets_complete self req r : tickets (complete req r self) ≡ₚ req :: tickets self.
Proof. unfold tickets. simpl. rewrite fmap_app. simpl. by rewrite !app_assoc, <-Permutation_cons_append. Qed.

(** A request leaves the table with an error or with a reply that has its id. *)
Lemma advances_remove self id req d r : cf_active_requests self !! id = Some (req, d) →
  (∀ m, r = Ok m → h_id (m_header m) = id) →
  advances self (complete req r (set_active self (delete id (cf_active_requests self)))).
Proof.
  intros H Hr. split; [by eapply tickets_delete|by eexists|done|]. intros [Ha Hc Hs Hw]. split; simpl; [| |done|].
  - intros id' req' d' [_ H']%lookup_delete_Some. eauto.
  - intros req' m [?|Hm]%elem_of_app; [eauto|]. apply list_elem_of_singleton in Hm as [= -> <-].
    rewrite (Hr m) by done. eauto.
  - intros req' id' Hin. rewrite fmap_app, elem_of_app. destruct (Hw _ _ Hin) as [?|[d' Hd']]; [by left; left|].
    destruct (decide (id' = id)) as [->|Hne].
    + left. right. apply list_elem_of_singleton. simpl. congruence.
    + right. exists d'. by rewrite lookup_delete_ne.
Qed.

Lemma advances_drop_one self id : advances self (drop_one self id).
Proof.
  unfold drop_one. destruct (cf_active_requests self !! id) as [[req d]|] eqn:H; [|done].
  by eapply advances_remove.
Qed.

Lemma advances_foldl self ids : advances self (foldl drop_one self ids).
Proof.
  revert self. induction ids as [|id ids IH]; intros self; simpl; [done|]. etrans; [apply advances_drop_one|apply IH].
Qed.

Lemma advances_handle_buffer buffer self : advances self (handle_buffer buffer self).2.
Proof.
  unfold handle_buffer. destruct (Message_from_vec buffer) as [m| | |]; simpl; try done.
  destruct (cf_active_requests self !! h_id (m_header m)) as [[req d]|] eqn:H; [|done].
  eapply advances_remove; [done|]. by intros ? [= ->].
Qed.

Lemma advances_set_stream self stream : advances self (set_stream self stream).
Proof. by split; [| | |intros []; split]. Qed.

Lemma advances_set_rng self n b : advances self (set_rng self n b).
Proof. by split; [| | |intros []; split]. Qed.

Lemma advances_receive n i k self : advances self (receive_replies n i k self).2.
Proof.
  revert i k self. induction n as [|n IH]; intros i k self; simpl; [done|].
  destruct (cf_stream self) as [|[b| | |] stream]; simpl; try done; try apply advances_set_stream.
  etrans; [apply (advances_set_stream self stream)|]. apply advances_bind; [apply advances_handle_buffer|by intros].
Qed.

(** ** Ids *)

Lemma draw_id_spec tries (active : gmap Z (nat * Z)) draws id draws' :
  draw_id tries active draws = (Some id, draws') → active !! id = None ∧ 0 ≤ id < 65535.
Proof.
  revert draws. induction tries as [|tries IH]; intros draws; simpl; [done|].
  destruct (active !! gen_range draws) eqn:E; [apply IH|]. intros [= <- <-]. split; [done|apply gen_range_bound].
Qed.

(** Signing adds a record and keeps the header's id. *)
Lemma sign_update_id tick signer m m' : sign_update tick signer m = Ok m' → h_id (m_header m') = h_id (m_header m).
Proof.
  unfold sign_update. destruct (h_op_code (m_header m)); try (by intros [= <-]).
  destruct signer; [|by intros [= <-]]. unfold Message_sign, Message_add_sig0, rbind. intros H.
  repeat case_match; simplify_eq; done.
Qed.

(** A request that is not in the table ends with an error. *)
Lemma ids_ok_failed self self' req e :
  cf_sent self' = cf_sent self → cf_active_requests self' = cf_active_requests self →
  cf_completed self' = cf_completed self ++ [(req, Err e)] → ids_ok self → ids_ok self'.
Proof.
  intros Hs Ha Hc [H1 H2 H3 H4]. split; rewrite ?Hs, ?Ha, ?Hc; [done| |done|].
  - intros req' m' [?|Hm]%elem_of_app; [eauto|]. by apply list_elem_of_singleton in Hm.
  - intros req' id' Hin. rewrite fmap_app, elem_of_app. destruct (H4 _ _ Hin) as [?|?]; auto.
Qed.

(** A request is sent with an id that none in the table has. *)
Lemma ids_ok_sent self self' req id d buffer :
  cf_active_requests self !! id = None → 0 ≤ id < 65535 →
  cf_sent self' = cf_sent self ++ [(req, id, buffer)] →
  cf_active_requests self' = <[id := (req, d)]> (cf_active_requests self) →
  cf_completed self' = cf_completed self → ids_ok self → ids_ok self'.
Proof.
  intros Hid Hb Hs Ha Hc [H1 H2 H3 H4]. split; rewrite ?Hs, ?Ha, ?Hc, ?fmap_app; simpl.
  - intros id' req' d'. rewrite lookup_insert_Some, elem_of_app, list_elem_of_singleton.
    intros [[-> [= -> _]]|[_ ?]]; [by right|left; eauto].
  - intros req' m'' ?. apply elem_of_app. left. eauto.
  - apply Forall_app. split; [done|]. apply Forall_singleton. lia.
  - intros req' id'. rewrite elem_of_app, list_elem_of_singleton. intros [Hin|[= -> ->]].
    + destruct (H4 _ _ Hin) as [?|[d' Hd]]; [by left|right]. exists d'. rewrite lookup_insert_ne by congruence. done.
    + right. eexists. apply lookup_insert_eq.
Qed.

(** A request that was popped is sent or completed. *)
Lemma advances_send_request tick m req id self self0 :
  cf_active_requests self !! id = None → 0 ≤ id < 65535 →
  tickets self0 ≡ₚ req :: tickets self → cf_completed self0 = cf_completed self → cf_sent self0 = cf_sent self →
  cf_active_requests self0 = cf_active_requests self →
  advances self0 (send_request tick m req id self).2.
Proof.
  intros Hid Hb Ht Hc Hs Ha.
  assert (Hdone : ∀ e, advances self0 (complete req (Err e) self)).
  { intros e. split; [by rewrite tickets_complete|rewrite Hc; by eexists|by rewrite Hs|].
    apply (ids_ok_failed _ _ req e); simpl; congruence. }
  unfold send_request, drop_complete. destruct (sign_update tick _ _) as [m'| | |] eqn:Es; simpl; try apply Hdone.
  apply sign_update_id in Es. cbn in Es.
  destruct (t_timer_new tick req); simpl; [|apply Hdone].
  destruct (Message_to_vec m') as [buffer| | |]; simpl; try apply Hdone.
  destruct (t_sink tick req); simpl; [|apply Hdone]. rewrite Es. split; simpl.
  - rewrite Ht. apply (tickets_insert (set_sent self _)). done.
  - by rewrite Hc.
  - rewrite Hs. by eexists.
  - eapply (ids_ok_sent self0 _ req id); [by rewrite Ha|done|simpl; by rewrite Hs|simpl; by rewrite Ha|by rewrite Hc].
Qed.

Lemma advances_send_requests tick queue self : cf_new_receiver self = queue →
  advances self (send_requests tick queue self).2.
Proof.
  revert self. induction queue as [|[m req] queue IH]; intros self Hq; simpl; [done|].
  unfold bind at 1. unfold next_random_query_id. destruct (draw_id 100 _ _) as [id draws] eqn:Ed.
  destruct id as [id|]; simpl; [|apply advances_set_rng]. apply draw_id_spec in Ed as [Hid Hb].
  etrans; [apply (advances_set_rng self draws (cf_unparked self))|]. unfold bind, modify.
  set (self1 := set_rng self draws (cf_unparked self)).
  set (self2 := set_new_receiver self1 queue (cf_senders self1)).
  pose proof (advances_send_request tick m req id self2 self1 Hid Hb) as Hs.
  assert (cf_new_receiver (send_request tick m req id self2).2 = queue) as Hq'.
  { unfold send_request. repeat case_match; done. }
  destruct (send_request tick m req id self2) as [r self3]. simpl in Hs, Hq'.
  etrans; [apply Hs; try done|].
  { unfold tickets. simpl. rewrite Hq. simpl. done. }
  destruct r; simpl; [by apply IH|done..].
Qed.

Lemma advances_finish k self : advances self (finish_poll k self).2.
Proof.
  unfold finish_poll, bind, gets, ret, modify. simpl. repeat case_match; simpl; simplify_eq; try done.
  apply advances_set_rng.
Qed.

Lemma poll_channels_advances tick self : advances self (poll_channels tick self).2.
Proof.
  unfold poll_channels, bind at 1, gets. apply advances_bind; [by apply advances_send_requests|intros [] self2].
  apply advances_bind; [apply advances_receive|intros k self3]. apply advances_finish.
Qed.

Lemma ClientFuture_poll_eq tick self : ClientFuture_poll tick self = poll_channels tick (drop_cancelled tick self).
Proof. done. Qed.

Lemma ClientFuture_poll_advances tick self : advances self (ClientFuture_poll tick self).2.
Proof. rewrite ClientFuture_poll_eq. etrans; [apply advances_foldl|apply poll_channels_advances]. Qed.

(** ** The life of a client *)

(** What happens to a client: a caller sends a request with a ticket of its own, the last handle is
    dropped, the stream has something, the future is polled. *)
Inductive client_step : ClientFuture → ClientFuture → Prop :=
  | step_send m req self :
      cf_senders self = true → req ∉ tickets self → client_step self (BasicClientHandle_send m req self)
  | step_close self : client_step self (set_new_receiver self (cf_new_receiver self) false)
  | step_stream events self : client_step self (set_stream self (cf_stream self ++ events))
  | step_poll tick self : client_step self (ClientFuture_poll tick self).2.

(** Everything a reachable client satisfies. *)
Lemma client_invariant stream timeout signer self :
  rtc client_step (ClientFuture_with_timeout stream timeout signer) self →
  ids_ok self ∧ NoDup (tickets self).
Proof.
  intros H. remember (ClientFuture_with_timeout stream timeout signer) as self0 eqn:E.
  assert (H0 : ids_ok self0 ∧ NoDup (tickets self0)).
  { subst. split; [split; simpl; [done|by intros ? ? ?%not_elem_of_nil|constructor|by intros ? ? ?%not_elem_of_nil]|constructor]. }
  clear E. induction H as [self|a b c Hs _ IH]; [done|]. apply IH. destruct H0 as [[H1 H2 H3 H4] Hd]. clear IH.
  destruct Hs as [m req self _ Hn|self|events self|tick self]; [|by split..|].
  - split; [by split|]. unfold tickets, BasicClientHandle_send. simpl. rewrite fmap_app, <-app_assoc. simpl.
    rewrite <-Permutation_middle. by constructor.
  - pose proof (ClientFuture_poll_advances tick self) as [Ht _ _ Hi]. split; [by apply Hi|]. by rewrite Ht.
Qed.

(** ** Timeouts *)

Lemma drop_one_active self id id' :
  cf_active_requests (drop_one self id) !! id' = if decide (id' = id) then None else cf_active_requests self !! id'.
Proof.
  unfold drop_one. destruct (_ !! id) as [[req d]|] eqn:E; case_decide; subst; simpl; try done.
  - apply lookup_delete_eq.
  - by apply lookup_delete_ne.
Qed.

Lemma foldl_drop_active ids self id :
  cf_active_requests (foldl drop_one self ids) !! id =
  if decide (id ∈ ids) then None else cf_active_requests self !! id.
Proof.
  revert self. induction ids as [|id' ids IH]; intros self; [case_decide; set_solver|simpl].
  rewrite IH, drop_one_active. repeat case_decide; set_solver.
Qed.

Lemma drop_one_timeout self id req d : cf_active_requests self !! id = Some (req, d) →
  (req, Err ClientTimeout) ∈ cf_completed (drop_one self id).
Proof.
  intros H. unfold drop_one. rewrite H. simpl. apply elem_of_app. right. by apply list_elem_of_singleton.
Qed.

Lemma prefix_elem {A} (x : A) l k : l `prefix_of` k → x ∈ l → x ∈ k.
Proof. intros [? ->] ?. apply elem_of_app. by left. Qed.

Lemma foldl_drop_timeout ids self id req d : cf_active_requests self !! id = Some (req, d) → id ∈ ids →
  (req, Err ClientTimeout) ∈ cf_completed (foldl drop_one self ids).
Proof.
  revert self. induction ids as [|id' ids IH]; intros self H Hin; simpl; [by apply not_elem_of_nil in Hin|].
  destruct (decide (id' = id)) as [->|Hne].
  - eapply prefix_elem; [apply adv_completed, advances_foldl|]. by eapply drop_one_timeout.
  - apply IH; [by rewrite drop_one_active, decide_False by done|]. apply elem_of_cons in Hin as [?|?]; [congruence|done].
Qed.

Lemma canceled_ids tick self id :
  id ∈ (hash_order (filter (λ '(_, request), canceled tick request = true) (cf_active_requests self))).*1 ↔
  ∃ request, cf_active_requests self !! id = Some request ∧ canceled tick request = true.
Proof.
  rewrite hash_order_perm, list_elem_of_fmap. split.
  - intros ([id' request] & -> & H%elem_of_map_to_list). apply map_lookup_filter_Some in H as [? ?]. eauto.
  - intros (request & ? & ?). exists (id, request). split; [done|]. apply elem_of_map_to_list, map_lookup_filter_Some.
    done.
Qed.

Lemma drop_cancelled_active tick self id :
  cf_active_requests (drop_cancelled tick self) !! id =
  match cf_active_requests self !! id with
  | Some request => if canceled tick request then None else Some request
  | None => None
  end.
Proof.
  unfold drop_cancelled. rewrite foldl_drop_active. case_decide as Hin; rewrite canceled_ids in Hin.
  - destruct Hin as (request & Hr & Hc). by rewrite Hr, Hc.
  - destruct (cf_active_requests self !! id) as [request|] eqn:Er; [|done].
    destruct (canceled tick request) eqn:Ec; [|done]. destruct Hin. eauto.
Qed.

(** ** Theorems *)

(** C25: No request is lost and none is answered twice: whatever a client lives through, each
    ticket waits in the channel, is in the table of active requests under one id, or has been
    completed, and only one of these, once.  Each poll only moves tickets from one to
    the next, and keeps what was completed. *)
Theorem ClientFuture_tickets stream timeout signer self tick :
  rtc client_step (ClientFuture_with_timeout stream timeout signer) self →
  let self' := (ClientFuture_poll tick self).2 in
  NoDup (tickets self) ∧ tickets self' ≡ₚ tickets self ∧ cf_completed self `prefix_of` cf_completed self'.
Proof.
  intros [_ Hd]%client_invariant self'. pose proof (ClientFuture_poll_advances tick self) as [Ht Hc _ _]. done.
Qed.

(** C26: A caller is given a reply only if the reply has the id its own request was sent
    with, and the ids are not shared: of two requests that were sent with the same id,
    at most one is still without an outcome, so that a reply never has two takers; that
    one is in the table, under its id, which is below 65535. *)
Theorem ClientFuture_reply_ids stream timeout signer self :
  rtc client_step (ClientFuture_with_timeout stream timeout signer) self →
  (∀ req m, (req, Ok m) ∈ cf_completed self → ∃ buffer, (req, h_id (m_header m), buffer) ∈ cf_sent self) ∧
  (∀ req id buffer, (req, id, buffer) ∈ cf_sent self → req ∉ (cf_completed self).*1 →
     0 ≤ id < 65535 ∧ (∃ d, cf_active_requests self !! id = Some (req, d)) ∧
     ∀ req' buffer', (req', id, buffer') ∈ cf_sent self → req' ∉ (cf_completed self).*1 → req' = req).
Proof.
  intros [[H1 H2 H3 H4] _]%client_invariant.
  assert (Hin : ∀ req id buffer, (req, id, buffer) ∈ cf_sent self → (req, id) ∈ (cf_sent self).*1).
  { intros req id buffer H. apply list_elem_of_fmap. by exists (req, id, buffer). }
  split.
  - intros req m H. apply H2 in H. apply list_elem_of_fmap in H as ([x buffer] & Hx & H). simpl in Hx. subst x.
    by exists buffer.
  - intros req id buffer Hs%Hin Hc. split; [|split].
    + rewrite Forall_forall in H3. apply H3, list_elem_of_fmap. by exists (req, id).
    + by destruct (H4 _ _ Hs).
    + intros req' buffer' Hs'%Hin Hc'. destruct (H4 _ _ Hs) as [?|[d Hd]]; [done|].
      destruct (H4 _ _ Hs') as [?|[d' Hd']]; [done|]. congruence.
Qed.

(** A request does not outlive its timeout: the first poll at or after its deadline completes
    it with a timeout, even when its reply is waiting in the stream; and a poll leaves no request
    in the table that its caller has given up or whose time had come. *)
Theorem ClientFuture_times_out tick self id req deadline :
  cf_active_requests self !! id = Some (req, deadline) → deadline ≤ t_now tick →
  (req, Err ClientTimeout) ∈ cf_completed (ClientFuture_poll tick self).2 ∧
  map_Forall (λ _ request, canceled tick request = false) (cf_active_requests (drop_cancelled tick self)).
Proof.
  intros Hid Hd. split.
  - assert (Hin : (req, Err ClientTimeout) ∈ cf_completed (drop_cancelled tick self)).
    { eapply foldl_drop_timeout; [done|]. apply canceled_ids. exists (req, deadline). split; [done|].
      unfold canceled. simpl. by rewrite (proj2 (Z.leb_le _ _) Hd), orb_true_r. }
    eapply prefix_elem; [|exact Hin]. rewrite ClientFuture_poll_eq. apply adv_completed, poll_channels_advances.
  - intros i request H. rewrite drop_cancelled_active in H.
    destruct (cf_active_requests self !! i) as [request'|]; [|done]. destruct (canceled tick request') eqn:E; [done|].
    by simplify_eq.
Qed.

Lemma drop_cancelled_frame tick self :
  cf_new_receiver (drop_cancelled tick self) = cf_new_receiver self ∧
  cf_stream (drop_cancelled tick self) = cf_stream self ∧
  cf_unparked (drop_cancelled tick self) = cf_unparked self.
Proof.
  unfold drop_cancelled. generalize ((hash_order (filter (λ '(_, request), canceled tick request = true)
    (cf_active_requests self))).*1) as ids. intros ids. revert self. induction ids as [|id ids IH]; intros self; [done|].
  simpl. destruct (IH (drop_one self id)) as (-> & -> & ->). unfold drop_one. by repeat case_match.
Qed.

(** *** Replies in the stream *)

(** A buffer that decodes to a reply to an active request. *)
Lemma handle_buffer_reply b m self req d :
  Message_from_vec b = Ok m → cf_active_requests self !! h_id (m_header m) = Some (req, d) →
  handle_buffer b self =
    (Ok (), complete req (Ok m) (set_active self (delete (h_id (m_header m)) (cf_active_requests self)))).
Proof. intros Hb Ha. unfold handle_buffer. by rewrite Hb, Ha. Qed.

(** With nothing to send, a poll that finds a datagram first hands it on by its id. *)
Lemma poll_first_reply tick self b rest m req d :
  cf_new_receiver self = [] → cf_stream self = Buffer b :: rest → Message_from_vec b = Ok m →
  cf_active_requests self !! h_id (m_header m) = Some (req, d) → canceled tick (req, d) = false →
  (req, Ok m) ∈ cf_completed (ClientFuture_poll tick self).2.
Proof.
  intros Hq Hs Hb Ha Hc. rewrite ClientFuture_poll_eq.
  pose proof (drop_cancelled_active tick self (h_id (m_header m))) as Ha'. rewrite Ha, Hc in Ha'.
  destruct (drop_cancelled_frame tick self) as (Hq' & Hs' & _). rewrite Hs in Hs'. rewrite Hq in Hq'.
  generalize dependent (drop_cancelled tick self). clear Ha Hs Hq. intros self1 Ha Hq Hs.
  unfold poll_channels. unfold bind at 1, gets. rewrite Hq. cbn [send_requests]. unfold bind at 1, ret.
  unfold bind at 1. unfold QOS_MAX_RECEIVE_MSGS. generalize 99%nat as n. intros n.
  cbn [receive_replies]. rewrite Hs.
  unfold bind at 1. erewrite handle_buffer_reply by (done || exact Ha).
  set (self2 := complete _ _ _).
  assert (Hin : (req, Ok m) ∈ cf_completed self2) by (apply elem_of_app; right; by apply list_elem_of_singleton).
  eapply prefix_elem; [|exact Hin]. apply adv_completed.
  pose proof (advances_receive n 1 0 self2) as H. destruct (receive_replies n 1 0 self2) as [r self3]. simpl in H.
  destruct r; simpl; try done. etrans; [exact H|apply advances_finish].
Qed.

(** Replies are told apart by their id alone: a poll with nothing to send hands the first
    datagram of the stream to the request with its id, whatever else the datagram is, a query or the
    answer to a question that was never asked. *)
Theorem ClientFuture_trusts_ids tick self b rest m req d :
  cf_new_receiver self = [] → cf_stream self = Buffer b :: rest → Message_from_vec b = Ok m →
  cf_active_requests self !! h_id (m_header m) = Some (req, d) → canceled tick (req, d) = false →
  (req, Ok m) ∈ cf_completed (ClientFuture_poll tick self).2.
Proof. apply poll_first_reply. Qed.

(** *** The limit on replies *)

Lemma handle_buffer_unparked b self : cf_unparked (handle_buffer b self).2 = cf_unparked self.
Proof. unfold handle_buffer. by repeat case_match. Qed.

Lemma receive_replies_count n i k self r :
  (receive_replies n i k self).1 = Ok r → (r = k ∨ i ≤ r < i + n)%nat.
Proof.
  revert i k self. induction n as [|n IH]; intros i k self; cbn [receive_replies].
  - intros [= <-]. by left.
  - destruct (cf_stream self) as [|[b| | |] stream]; try (intros [= <-]; by left); try done.
    unfold bind. destruct (handle_buffer b _) as [[[]| | |] self']; try done.
    intros ?%IH. lia.
Qed.

Lemma receive_replies_unparked n i k self : cf_unparked (receive_replies n i k self).2 = cf_unparked self.
Proof.
  revert i k self. induction n as [|n IH]; intros i k self; cbn [receive_replies]; [done|].
  destruct (cf_stream self) as [|[b| | |] stream]; try done. unfold bind.
  pose proof (handle_buffer_unparked b (set_stream self stream)) as H.
  destruct (handle_buffer b _) as [r self']. simpl in H. destruct r; [|done..]. by rewrite IH.
Qed.

Lemma receive_100_replies self r : (receive_replies 100 0 0 self).1 = Ok r → (r < 100)%nat.
Proof. intros H. destruct (receive_replies_count 100 0 0 self r H); lia. Qed.

(** The limit of a hundred replies in one poll does not do what it is for: the count the
    code compares with the limit is the index of the last reply, which is below it, so a poll that stops
    at the limit does not wake the task again, and what is left in the stream waits for
    another event. *)
Theorem ClientFuture_qos_never_yields tick self :
  cf_new_receiver self = [] → cf_unparked (ClientFuture_poll tick self).2 = cf_unparked self.
Proof.
  intros Hq. rewrite ClientFuture_poll_eq. destruct (drop_cancelled_frame tick self) as (Hq' & _ & <-).
  rewrite Hq in Hq'. generalize dependent (drop_cancelled tick self). clear self Hq. intros self Hq.
  unfold poll_channels, gets. unfold bind at 1. rewrite Hq. cbn [send_requests]. unfold bind at 1, ret. unfold bind at 1.
  unfold QOS_MAX_RECEIVE_MSGS.
  pose proof (receive_replies_unparked 100 0 0 self) as Hu. pose proof (receive_100_replies self) as Hc.
  destruct (receive_replies 100 0 0 self) as [r self']. destruct r as [k| | |]; try done. cbn [fst snd] in *.
  unfold finish_poll, bind, gets, ret, modify, QOS_MAX_RECEIVE_MSGS. destruct (_ && _); [done|].
  destruct (Nat.eqb_spec k 100); [|done]. specialize (Hc k eq_refl). lia.
Qed.
End props.

(** ** Instances *)

Section instances.
#[local] Existing Instance ascii_lowercase.
#[local] Existing Instance list_hash_order.
#[local] Existing Instance toy_crypto.

Definition counting_rng : Rng.
Proof.
  refine {| gen_range k := (Z.of_nat k * 7919 + 11) mod 65535 |}. intros k. by apply Z.mod_pos_bound.
Defined.
#[local] Existing Instance counting_rng.

(** A poll at time [now] where nothing fails. *)
Definition tick_at (now : Z) : Tick :=
  mkTick now now (λ _, false) (λ _, false) (λ _, true) (λ _, true).

(** A client that has sent one query, with ticket 0. *)
Definition ex_asked : ClientFuture :=
  (ClientFuture_poll (tick_at 0) (BasicClientHandle_send toy_query 0 (ClientFuture_new [] None))).2.

Lemma ex_asked_reachable : rtc client_step (ClientFuture_with_timeout [] 5000 None) ex_asked.
Proof.
  eapply rtc_l; [apply (step_send toy_query 0); [done|by apply not_elem_of_nil]|].
  eapply rtc_l; [apply (step_poll (tick_at 0))|]. apply rtc_refl.
Qed.

(** A query for another name, with the id the client's request was sent with. *)
Definition ex_spoof : Message :=
  mkMessage (Header_id Header_new 11) [mkQuery (mkName [[98; 97; 100]]) RecordType.MX DNSClass.IN]
    [] [] [] [] None.
Definition ex_spoof_bytes : bytes := match Message_to_vec ex_spoof with Ok bs => bs | _ => [] end.
Definition ex_read : Message := match Message_from_vec ex_spoof_bytes with Ok m => m | _ => Message_new end.
Definition ex_answered : ClientFuture :=
  (ClientFuture_poll (tick_at 10) (set_stream ex_asked [Buffer ex_spoof_bytes])).2.

Lemma ex_answered_reachable : rtc client_step (ClientFuture_with_timeout [] 5000 None) ex_answered.
Proof.
  etrans; [apply ex_asked_reachable|]. eapply rtc_l; [apply (step_stream [Buffer ex_spoof_bytes])|].
  eapply rtc_l; [apply (step_poll (tick_at 10))|]. apply rtc_refl.
Qed.

Lemma ClientFuture_tickets_witness :
  tickets ex_asked = [0%nat] ∧ (tickets (ClientFuture_poll (tick_at 9) ex_asked).2 ≡ₚ tickets ex_asked).
Proof.
  split; [vm_compute; reflexivity|].
  apply (ClientFuture_tickets [] 5000 None ex_asked (tick_at 9) ex_asked_reachable).
Defined.

Lemma ClientFuture_reply_ids_witness :
  ∃ m, cf_completed ex_answered = [(0%nat, Ok m)] ∧ ∃ buffer, (0%nat, h_id (m_header m), buffer) ∈ cf_sent ex_answered.
Proof.
  eexists. split; [vm_compute; reflexivity|].
  destruct (proj1 (ClientFuture_reply_ids [] 5000 None ex_answered ex_answered_reachable) 0%nat ex_read) as [b Hb].
  - vm_compute. left.
  - by exists b.
Defined.

Lemma ClientFuture_times_out_witness :
  cf_active_requests ex_asked !! 11 = Some (0%nat, 5000) ∧
  (0%nat, Err ClientTimeout) ∈
    cf_completed (ClientFuture_poll (tick_at 5000) (set_stream ex_asked [Buffer ex_spoof_bytes])).2.
Proof.
  split; [vm_compute; reflexivity|].
  eapply (ClientFuture_times_out (tick_at 5000) (set_stream ex_asked [Buffer ex_spoof_bytes]) 11 0%nat 5000);
    [vm_compute; reflexivity|done].
Defined.

Lemma ClientFuture_trusts_ids_witness :
  (0%nat, Ok ex_read) ∈ cf_completed ex_answered ∧
  m_queries ex_read ≠ m_queries toy_query ∧ h_message_type (m_header ex_read) = MessageType.Query.
Proof.
  split; [|split; [intros H; vm_compute in H; discriminate|vm_compute; reflexivity]].
  refine (ClientFuture_trusts_ids (tick_at 10) (set_stream ex_asked [Buffer ex_spoof_bytes])
    ex_spoof_bytes [] ex_read 0%nat 5000 _ _ _ _ _); vm_compute; reflexivity.
Defined.

(** A hundred and one datagrams in the stream: one stays there, and the task is not woken. *)
Lemma ClientFuture_qos_never_yields_witness :
  let self' := (ClientFuture_poll (tick_at 10) (set_stream ex_asked (replicate 101 (Buffer [])))).2 in
  cf_stream self' = [Buffer []] ∧ cf_unparked self' = false.
Proof.
  split; [vm_compute; reflexivity|].
  by rewrite (ClientFuture_qos_never_yields (tick_at 10) (set_stream ex_asked (replicate 101 (Buffer [])))).
Defined.
End instances.
