(* ===== verification/Sync.v ===== *)
(** * Sync: the blocking clients

    [Client] and [SyncClient] of [client/src/client/client.rs]: a call
    queues its message for the [ClientFuture] on the client's own event loop and runs the
    loop until the message is answered.

    The event loop ([tokio_core::reactor::Core]) is a sequence of turns; in each the stream may have
    something new and the future is polled.  A [SyncClient] is a [ClientHandle], so the
    operations of [ClientHandle.v] are its operations; the validating client of
    [SecureSync.v] is another. *)

From S2P Require Import Prelude Codec Wire Domain Enums Header RData RDataProps Resource Message RecordSet.
From S2P Require Import KeyPair Signer Update BTree Journal Authority AuthorityProps ZoneInstances Returns ClientHandle.
From S2P Require Import ClientFuture Validate.

Open Scope Z_scope.

(** ** The clients *)

(** A turn of the event loop. *)
Abbreviation turn := (list stream_event * Tick)%type (only parsing).

Section sync.
Context `{L : Lowercase} `{HO : HashOrder} `{C : Crypto} `{R : Rng}.

(** The loop with the future spawned on it, unless that has ended; [sy_next] numbers the calls, and
    [sy_turns] is what is to come. *)
Record SyncClient : Type := mkSync {
  sy_client : ClientFuture;
  sy_running : bool;
  sy_next : ticket;
  sy_turns : list turn;
}.

Definition SyncClient_new (stream : list stream_event) (turns : list turn) : SyncClient :=
  mkSync (ClientFuture_new stream None) true 0 turns.
Definition SyncClient_with_signer (stream : list stream_event) (turns : list turn) (signer : Signer) : SyncClient :=
  mkSync (ClientFuture_new stream (Some signer)) true 0 turns.

(** What the receiving half of a oneshot channel holds. *)
Definition outcome_of (req : ticket) (self : ClientFuture) : option (res client_error Message) :=
  snd <$> head (filter (λ x, x.1 = req) (cf_completed self)).

(** [Core::run] of the receiver for [req]: turns of the loop until it is ready.  A future that has ended
    drops what it had not completed; [Diverge] when the turns are used up. *)
Fixpoint Core_run (turns : list turn) (req : ticket) (next : ticket) (self : ClientFuture) :
    res client_error Message * SyncClient :=
  match turns with
  | [] => (Diverge, mkSync self true next [])
  | (events, tick) :: turns =>
      match ClientFuture_poll tick (set_stream self (cf_stream self ++ events)) with
      | (Ok false, self) =>
          match outcome_of req self with
          | Some r => (r, mkSync self true next turns)
          | None => Core_run turns req next self
          end
      | (Ok true, self) | (Err _, self) =>
          (match outcome_of req self with Some r => r | None => Err ClientCanceled end, mkSync self false next turns)
      | (Panic, self) => (Panic, mkSync self false next turns)
      | (Diverge, self) => (Diverge, mkSync self false next turns)
      end
  end.

(** [self.get_io_loop().run(self.get_client_handle().send(message))], the form all methods of
    [Client] have.  Sending fails when the future has ended. *)
#[global] Instance SyncClient_send : ClientHandle SyncClient := λ message self,
  if sy_running self then
    Core_run (sy_turns self) (sy_next self) (S (sy_next self))
      (BasicClientHandle_send message (sy_next self) (sy_client self))
  else (Err (ClientMessage "error sending to mpsc"), self).

End sync.

(** ** The methods of [Client] *)

(** The trait's own methods, for any client that can send and wait. *)
Section client_trait.
Context `{L : Lowercase} {K : Type} `{CH : ClientHandle K}.

Definition Client_query (id : Z) (name : Name) (query_class : DNSClass) (query_type : RecordType) :
    M K client_error Message := query id name query_class query_type.
Definition Client_notify (id : Z) (name : Name) (query_class : DNSClass) (query_type : RecordType)
    (rrset : option RecordSet) : M K client_error Message := notify id name query_class query_type rrset.
Definition Client_create (id : Z) (rrset : RecordSet) (zone_origin : Name) : M K client_error Message :=
  create id rrset zone_origin.
Definition Client_append (id : Z) (rrset : RecordSet) (zone_origin : Name) (must_exist : bool) :
    M K client_error Message := append id rrset zone_origin must_exist.
Definition Client_compare_and_swap (id : Z) (current new : RecordSet) (zone_origin : Name) :
    M K client_error Message := compare_and_swap id current new zone_origin.
Definition Client_delete_by_rdata (id : Z) (record : RecordSet) (zone_origin : Name) :
    M K client_error Message := delete_by_rdata id record zone_origin.
Definition Client_delete_rrset (id : Z) (record : RRecord) (zone_origin : Name) : M K client_error Message :=
  delete_rrset id record zone_origin.
Definition Client_delete_all (id : Z) (name_of_records zone_origin : Name) (dns_class : DNSClass) :
    M K client_error Message := delete_all id name_of_records zone_origin dns_class.
End client_trait.

(** ** What ends *)

Section props.
Context `{L : Lowercase} `{HO : HashOrder} `{C : Crypto} `{R : Rng}.

Lemma ends_Record_emit r : ends (Record_emit r).
Proof.
  total; match goal with H : RData_emit ?d ?e = (?r, _) |- _ =>
    pose proof (ends_rdata_emit d e) as He; rewrite H in He; by destruct r end.
Qed.
#[local] Hint Resolve ends_Record_emit : ends.

Lemma ends_Message_emit m : ends (Message_emit m).
Proof. total. Qed.

Lemma ends_Message_to_vec m : ends_r (Message_to_vec m).
Proof.
  unfold Message_to_vec. pose proof (ends_Message_emit m (BinEncoder_new [])) as H.
  by destruct (Message_emit m (BinEncoder_new [])) as [[] e].
Qed.

Lemma ends_signing_bytes m : ends_r (signing_bytes m).
Proof.
  unfold signing_bytes. pose proof (ends_Message_emit m (BinEncoder_with_mode [] Signing)) as H.
  by destruct (Message_emit m (BinEncoder_with_mode [] Signing)) as [[] e].
Qed.
#[local] Hint Resolve ends_signing_bytes : ends.

Lemma ends_sign_update tick signer m : ends_r (sign_update tick signer m).
Proof. unfold sign_update. total. Qed.

(** No buffer of the stream keeps the decoder for ever. *)
Definition decodable (stream : list stream_event) : Prop :=
  Forall (λ e, match e with Buffer b => ends_r (Message_from_vec b) | _ => True end) stream.

Lemma decodable_tail e stream : decodable (e :: stream) → decodable stream.
Proof. by intros [_ ?]%Forall_cons. Qed.

(** What has no more to send, nothing to wait for after [D], and only outcomes in its log. *)
Record inflight (D : Z) (self : ClientFuture) : Prop := {
  fl_queue : cf_new_receiver self = [];
  fl_deadline : map_Forall (λ _ request, request.2 ≤ D) (cf_active_requests self);
  fl_stream : decodable (cf_stream self);
  fl_results : Forall (λ x, ends_r x.2) (cf_completed self);
}.

Lemma inflight_remove D self id req r : inflight D self → ends_r r →
  inflight D (complete req r (set_active self (delete id (cf_active_requests self)))).
Proof.
  intros [Hq Hd Hs Hr] He. split; simpl; [done| |done|].
  - intros i x [_ ?]%lookup_delete_Some. by apply (Hd i).
  - apply Forall_app. split; [done|]. by apply Forall_singleton.
Qed.

Lemma inflight_drop_cancelled D tick self : inflight D self → inflight D (drop_cancelled tick self).
Proof.
  unfold drop_cancelled. generalize ((hash_order (filter (λ '(_, request), canceled tick request = true)
    (cf_active_requests self))).*1) as ids. intros ids. revert self. induction ids as [|id ids IH]; intros self H; [done|].
  simpl. apply IH. unfold drop_one. destruct (_ !! id) as [[req d]|]; [|done]. by apply inflight_remove.
Qed.

Lemma inflight_receive D n i k self : inflight D self →
  (receive_replies n i k self).1 ≠ Diverge ∧ inflight D (receive_replies n i k self).2.
Proof.
  revert i k self. induction n as [|n IH]; intros i k self H; [done|]. cbn [receive_replies].
  pose proof H as [Hq Hd Hs Hr].
  destruct (cf_stream self) as [|[b| | |] stream] eqn:Es; try done;
    assert (Hs' : inflight D (set_stream self stream)) by (split; simpl; [done|done|by apply decodable_tail in Hs|done]);
    [|done..].
  unfold bind, handle_buffer. apply Forall_cons in Hs as [Hb _].
  destruct (Message_from_vec b) as [m|e| |]; try (by destruct Hb); try done; [|by apply IH].
  destruct (_ !! h_id (m_header m)) as [[req d]|]; [|by apply IH]. apply IH. by apply inflight_remove.
Qed.

Lemma inflight_finish D k self : inflight D self →
  (finish_poll k self).1 ≠ Diverge ∧ inflight D (finish_poll k self).2.
Proof.
  intros [Hq Hd Hs Hr]. unfold finish_poll, bind, gets, ret, modify. simpl. repeat case_match; simpl; simplify_eq; by split.
Qed.

Lemma poll_channels_idle tick self : cf_new_receiver self = [] →
  poll_channels tick self = bind (receive_replies QOS_MAX_RECEIVE_MSGS 0 0) finish_poll self.
Proof.
  intros H. unfold poll_channels. generalize QOS_MAX_RECEIVE_MSGS as n. intros n. unfold bind at 1, gets. by rewrite H.
Qed.

Lemma inflight_poll D tick self : inflight D self →
  (ClientFuture_poll tick self).1 ≠ Diverge ∧ inflight D (ClientFuture_poll tick self).2.
Proof.
  intros H. rewrite ClientFuture_poll_eq. apply (inflight_drop_cancelled D tick) in H.
  generalize dependent (drop_cancelled tick self). clear self. intros self H.
  rewrite (poll_channels_idle _ _ (fl_queue _ _ H)). unfold bind.
  destruct (inflight_receive D QOS_MAX_RECEIVE_MSGS 0 0 self H) as [He Hi].
  destruct (receive_replies QOS_MAX_RECEIVE_MSGS 0 0 self) as [[k| | |] self1]; cbn [fst snd] in *; try done.
  by apply inflight_finish.
Qed.

Lemma receive_active_empty n i k self : cf_active_requests self = ∅ →
  cf_active_requests (receive_replies n i k self).2 = ∅.
Proof.
  revert i k self. induction n as [|n IH]; intros i k self H; [done|]. cbn [receive_replies].
  destruct (cf_stream self) as [|[b| | |] stream]; try done. unfold bind, handle_buffer.
  destruct (Message_from_vec b) as [m|e| |]; simpl; rewrite ?H, ?fin_maps.lookup_empty; try done; by apply IH.
Qed.

(** At the deadline nothing is left to wait for. *)
Lemma inflight_expired D tick self : inflight D self → D ≤ t_now tick →
  cf_active_requests (ClientFuture_poll tick self).2 = ∅.
Proof.
  intros H Hn. assert (Hz : cf_active_requests (drop_cancelled tick self) = ∅).
  { apply map_eq. intros id. rewrite drop_cancelled_active, fin_maps.lookup_empty.
    destruct (cf_active_requests self !! id) as [[req d]|] eqn:E; [|done]. apply (fl_deadline _ _ H) in E. simpl in E.
    unfold canceled. simpl. by rewrite (proj2 (Z.leb_le d (t_now tick)) ltac:(lia)), orb_true_r. }
  rewrite ClientFuture_poll_eq. apply (inflight_drop_cancelled D tick) in H.
  generalize dependent (drop_cancelled tick self). clear self. intros self H Hz.
  rewrite (poll_channels_idle _ _ (fl_queue _ _ H)).
  pose proof (receive_active_empty QOS_MAX_RECEIVE_MSGS 0 0 self Hz) as Hr. unfold bind.
  destruct (receive_replies QOS_MAX_RECEIVE_MSGS 0 0 self) as [[k| | |] self1]; cbn [fst snd] in *; try done.
  unfold finish_poll, bind, gets, ret, modify. simpl. repeat case_match; simpl; by simplify_eq.
Qed.

(** ** A call *)

(** A client between calls. *)
Record sync_idle (s : SyncClient) : Prop := {
  si_queue : cf_new_receiver (sy_client s) = [];
  si_active : cf_active_requests (sy_client s) = ∅;
  si_stream : decodable (cf_stream (sy_client s));
  si_results : Forall (λ x, ends_r x.2) (cf_completed (sy_client s));
  si_fresh : Forall (λ req, req < sy_next s)%nat (tickets (sy_client s));
  si_ids : ids_ok (sy_client s);
}.

Lemma drop_cancelled_none tick self : cf_active_requests self = ∅ → drop_cancelled tick self = self.
Proof.
  intros Ha. unfold drop_cancelled. rewrite Ha, map_filter_empty.
  assert (hash_order (∅ : gmap Z (ticket * Z)) = []) as ->; [|done].
  apply Permutation_nil_r. by rewrite hash_order_perm, map_to_list_empty.
Qed.

(** What the sending of one message leaves. *)
Lemma inflight_send_request tick message req id self :
  cf_new_receiver self = [] → cf_active_requests self = ∅ → decodable (cf_stream self) →
  Forall (λ x, ends_r x.2) (cf_completed self) →
  (send_request tick message req id self).1 ≠ Diverge ∧
  inflight (t_now tick + cf_timeout_duration self) (send_request tick message req id self).2.
Proof.
  intros Hq Ha Hs Hr. set (D := t_now tick + cf_timeout_duration self).
  assert (Hc : ∀ e, inflight D (complete req (Err e) self)).
  { intros e. split; simpl; [done|by rewrite Ha|done|]. apply Forall_app. split; [done|]. by apply Forall_singleton. }
  assert (Hdone : ∀ (r : res client_error ()) e, r ≠ Diverge →
    (r, complete req (Err e) self).1 ≠ Diverge ∧ inflight D (r, complete req (Err e) self).2) by (intros; by split; [|apply Hc]).
  unfold send_request, drop_complete. pose proof (ends_sign_update tick (cf_signer self) (Message_id message id)) as Hg.
  destruct (sign_update _ _ _) as [m| | |]; [|by apply Hdone..|by destruct Hg].
  destruct (negb _); [by apply Hdone|]. pose proof (ends_Message_to_vec m) as Hv.
  destruct (Message_to_vec m) as [buffer| | |]; [|by apply Hdone..|by destruct Hv].
  destruct (t_sink tick req); [|by apply Hdone]. split; [done|]. split; simpl; [done| |done|done].
  rewrite Ha. intros i x. rewrite lookup_insert_Some, fin_maps.lookup_empty. intros [[_ <-]|[_ ?]]; [simpl; lia|done].
Qed.

(** The turn that sends: with no request in flight the first id drawn is free. *)
Lemma first_poll tick message req self :
  cf_new_receiver self = [(message, req)] → cf_active_requests self = ∅ → decodable (cf_stream self) →
  Forall (λ x, ends_r x.2) (cf_completed self) →
  (ClientFuture_poll tick self).1 ≠ Diverge ∧
  inflight (t_now tick + cf_timeout_duration self) (ClientFuture_poll tick self).2.
Proof.
  intros Hq Ha Hs Hr. rewrite ClientFuture_poll_eq, drop_cancelled_none by done.
  set (D := t_now tick + cf_timeout_duration self).
  assert (Hsr : ∃ id self1, cf_new_receiver self1 = [] ∧ cf_active_requests self1 = ∅ ∧ cf_stream self1 = cf_stream self ∧
    cf_completed self1 = cf_completed self ∧ cf_timeout_duration self1 = cf_timeout_duration self ∧
    send_requests tick (cf_new_receiver self) self = bind (send_request tick message req id) (λ _, ret ()) self1).
  { rewrite Hq. exists (gen_range (cf_draws self)),
      (set_new_receiver (set_rng self (S (cf_draws self)) (cf_unparked self)) [] (cf_senders self)). cbn [send_requests]. unfold bind at 1, next_random_query_id.
    rewrite Ha. cbn [draw_id]. rewrite fin_maps.lookup_empty. split_and!; [..|reflexivity]; done. }
  destruct Hsr as (id & self1 & Hq1 & Ha1 & Hs1 & Hr1 & Ht1 & Hsr).
  assert (Hp : poll_channels tick self =
    bind (send_request tick message req id) (λ _, bind (receive_replies QOS_MAX_RECEIVE_MSGS 0 0) finish_poll) self1).
  { unfold poll_channels. generalize QOS_MAX_RECEIVE_MSGS as n. intros n. unfold gets, bind at 1 2. rewrite Hsr.
    unfold bind, ret. by destruct (send_request tick message req id self1) as [[] ?]. }
  rewrite Hp. rewrite <-Hs1 in Hs. rewrite <-Hr1 in Hr.
  destruct (inflight_send_request tick message req id self1 Hq1 Ha1 Hs Hr) as [He Hi].
  rewrite Ht1 in Hi. fold D in Hi. unfold bind at 1 3.
  destruct (send_request tick message req id self1) as [[[]| | |] self2]; cbn [fst snd] in *; try done.
  destruct (inflight_receive D QOS_MAX_RECEIVE_MSGS 0 0 self2 Hi) as [He2 Hi2]. unfold bind.
  destruct (receive_replies QOS_MAX_RECEIVE_MSGS 0 0 self2) as [[k| | |] self3]; cbn [fst snd] in *; try done.
  by apply inflight_finish.
Qed.

Lemma outcome_of_Some req self r : outcome_of req self = Some r → (req, r) ∈ cf_completed self.
Proof.
  unfold outcome_of. destruct (filter _ _) as [|[req' r'] l] eqn:E; [done|]. intros [= <-].
  assert (H : (req', r') ∈ filter (λ x, x.1 = req) (cf_completed self)) by (rewrite E; left).
  by apply list_elem_of_filter in H as [<- ?].
Qed.

Lemma outcome_of_None req self : outcome_of req self = None → req ∉ (cf_completed self).*1.
Proof.
  unfold outcome_of. intros H Hin. apply list_elem_of_fmap in Hin as ([req' r] & -> & Hin).
  assert (Hf : (req', r) ∈ filter (λ x, x.1 = req') (cf_completed self)) by (by apply list_elem_of_filter).
  simpl in H. destruct (filter _ _); [by apply not_elem_of_nil in Hf|done].
Qed.

(** How a run for [req] that began at [self0] may end. *)
Record returned (self0 : ClientFuture) (D : Z) (req next : ticket) (x : res client_error Message * SyncClient) : Prop := {
  ret_ends : ends_r x.1;
  ret_advances : advances self0 (sy_client x.2);
  ret_running : sy_running x.2 = true → inflight D (sy_client x.2) ∧ req ∈ (cf_completed (sy_client x.2)).*1;
  ret_reply reply : x.1 = Ok reply → (req, Ok reply) ∈ cf_completed (sy_client x.2);
  ret_next : sy_next x.2 = next;
}.

(** A turn, after its poll. *)
Lemma turn_returned turns req next self0 D (p : res client_error bool * ClientFuture) :
  p.1 ≠ Diverge → inflight D p.2 → advances self0 p.2 →
  (outcome_of req p.2 = None → returned self0 D req next (Core_run turns req next p.2)) →
  returned self0 D req next
    match p with
    | (Ok false, self) =>
        match outcome_of req self with
        | Some r => (r, mkSync self true next turns)
        | None => Core_run turns req next self
        end
    | (Ok true, self) | (Err _, self) =>
        (match outcome_of req self with Some r => r | None => Err ClientCanceled end, mkSync self false next turns)
    | (Panic, self) => (Panic, mkSync self false next turns)
    | (Diverge, self) => (Diverge, mkSync self false next turns)
    end.
Proof.
  destruct p as [r self]. cbn [fst snd]. intros He Hi Ha Hk.
  assert (Hout : ∀ r b, outcome_of req self = Some r → returned self0 D req next (r, mkSync self b next turns)).
  { intros r' b Ho. apply outcome_of_Some in Ho as Hin. split; simpl; [|done| |by intros ? ->|done].
    - pose proof (fl_results _ _ Hi) as Hr. rewrite Forall_forall in Hr. apply (Hr _ Hin).
    - intros _. split; [done|]. apply list_elem_of_fmap. by exists (req, r'). }
  assert (Hend : returned self0 D req next
    (match outcome_of req self with Some r => r | None => Err ClientCanceled end, mkSync self false next turns)).
  { destruct (outcome_of req self) as [r'|] eqn:Eo; [by apply Hout|]. by split. }
  destruct r as [[]| | |]; [done| |done|by split|done].
  destruct (outcome_of req self) as [r'|] eqn:Eo; [by apply Hout|by apply Hk].
Qed.

Lemma inflight_more D events self : inflight D self → decodable events →
  inflight D (set_stream self (cf_stream self ++ events)).
Proof. intros [Hq Hd Hs Hr] He. split; simpl; [done|done|by apply Forall_app|done]. Qed.

(** With nothing queued or in flight every ticket has been completed. *)
Lemma tickets_completed self : cf_new_receiver self = [] → cf_active_requests self = ∅ → tickets self = (cf_completed self).*1.
Proof. intros Hq Ha. unfold tickets. by rewrite Hq, Ha, map_to_list_empty. Qed.

Lemma run_returned turns req next self0 D self :
  advances self0 self → req ∈ tickets self0 → inflight D self →
  Forall (λ t, decodable t.1) turns → Exists (λ t, D ≤ t_now t.2) turns →
  returned self0 D req next (Core_run turns req next self).
Proof.
  intros Ha Hin Hi Hd He. revert self Ha Hi Hd. induction He as [[events tick] turns Hn|[events tick] turns _ IH];
    intros self Ha Hi Hd; cbn [Core_run]; apply Forall_cons in Hd as [Hd1 Hd];
    apply (inflight_more D events) in Hi; try done; set (self1 := set_stream self _) in *;
    assert (Ha1 : advances self0 (ClientFuture_poll tick self1).2)
      by (etrans; [exact Ha|]; etrans; [apply (advances_set_stream self (cf_stream self ++ events))|apply ClientFuture_poll_advances]);
    destruct (inflight_poll D tick self1 Hi) as [Hnd Hi1]; apply turn_returned; try done.
  - intros Ho%outcome_of_None. destruct Ho.
    rewrite <-tickets_completed; [|apply Hi1|by apply (inflight_expired D tick self1)].
    by rewrite (adv_tickets _ _ Ha1).
  - intros Ho. by apply IH.
Qed.

(** *** Idle again *)

Lemma advances_idle self0 self D req :
  advances self0 self → inflight D self → cf_active_requests self0 = ∅ → (cf_new_receiver self0).*2 = [req] →
  req ∉ (cf_completed self0).*1 → req ∈ (cf_completed self).*1 → cf_active_requests self = ∅.
Proof.
  intros [Ht [new Hc] _ _] [Hq _ _ _] Ha Hq0 Hn Hin. unfold tickets in Ht.
  rewrite Hq, Hq0, Ha, map_to_list_empty, Hc, fmap_app in Ht. apply Permutation_length in Ht. simpl in Ht.
  rewrite !length_app, !length_fmap in Ht. rewrite Hc, fmap_app, elem_of_app in Hin.
  destruct new as [|x new]; [simpl in Hin; destruct Hin as [?|Hin]; [done|by apply not_elem_of_nil in Hin]|]. simpl in Ht.
  apply map_to_list_empty_iff. apply nil_length_inv. lia.
Qed.

(** C17: A call returns: on a client that is between calls, once the event loop has had
    a turn at least the client's timeout after the turn that sends the message, the call
    has ended with a reply, an error or a panic, whatever the network delivered, as long
    as the decoder ends on it. A reply carries the id this very message was sent with,
    and a client whose future still runs is ready for the next call. *)
Theorem SyncClient_send_returns message s events tick rest :
  sync_idle s → sy_running s = true → sy_turns s = (events, tick) :: rest →
  Forall (λ t, decodable t.1) (sy_turns s) →
  Exists (λ t, t_now tick + cf_timeout_duration (sy_client s) ≤ t_now t.2) rest →
  let x := SyncClient_send message s in
  ends_r x.1 ∧ (sy_running x.2 = true → sync_idle x.2) ∧
  (∀ reply, x.1 = Ok reply →
     ∃ buffer, (sy_next s, h_id (m_header reply), buffer) ∈ cf_sent (sy_client x.2)).
Proof.
  intros [Hq Ha Hs Hr Hf Hids] Hrun Ht Hd He x. set (req := sy_next s). set (D := t_now tick + cf_timeout_duration (sy_client s)).
  set (self0 := BasicClientHandle_send message req (sy_client s)).
  assert (Hq0 : cf_new_receiver self0 = [(message, req)]) by (unfold self0, BasicClientHandle_send; simpl; by rewrite Hq).
  assert (Hfr : req ∉ (cf_completed self0).*1).
  { intros Hin. rewrite tickets_completed in Hf by done. rewrite Forall_forall in Hf. apply Hf in Hin. unfold req in Hin. lia. }
  assert (Hids0 : ids_ok self0) by (by destruct Hids; split).
  assert (Hret : returned self0 D req (S req) x).
  { subst x. unfold SyncClient_send. rewrite Hrun, Ht. rewrite Ht in Hd. apply Forall_cons in Hd as [Hd1 Hd]. cbn [Core_run].
    fold req self0. set (self1 := set_stream self0 _).
    destruct (first_poll tick message req self1) as [Hnd Hi]; [done|done|by apply Forall_app|done|].
    assert (Ha1 : advances self0 (ClientFuture_poll tick self1).2) by (etrans; [apply advances_set_stream|apply ClientFuture_poll_advances]).
    apply turn_returned; try done. intros _. apply run_returned; try done.
    unfold tickets. rewrite Hq0. by left. }
  destruct Hret as [H1 H2 H3 H4 H5]. split; [done|]. split.
  - intros [Hi Hin]%H3. pose proof (advances_idle self0 _ D req H2 Hi Ha ltac:(by rewrite Hq0) Hfr Hin) as Hact.
    split; [apply Hi|done|apply Hi|apply Hi| |by apply H2].
    rewrite H5. eapply Forall_impl; [|intros y Hy; exact Hy]. rewrite (adv_tickets _ _ H2).
    unfold tickets. rewrite Hq0. simpl. constructor; [lia|]. rewrite Ha, map_to_list_empty. simpl.
    rewrite tickets_completed in Hf by done. eapply Forall_impl; [exact Hf|]. intros. unfold req. simpl in *. lia.
  - intros reply Hrep%H4. apply (adv_ids _ _ H2) in Hids0. apply (ids_replied _ Hids0) in Hrep.
    apply list_elem_of_fmap in Hrep as ([y buffer] & Hy & Hin). simpl in Hy. subst y. by exists buffer.
Qed.
End props.

(** ** An instance *)

Section instances.
#[local] Existing Instance ascii_lowercase.
#[local] Existing Instance list_hash_order.
#[local] Existing Instance toy_crypto.
#[local] Existing Instance counting_rng.

(** A reply comes in the second turn; the third is after the timeout. *)
Definition ex_turns (events : list stream_event) : list turn :=
  [([], tick_at 0); (events, tick_at 10); ([], tick_at 6000)].

Lemma ex_new_idle turns : sync_idle (SyncClient_new [] turns).
Proof. split; simpl; try done; try constructor; simpl; try done; by intros ? ? ?%not_elem_of_nil. Qed.

Lemma ex_turns_decodable events : decodable events → Forall (λ t : turn, decodable t.1) (ex_turns events).
Proof. intros H. repeat constructor; done. Qed.

Lemma SyncClient_send_returns_witness :
  let silent := SyncClient_send toy_query (SyncClient_new [] (ex_turns [])) in
  let answered := SyncClient_send toy_query (SyncClient_new [] (ex_turns [Buffer ex_spoof_bytes])) in
  silent.1 = Err ClientTimeout ∧ sync_idle silent.2 ∧ answered.1 = Ok ex_read ∧
  ∃ buffer, (0%nat, 11, buffer) ∈ cf_sent (sy_client answered.2).
Proof.
  split; [vm_compute; reflexivity|]. split; [|split; [vm_compute; reflexivity|]].
  - refine (proj1 (proj2 (SyncClient_send_returns toy_query (SyncClient_new [] (ex_turns [])) [] (tick_at 0) _
      (ex_new_idle _) eq_refl eq_refl (ex_turns_decodable [] _) _)) _); [constructor| |vm_compute; reflexivity].
    right. left. by vm_compute.
  - refine (proj2 (proj2 (SyncClient_send_returns toy_query (SyncClient_new [] (ex_turns [Buffer ex_spoof_bytes])) []
      (tick_at 0) _ (ex_new_idle _) eq_refl eq_refl (ex_turns_decodable _ _) _)) ex_read _); [| |vm_compute; reflexivity].
    + apply Forall_singleton. by vm_compute.
    + right. left. by vm_compute.
Defined.
End instances.
