(* ===== verification/ClientSteps.v ===== *)
(** * ClientSteps: a poll of [ClientFuture], step by step

    A poll of [client/src/client/client_future.rs] is a sequence of elementary steps: a
    request times out, one that was queued fails or is sent, the stream is read, a reply is
    handed on.  An invariant of a client is proved for each of these; this file has those
    that a call with several requests in flight relies on, and what a poll after all
    deadlines achieves. *)

From S2P Require Import Prelude Codec Wire Domain Enums Header RData RDataProps Resource Message RecordSet.
From S2P Require Import KeyPair Signer Update BTree Journal Authority AuthorityProps ZoneInstances Returns ClientHandle.
From S2P Require Import ClientFuture Sync.

Open Scope Z_scope.

Section steps.
Context `{L : Lowercase} `{HO : HashOrder} `{C : Crypto} `{R : Rng}.
Implicit Types self : ClientFuture.

(** A request leaves the queue, or the table with an outcome. *)
Definition pop (self : ClientFuture) (queue : list (Message * ticket)) : ClientFuture :=
  set_new_receiver self queue (cf_senders self).
Definition remove (id : Z) (req : ticket) (r : res client_error Message) (self : ClientFuture) : ClientFuture :=
  complete req r (set_active self (delete id (cf_active_requests self))).

Inductive poll_step (tick : Tick) : ClientFuture → ClientFuture → Prop :=
  | ps_rng n b self : poll_step tick self (set_rng self n b)
  | ps_timeout id req d self :
      cf_active_requests self !! id = Some (req, d) → poll_step tick self (remove id req (Err ClientTimeout) self)
  | ps_fail m req queue e self :
      cf_new_receiver self = (m, req) :: queue → poll_step tick self (complete req (Err e) (pop self queue))
  | ps_sent m req queue id m' buffer self :
      cf_new_receiver self = (m, req) :: queue → cf_active_requests self !! id = None → 0 ≤ id < 65535 →
      sign_update tick (cf_signer self) (Message_id m id) = Ok m' → Message_to_vec m' = Ok buffer →
      poll_step tick self
        (set_active (set_sent (pop self queue) (cf_sent self ++ [(req, id, buffer)]))
           (<[id := (req, t_now tick + cf_timeout_duration self)]> (cf_active_requests self)))
  | ps_stream e stream self : cf_stream self = e :: stream → poll_step tick self (set_stream self stream)
  | ps_reply b m req d self :
      Message_from_vec b = Ok m → (∃ stream, cf_stream self = Buffer b :: stream) →
      cf_active_requests self !! h_id (m_header m) = Some (req, d) →
      poll_step tick self (remove (h_id (m_header m)) req (Ok m) (set_stream self (tail (cf_stream self)))).

Abbreviation poll_steps tick := (rtc (poll_step tick)).

Lemma steps_drop tick self : poll_steps tick self (drop_cancelled tick self).
Proof.
  unfold drop_cancelled. generalize ((hash_order (filter (λ '(_, request), canceled tick request = true)
    (cf_active_requests self))).*1) as ids. intros ids. revert self. induction ids as [|id ids IH]; intros self; [done|].
  simpl. etrans; [|apply IH]. unfold drop_one. destruct (_ !! id) as [[req d]|] eqn:E; [|done].
  apply rtc_once. by eapply ps_timeout.
Qed.

Lemma steps_send_request tick m req queue id self :
  cf_new_receiver self = (m, req) :: queue → cf_active_requests self !! id = None → 0 ≤ id < 65535 →
  poll_steps tick self (send_request tick m req id (pop self queue)).2 ∧
  cf_new_receiver (send_request tick m req id (pop self queue)).2 = queue.
Proof.
  intros Hq Hid Hb. split; [|unfold send_request; by repeat case_match].
  unfold send_request, drop_complete. cbn [cf_signer pop set_new_receiver].
  assert (Hf : ∀ e, poll_steps tick self (complete req (Err e) (pop self queue))) by (intros e; apply rtc_once;
    by eapply ps_fail).
  destruct (sign_update tick (cf_signer self) (Message_id m id)) as [m'| | |] eqn:Es; simpl; try apply Hf.
  destruct (t_timer_new tick req); simpl; [|apply Hf].
  destruct (Message_to_vec m') as [buffer| | |] eqn:Ev; simpl; try apply Hf.
  destruct (t_sink tick req); simpl; [|apply Hf].
  assert (h_id (m_header m') = id) as -> by (by rewrite (sign_update_id _ _ _ _ Es)). apply rtc_once. by eapply ps_sent.
Qed.

Lemma steps_send_requests tick queue self : cf_new_receiver self = queue →
  poll_steps tick self (send_requests tick queue self).2.
Proof.
  revert self. induction queue as [|[m req] queue IH]; intros self Hq; simpl; [done|].
  unfold bind at 1. unfold next_random_query_id. destruct (draw_id 100 _ _) as [id draws] eqn:Ed.
  destruct id as [id|]; simpl; [|apply rtc_once, ps_rng]. apply draw_id_spec in Ed as [Hid Hb].
  set (self1 := set_rng self draws (cf_unparked self)). etrans; [apply rtc_once, (ps_rng tick draws (cf_unparked self))|].
  fold self1. unfold bind, modify. change (set_new_receiver self1 queue (cf_senders self1)) with (pop self1 queue).
  destruct (steps_send_request tick m req queue id self1) as [Hs Hq']; [done..|].
  destruct (send_request tick m req id (pop self1 queue)) as [r self2]. simpl in Hs, Hq'.
  etrans; [exact Hs|]. destruct r; simpl; [by apply IH|done..].
Qed.

Lemma steps_receive tick n i k self : poll_steps tick self (receive_replies n i k self).2.
Proof.
  revert i k self. induction n as [|n IH]; intros i k self; cbn [receive_replies]; [done|].
  destruct (cf_stream self) as [|[b| | |] stream] eqn:Es; try done; try (by apply rtc_once; eapply ps_stream).
  unfold bind, handle_buffer.
  assert (Hskip : poll_steps tick self (set_stream self stream)) by (apply rtc_once; by eapply ps_stream).
  destruct (Message_from_vec b) as [m| | |] eqn:Em; simpl; try done; [|by etrans].
  destruct (cf_active_requests self !! h_id (m_header m)) as [[req d]|] eqn:Ea; [|by etrans].
  etrans; [apply rtc_once; eapply (ps_reply tick b m req d self); eauto|]. unfold remove. rewrite Es. apply IH.
Qed.

Lemma steps_finish tick k self : poll_steps tick self (finish_poll k self).2.
Proof.
  unfold finish_poll, bind, gets, ret, modify. simpl. repeat case_match; simpl; simplify_eq; try done.
  apply rtc_once, ps_rng.
Qed.

(** Every poll is a sequence of steps. *)
Lemma ClientFuture_poll_steps tick self : poll_steps tick self (ClientFuture_poll tick self).2.
Proof.
  rewrite ClientFuture_poll_eq. etrans; [apply steps_drop|]. generalize (drop_cancelled tick self). clear self. intros self.
  unfold poll_channels. unfold bind at 1, gets.
  pose proof (steps_send_requests tick (cf_new_receiver self) self eq_refl) as Hs.
  unfold bind at 1. destruct (send_requests tick (cf_new_receiver self) self) as [[[]| | |] self1]; cbn [snd] in *;
    try done.
  etrans; [exact Hs|]. pose proof (steps_receive tick QOS_MAX_RECEIVE_MSGS 0 0 self1) as Hr. unfold bind.
  destruct (receive_replies QOS_MAX_RECEIVE_MSGS 0 0 self1) as [[k| | |] self2]; cbn [fst snd] in *; try done.
  etrans; [exact Hr|apply steps_finish].
Qed.

(** ** What a client with several requests keeps *)

(** The bytes a message goes out as. *)
Definition sent_as (signer : option Signer) (m : Message) (id : Z) (buffer : bytes) : Prop :=
  ∃ tick m', sign_update tick signer (Message_id m id) = Ok m' ∧ Message_to_vec m' = Ok buffer.

(** A client of whose tickets [asks] lists some, with their messages, that has heard [heard];
  its tickets are below [next]. *)
Record client_ok (signer : option Signer) (asks : list (Message * ticket)) (heard : list stream_event) (next : ticket)
  self : Prop := {
  ck_signer : cf_signer self = signer;
  ck_ids : ids_ok self;
  ck_tickets : Forall (λ req, req < next)%nat (tickets self);
  ck_sent : Forall (λ x, x.1.1 < next)%nat (cf_sent self);
  ck_results : Forall (λ x, ends_r x.2) (cf_completed self);
  ck_decodable : decodable heard;
  ck_stream : cf_stream self ⊆ heard;
  ck_known m req : (m, req) ∈ asks → req ∈ tickets self;
  ck_queue m req m' : (m, req) ∈ asks → (m', req) ∈ cf_new_receiver self → m' = m;
  ck_sent_as m req id buffer : (m, req) ∈ asks → (req, id, buffer) ∈ cf_sent self → sent_as signer m id buffer;
  ck_heard m req reply : (m, req) ∈ asks → (req, Ok reply) ∈ cf_completed self →
    ∃ b, Buffer b ∈ heard ∧ Message_from_vec b = Ok reply;
}.

Lemma tickets_pop self m req queue : cf_new_receiver self = (m, req) :: queue →
  tickets self ≡ₚ req :: tickets (pop self queue).
Proof. intros Hq. unfold tickets. rewrite Hq. done. Qed.

Lemma poll_step_advances tick self self' : poll_step tick self self' → advances self self'.
Proof.
  intros Hstep. destruct Hstep as
    [n b self|id req d self Hid|m req queue e self Hq|m req queue id m' buffer self Hq Hid Hb Hs Hv|e stream self Hst|b m
      req d self Hm Hst Ha]; [apply advances_set_rng|by eapply advances_remove| | |apply advances_set_stream|].
  - split; simpl; [by rewrite tickets_complete, <-tickets_pop|by eexists|done|]. by apply (ids_ok_failed _ _ req e).
  - split; simpl; [|done|by eexists|].
    + rewrite (tickets_insert (set_sent (pop self queue) _)) by done. by rewrite (tickets_pop self m req queue).
    + by eapply (ids_ok_sent self _ req id).
  - etrans; [apply (advances_set_stream self (tail (cf_stream self)))|]. eapply advances_remove; [done|].
    by intros ? [= ->].
Qed.

Lemma client_ok_step signer asks heard next tick self self' :
  poll_step tick self self' → client_ok signer asks heard next self → client_ok signer asks heard next self'.
Proof.
  intros Hstep H. pose proof (poll_step_advances _ _ _ Hstep) as [Ht _ _ Hi].
  destruct H as [H1 H2 H3 H4 H5 H6 H7 H8 H9 H10 H11].
  assert (Ht' : Forall (λ req, req < next)%nat (tickets self')) by (by rewrite Ht).
  assert (Hk' : ∀ m req, (m, req) ∈ asks → req ∈ tickets self') by (intros m req Hr; rewrite Ht; by eapply H8).
  specialize (Hi H2). destruct Hstep as
    [n b self|id req d self Hid|m req queue e self Hq|m req queue id m' buffer self Hq Hid Hb Hs Hv|e stream self Hst|b m
      req d self Hm Hst Ha]; split; simpl; try done.
  - apply Forall_app. split; [done|]. by apply Forall_singleton.
  - intros m' req' reply ? [?|Hin]%elem_of_app; [by eapply H11|]. by apply list_elem_of_singleton in Hin.
  - apply Forall_app. split; [done|]. by apply Forall_singleton.
  - intros m1 req1 m2 ? ?. eapply H9; [done|]. rewrite Hq. by right.
  - intros m' req' reply ? [?|Hin]%elem_of_app; [by eapply H11|]. by apply list_elem_of_singleton in Hin.
  - apply Forall_app. split; [done|]. apply Forall_singleton. simpl. rewrite Forall_forall in H3. apply H3.
    unfold tickets. rewrite Hq. by left.
  - intros m1 req1 m2 ? ?. eapply H9; [done|]. rewrite Hq. by right.
  - intros m1 req1 id1 b1 Hask [?|Hin]%elem_of_app; [by eapply H10|].
    apply list_elem_of_singleton in Hin as [= -> -> ->]. assert (m = m1) as -> by (eapply H9; [done|]; rewrite Hq; by left).
    rewrite <-H1. by exists tick, m'.
  - intros x Hx. apply H7. rewrite Hst. by right.
  - apply Forall_app. split; [done|]. by apply Forall_singleton.
  - intros x Hx. apply H7. by destruct (cf_stream self); [|right].
  - intros m' req' reply Hask [?|Hin]%elem_of_app; [by eapply H11|]. apply list_elem_of_singleton in Hin as [= -> ->].
    destruct Hst as [stream Hs]. exists b. split; [|done]. apply H7. rewrite Hs. left.
Qed.

Lemma client_ok_poll signer asks heard next tick self :
  client_ok signer asks heard next self → client_ok signer asks heard next (ClientFuture_poll tick self).2.
Proof. pose proof (ClientFuture_poll_steps tick self) as H. induction H as [|a b c H _ IH]; [done|]. intros Ho. apply IH.
by eapply client_ok_step. Qed.

Lemma client_ok_more signer asks heard next events self : decodable events →
  client_ok signer asks heard next self → client_ok signer asks (heard ++ events) next self.
Proof.
  intros Hd [H1 H2 H3 H4 H5 H6 H7 H8 H9 H10 H11]. split; try done.
  - by apply Forall_app.
  - intros x Hx. apply elem_of_app. left. by apply H7.
  - intros m req reply Ha Hr. destruct (H11 _ _ _ Ha Hr) as (b & ? & ?). exists b. split; [apply elem_of_app; by left|done].
Qed.

(** More arrives. *)
Lemma client_ok_events signer asks heard next events self : decodable events →
  client_ok signer asks heard next self →
    client_ok signer asks (heard ++ events) next (set_stream self (cf_stream self ++ events)).
Proof.
  intros Hd Hc. apply (client_ok_more _ _ _ _ events) in Hc; [|done].
  destruct Hc as [H1 [H21 H22 H23 H24] H3 H4 H5 H6 H7 H8 H9 H10 H11]. split; try done.
  intros x [?|?]%elem_of_app; [by apply H7|apply elem_of_app; by right].
Qed.

(** A message is queued with the next ticket. *)
Lemma client_ok_ask signer asks heard next m self :
  client_ok signer asks heard next self →
  client_ok signer ((m, next) :: asks) heard (S next) (BasicClientHandle_send m next self).
Proof.
  intros [H1 [H21 H22 H23 H24] H3 H4 H5 H6 H7 H8 H9 H10 H11].
  assert (Hold : ∀ req : ticket, req ∈ tickets self → (req < next)%nat) by (rewrite Forall_forall in H3; done).
  assert (Ht : tickets (BasicClientHandle_send m next self) ≡ₚ next :: tickets self).
  { unfold tickets, BasicClientHandle_send. simpl. rewrite fmap_app, <-app_assoc. simpl. by rewrite <-Permutation_middle. }
  assert (Hq : ∀ m' req, (m', req) ∈ cf_new_receiver self → (req < next)%nat).
  { intros m' req Hin. apply Hold. unfold tickets. apply elem_of_app. left. apply list_elem_of_fmap. by exists (m', req). }
  assert (Hc : ∀ req r, (req, r) ∈ cf_completed self → (req < next)%nat).
  { intros req r Hin. apply Hold. unfold tickets. rewrite !elem_of_app. right. right. apply list_elem_of_fmap.
    by exists (req, r). }
  split; simpl; try done.
  - rewrite Ht. constructor; [lia|]. eapply Forall_impl; [exact H3|]. simpl. lia.
  - eapply Forall_impl; [exact H4|]. simpl. lia.
  - intros m' req. rewrite Ht, !elem_of_cons. intros [[= -> ->]|Ha]; [by left|right; by eapply H8].
  - intros m1 req m2. rewrite elem_of_cons, elem_of_app, list_elem_of_singleton.
    intros [[= -> ->]|Ha] [Hin|Heq]; simplify_eq; try done; [apply Hq in Hin; lia|by eapply H9|].
    apply H8, Hold in Ha. lia.
  - intros m1 req id b. rewrite elem_of_cons. intros [[= -> ->]|Ha] Hin; [|by eapply H10].
    rewrite Forall_forall in H4. apply H4 in Hin. simpl in Hin. lia.
  - intros m1 req reply. rewrite elem_of_cons. intros [[= -> ->]|Ha] Hin; [|by eapply H11]. apply Hc in Hin. lia.
Qed.

(** ** A poll ends *)

Lemma ends_send_request tick m req id self : (send_request tick m req id self).1 ≠ Diverge.
Proof.
  unfold send_request. pose proof (ends_sign_update tick (cf_signer self) (Message_id m id)) as Hg.
  destruct (sign_update _ _ _) as [m'| | |]; [|done..|by destruct Hg]. destruct (negb _); [done|].
  pose proof (ends_Message_to_vec m') as Hv. destruct (Message_to_vec m'); [|done..|by destruct Hv].
  by destruct (t_sink _ _).
Qed.

Lemma ends_send_requests tick queue self : (send_requests tick queue self).1 ≠ Diverge.
Proof.
  revert self. induction queue as [|[m req] queue IH]; intros self; simpl; [done|].
  unfold bind at 1. unfold next_random_query_id. destruct (draw_id 100 _ _) as [[id|] draws]; simpl; [|done].
  unfold bind, modify. set (self1 := set_new_receiver _ _ _). pose proof (ends_send_request tick m req id self1) as Hs.
  destruct (send_request tick m req id self1) as [[[]| | |] self2]; simpl in *; done.
Qed.

Lemma ends_receive n i k self : decodable (cf_stream self) → (receive_replies n i k self).1 ≠ Diverge.
Proof.
  revert i k self. induction n as [|n IH]; intros i k self Hd; [done|]. cbn [receive_replies].
  destruct (cf_stream self) as [|[b| | |] stream] eqn:Es; try done. apply Forall_cons in Hd as [Hb Hd].
  unfold bind, handle_buffer. destruct (Message_from_vec b) as [m|e| |]; try (by destruct Hb); try done; [|by apply IH].
  destruct (_ !! h_id (m_header m)) as [[req d]|]; by apply IH.
Qed.

Lemma send_requests_stream tick queue self : cf_stream (send_requests tick queue self).2 = cf_stream self.
Proof.
  revert self. induction queue as [|[m req] queue IH]; intros self; simpl; [done|].
  unfold bind at 1. unfold next_random_query_id. destruct (draw_id 100 _ _) as [[id|] draws]; simpl; [|done].
  unfold bind, modify. set (self1 := set_new_receiver _ _ _).
  assert (Hs : cf_stream (send_request tick m req id self1).2 = cf_stream self) by (unfold send_request;
    by repeat case_match).
  destruct (send_request tick m req id self1) as [[[]| | |] self2]; simpl in *; try done. by rewrite IH.
Qed.

Lemma ends_finish k self : (finish_poll k self).1 ≠ Diverge.
Proof. unfold finish_poll, bind, gets, ret, modify. simpl. repeat case_match; simpl; by simplify_eq. Qed.

Lemma finish_frame k self :
  cf_new_receiver (finish_poll k self).2 = cf_new_receiver self ∧
  cf_active_requests (finish_poll k self).2 = cf_active_requests self.
Proof. unfold finish_poll, bind, gets, ret, modify. simpl. repeat case_match; simpl; by simplify_eq. Qed.

Lemma ClientFuture_poll_ends tick self : decodable (cf_stream self) → (ClientFuture_poll tick self).1 ≠ Diverge.
Proof.
  intros Hd. rewrite ClientFuture_poll_eq. destruct (drop_cancelled_frame tick self) as (_ & Hst & _). rewrite <-Hst in Hd.
  clear Hst. revert Hd. generalize (drop_cancelled tick self). clear self. intros self Hd. unfold poll_channels.
  unfold bind at 1, gets.
  pose proof (ends_send_requests tick (cf_new_receiver self) self) as Hs.
  pose proof (send_requests_stream tick (cf_new_receiver self) self) as Hs2.
  unfold bind at 1. destruct (send_requests tick (cf_new_receiver self) self) as [[[]| | |] self1]; cbn [fst snd] in *;
    try done.
  rewrite <-Hs2 in Hd. pose proof (ends_receive QOS_MAX_RECEIVE_MSGS 0 0 self1 Hd) as Hr. unfold bind.
  destruct (receive_replies QOS_MAX_RECEIVE_MSGS 0 0 self1) as [[k| | |] self2]; cbn [fst snd] in *; try done.
  apply ends_finish.
Qed.

(** ** A poll makes progress *)

(** Requests only leave the queue, and as long as none does, none enters the table. *)
Definition settles self self' : Prop :=
  (cf_new_receiver self' = cf_new_receiver self ∧ cf_active_requests self' ⊆ cf_active_requests self) ∨
  (length (cf_new_receiver self') < length (cf_new_receiver self))%nat.

#[global] Instance settles_preorder : PreOrder settles.
Proof.
  split; [by left|]. intros a b c [[E1 H1]|H1] [[E2 H2]|H2]; [left; split; [congruence|by etrans]|right..].
  - by rewrite <-E1.
  - by rewrite E2.
  - lia.
Qed.

Lemma poll_step_settles tick self self' : poll_step tick self self' → settles self self'.
Proof.
  intros []; try (by left; split); [left; split; [done|apply delete_subseteq]| | |left; split;
    [done|apply delete_subseteq]];
    right; simpl; match goal with H : cf_new_receiver _ = _ |- _ => rewrite H end; simpl; lia.
Qed.

Lemma poll_steps_settle tick self self' : poll_steps tick self self' → settles self self'.
Proof. induction 1 as [|a b c H _ IH]; [done|]. etrans; [by eapply poll_step_settles|exact IH]. Qed.

Lemma drop_cancelled_expired tick self :
  map_Forall (λ _ request, request.2 ≤ t_now tick) (cf_active_requests self) →
    cf_active_requests (drop_cancelled tick self) = ∅.
Proof.
  intros H. apply map_eq. intros id. rewrite drop_cancelled_active, fin_maps.lookup_empty.
  destruct (cf_active_requests self !! id) as [[req d]|] eqn:E; [|done]. apply H in E. simpl in E.
  unfold canceled. simpl. by rewrite (proj2 (Z.leb_le d (t_now tick)) ltac:(lia)), orb_true_r.
Qed.

(** With an empty table the first id drawn is free, so a request leaves the queue. *)
Lemma send_requests_shorter tick m req queue self :
  cf_new_receiver self = (m, req) :: queue → cf_active_requests self = ∅ →
  (length (cf_new_receiver (send_requests tick (cf_new_receiver self) self).2) < length (cf_new_receiver self))%nat.
Proof.
  intros Hq Ha. rewrite Hq at 1. cbn [send_requests]. unfold bind at 1, next_random_query_id. rewrite Ha. cbn [draw_id].
  rewrite fin_maps.lookup_empty. cbn [fst snd]. set (self1 := set_rng self _ _). unfold bind, modify.
  change (set_new_receiver self1 queue (cf_senders self1)) with (pop self1 queue).
  destruct (steps_send_request tick m req queue (gen_range (cf_draws self)) self1) as [_ Hq']; [done|simpl;
    by rewrite Ha, fin_maps.lookup_empty|apply gen_range_bound|].
  destruct (send_request tick m req (gen_range (cf_draws self)) (pop self1 queue)) as [r self2]. simpl in Hq'.
  assert (Hl : ∀ self3, settles self2 self3 → (length (cf_new_receiver self3) < length (cf_new_receiver self))%nat).
  { intros self3 [[-> _]|H3]; rewrite Hq in *; simpl; rewrite Hq' in *; lia. }
  destruct r; simpl; try (by apply Hl). apply Hl. eapply poll_steps_settle. by apply (steps_send_requests tick).
Qed.

(** A poll after every deadline empties the table, or sends something. *)
Lemma late_poll tick self :
  map_Forall (λ _ request, request.2 ≤ t_now tick) (cf_active_requests self) →
  let self' := (ClientFuture_poll tick self).2 in
  (cf_new_receiver self' = [] ∧ cf_active_requests self' = ∅) ∨
  (length (cf_new_receiver self') < length (cf_new_receiver self))%nat.
Proof.
  intros Hl. rewrite ClientFuture_poll_eq. apply drop_cancelled_expired in Hl.
  destruct (drop_cancelled_frame tick self) as (Hq & _ & _). rewrite <-Hq.
  clear Hq. revert Hl. generalize (drop_cancelled tick self). clear self. intros self Ha. cbv zeta.
  destruct (cf_new_receiver self) as [|[m req] queue] eqn:Eq.
  - left. pose proof Eq as Eq'. rewrite (poll_channels_idle _ _ Eq).
    pose proof (receive_active_empty QOS_MAX_RECEIVE_MSGS 0 0 self Ha) as Hr.
    pose proof (poll_steps_settle _ _ _ (steps_receive tick QOS_MAX_RECEIVE_MSGS 0 0 self)) as Hs.
    unfold bind. destruct (receive_replies QOS_MAX_RECEIVE_MSGS 0 0 self) as [r self1]. cbn [fst snd] in *.
    assert (H1 : cf_new_receiver self1 = []) by (destruct Hs as [[-> _]|Hs]; [done|rewrite Eq in Hs; simpl in Hs; lia]).
    destruct r as [k| | |]; [|by split..]. destruct (finish_frame k self1) as [-> ->]. by split.
  - right. rewrite <-Eq. pose proof (send_requests_shorter tick m req queue self Eq Ha) as Hlt.
    unfold poll_channels. unfold bind at 1, gets. unfold bind at 1.
    destruct (send_requests tick (cf_new_receiver self) self) as [r self1]. cbn [snd] in Hlt. destruct r; try exact Hlt.
    assert (Hs : ∀ self2, settles self1 self2 → (length (cf_new_receiver self2) < length (cf_new_receiver self))%nat)
      by (intros self2 [[-> _]|?]; lia).
    pose proof (steps_receive tick QOS_MAX_RECEIVE_MSGS 0 0 self1) as Hr. unfold bind.
    destruct (receive_replies QOS_MAX_RECEIVE_MSGS 0 0 self1) as [[k| | |] self2]; cbn [fst snd] in *; apply Hs;
      eapply poll_steps_settle; try exact Hr. etrans; [exact Hr|apply steps_finish].
Qed.
End steps.
