(* ===== verification/Futures.v ===== *)
(** * Futures: what a blocking call waits for

    The futures a validating client is made of, as trees.  [Send] is the receiving half of
    a oneshot channel that [BasicClientHandle::send] returned, [AndThen] is [and_then], and
    [Select] is [select_all] or [select_ok] with the loop around it.  A tree is polled
    against the [ClientFuture] of the same event loop: a call of [send] queues a message
    at once, and a continuation is called, and its own messages queued, in the poll
    that finds its future ready.

    Each message is known by the path of calls that led to it, which is where the
    receiver is found again.  A poll keeps a log: what was asked, what was told and which
    of several futures was taken first.  The theorem of this file is that the order in which
    things happen does not matter beyond what a [Network] can say: whatever a tree has
    become after some polls means what it meant at first, under every network that agrees with the
    log, and there is such a network. *)

From S2P Require Import Prelude Codec Wire Domain Enums Header RData RDataProps Resource Message RecordSet.
From S2P Require Import KeyPair Signer Update BTree Journal Authority AuthorityProps ZoneInstances Returns ClientHandle.
From S2P Require Import Validate ClientFuture Sync.

(** ** Trees *)

(** What the loop over a set of futures has gathered. *)
Abbreviation gathered := (list (Name * RecordType)) (only parsing).

(** What that loop does with an outcome: whether no future remains decides, too. *)
Abbreviation gathering A B :=
  (gathered → res client_error A → bool → gathered + res client_error B) (only parsing).

#[warnings="-register-all"] Inductive future : Type → Type :=
  | Done {A} (r : res client_error A) : future A
  | Send (p : path) (m : Message) : future Message
  | AndThen {A B} (f : future A) (k : A → future B) : future B
  | Select {A B} (p : path) (n : nat) (waiting : list (nat * future A)) (next : gathering A B) (acc : gathered) :
      future B.

Definition finished {A} (f : future A) : option (res client_error A) :=
  match f with Done r => Some r | _ => None end.

Lemma finished_Some {A} (f : future A) r : finished f = Some r → f = Done r.
Proof. destruct f; simpl; try done. by intros [= ->]. Qed.

(** The conjunction of [P] over a list, by recursion. *)
Section all_in.
Context {X : Type} (P : X → Prop).
Fixpoint all_in (l : list X) : Prop :=
  match l with [] => True | x :: l => P x ∧ all_in l end.

Lemma all_in_Forall l : all_in l ↔ Forall P l.
Proof. induction l as [|x l IH]; simpl; [|rewrite IH]; by rewrite ?Forall_nil, ?Forall_cons. Qed.
End all_in.

Lemma future_induction (Q : ∀ A, future A → Prop) :
  (∀ A r, Q A (Done r)) → (∀ p m, Q Message (Send p m)) →
  (∀ A B f (k : A → future B), Q A f → (∀ a, Q B (k a)) → Q B (AndThen f k)) →
  (∀ A B p n waiting (next : gathering A B) acc,
     Forall (λ x, Q A x.2) waiting → Q B (Select p n waiting next acc)) →
  ∀ A f, Q A f.
Proof.
  intros H1 H2 H3 H4. fix IH 2. intros A [A' r|p m|A' B f k|A' B p n waiting next acc]; [apply H1|apply H2|apply H3;
    intros; apply IH|].
  apply H4. induction waiting as [|x waiting IHw]; constructor; [apply IH|exact IHw].
Qed.

(** The futures by their number. *)
Fixpoint assoc {A} (i : nat) (l : list (nat * A)) : option A :=
  match l with
  | [] => None
  | (j, x) :: l => if decide (i = j) then Some x else assoc i l
  end.

Definition none_left {A} (l : list A) : bool := match l with [] => true | _ => false end.

(** ** What a tree means *)

(** Outcomes, in the order they come. *)
Fixpoint gather {A B} (next : gathering A B) (acc : gathered) (results : list (res client_error A)) :
    res client_error B :=
  match results with
  | [] => Diverge
  | r :: results =>
      match next acc r (none_left results) with
      | inl acc => gather next acc results
      | inr b => b
      end
  end.

Fixpoint meaning `{Network} {A} (f : future A) : res client_error A :=
  match f in future A return res client_error A with
  | Done r => r
  | Send p m => upstream p m
  | AndThen f k => rbind (meaning f) (λ a, meaning (k a))
  | Select p n waiting next acc =>
      gather next acc (omap (λ i, assoc i (map (λ x, (x.1, meaning x.2)) waiting)) (completion p n))
  end.

(** Only the replies and the order of completion matter. *)
Lemma meaning_ext {A} (f : future A) (N1 N2 : Network) :
  (∀ p m, upstream (Network:=N1) p m = upstream (Network:=N2) p m) →
  (∀ p n, completion (Network:=N1) p n = completion (Network:=N2) p n) → meaning (H:=N1) f = meaning (H:=N2) f.
Proof.
  intros Hu Hc. induction f as [A r|p m|A B f k IHf IHk|A B p n waiting next acc IH] using future_induction; simpl.
  - done.
  - apply Hu.
  - rewrite IHf. destruct (meaning (H:=N2) f); simpl; [apply IHk|done..].
  - rewrite Hc. do 2 f_equal. assert (Hm : map (λ x, (x.1, meaning (H:=N1) x.2)) waiting = map (λ x, (x.1, meaning
      (H:=N2) x.2)) waiting).
    { apply map_ext_in. intros x Hx%list_elem_of_In. rewrite Forall_forall in IH. by rewrite IH. }
    by rewrite Hm.
Qed.

(** ** The event loop *)

Inductive event : Type :=
  | Asked (p : path) (m : Message) (req : option ticket)
  | Told (p : path) (m : Message) (r : res client_error Message)
  | Took (p : path) (n i : nat) (others : list nat).

(** The client's future, whether it still runs, the next ticket, and the log. *)
Record World `{Crypto} : Type := mkWorld {
  w_client : ClientFuture;
  w_running : bool;
  w_next : ticket;
  w_log : list event;
}.

(** The message that was sent at [p], and the ticket of its receiver if it could be queued. *)
Definition asked_at (p : path) (e : event) : option (Message * option ticket) :=
  match e with Asked q m req => if decide (q = p) then Some (m, req) else None | _ => None end.
Definition receiver (p : path) (log : list event) : option (Message * option ticket) := head (omap (asked_at p) log).

Section polling.
Context `{L : Lowercase} `{HO : HashOrder} `{C : Crypto} `{R : Rng}.

Definition note (e : event) (w : World) : World :=
  mkWorld _ (w_client w) (w_running w) (w_next w) (w_log w ++ [e]).

(** [BasicClientHandle::send]: a message that cannot be queued has an outcome of its own. *)
Definition issue (p : path) (m : Message) (w : World) : World :=
  if w_running w then
    note (Asked p m (Some (w_next w)))
      (mkWorld _ (BasicClientHandle_send m (w_next w) (w_client w)) true (S (w_next w)) (w_log w))
  else note (Asked p m None) w.

(** A poll of the receiver. *)
Definition Receiver_poll (p : path) (w : World) : option (res client_error Message) :=
  match receiver p (w_log w) with
  | Some (_, Some req) =>
      match outcome_of req (w_client w) with
      | Some r => Some r
      | None => if w_running w then None else Some (Err ClientCanceled)
      end
  | Some (_, None) => Some (Err (ClientMessage "error sending to mpsc"))
  | None => None
  end.

(** The messages that are queued when the future is made. *)
Fixpoint start {A} (f : future A) (w : World) : World :=
  match f with
  | Done _ => w
  | Send p m => issue p m w
  | AndThen f _ => start f w
  | Select _ _ waiting _ _ => foldl (λ w x, start x.2 w) w waiting
  end.

(** One poll of the futures in [todo], those of [kept] having been found not ready. *)
Section select.
Context {A B : Type} (poll : future A → World → future A * World).
Context (p : path) (n : nat) (next : gathering A B).
Fixpoint select_loop (todo kept : list (nat * future A)) (acc : gathered) (w : World) : future B * World :=
  match todo with
  | [] => (Select p n kept next acc, w)
  | (i, g) :: todo =>
      let '(g, w) := poll g w in
      match finished g with
      | None => select_loop todo (kept ++ [(i, g)]) acc w
      | Some r =>
          let w := note (Took p n i (kept ++ todo).*1) w in
          match next acc r (none_left (kept ++ todo)) with
          | inl acc => select_loop todo kept acc w
          | inr b => (Done b, w)
          end
      end
  end.
End select.

Fixpoint poll {A} (f : future A) : World → future A * World :=
  match f in future A return World → future A * World with
  | Done r => λ w, (Done r, w)
  | Send p m => λ w,
      match Receiver_poll p w with
      | Some r => (Done r, note (Told p m r) w)
      | None => (Send p m, w)
      end
  | AndThen f k => λ w,
      let '(f, w) := poll f w in
      match finished f with
      | Some (Ok a) => poll (k a) (start (k a) w)
      | Some (Err e) => (Done (Err e), w)
      | Some Panic => (Done Panic, w)
      | Some Diverge => (Done Diverge, w)
      | None => (AndThen f k, w)
      end
  | Select p n waiting next acc => select_loop poll p n next waiting [] acc
  end.

(** A turn of the loop: the client's future is polled with what the stream has. *)
Definition turn_loop (t : turn) (w : World) : res client_error () * World :=
  if w_running w then
    match ClientFuture_poll t.2 (set_stream (w_client w) (cf_stream (w_client w) ++ t.1)) with
    | (Ok false, self) => (Ok (), mkWorld _ self true (w_next w) (w_log w))
    | (Ok true, self) | (Err _, self) => (Ok (), mkWorld _ self false (w_next w) (w_log w))
    | (Panic, self) => (Panic, mkWorld _ self false (w_next w) (w_log w))
    | (Diverge, self) => (Diverge, mkWorld _ self false (w_next w) (w_log w))
    end
  else (Ok (), w).

(** [Core::run]: the future is polled, then there is a turn, until the future is ready;
    [Diverge] when the turns are used up. *)
Fixpoint block_on {A} (turns : list turn) (f : future A) (w : World) : res client_error A * World * list turn :=
  let '(f, w) := poll f w in
  match finished f with
  | Some r => (r, w, turns)
  | None =>
      match turns with
      | [] => (Diverge, w, [])
      | t :: turns =>
          match turn_loop t w with
          | (Ok _, w) => block_on turns f w
          | (Err e, w) => (Err e, w, turns)
          | (Panic, w) => (Panic, w, turns)
          | (Diverge, w) => (Diverge, w, turns)
          end
      end
  end.
End polling.

(** ** Where a tree lives

    The events of a tree are told apart by their keys: a path, and whether the event is
    about the message sent there or about the futures selected there. *)

Abbreviation key := (bool * path)%type (only parsing).
Definition event_key (e : event) : key :=
  match e with Asked p _ _ | Told p _ _ => (true, p) | Took p _ _ _ => (false, p) end.

Definition below (p : path) (x : key) : Prop := p `suffix_of` x.2.

Lemma below_disjoint p i j x : i ≠ j → below (i :: p) x → ¬ below (j :: p) x.
Proof.
  intros Hij [k Hk] [l Hl]. rewrite Hk, !cons_middle, !app_assoc in Hl. apply app_inv_tail in Hl.
  by apply app_inj_2 in Hl as [_ [= ?]].
Qed.

Lemma below_not_self b p i : ¬ below (i :: p) (b, p).
Proof. intros [k Hk]. apply (f_equal length) in Hk. simpl in Hk. rewrite length_app in Hk. simpl in Hk. lia. Qed.

Lemma below_cons p i x : below (i :: p) x → below p x.
Proof. intros [k Hk]. exists (k ++ [i]). by rewrite <-app_assoc. Qed.

(** A loop that stops when nothing is left. *)
Definition decides {A B} (next : gathering A B) : Prop := ∀ acc r, ∃ b, next acc r true = inr b.

(** The keys of a tree, now and later, are in [P], and no two parts of it share one. *)
Fixpoint within {A} (f : future A) (P : key → Prop) : Prop :=
  match f with
  | Done _ => True
  | Send p m => P (true, p)
  | AndThen f k => ∃ Q, within f (λ x, P x ∧ Q x) ∧ ∀ a, within (k a) (λ x, P x ∧ ¬ Q x)
  | Select p n waiting next _ =>
      P (false, p) ∧ waiting ≠ [] ∧ NoDup waiting.*1 ∧ Forall (λ i, i < n)%nat waiting.*1 ∧ decides next ∧
      all_in (λ x, within x.2 (λ y, P y ∧ below (x.1 :: p) y)) waiting
  end.

Lemma within_mono {A} (f : future A) (P P' : key → Prop) : (∀ x, P x → P' x) → within f P → within f P'.
Proof.
  revert P P'. induction f as [A r|p m|A B f k IHf IHk|A B p n waiting next acc IH] using future_induction;
    intros P P' HP; simpl.
  - done.
  - apply HP.
  - intros (Q & Hf & Hk). exists Q. split; [eapply IHf; [|done]; naive_solver|]. intros a. eapply IHk; [|done].
    naive_solver.
  - intros (? & ? & ? & ? & ? & H). split_and!; [by apply HP|done..|]. rewrite all_in_Forall in *.
    rewrite Forall_forall in *. intros x Hx. eapply IH; [done| |by apply H]. naive_solver.
Qed.

(** [hd] of the messages that are awaited, [tl] of those still to be sent, and [nd] of the
    selections. *)
Fixpoint every {A} (hd tl : path → Message → Prop) (nd : path → nat → list nat → Prop) (f : future A) : Prop :=
  match f with
  | Done _ => True
  | Send p m => hd p m
  | AndThen f k => every hd tl nd f ∧ ∀ a, every tl tl nd (k a)
  | Select p n waiting _ _ => nd p n waiting.*1 ∧ all_in (λ x, every hd tl nd x.2) waiting
  end.

Lemma every_frame {A} (f : future A) P (hd tl hd' tl' : path → Message → Prop) (nd nd' : path → nat → list nat → Prop) :
  within f P → every hd tl nd f →
  (∀ p m, P (true, p) → hd p m → hd' p m) → (∀ p m, P (true, p) → tl p m → tl' p m) →
  (∀ p n l, P (false, p) → nd p n l → nd' p n l) → every hd' tl' nd' f.
Proof.
  revert P hd hd'. induction f as [A r|p m|A B f k IHf IHk|A B p n waiting next acc IH] using future_induction;
    intros P hd hd'; simpl; intros Hw He Hh Ht Hn.
  - done.
  - by apply Hh.
  - destruct Hw as (Q & Hwf & Hwk), He as [Hef Hek]. split; [eapply IHf; naive_solver|].
    intros a. eapply (IHk a _ tl tl'); naive_solver.
  - destruct Hw as (Hp & _ & _ & _ & _ & Hw), He as [He1 He2]. split; [by apply Hn|].
    rewrite all_in_Forall, Forall_forall in *. intros x Hx. eapply IH; naive_solver.
Qed.

(** ** The log *)

Definition unused (log : list event) (p : path) : Prop := Forall (λ e, event_key e ≠ (true, p)) log.
Definition told_at (p : path) (e : event) : option (Message * res client_error Message) :=
  match e with Told q m r => if decide (q = p) then Some (m, r) else None | _ => None end.
Definition answer (p : path) (log : list event) : option (Message * res client_error Message) :=
  head (omap (told_at p) log).
Definition took_at (p : path) (n : nat) (e : event) : option nat :=
  match e with Took q n' i _ => if decide (q = p ∧ n' = n) then Some i else None | _ => None end.
Definition taken (p : path) (n : nat) (log : list event) : list nat := omap (took_at p n) log.
Definition untaken (log : list event) (p : path) (n : nat) (l : list nat) : Prop := ∀ i, i ∈ l → i ∉ taken p n log.

Definition awaited (log : list event) (p : path) (m : Message) : Prop :=
  (∃ req, receiver p log = Some (m, req)) ∧ answer p log = None.

(** A tree that has not been started, and one that has. *)
Definition fresh {A} (log : list event) (f : future A) : Prop :=
  every (λ p _, unused log p) (λ p _, unused log p) (untaken log) f.
Definition live {A} (log : list event) (f : future A) : Prop :=
  every (awaited log) (λ p _, unused log p) (untaken log) f.

(** No message is asked or told twice, and no future taken twice. *)
Inductive log_ok : list event → Prop :=
  | log_nil : log_ok []
  | log_asked log p m req : log_ok log → unused log p → log_ok (log ++ [Asked p m req])
  | log_told log p m r req : log_ok log → receiver p log = Some (m, req) → answer p log = None →
    log_ok (log ++ [Told p m r])
  | log_took log p n i others :
      log_ok log → (i < n)%nat → NoDup (i :: others) → untaken log p n (i :: others) → log_ok (log ++ [Took p n i others]).

Lemma head_omap_app {X Y} (f : X → option Y) l k :
  head (omap f (l ++ k)) = match head (omap f l) with Some y => Some y | None => head (omap f k) end.
Proof. induction l as [|x l IH]; simpl; [done|]. by destruct (f x). Qed.

Lemma omap_none {X Y} (f : X → option Y) l : Forall (λ x, f x = None) l → omap f l = [].
Proof. induction 1 as [|x l Hx _ IH]; simpl; [done|]. by rewrite Hx. Qed.

Section grow.
Context (new log : list event) (P : key → Prop).
Hypothesis outside : Forall (λ e, ¬ P (event_key e)) new.

Lemma unused_grow p : P (true, p) → unused log p → unused (log ++ new) p.
Proof.
  intros HP Hu. apply Forall_app. split; [done|]. eapply Forall_impl; [exact outside|]. intros e He Hk. apply He.
  by rewrite Hk.
Qed.

Lemma answer_grow p : P (true, p) → answer p (log ++ new) = answer p log.
Proof.
  intros HP. unfold answer. rewrite head_omap_app. rewrite (omap_none _ new); [by destruct (head _)|].
  eapply Forall_impl; [exact outside|]. intros [q m r|q m r|q n i o] He; simpl in *; try done. case_decide; by subst.
Qed.

Lemma taken_grow p n : P (false, p) → taken p n (log ++ new) = taken p n log.
Proof.
  intros HP. unfold taken. rewrite omap_app. rewrite (omap_none _ new); [by rewrite app_nil_r|].
  eapply Forall_impl; [exact outside|]. intros [q m r|q m r|q n' i o] He; simpl in *; try done.
  rewrite decide_False; [done|]. by intros [-> _].
Qed.

Lemma awaited_grow p m : P (true, p) → awaited log p m → awaited (log ++ new) p m.
Proof.
  intros HP [[req Hr] Ha]. split; [|by rewrite answer_grow]. exists req. unfold receiver in *. by rewrite head_omap_app, Hr.
Qed.

Lemma untaken_grow p n l : P (false, p) → untaken log p n l → untaken (log ++ new) p n l.
Proof. intros HP Hu i Hi. rewrite taken_grow by done. by apply Hu. Qed.

Lemma fresh_grow {A} (f : future A) : within f P → fresh log f → fresh (log ++ new) f.
Proof.
  intros Hw Hf. eapply every_frame; [exact Hw|exact Hf|..]; [by intros; apply unused_grow..|intros; by apply untaken_grow].
Qed.

Lemma live_grow {A} (f : future A) : within f P → live log f → live (log ++ new) f.
Proof.
  intros Hw Hf. eapply every_frame; [exact Hw|exact Hf|..];
    [intros; by apply awaited_grow|intros; by apply unused_grow|intros; by apply untaken_grow].
Qed.
End grow.

(** ** Networks that agree with a log *)

(** [i] comes before the others. *)
Definition comes_first (i : nat) (others order : list nat) : Prop :=
  ∃ l k, order = l ++ i :: k ∧ ∀ j, j ∈ others → j ∉ l.

Definition agrees (NW : Network) (e : event) : Prop :=
  match e with
  | Asked _ _ _ => True
  | Told p m r => upstream p m = r
  | Took p n i others => comes_first i others (completion p n)
  end.

Lemma assoc_app {A} i (l k : list (nat * A)) :
  assoc i (l ++ k) = match assoc i l with Some x => Some x | None => assoc i k end.
Proof. induction l as [|[j x] l IH]; simpl; [done|]. by case_decide. Qed.

Lemma assoc_None {A} i (l : list (nat * A)) : assoc i l = None ↔ i ∉ l.*1.
Proof.
  induction l as [|[j x] l IH]; simpl; [split; [by intros _ ?%not_elem_of_nil|done]|].
  rewrite not_elem_of_cons, <-IH. case_decide; naive_solver.
Qed.

(** The future that comes first, and the rest. *)
Lemma outcomes_first {A} (l k : list (nat * A)) i x order :
  NoDup order → NoDup (l ++ (i, x) :: k).*1 → comes_first i (l ++ k).*1 order →
  omap (λ j, assoc j (l ++ (i, x) :: k)) order = x :: omap (λ j, assoc j (l ++ k)) order.
Proof.
  intros Hn Hd (l1 & l2 & -> & Hl1). apply NoDup_app in Hn as (_ & Hl12 & Hn). apply NoDup_cons in Hn as [Hi _].
  assert (Hi' : i ∉ (l ++ k).*1).
  { rewrite fmap_app in *. simpl in Hd. rewrite <-Permutation_middle in Hd. by apply NoDup_cons in Hd as [? _]. }
  assert (Hne : ∀ j, j ≠ i → assoc j (l ++ (i, x) :: k) = assoc j (l ++ k)).
  { intros j Hj. rewrite !assoc_app. simpl. by rewrite decide_False. }
  rewrite !omap_app. cbn [omap list_omap].
  assert (Hext : ∀ l' : list nat, i ∉ l' → omap (λ j, assoc j (l ++ (i, x) :: k)) l' = omap (λ j, assoc j (l ++ k)) l').
  { induction l' as [|j l' IH]; [done|]. intros [? ?]%not_elem_of_cons. simpl. rewrite Hne by done.
    destruct (assoc j _); [f_equal|]; by apply IH. }
  rewrite Hext by (intros ?; apply (Hl12 i); [done|left]).
  rewrite (omap_none _ l1).
  2: { apply Forall_forall. intros j Hj. apply assoc_None. intros Hj'. by apply (Hl1 j). }
  cbn [app]. rewrite Hext by done. rewrite (proj2 (assoc_None i (l ++ k))) by done.
  rewrite assoc_app, (proj2 (assoc_None i l)) by (rewrite fmap_app in Hi'; set_solver). simpl. by rewrite decide_True.
Qed.

Lemma outcomes_none_left {A} (l : list (nat * A)) order :
  Forall (λ i, i ∈ order) l.*1 → none_left (omap (λ j, assoc j l) order) = none_left l.
Proof.
  intros H. destruct l as [|[i x] l].
  - rewrite omap_none; [done|]. by apply Forall_true.
  - apply Forall_cons in H as [H _]. simpl. destruct (omap _ order) as [|y ys] eqn:E; [|done]. exfalso.
    assert (Hin : x ∈ omap (λ j, if decide (j = i) then Some x else assoc j l) order).
    { apply list_elem_of_omap. exists i. split; [done|]. by rewrite decide_True. }
    rewrite E in Hin. by apply not_elem_of_nil in Hin.
Qed.

(** ** What a poll does *)

(** How a tree moves on within its keys, adding [new] to the log. *)
Record polled {A} (P : key → Prop) (log new : list event) (f f' : future A) : Prop := {
  pd_keys : Forall (λ e, P (event_key e)) new;
  pd_within : within f' P;
  pd_live : live (log ++ new) f';
  pd_log : log_ok (log ++ new);
  pd_meaning (NW : Network) : Forall (agrees NW) new → meaning f = meaning f';
}.

Lemma polled_refl {A} P log (f : future A) : within f P → live log f → log_ok log → polled P log [] f f.
Proof. intros. split; rewrite ?app_nil_r; done. Qed.

Lemma polled_trans {A} P log new1 new2 (f1 f2 f3 : future A) :
  polled P log new1 f1 f2 → polled P (log ++ new1) new2 f2 f3 → polled P log (new1 ++ new2) f1 f3.
Proof.
  intros [A1 A2 A3 A4 A5] [B1 B2 B3 B4 B5]. rewrite <-app_assoc in *. split; [by apply Forall_app|done..|].
  intros NW [? ?]%Forall_app. rewrite A5 by done. by apply B5.
Qed.

(** The shape of a selection. *)
Lemma within_select {A B} p n (waiting : list (nat * future A)) (next : gathering A B) acc P :
  within (Select p n waiting next acc) P ↔
  P (false, p) ∧ waiting ≠ [] ∧ NoDup waiting.*1 ∧ Forall (λ i, i < n)%nat waiting.*1 ∧ decides next ∧
  Forall (λ x, within x.2 (λ y, P y ∧ below (x.1 :: p) y)) waiting.
Proof. simpl. by rewrite all_in_Forall. Qed.

Lemma live_select {A B} p n (waiting : list (nat * future A)) (next : gathering A B) acc log :
  live log (Select p n waiting next acc) ↔ untaken log p n waiting.*1 ∧ Forall (λ x, live log x.2) waiting.
Proof. unfold live. simpl. by rewrite all_in_Forall. Qed.

(** One of several futures moves on. *)
Lemma polled_child {A B} P p n (l k : list (nat * future A)) i g g' (next : gathering A B) acc log new :
  within (Select p n (l ++ (i, g) :: k) next acc) P → live log (Select p n (l ++ (i, g) :: k) next acc) →
  polled (λ y, P y ∧ below (i :: p) y) log new g g' →
  polled P log new (Select p n (l ++ (i, g) :: k) next acc) (Select p n (l ++ (i, g') :: k) next acc).
Proof.
  rewrite within_select, live_select. intros (HP & _ & Hd & Hb & Hn & Hw) [Hu Hl] [P1 P2 P3 P4 P5].
  rewrite Forall_app, Forall_cons in Hw, Hl. destruct Hw as (Hwl & _ & Hwk), Hl as (Hll & _ & Hlk).
  assert (Hidx : (l ++ (i, g') :: k).*1 = (l ++ (i, g) :: k).*1) by (by rewrite !fmap_app).
  assert (Hgrow : ∀ x, x ∈ l ∨ x ∈ k → within x.2 (λ y, P y ∧ below (x.1 :: p) y) → live log x.2 → live (log ++ new) x.2).
  { intros x Hx Hwx Hlx. eapply live_grow; [|exact Hwx|exact Hlx]. eapply Forall_impl; [exact P1|]. simpl.
    intros e [_ He] [_ He']. revert He He'. apply below_disjoint. intros ->.
    rewrite fmap_app in Hd. simpl in Hd. rewrite <-Permutation_middle in Hd. apply NoDup_cons in Hd as [Hd _].
    apply Hd. apply elem_of_app. destruct Hx as [Hx|Hx]; [left|right]; apply list_elem_of_fmap; eauto. }
  split.
  - eapply Forall_impl; [exact P1|]. by intros e [? _].
  - rewrite within_select, Hidx. split_and!; try done; [by destruct l|]. rewrite Forall_app, Forall_cons. done.
  - rewrite live_select, Hidx. split.
    + eapply (untaken_grow _ _ (λ y, y = (false, p))); [|done|exact Hu]. eapply Forall_impl; [exact P1|].
      intros e [_ He] He'. rewrite He' in He. by apply below_not_self in He.
    + rewrite Forall_app, Forall_cons. split_and!; [|done|]; rewrite Forall_forall in *; intros x Hx; apply Hgrow; auto.
  - done.
  - intros NW Ha. simpl. rewrite !map_app. simpl. by rewrite (P5 NW).
Qed.

Lemma completion_NoDup `{Network} p n : NoDup (completion p n).
Proof. rewrite completion_perm. apply NoDup_seq. Qed.

Lemma meanings_idx `{Network} {A} (l : list (nat * future A)) : (map (λ x, (x.1, meaning x.2)) l).*1 = l.*1.
Proof. induction l as [|x l IH]; simpl; [done|]. f_equal. exact IH. Qed.

(** The next of several outcomes. *)
Lemma meaning_took `{NW : Network} {A B} p n (l k : list (nat * future A)) i r (next : gathering A B) acc :
  NoDup (l ++ (i, Done r) :: k).*1 → Forall (λ i, i < n)%nat (l ++ (i, Done r) :: k).*1 →
  comes_first i (l ++ k).*1 (completion p n) →
  meaning (Select p n (l ++ (i, Done r) :: k) next acc) =
  match next acc r (none_left (l ++ k)) with
  | inl acc => meaning (Select p n (l ++ k) next acc)
  | inr b => b
  end.
Proof.
  intros Hd Hb Hf. cbn [meaning]. rewrite !map_app. cbn [map fst snd meaning].
  set (ml := map _ l). set (mk := map _ k).
  assert (Hml : ml.*1 = l.*1) by apply meanings_idx. assert (Hmk : mk.*1 = k.*1) by apply meanings_idx.
  rewrite outcomes_first.
  - cbn [gather]. rewrite outcomes_none_left.
    + assert (none_left (ml ++ mk) = none_left (l ++ k)) as -> by (unfold ml, mk; by destruct l, k). done.
    + rewrite fmap_app, Hml, Hmk. rewrite fmap_app in Hb. apply Forall_app in Hb as [Hb1 Hb2].
      apply Forall_cons in Hb2 as [_ Hb2]. apply Forall_app. split; eapply Forall_impl; try done;
        intros j Hj; rewrite completion_perm; apply elem_of_seq; simpl in Hj; lia.
  - apply completion_NoDup.
  - revert Hd. rewrite !fmap_app, !fmap_cons, Hml, Hmk. done.
  - by rewrite fmap_app, Hml, Hmk, <-fmap_app.
Qed.

Lemma taken_snoc p n log q n' i others :
  taken p n (log ++ [Took q n' i others]) = taken p n log ++ (if decide (q = p ∧ n' = n) then [i] else []).
Proof. unfold taken. rewrite omap_app. simpl. by case_decide. Qed.

(** The outcome of a future that is ready is taken. *)
Lemma polled_took {A B} P p n (l k : list (nat * future A)) i r (next : gathering A B) acc log :
  within (Select p n (l ++ (i, Done r) :: k) next acc) P → live log (Select p n (l ++ (i, Done r) :: k) next acc) →
  log_ok log →
  polled P log [Took p n i (l ++ k).*1] (Select p n (l ++ (i, Done r) :: k) next acc)
    match next acc r (none_left (l ++ k)) with inl acc => Select p n (l ++ k) next acc | inr b => Done b end.
Proof.
  rewrite within_select, live_select. intros (HP & _ & Hd & Hb & Hn & Hw) [Hu Hl] Hlog.
  pose proof Hd as Hd0. pose proof Hb as Hb0. set (new := [Took p n i (l ++ k).*1]).
  assert (Hperm : (l ++ (i, Done r) :: k).*1 ≡ₚ i :: (l ++ k).*1).
  { rewrite !fmap_app. simpl. by rewrite <-Permutation_middle. }
  assert (Hlog' : log_ok (log ++ new)).
  { apply log_took; [done| | |].
    - rewrite Forall_forall in Hb. apply Hb. rewrite Hperm. left.
    - by rewrite <-Hperm.
    - intros j Hj. apply Hu. by rewrite Hperm. }
  assert (Hsel : ∀ acc', l ++ k ≠ [] → within (Select p n (l ++ k) next acc') P ∧
    live (log ++ new) (Select p n (l ++ k) next acc')).
  { intros acc' Hne. rewrite Hperm in Hd, Hb. apply NoDup_cons in Hd as [Hi Hd]. apply Forall_cons in Hb as [_ Hb].
    rewrite Forall_app, Forall_cons in Hw, Hl. destruct Hw as (? & _ & ?), Hl as (? & _ & ?).
    rewrite within_select, live_select. split; [split_and!; try done; by apply Forall_app|]. split.
    - intros j Hj. unfold new. rewrite taken_snoc, decide_True by done. rewrite not_elem_of_app, list_elem_of_singleton.
      split; [apply Hu; rewrite Hperm; by right|]. by intros ->.
    - assert (Hg : ∀ x, x ∈ l ++ k → live (log ++ new) x.2).
      { intros x Hx. eapply (live_grow _ _ (λ y, P y ∧ below (x.1 :: p) y)).
        - apply Forall_singleton. simpl. intros [_ ?]. by eapply below_not_self.
        - revert x Hx. apply Forall_forall. by apply Forall_app.
        - revert x Hx. apply Forall_forall. by apply Forall_app. }
      apply Forall_forall. exact Hg. }
  destruct (next acc r (none_left (l ++ k))) as [acc'|b] eqn:E.
  - assert (Hne : l ++ k ≠ []).
    { intros H0. rewrite H0 in E. destruct (Hn acc r) as [b Hb']. simpl in E. congruence. }
    destruct (Hsel acc' Hne) as [Hw' Hl']. split; [by apply Forall_singleton|done..|].
    intros NW [Hf _]%Forall_cons. rewrite meaning_took by done. by rewrite E.
  - split; [by apply Forall_singleton|done..|].
    intros NW [Hf _]%Forall_cons. rewrite meaning_took by done. by rewrite E.
Qed.

Section poll_spec.
Context `{L : Lowercase} `{HO : HashOrder} `{C : Crypto} `{R : Rng}.

Lemma unused_receiver log p : unused log p → receiver p log = None ∧ answer p log = None.
Proof.
  intros Hu. unfold receiver, answer. rewrite !omap_none; [done|..]; eapply Forall_impl; try exact Hu;
    intros [q m r|q m r|q n i o] He; simpl in *; try done; case_decide; by subst.
Qed.

(** A message is sent. *)
Lemma awaited_asked log p m req : unused log p → awaited (log ++ [Asked p m req]) p m.
Proof.
  intros Hu. destruct (unused_receiver _ _ Hu) as [Hr Ha]. split.
  - exists req. unfold receiver in *. rewrite head_omap_app, Hr. simpl. by rewrite decide_True.
  - unfold answer in *. by rewrite head_omap_app, Ha.
Qed.

(** What the making of a future adds to the log. *)
Record started {A} (P : key → Prop) (log new : list event) (f : future A) : Prop := {
  sd_keys : Forall (λ e, P (event_key e)) new;
  sd_live : live (log ++ new) f;
  sd_log : log_ok (log ++ new);
  sd_agrees (NW : Network) : Forall (agrees NW) new;
}.

Definition start_ok {A} (f : future A) : Prop :=
  ∀ P w, within f P → fresh (w_log w) f → log_ok (w_log w) →
  ∃ new, w_log (start f w) = w_log w ++ new ∧ started P (w_log w) new f.

Lemma start_list {A} p (waiting : list (nat * future A)) (P : key → Prop) w :
  Forall (λ x, start_ok x.2) waiting → NoDup waiting.*1 →
  Forall (λ x, within x.2 (λ y, P y ∧ below (x.1 :: p) y)) waiting →
  Forall (λ x, fresh (w_log w) x.2) waiting → log_ok (w_log w) →
  ∃ new, w_log (foldl (λ w x, start x.2 w) w waiting) = w_log w ++ new ∧
    Forall (λ e, P (event_key e) ∧ ∃ i, i ∈ waiting.*1 ∧ below (i :: p) (event_key e)) new ∧
    Forall (λ x, live (w_log w ++ new) x.2) waiting ∧ log_ok (w_log w ++ new) ∧
    ∀ NW : Network, Forall (agrees NW) new.
Proof.
  intros Hs. revert w. induction Hs as [|[i g] waiting Hg _ IH]; intros w Hd Hw Hf Hl.
  { exists []. rewrite app_nil_r. split_and!; by try constructor. }
  rewrite fmap_cons in Hd. apply NoDup_cons in Hd as [Hi Hd]. simpl in Hi.
  apply Forall_cons in Hw as [Hwg Hw], Hf as [Hfg Hf].
  destruct (Hg _ w Hwg Hfg Hl) as (new1 & E1 & [A1 A2 A3 A4]). simpl in *.
  assert (Hout : ∀ j, j ∈ waiting.*1 → Forall (λ e, ¬ (P (event_key e) ∧ below (j :: p) (event_key e))) new1).
  { intros j Hj. eapply Forall_impl; [exact A1|]. intros e [_ He] [_ He']. revert He He'.
    apply below_disjoint. intros Hij. simpl in Hij. by subst. }
  destruct (IH (start g w)) as (new2 & E2 & B1 & B2 & B3 & B4); [done|done| |by rewrite E1|].
  { rewrite E1. rewrite Forall_forall in *. intros x Hx. eapply fresh_grow; [|by apply Hw|by apply Hf].
    apply Hout. apply list_elem_of_fmap. eauto. }
  rewrite E1 in *. rewrite <-app_assoc in *. exists (new1 ++ new2). split_and!; [done| | |done|].
  - apply Forall_app. split; (eapply Forall_impl; [eassumption|]); simpl.
    + intros e [? ?]. split; [done|]. exists i. split; [left|done].
    + intros e (? & j & ? & ?). split; [done|]. exists j. split; [by right|done].
  - apply Forall_cons. split; [|done]. rewrite app_assoc.
    eapply (live_grow _ _ (λ y, P y ∧ below (i :: p) y)); [|exact Hwg|exact A2].
    eapply Forall_impl; [exact B1|]. intros e (_ & j & Hj & He) [_ He']. revert He' He. apply below_disjoint. by intros ->.
  - intros NW. by apply Forall_app.
Qed.

Lemma start_spec {A} (f : future A) : start_ok f.
Proof.
  induction f as [A r|p m|A B f k IHf IHk|A B p n waiting next acc IH] using future_induction; intros P w Hw Hf Hl.
  - exists []. split; [by rewrite app_nil_r|]. split; [constructor|done|by rewrite app_nil_r|constructor].
  - assert (∃ req, w_log (start (Send p m) w) = w_log w ++ [Asked p m req]) as [req E]
      by (simpl; unfold issue; destruct (w_running w); eauto).
    exists [Asked p m req]. split; [done|]. split; [by apply Forall_singleton|by apply awaited_asked|by apply log_asked|].
    intros NW. by apply Forall_singleton.
  - destruct Hw as (Q & Hwf & Hwk), Hf as [Hff Hfk]. destruct (IHf _ w Hwf Hff Hl) as (new & E & [A1 A2 A3 A4]).
    exists new. split; [done|]. split; [|split; [exact A2|]|done|done].
    + eapply Forall_impl; [exact A1|]. by intros e [? _].
    + intros a. eapply (fresh_grow _ _ (λ x, P x ∧ ¬ Q x)); [|apply Hwk|apply Hfk].
      eapply Forall_impl; [exact A1|]. naive_solver.
  - apply within_select in Hw as (HP & _ & Hd & _ & _ & Hw). destruct Hf as [Hu Hf]. rewrite all_in_Forall in Hf.
    destruct (start_list p waiting P w IH Hd Hw Hf Hl) as (new & E & A1 & A2 & A3 & A4). exists new. split; [done|].
    split; [|rewrite live_select; split; [|done]|done|done].
    + eapply Forall_impl; [exact A1|]. by intros e [? _].
    + eapply (untaken_grow _ _ (λ y, y = (false, p))); [|done|exact Hu]. eapply Forall_impl; [exact A1|].
      intros e (_ & j & _ & He) Hk. rewrite Hk in He. by apply below_not_self in He.
Qed.

Definition poll_ok {A} (f : future A) : Prop :=
  ∀ P w f' w', within f P → live (w_log w) f → log_ok (w_log w) → poll f w = (f', w') →
  ∃ new, w_log w' = w_log w ++ new ∧ polled P (w_log w) new f f'.

Lemma select_loop_ok {A B} P p n (next : gathering A B) (todo kept : list (nat * future A)) acc w f' w' :
  Forall (λ x, poll_ok x.2) todo →
  within (Select p n (kept ++ todo) next acc) P → live (w_log w) (Select p n (kept ++ todo) next acc) → log_ok (w_log w) →
  select_loop poll p n next todo kept acc w = (f', w') →
  ∃ new, w_log w' = w_log w ++ new ∧ polled P (w_log w) new (Select p n (kept ++ todo) next acc) f'.
Proof.
  intros Hp. revert kept acc w. induction Hp as [|[i g] todo Hg _ IH]; intros kept acc w Hw Hl Hlog; cbn [select_loop].
  { intros [= <- <-]. exists []. rewrite !app_nil_r in *. split; [done|]. by apply polled_refl. }
  destruct (poll g w) as [g' w1] eqn:Eg. pose proof Hw as Hw0. pose proof Hl as Hl0.
  rewrite within_select, Forall_app, Forall_cons in Hw0. rewrite live_select, Forall_app, Forall_cons in Hl0.
  destruct Hw0 as (_ & _ & _ & _ & _ & _ & Hwg & _), Hl0 as (_ & _ & Hlg & _). simpl in Hwg, Hlg.
  destruct (Hg _ w g' w1 Hwg Hlg Hlog Eg) as (new1 & E1 & Hpg).
  pose proof (polled_child P p n kept todo i g g' next acc _ new1 Hw Hl Hpg) as Hc.
  destruct (finished g') as [r|] eqn:Ef.
  - apply finished_Some in Ef as ->.
    pose proof (polled_took P p n kept todo i r next acc _ (pd_within _ _ _ _ _ Hc) (pd_live _ _ _ _ _ Hc)
      (pd_log _ _ _ _ _ Hc)) as Ht.
    destruct (next acc r (none_left (kept ++ todo))) as [acc'|b] eqn:En.
    + intros Hrec. eapply IH in Hrec as (new2 & E2 & H2); simpl; rewrite ?E1; try apply Ht.
      simpl in E2, H2. rewrite E1 in E2, H2. rewrite <-!app_assoc in E2.
      eexists. split; [exact E2|]. eapply polled_trans; [exact Hc|]. eapply (polled_trans _ _ [_]); [exact Ht|done].
    + intros [= <- <-]. simpl. rewrite E1, <-app_assoc. eexists. split; [done|]. by eapply polled_trans.
  - intros Hrec. eapply IH in Hrec as (new2 & E2 & H2); rewrite <-?app_assoc; simpl; rewrite ?E1; try apply Hc.
    rewrite E1, <-app_assoc in E2. rewrite <-app_assoc, E1 in H2. eexists. split; [done|]. by eapply polled_trans.
Qed.

Lemma Receiver_poll_asked p w r : Receiver_poll p w = Some r → ∃ m req, receiver p (w_log w) = Some (m, req).
Proof. unfold Receiver_poll. destruct (receiver p (w_log w)) as [[m req]|]; eauto. done. Qed.

(** A message is answered. *)
Lemma polled_told (P : key → Prop) log p m r : P (true, p) → awaited log p m → log_ok log →
  polled P log [Told p m r] (Send p m) (Done r).
Proof.
  intros HP [[req Hr] Ha] Hl. split; [by apply Forall_singleton|done|done|by eapply log_told|].
  by intros NW [? _]%Forall_cons.
Qed.

(** The first of two futures moves on. *)
Lemma polled_first {A B} (P Q : key → Prop) log new (f f' : future A) (k : A → future B) :
  polled (λ x, P x ∧ Q x) log new f f' → (∀ a, within (k a) (λ x, P x ∧ ¬ Q x)) → (∀ a, fresh log (k a)) →
  polled P log new (AndThen f k) (AndThen f' k) ∧ ∀ a, fresh (log ++ new) (k a).
Proof.
  intros [A1 A2 A3 A4 A5] Hw Hf.
  assert (Hf' : ∀ a, fresh (log ++ new) (k a)).
  { intros a. eapply (fresh_grow _ _ (λ x, P x ∧ ¬ Q x)); [|apply Hw|apply Hf]. eapply Forall_impl; [exact A1|].
    naive_solver. }
  split; [|done]. split; [|by exists Q|by split|done|].
  - eapply Forall_impl; [exact A1|]. by intros e [? _].
  - intros NW Ha. simpl. by rewrite (A5 NW).
Qed.

Lemma polled_mono {A} (P P' : key → Prop) log new (f f' : future A) :
  (∀ x, P x → P' x) → polled P log new f f' → polled P' log new f f'.
Proof.
  intros HP [A1 A2 A3 A4 A5]. split; [|by eapply within_mono|done..]. eapply Forall_impl; [exact A1|]. auto.
Qed.

(** A future that is ready gives way to its continuation. *)
Lemma polled_then {A B} (P : key → Prop) log (k : A → future B) a f' new1 new2 :
  (∀ NW : Network, Forall (agrees NW) new1) → Forall (λ e, P (event_key e)) new1 →
  polled P (log ++ new1) new2 (k a) f' → polled P log (new1 ++ new2) (AndThen (Done (Ok a)) k) f'.
Proof.
  intros Ha Hk [A1 A2 A3 A4 A5]. rewrite <-app_assoc in *. split; [by apply Forall_app|done..|].
  intros NW [_ ?]%Forall_app. simpl. by apply A5.
Qed.

Lemma polled_stop {A B} P log (r : res client_error A) (k : A → future B) b :
  log_ok log → (∀ NW : Network, rbind r (λ a, meaning (k a)) = b) → polled P log [] (AndThen (Done r) k) (Done b).
Proof. intros Hl Hb. split; [constructor|done|done|by rewrite app_nil_r|]. intros NW _. apply Hb. Qed.

Lemma poll_spec {A} (f : future A) : poll_ok f.
Proof.
  induction f as [A r|p m|A B f k IHf IHk|A B p n waiting next acc IH] using future_induction; intros P w f' w' Hw Hl Hlog.
  - intros [= <- <-]. exists []. rewrite app_nil_r. split; [done|]. by apply polled_refl.
  - cbn [poll]. destruct (Receiver_poll p w) as [r|] eqn:E; intros [= <- <-].
    + exists [Told p m r]. split; [done|]. by apply polled_told.
    + exists []. rewrite app_nil_r. split; [done|]. by apply polled_refl.
  - cbn [poll]. destruct (poll f w) as [f1 w1] eqn:Ef. destruct Hw as (Q & Hwf & Hwk), Hl as [Hlf Hlk].
    destruct (IHf _ _ _ _ Hwf Hlf Hlog Ef) as (new1 & E1 & H1).
    pose proof (pd_log _ _ _ _ _ H1) as Hlog1. apply (polled_first P Q _ _ _ _ k) in H1 as [H1 Hfr]; [|done|done].
    assert (Hstop : ∀ r, f1 = Done r → (∀ a, r ≠ Ok a) → ∀ b, (∀ NW : Network, rbind r (λ a, meaning (k a)) = b) →
      polled P (w_log w) new1 (AndThen f k) (Done b)).
    { intros r -> Hne b Hb. rewrite <-(app_nil_r new1). eapply polled_trans; [exact H1|]. by apply polled_stop. }
    destruct (finished f1) as [[a|e| |]|] eqn:Ed; [|try (apply finished_Some in Ed)..|]; intros Hp;
      [|simplify_eq; exists new1; (split; [done|]); by eapply Hstop..|simplify_eq; by exists new1].
    apply finished_Some in Ed as ->.
    destruct (start_spec (k a) (λ x, P x ∧ ¬ Q x) w1) as (new2 & E2 & [B1 B2 B3 B4]); [done|by rewrite E1|by rewrite E1|].
    destruct (IHk a (λ x, P x ∧ ¬ Q x) (start (k a) w1) f' w') as (new3 & E3 & H3);
      [done|by rewrite E2|by rewrite E2|done|].
    rewrite E3, E2, E1. exists (new1 ++ new2 ++ new3). rewrite !app_assoc. split; [done|]. rewrite <-app_assoc.
    eapply polled_trans; [exact H1|]. apply polled_then; [done| |].
    + eapply Forall_impl; [exact B1|]. by intros e [? _].
    + rewrite E2, E1 in H3. eapply polled_mono; [|exact H3]. by intros x [? _].
  - cbn [poll]. intros Hp. by eapply (select_loop_ok P p n next waiting []).
Qed.
End poll_spec.

(** ** The network of a log *)

Lemma log_ok_answer log p m r : log_ok log → Told p m r ∈ log → answer p log = Some (m, r).
Proof.
  intros Hl. induction Hl as [|log q m' req _ IH Hu|log q m' r' req _ IH Hr Ha|log q n i o _ IH _ _ _].
  - by intros ?%not_elem_of_nil.
  - intros [Hin|Hin]%elem_of_app; [|by apply list_elem_of_singleton in Hin]. unfold answer in *.
    by rewrite head_omap_app, IH.
  - unfold answer in *. rewrite head_omap_app. intros [Hin|Hin]%elem_of_app; [by rewrite IH|].
    apply list_elem_of_singleton in Hin as [= -> -> ->]. rewrite Ha. simpl. by rewrite decide_True.
  - intros [Hin|Hin]%elem_of_app; [|by apply list_elem_of_singleton in Hin]. unfold answer in *.
    by rewrite head_omap_app, IH.
Qed.

Lemma log_ok_taken log p n : log_ok log →
  NoDup (taken p n log) ∧ Forall (λ i, i < n)%nat (taken p n log) ∧
  ∀ i others, Took p n i others ∈ log → comes_first i others (taken p n log).
Proof.
  intros Hl. induction Hl as [|log q m' req _ (I1 & I2 & I3) Hu|log q m' r' req _ (I1 & I2 & I3) Hr Ha
    |log q n' i o _ (I1 & I2 & I3) Hi Ho Hu].
  - split_and!; [constructor..|]. by intros ? ? ?%not_elem_of_nil.
  - unfold taken in *. rewrite omap_app, app_nil_r. split_and!; [done..|].
    intros i others [?|Hin]%elem_of_app; [by apply I3|by apply list_elem_of_singleton in Hin].
  - unfold taken in *. rewrite omap_app, app_nil_r. split_and!; [done..|].
    intros i others [?|Hin]%elem_of_app; [by apply I3|by apply list_elem_of_singleton in Hin].
  - rewrite taken_snoc. case_decide as Hq.
    + destruct Hq as [-> ->]. split_and!.
      * apply NoDup_app. split_and!; [done| |apply NoDup_singleton]. intros j Hj Hj'%list_elem_of_singleton. subst j.
        apply (Hu i); [left|done].
      * apply Forall_app. split; [done|]. by apply Forall_singleton.
      * intros j others [Hin|Hin]%elem_of_app.
        -- destruct (I3 _ _ Hin) as (l & k & -> & Hlk). exists l, (k ++ [i]). by rewrite <-app_assoc.
        -- apply list_elem_of_singleton in Hin as [= -> ->]. exists (taken p n log), []. split; [done|].
           intros j Hj. apply Hu. by right.
    + rewrite app_nil_r. split_and!; [done..|]. intros j others [?|Hin]%elem_of_app; [by apply I3|].
      apply list_elem_of_singleton in Hin as [= -> -> -> ->]. by destruct Hq.
Qed.

Lemma answer_Told log p m r : answer p log = Some (m, r) → Told p m r ∈ log.
Proof.
  unfold answer. destruct (omap (told_at p) log) as [|y l] eqn:E; [done|]. simpl. intros [= ->].
  assert (Hin : (m, r) ∈ omap (told_at p) log) by (rewrite E; left).
  apply list_elem_of_omap in Hin as (e & He & Ht). destruct e as [|q m0 r0|]; simpl in Ht; try done.
  by case_decide; simplify_eq.
Qed.

Lemma receiver_Asked log p m req : receiver p log = Some (m, req) → Asked p m req ∈ log.
Proof.
  unfold receiver. destruct (omap (asked_at p) log) as [|y l] eqn:E; [done|]. simpl. intros [= ->].
  assert (Hin : (m, req) ∈ omap (asked_at p) log) by (rewrite E; left).
  apply list_elem_of_omap in Hin as (e & He & Ht). destruct e as [q m0 r0| |]; simpl in Ht; try done.
  by case_decide; simplify_eq.
Qed.

Lemma receiver_app p log new x : receiver p log = Some x → receiver p (log ++ new) = Some x.
Proof. unfold receiver. rewrite head_omap_app. by intros ->. Qed.

Lemma log_ok_receiver log p m r : log_ok log → Told p m r ∈ log → ∃ req, receiver p log = Some (m, req).
Proof.
  intros Hl. induction Hl as [|log q m' req _ IH Hu|log q m' r' req _ IH Hr Ha|log q n i o _ IH _ _ _];
    [by intros ?%not_elem_of_nil|intros [Hin|Hin]%elem_of_app..];
    try (destruct (IH Hin) as [req' ?]; exists req'; by apply receiver_app);
    apply list_elem_of_singleton in Hin; simplify_eq. exists req. by apply receiver_app.
Qed.

(** The futures in the order they were taken, then those that were dropped. *)
Definition order_of (log : list event) (p : path) (n : nat) : list nat :=
  let o := taken p n log in
  if decide (NoDup o ∧ Forall (λ i, i < n)%nat o) then o ++ filter (λ i, i ∉ o) (seq 0 n) else seq 0 n.

Lemma order_of_perm log p n : order_of log p n ≡ₚ seq 0 n.
Proof.
  unfold order_of. case_decide as H; [|done]. destruct H as [Hd Hb]. apply NoDup_Permutation.
  - apply NoDup_app. split_and!; [done| |apply NoDup_filter, NoDup_seq]. intros i Hi [Hi' _]%list_elem_of_filter. done.
  - apply NoDup_seq.
  - intros i. rewrite elem_of_app, list_elem_of_filter. rewrite Forall_forall in Hb. split.
    + intros [Hi|[_ ?]]; [|done]. apply Hb in Hi. apply elem_of_seq. lia.
    + intros Hi. destruct (decide (i ∈ taken p n log)); auto.
Qed.

(** What the log says, and [otherwise] where it is silent. *)
Definition network_of (log : list event) (ids : path → Z) (otherwise : path → Message →
  res client_error Message) : Network :=
  {| upstream p m :=
       match answer p log with Some (m', r) => if decide (m' = m) then r else otherwise p m | None => otherwise p m end;
     random_id := ids;
     completion := order_of log;
     completion_perm := order_of_perm log |}.

Lemma network_of_agrees log ids otherwise : log_ok log → Forall (agrees (network_of log ids otherwise)) log.
Proof.
  intros Hl. apply Forall_forall. intros [p m req|p m r|p n i others] He; simpl; [done|..].
  - rewrite (log_ok_answer _ _ _ _ Hl He). by rewrite decide_True.
  - destruct (log_ok_taken log p n Hl) as (H1 & H2 & H3). unfold order_of. rewrite decide_True by done.
    destruct (H3 _ _ He) as (l & k & -> & Hlk). eexists l, _. by rewrite <-app_assoc.
Qed.

(** ** A run *)

Section run.
Context `{L : Lowercase} `{HO : HashOrder} `{C : Crypto} `{R : Rng}.

Lemma turn_loop_log t w : w_log (turn_loop t w).2 = w_log w.
Proof. unfold turn_loop. repeat case_match; done. Qed.

Lemma turn_loop_no_error t w e : (turn_loop t w).1 ≠ Err e.
Proof. unfold turn_loop. repeat case_match; done. Qed.

(** What a run returns is what the tree means under every network that agrees with the log. *)
Lemma block_on_meaning {A} P turns (f : future A) w r w' turns' :
  within f P → live (w_log w) f → log_ok (w_log w) → block_on turns f w = (r, w', turns') →
  ∃ new, w_log w' = w_log w ++ new ∧ log_ok (w_log w') ∧
    (r ≠ Panic → r ≠ Diverge → ∀ NW : Network, Forall (agrees NW) new → meaning f = r).
Proof.
  revert f w. induction turns as [|t turns IH]; intros f w Hw Hl Hlog; cbn [block_on];
    destruct (poll f w) as [f1 w1] eqn:Ep; destruct (poll_spec f P w f1 w1 Hw Hl Hlog Ep) as (new & E & [A1 A2 A3 A4 A5]);
    (destruct (finished f1) as [r1|] eqn:Ef; [apply finished_Some in Ef as ->; intros [= <- <- <-]; exists new;
      rewrite E; auto|]).
  - intros [= <- <- <-]. exists new. rewrite E. by split_and!.
  - pose proof (turn_loop_log t w1) as Ht. pose proof (turn_loop_no_error t w1) as Hne.
    destruct (turn_loop t w1) as [[[]|e| |] w2]; simpl in Ht, Hne; [|by destruct (Hne e)|..].
    + rewrite <-E, <-Ht in A3, A4. intros Hb. destruct (IH f1 w2 A2 A3 A4 Hb) as (new2 & E2 & Hlog2 & Hm).
      rewrite Ht, E, <-app_assoc in E2. exists (new ++ new2). split_and!; [done|done|].
      intros Hp Hd NW [? ?]%Forall_app. rewrite (A5 NW) by done. by apply Hm.
    + intros [= <- <- <-]. exists new. rewrite Ht, E. by split_and!.
    + intros [= <- <- <-]. exists new. rewrite Ht, E. by split_and!.
Qed.

(** The call makes the future and runs it. *)
Lemma started_meaning {A} P turns (f : future A) w r w' turns' ids otherwise :
  within f P → fresh [] f → w_log w = [] → block_on turns f (start f w) = (r, w', turns') → r ≠ Panic → r ≠ Diverge →
  log_ok (w_log w') ∧ meaning (H:=network_of (w_log w') ids otherwise) f = r.
Proof.
  intros Hw Hf Hlog Hb Hp Hd. destruct (start_spec f P w Hw) as (new & E & [A1 A2 A3 A4]);
    [by rewrite Hlog|rewrite Hlog; constructor|]. rewrite <-E in A2, A3.
  destruct (block_on_meaning P turns f _ r w' turns' Hw A2 A3 Hb) as (new2 & E2 & Hlog2 & Hm). split; [done|].
  apply Hm; try done. pose proof (network_of_agrees _ ids otherwise Hlog2) as Ha. rewrite E2 in Ha at 2.
  by apply Forall_app in Ha as [_ ?].
Qed.
End run.
