(* ===== verification/Blocking.v ===== *)
(** * Blocking: a future that is run comes to an end

    [Core::run] of a tree of [Futures] on a [ClientFuture] returns, whatever the network does
    and in whatever order things happen, as long as time passes: every poll that finds
    something ready makes the tree smaller, requests leave the queue, and requests in
    flight time out. *)

From S2P Require Import Prelude Codec Wire Domain Enums Header RData RDataProps Resource Message RecordSet.
From S2P Require Import KeyPair Signer Update BTree Journal Authority AuthorityProps ZoneInstances Returns ClientHandle.
From S2P Require Import Validate ClientFuture Sync ClientSteps Futures.

Open Scope Z_scope.

(** ** Smaller trees *)

(** One element shrinks, or is taken out. *)
Section one_smaller.
Context {X : Type} (R : X → X → Prop).
Fixpoint one_smaller (l l' : list (nat * X)) : Prop :=
  match l with
  | [] => False
  | (i, x) :: l =>
      l' = l ∨ (∃ x', R x x' ∧ l' = (i, x') :: l) ∨ ∃ l'', one_smaller l l'' ∧ l' = (i, x) :: l''
  end.

Lemma one_smaller_middle l i x x' k : R x x' → one_smaller (l ++ (i, x) :: k) (l ++ (i, x') :: k).
Proof. intros Hx. induction l as [|[j y] l IH]; simpl; eauto 6. Qed.

Lemma one_smaller_remove l i x k : one_smaller (l ++ (i, x) :: k) (l ++ k).
Proof. induction l as [|[j y] l IH]; simpl; eauto 6. Qed.

Lemma one_smaller_Acc l : Forall (λ x, Acc (flip R) x.2) l → Acc (flip one_smaller) l.
Proof.
  induction 1 as [|[i x] l Hx _ IHl]; [constructor; by intros l'|]. simpl in Hx. revert l IHl.
  induction Hx as [x _ IHx]. intros l Hl. induction Hl as [l Hl IHl].
  constructor. intros l' [->|[(x' & Hx' & ->)|(l'' & Hl'' & ->)]]; [by constructor|by apply IHx|by apply IHl].
Qed.
End one_smaller.

(** [f'] comes after [f]. *)
Fixpoint smaller {A} (f : future A) : future A → Prop :=
  match f in future A return future A → Prop with
  | Done _ => λ _, False
  | Send _ _ => λ f', ∃ r, f' = Done r
  | AndThen f k => λ f', (∃ r, f' = Done r) ∨ (∃ a, f' = k a) ∨ ∃ g, smaller f g ∧ f' = AndThen g k
  | Select p n waiting next _ => λ f', (∃ r, f' = Done r) ∨ ∃ l acc, one_smaller smaller waiting l ∧
    f' = Select p n l next acc
  end.

Lemma smaller_Acc A (f : future A) : Acc (flip smaller) f.
Proof.
  assert (HD : ∀ B r, Acc (flip smaller) (Done (A:=B) r)) by (intros B r; constructor; by intros f').
  induction f as [A r|p m|A B f k IHf IHk|A B p n waiting next acc IH] using future_induction.
  - apply HD.
  - constructor. intros f' [r ->]. apply HD.
  - induction IHf as [f _ IHf]. constructor. intros f' [[r ->]|[[a ->]|(g & Hg & ->)]]; [apply HD|apply IHk|by apply IHf].
  - apply one_smaller_Acc in IH. revert acc. induction IH as [l _ IHl]. intros acc. constructor.
    intros f' [[r ->]|(l' & acc' & Hl & ->)]; [apply HD|by apply IHl].
Qed.

(** Several steps; this order is well founded. *)
Definition later {A} : future A → future A → Prop := tc (flip smaller).

Lemma tc_last {X} (R : relation X) x y : tc R x y → ∃ z, R z y ∧ (x = z ∨ tc R x z).
Proof.
  induction 1 as [x y H|x z y H _ (z' & Hz & [->|Hl])]; [eauto|..]; exists z'; split; try done; right;
    [by apply tc_once|by eapply tc_l].
Qed.

Lemma tc_Acc {X} (R : relation X) x : Acc R x → Acc (tc R) x.
Proof.
  induction 1 as [x _ IH]. constructor. intros y (z & Hz & [->|Hy])%tc_last; [by apply IH|]. apply IH in Hz.
  by apply (Acc_inv Hz).
Qed.

Lemma later_wf {A} : well_founded (@later A).
Proof. intros f. apply tc_Acc, smaller_Acc. Qed.

Definition not_earlier {A} (f' f : future A) : Prop := f' = f ∨ later f' f.

Lemma later_trans {A} (f1 f2 f3 : future A) : later f1 f2 → not_earlier f2 f3 → later f1 f3.
Proof. intros H [->|?]; [done|]. by etrans. Qed.

Lemma not_earlier_later {A} (f1 f2 f3 : future A) : not_earlier f1 f2 → later f2 f3 → later f1 f3.
Proof. intros [->|?] ?; [done|]. by etrans. Qed.

Lemma later_once {A} (f f' : future A) : smaller f f' → later f' f.
Proof. intros H. by apply tc_once. Qed.

Lemma later_first {A B} (f f' : future A) (k : A → future B) : later f' f → later (AndThen f' k) (AndThen f k).
Proof. apply (tc_congruence (λ f, AndThen f k)). intros x y H. right. right. by exists x. Qed.

Lemma later_child {A B} p n (l k : list (nat * future A)) i g g' (next : gathering A B) acc :
  later g' g → later (Select p n (l ++ (i, g') :: k) next acc) (Select p n (l ++ (i, g) :: k) next acc).
Proof.
  apply (tc_congruence (λ g, Select p n (l ++ (i, g) :: k) next acc)). intros x y H. right.
  eexists _, acc. split; [|done]. by apply one_smaller_middle.
Qed.

Section progress.
Context `{L : Lowercase} `{HO : HashOrder} `{C : Crypto} `{R : Rng}.

(** A poll leaves everything as it is, or the tree is smaller. *)
Definition moves {A} (f : future A) (w : World) (x : future A * World) : Prop := x = (f, w) ∨ later x.1 f.

(** The next future in the loop moves, or was ready. *)
Lemma select_head_moves {A B} p n (next : gathering A B) i g (todo kept : list (nat * future A)) acc w :
  (∀ kept acc w, moves (Select p n (kept ++ todo) next acc) w (select_loop poll p n next todo kept acc w)) →
  later (poll g w).1 g ∨ (∃ r, g = Done r) →
  later (select_loop poll p n next ((i, g) :: todo) kept acc w).1 (Select p n (kept ++ (i, g) :: todo) next acc).
Proof.
  intros Hall Hg. cbn [select_loop]. destruct (poll g w) as [g' w1] eqn:Ep.
  assert (Hc : not_earlier (Select p n (kept ++ (i, g') :: todo) next acc) (Select p n (kept ++ (i, g) :: todo) next acc)).
  { destruct Hg as [Hg|[r ->]]; [right; by apply later_child|left]. cbn [poll] in Ep. by injection Ep as <- <-. }
  destruct (finished g') as [r|] eqn:Ef.
  - destruct (next acc r _) as [acc'|b].
    + assert (Hr : later (Select p n (kept ++ todo) next acc') (Select p n (kept ++ (i, g) :: todo) next acc)).
      { eapply later_trans; [|exact Hc]. apply later_once. right. eexists _, acc'. split; [|done].
        apply one_smaller_remove. }
      destruct (Hall kept acc' (note (Took p n i (kept ++ todo).*1) w1)) as [->|Hl]; [done|]. by etrans.
    + eapply later_trans; [|exact Hc]. apply later_once. left. eauto.
  - destruct Hg as [Hg|[r ->]]; [|cbn [poll] in Ep; by injection Ep as <- <-].
    apply (later_child p n kept todo i _ _ next acc) in Hg. simpl in Hg.
    specialize (Hall (kept ++ [(i, g')]) acc w1). rewrite <-app_assoc in Hall. destruct Hall as [->|Hl]; [done|]. by etrans.
Qed.

Lemma select_loop_moves {A B} p n (next : gathering A B) (todo kept : list (nat * future A)) acc w :
  Forall (λ x, ∀ w, moves x.2 w (poll x.2 w)) todo →
  moves (Select p n (kept ++ todo) next acc) w (select_loop poll p n next todo kept acc w).
Proof.
  intros H. revert kept acc w. induction H as [|[i g] todo Hg _ IH]; intros kept acc w.
  { rewrite app_nil_r. by left. }
  destruct (Hg w) as [Hsame|Hl]; [|right; apply select_head_moves; auto]. simpl in Hsame.
  destruct (finished g) as [r|] eqn:Ef; [right; apply select_head_moves; [done|]; right; exists r; by apply finished_Some|].
  cbn [select_loop]. rewrite Hsame, Ef. specialize (IH (kept ++ [(i, g)]) acc w). by rewrite <-app_assoc in IH.
Qed.

(** The first of two futures moves, or was ready. *)
Lemma first_moves {A B} (f : future A) (k : A → future B) w :
  (∀ a w, moves (k a) w (poll (k a) w)) → later (poll f w).1 f ∨ (∃ r, f = Done r) →
    later (poll (AndThen f k) w).1 (AndThen f k).
Proof.
  intros Hk Hf. cbn [poll]. assert (Hn : not_earlier (poll f w).1 f) by (destruct Hf as [?|[r ->]]; [by right|by left]).
  assert (Hd : ∀ r, later (Done r) (AndThen f k)) by (intros r; apply later_once; left; by exists r).
  destruct (poll f w) as [f1 w1] eqn:Ep. simpl in Hf, Hn. destruct (finished f1) as [[a|e| |]|] eqn:Ef; try apply Hd.
  - apply finished_Some in Ef as ->. assert (Ha : later (k a) (AndThen f k)).
    { assert (Ha : later (k a) (AndThen (Done (Ok a)) k)) by (apply later_once; right; left; by exists a).
      destruct Hn as [<-|Hn]; [done|]. etrans; [exact Ha|]. by apply later_first. }
    destruct (Hk a (start (k a) w1)) as [->|Hl]; [done|]. by etrans.
  - destruct Hf as [Hf|[r ->]]; [by apply later_first|]. simpl in Ep. injection Ep as <- <-. done.
Qed.

Lemma poll_moves {A} (f : future A) w : moves f w (poll f w).
Proof.
  revert w. induction f as [A r|p m|A B f k IHf IHk|A B p n waiting next acc IH] using future_induction; intros w.
  - by left.
  - cbn [poll]. destruct (Receiver_poll p w) as [r|]; [right|by left]. apply later_once. by exists r.
  - destruct (IHf w) as [Hf|Hf]; [|right; apply first_moves; auto].
    destruct (finished f) as [r|] eqn:Ef; [right; apply first_moves; [done|]; right; exists r; by apply finished_Some|].
    left. cbn [poll]. by rewrite Hf, Ef.
  - by apply (select_loop_moves p n next waiting []).
Qed.

(** When every reply that is awaited is there, a tree that is not finished moves. *)
Lemma ready_moves {A} (f : future A) P w :
  (∀ p m, awaited (w_log w) p m → is_Some (Receiver_poll p w)) → within f P → live (w_log w) f → finished f = None →
  later (poll f w).1 f.
Proof.
  intros Hr. revert P. induction f as [A r|p m|A B f k IHf IHk|A B p n waiting next acc IH] using future_induction;
    intros P Hw Hl Hf; [done|..].
  - cbn [poll]. destruct (Hr p m Hl) as [r ->]. apply later_once. by exists r.
  - apply first_moves; [intros; apply poll_moves|]. destruct Hw as (Q & Hwf & _), Hl as [Hlf _].
    destruct (finished f) as [r|] eqn:Ef; [right; exists r; by apply finished_Some|left; by eapply IHf].
  - rewrite within_select in Hw. rewrite live_select in Hl. destruct Hw as (_ & Hne & _ & _ & _ & Hw), Hl as [_ Hl].
    destruct waiting as [|[i g] todo]; [done|]. apply Forall_cons in IH as [IH _], Hw as [Hw _], Hl as [Hl _].
    apply (select_head_moves p n next i g todo []).
    { intros. apply select_loop_moves, Forall_forall. intros x _ w'. apply poll_moves. }
    destruct (finished g) as [r|] eqn:Ef; [right; exists r; by apply finished_Some|left; by eapply IH].
Qed.

(** ** The loop and its client *)

(** The messages that were queued, with their tickets. *)
Definition queued_by (e : event) : option (Message * ticket) := match e with Asked _ m (Some req) => Some (m, req) | _ =>
  None end.
Definition asks_of (log : list event) : list (Message * ticket) := omap queued_by log.

(** What was told is the outcome of the receiver's ticket, or an error after the client has ended. *)
Definition told_ok (w : World) : Prop :=
  ∀ p m r, Told p m r ∈ w_log w → ends_r r ∧
    ((∃ m' req, receiver p (w_log w) = Some (m', Some req) ∧ (req, r) ∈ cf_completed (w_client w)) ∨
     (w_running w = false ∧ (r = Err ClientCanceled ∨ r = Err (ClientMessage "error sending to mpsc")))).

Record world_ok (signer : option Signer) (heard : list stream_event) (w : World) : Prop := {
  wo_client : client_ok signer (asks_of (w_log w)) heard (w_next w) (w_client w);
  wo_told : told_ok w;
  wo_closed p m : Asked p m None ∈ w_log w → w_running w = false;
}.

Lemma client_ok_asks signer asks asks' heard next self :
  (∀ x, x ∈ asks' → x ∈ asks) → client_ok signer asks heard next self → client_ok signer asks' heard next self.
Proof. intros H []. split; eauto. Qed.

Lemma receiver_asks p log m req : receiver p log = Some (m, Some req) → (m, req) ∈ asks_of log.
Proof. intros Hr%receiver_Asked. unfold asks_of. apply list_elem_of_omap. eauto. Qed.

(** The log and the outcomes only grow. *)
Lemma told_ok_grow w w' new :
  told_ok w → w_log w' = w_log w ++ new → cf_completed (w_client w) `prefix_of` cf_completed (w_client w') →
  (w_running w = false → w_running w' = false) → (∀ p m r, Told p m r ∉ new) → told_ok w'.
Proof.
  intros H E Hc Hrun Hn p m r. rewrite E. intros [Hin|Hin]%elem_of_app; [|by apply Hn in Hin].
  destruct (H _ _ _ Hin) as [He [(m' & req & Hrec & Hcom)|[Ho ?]]]; (split; [done|]); [left|right; auto].
  exists m', req. split; [by apply receiver_app|by eapply prefix_elem].
Qed.

Lemma issue_world signer heard p m w : world_ok signer heard w → world_ok signer heard (issue p m w).
Proof.
  intros [Hc Ht Hcl]. unfold issue. destruct (w_running w) eqn:Er; split.
  - eapply client_ok_asks; [|apply client_ok_ask; exact Hc]. simpl. unfold asks_of. rewrite omap_app. simpl.
    intros x [Hx|Hx]%elem_of_app; [by right|]. apply list_elem_of_singleton in Hx as ->. left.
  - eapply told_ok_grow; [exact Ht|done|done|simpl; congruence|]. intros p' m' r Hin.
    by apply list_elem_of_singleton in Hin.
  - simpl. intros p' m' [Hin|Hin]%elem_of_app; [apply Hcl in Hin; congruence|]. by apply list_elem_of_singleton in Hin.
  - unfold asks_of in *. simpl. rewrite omap_app. simpl. by rewrite app_nil_r.
  - eapply told_ok_grow; [exact Ht|done|done|done|]. intros p' m' r Hin. by apply list_elem_of_singleton in Hin.
  - by intros.
Qed.

Lemma closed_grow w e : (∀ p m, e ≠ Asked p m None) → (∀ p m, Asked p m None ∈ w_log w → w_running w = false) →
  ∀ p m, Asked p m None ∈ w_log (note e w) → w_running (note e w) = false.
Proof. intros He Hcl p m [Hin|Hin]%elem_of_app; [by eapply Hcl|]. apply list_elem_of_singleton in Hin.
by destruct (He p m). Qed.

Lemma took_world signer heard p n i others w : world_ok signer heard w → world_ok signer heard (note (Took p n i others) w).
Proof.
  intros [Hc Ht Hcl]. split; [| |by apply closed_grow].
  - unfold asks_of in *. simpl. rewrite omap_app. simpl. by rewrite app_nil_r.
  - eapply told_ok_grow; [exact Ht|done|done|done|]. intros p' m' r' Hin. by apply list_elem_of_singleton in Hin.
Qed.

Lemma told_world signer heard p m r w : world_ok signer heard w → Receiver_poll p w = Some r →
  world_ok signer heard (note (Told p m r) w).
Proof.
  intros [Hc Ht Hcl] Hr. split; [| |by apply closed_grow].
  { unfold asks_of in *. simpl. rewrite omap_app. simpl. by rewrite app_nil_r. }
  intros p' m' r' [Hin|Hin]%elem_of_app.
  - destruct (Ht _ _ _ Hin) as [He [(m'' & req & Hrec & Hcom)|Ho]]; (split; [done|]); [left|by right].
    exists m'', req. split; [by apply receiver_app|done].
  - apply list_elem_of_singleton in Hin as [= -> -> ->]. unfold Receiver_poll in Hr.
    destruct (receiver p (w_log w)) as [[m' [req|]]|] eqn:Er; [| |done].
    + destruct (outcome_of req (w_client w)) as [r'|] eqn:Eo.
      * injection Hr as ->. apply outcome_of_Some in Eo. pose proof (ck_results _ _ _ _ _ Hc) as Hres.
        rewrite Forall_forall in Hres. split; [by apply (Hres (req, r))|left]. exists m', req.
        split; [by apply receiver_app|done].
      * destruct (w_running w) eqn:Erun; simplify_eq. split; [done|right; auto].
    + simplify_eq. split; [done|]. right. split; [|auto]. by apply receiver_Asked, Hcl in Er.
Qed.

Lemma start_world {A} (f : future A) signer heard w : world_ok signer heard w → world_ok signer heard (start f w).
Proof.
  revert w. induction f as [A r|p m|A B f k IHf IHk|A B p n waiting next acc IH] using future_induction; intros w Hw; simpl.
  - done.
  - by apply issue_world.
  - by apply IHf.
  - revert w Hw. induction IH as [|x waiting Hx _ IHw]; intros w Hw; simpl; [done|]. apply IHw. by apply Hx.
Qed.

Lemma poll_world {A} (f : future A) signer heard w : world_ok signer heard w → world_ok signer heard (poll f w).2.
Proof.
  revert w. induction f as [A r|p m|A B f k IHf IHk|A B p n waiting next acc IH] using future_induction; intros w Hw;
    cbn [poll].
  - done.
  - destruct (Receiver_poll p w) as [r|] eqn:Er; [|done]. by apply told_world.
  - specialize (IHf w Hw). destruct (poll f w) as [f1 w1]. destruct (finished f1) as [[a|e| |]|]; try done.
    by apply IHk, start_world.
  - generalize (@nil (nat * future A)) as kept. intros kept. revert kept acc w Hw.
    induction IH as [|[i g] todo Hg _ IHt]; intros kept acc w Hw; cbn [select_loop]; [done|].
    specialize (Hg w Hw). simpl in Hg. destruct (poll g w) as [g' w1]. destruct (finished g') as [r|]; [|by apply IHt].
    apply (took_world _ _ p n i (kept ++ todo).*1) in Hg. destruct (next acc r _); [by apply IHt|done].
Qed.

Lemma turn_world signer heard t w : decodable t.1 → world_ok signer heard w →
  world_ok signer (heard ++ t.1) (turn_loop t w).2.
Proof.
  intros Hd [Hc Ht Hcl]. apply (client_ok_events _ _ _ _ t.1) in Hc as Hc'; [|done].
  apply (client_ok_poll _ _ _ _ t.2) in Hc'.
  unfold turn_loop. destruct (w_running w) eqn:Er.
  - set (self := set_stream _ _) in *.
    assert (Hp : cf_completed (w_client w) `prefix_of` cf_completed (ClientFuture_poll t.2 self).2).
    { pose proof (ClientFuture_poll_advances t.2 self) as [_ ? _ _]. done. }
    assert (Ht' : ∀ b, told_ok (mkWorld _ (ClientFuture_poll t.2 self).2 b (w_next w) (w_log w))).
    { intros b. eapply (told_ok_grow w _ []); [done|simpl; by rewrite app_nil_r|done|congruence|].
      by intros ? ? ? ?%not_elem_of_nil. }
    assert (Hno : ∀ p m, Asked p m None ∉ w_log w) by (intros p m Hin; apply Hcl in Hin; congruence).
    destruct (ClientFuture_poll t.2 self) as [[[]| | |] self']; simpl in *; (split; [done..|]); by intros p m ?%Hno.
  - split; [by apply client_ok_more|done..].
Qed.

(** With nothing left to wait for, every receiver is ready. *)
Lemma settled_ready signer heard w :
  world_ok signer heard w →
  w_running w = false ∨ (cf_new_receiver (w_client w) = [] ∧ cf_active_requests (w_client w) = ∅) →
  ∀ p m, awaited (w_log w) p m → is_Some (Receiver_poll p w).
Proof.
  intros [Hc _ _] Hs p m [[req Hr] _]. unfold Receiver_poll. rewrite Hr. destruct req as [req|]; [|eauto].
  destruct (outcome_of req (w_client w)) as [r|] eqn:Eo; [eauto|]. destruct Hs as [->|[Hq Ha]]; [eauto|]. exfalso.
  apply outcome_of_None in Eo. apply Eo. rewrite <-tickets_completed by done. eapply (ck_known _ _ _ _ _ Hc m).
  by apply receiver_asks in Hr.
Qed.
End progress.

(** ** Runs end *)

Section ends.
Context `{L : Lowercase} `{HO : HashOrder} `{C : Crypto} `{R : Rng}.

(** A tree that is being run. *)
Record good {A} (signer : option Signer) (P : key → Prop) (f : future A) (w : World) : Prop := {
  gd_within : within f P;
  gd_live : live (w_log w) f;
  gd_log : log_ok (w_log w);
  gd_world : ∃ heard, world_ok signer heard w;
  gd_quiet (NW : Network) : Forall (agrees NW) (w_log w) → (∀ p m, ends_r (upstream p m)) → ends_r (meaning f);
}.

Lemma good_poll {A} signer P (f : future A) w : good signer P f w → good signer P (poll f w).1 (poll f w).2.
Proof.
  intros [Hw Hl Hlog [heard Ho] Hq]. pose proof (poll_world f _ _ _ Ho) as Ho'.
  destruct (poll f w) as [f1 w1] eqn:Ep. destruct (poll_spec f P w f1 w1 Hw Hl Hlog Ep) as (new & E & [A1 A2 A3 A4 A5]).
  rewrite <-E in A3, A4. split; simpl; [done..|by exists heard|]. intros NW Ha Hu. rewrite E in Ha.
  apply Forall_app in Ha as [? ?].
  rewrite <-(A5 NW) by done. by apply Hq.
Qed.

Lemma good_turn {A} signer P (f : future A) t w : decodable t.1 → good signer P f w → good signer P f (turn_loop t w).2.
Proof.
  intros Hd [Hw Hl Hlog [heard Ho] Hq]. pose proof (turn_loop_log t w) as Ht. split; rewrite ?Ht; try done.
  exists (heard ++ t.1). by apply turn_world.
Qed.

Lemma good_ended {A} signer P (r : res client_error A) w : good signer P (Done r) w → ends_r r.
Proof.
  intros [_ _ Hlog [heard Ho] Hq]. apply (Hq (network_of (w_log w) (λ _, 0) (λ _ _, Err ClientCanceled))).
  - by apply network_of_agrees.
  - intros p m. simpl. destruct (answer p (w_log w)) as [[m' r']|] eqn:Ea; [|done]. case_decide; [|done].
    apply answer_Told in Ea. by apply (wo_told _ _ _ Ho) in Ea as [? _].
Qed.

(** A turn that ends the run, or leaves a client that still runs and has settled, or one that does not. *)
Lemma turn_settles signer heard t w :
  decodable t.1 → world_ok signer heard w →
  (turn_loop t w).1 ≠ Diverge ∧
  (w_running (turn_loop t w).2 = true →
     settles (w_client w) (w_client (turn_loop t w).2) ∧
     (map_Forall (λ _ request, request.2 ≤ t_now t.2) (cf_active_requests (w_client w)) →
      cf_new_receiver (w_client (turn_loop t w).2) = [] ∧ cf_active_requests (w_client (turn_loop t w).2) = ∅ ∨
      (length (cf_new_receiver (w_client (turn_loop t w).2)) < length (cf_new_receiver (w_client w)))%nat)).
Proof.
  intros Hd [Hc _ _]. unfold turn_loop. destruct (w_running w) eqn:Er; [|split; [done|]; simpl; congruence].
  set (self := set_stream (w_client w) (cf_stream (w_client w) ++ t.1)).
  assert (Hs : decodable (cf_stream self)).
  { apply Forall_app. split; [|done]. apply Forall_forall. intros e He. apply (ck_stream _ _ _ _ _ Hc) in He.
    pose proof (ck_decodable _ _ _ _ _ Hc) as Hh. unfold decodable in Hh. rewrite Forall_forall in Hh. by apply Hh. }
  pose proof (ClientFuture_poll_ends t.2 self Hs) as He.
  pose proof (poll_steps_settle _ _ _ (ClientFuture_poll_steps t.2 self)) as Hst.
  pose proof (late_poll t.2 self) as Hlate. cbv zeta in Hlate.
  destruct (ClientFuture_poll t.2 self) as [[[]| | |] self']; cbn [fst snd w_running w_client] in *;
    (split; [done|]); intros Hrun; done.
Qed.

Lemma deadlines_bound (m : gmap Z (ticket * Z)) : ∃ D, map_Forall (λ _ request, request.2 ≤ D) m.
Proof.
  induction m as [|id x m Hm [D HD]] using map_ind; [exists 0; apply map_Forall_empty|].
  exists (Z.max x.2 D). apply map_Forall_insert_2; [lia|]. eapply map_Forall_impl; [exact HD|]. simpl. lia.
Qed.

Lemma world_ok_more signer heard events w : decodable events → world_ok signer heard w →
  world_ok signer (heard ++ events) w.
Proof. intros Hd [Hc Ht Hcl]. split; [by apply client_ok_more|done..]. Qed.

(** A run keeps the loop in order. *)
Lemma block_on_world {A} (turns : list turn) (f : future A) signer heard w :
  Forall (λ t, decodable t.1) turns → world_ok signer heard w →
  world_ok signer (heard ++ concat turns.*1) (block_on turns f w).1.2.
Proof.
  intros Hd. revert f heard w. induction Hd as [|t turns Ht Hd IH]; intros f heard w Hw; cbn [block_on];
    pose proof (poll_world f _ _ _ Hw) as Hp; destruct (poll f w) as [f1 w1]; simpl in Hp.
  { destruct (finished f1); (apply world_ok_more; [constructor|done]). }
  assert (Hall : decodable (t.1 ++ concat turns.*1)).
  { apply Forall_app. split; [done|]. apply Forall_concat, Forall_fmap. exact Hd. }
  destruct (finished f1); [by apply world_ok_more|]. apply (turn_world _ _ t) in Hp; [|done]. cbn [fmap list_fmap concat].
  rewrite app_assoc. apply Forall_app in Hall as [_ Hall].
  destruct (turn_loop t w1) as [[[]| | |] w2]; simpl in Hp; [by apply IH|by apply world_ok_more..].
Qed.

Section time.
Variable turns : nat → turn.
Hypothesis readable : ∀ n, decodable (turns n).1.
Hypothesis passes : ∀ T n, ∃ k, T ≤ t_now (turns (n + k)%nat).2.

Definition ends_from {A} (f : future A) (w : World) (n : nat) : Prop :=
  ∃ j, ends_r (block_on (turns <$> seq n j) f w).1.1.

(** One turn later. *)
Lemma ends_from_turn {A} signer P (f : future A) w n :
  good signer P f w → (let w2 := (turn_loop (turns n) (poll f w).2).2 in
    finished (poll f w).1 = None → good signer P (poll f w).1 w2 → ends_from (poll f w).1 w2 (S n)) →
  ends_from f w n.
Proof.
  intros Hg Hk. pose proof (good_poll _ _ _ _ Hg) as Hg1. destruct (poll f w) as [f1 w1] eqn:Ep. cbn [fst snd] in *.
  destruct (finished f1) as [r|] eqn:Ef.
  { exists 0%nat. simpl. rewrite Ep, Ef. simpl. apply finished_Some in Ef as ->. by eapply good_ended. }
  pose proof (good_turn _ _ _ (turns n) _ (readable n) Hg1) as Hg2. destruct (gd_world _ _ _ _ Hg1) as [heard Ho].
  destruct (turn_settles _ _ (turns n) w1 (readable n) Ho) as [Hd _].
  destruct (Hk eq_refl Hg2) as [j Hj]. exists (S j). simpl. rewrite Ep, Ef.
  destruct (turn_loop (turns n) w1) as [[[]| | |] w2]; done.
Qed.

(** A turn over a tree that cannot move lets it move, or sends a request, or was too early. *)
Lemma stable_turn {A} signer P (f : future A) w n :
  good signer P f w → finished f = None → good signer P f (turn_loop (turns n) w).2 →
  let w2 := (turn_loop (turns n) w).2 in
  later (poll f w2).1 f ∨
  (length (cf_new_receiver (w_client w2)) < length (cf_new_receiver (w_client w)))%nat ∨
  (cf_new_receiver (w_client w2) = cf_new_receiver (w_client w) ∧
   cf_active_requests (w_client w2) ⊆ cf_active_requests (w_client w) ∧
   ¬ map_Forall (λ _ request, request.2 ≤ t_now (turns n).2) (cf_active_requests (w_client w))).
Proof.
  intros Hg Hf Hg2 w2. destruct (gd_world _ _ _ _ Hg) as [heard Ho], (gd_world _ _ _ _ Hg2) as [heard2 Ho2].
  destruct (turn_settles _ _ (turns n) w (readable n) Ho) as [_ Hst]. fold w2 in Hst, Ho2, Hg2.
  assert (Hready : w_running w2 = false ∨ (cf_new_receiver (w_client w2) = [] ∧ cf_active_requests (w_client w2) = ∅) →
    later (poll f w2).1 f) by (intros Hr; eapply ready_moves; [by eapply settled_ready|apply Hg2..|done]).
  destruct (w_running w2); [|by left; apply Hready; left]. destruct (Hst eq_refl) as [Hse Hla].
  destruct (decide (map_Forall (λ _ request, request.2 ≤ t_now (turns n).2) (cf_active_requests (w_client w)))) as [Hl|Hl].
  - destruct (Hla Hl) as [?|?]; [left; apply Hready; by right|right; by left].
  - right. destruct Hse as [[? ?]|?]; [by right|by left].
Qed.

(** By induction on the tree, then on the queue, then on the turns that are too early. *)
Lemma good_ends {A} signer P (f : future A) w n : good signer P f w → ends_from f w n.
Proof.
  revert w n. induction (later_wf f) as [f _ IH].
  assert (Hprog : ∀ w n, good signer P f w → later (poll f w).1 f → ends_from f w n).
  { intros w n Hg Hl. eapply ends_from_turn; [done|]. intros w2 _ Hg2. by apply IH. }
  assert (Hqueue : ∀ q k w n, good signer P f w → (length (cf_new_receiver (w_client w)) < q)%nat →
    map_Forall (λ _ request, request.2 ≤ t_now (turns (n + k)%nat).2) (cf_active_requests (w_client w)) → ends_from f w n).
  { induction q as [|q IHq]; [lia|]. induction k as [|k IHk]; intros w n Hg Hq Hlate;
      (destruct (poll_moves f w) as [Hs|Hl]; [|by apply Hprog]); (eapply ends_from_turn; [done|]); rewrite Hs;
        cbn [fst snd];
      intros Hf Hg2; destruct (stable_turn signer P f w n Hg Hf Hg2) as [?|[Hlt|(Hq2 & Ha2 & Hearly)]];
        try (by apply Hprog);
      try (destruct (deadlines_bound (cf_active_requests (w_client (turn_loop (turns n) w).2))) as [D HD];
           destruct (passes D (S n)) as [k' Hk']; apply (IHq k'); [done|lia|]; eapply map_Forall_impl; [exact HD|];
           intros i x Hx; etrans; [exact Hx|exact Hk']).
    - by rewrite Nat.add_0_r in Hlate.
    - apply IHk; [done|by rewrite Hq2|]. rewrite Nat.add_succ_comm. intros i x Hx.
      eapply Hlate, lookup_weaken; [exact Hx|done]. }
  intros w n Hg. destruct (deadlines_bound (cf_active_requests (w_client w))) as [D HD]. destruct (passes D n) as [k Hk].
  apply (Hqueue (S (length (cf_new_receiver (w_client w)))) k); [done|lia|]. eapply map_Forall_impl; [exact HD|].
  intros i x Hx. etrans; [exact Hx|exact Hk].
Qed.
End time.
End ends.
