(* ===== verification/SecureSync.v ===== *)
(** * SecureSync: the validating client on its event loop

    [SecureSyncClient] of [client/src/client/client.rs], and the futures of
    [client/src/client/secure_client_handle.rs] as its event loop runs them.

    [Validate] says what validation computes when the network answers at once;
    here each function of the source builds the future it returns, and a call queues
    its messages for the [ClientFuture], which shares the loop, and is polled until
    it is ready.  The two are shown to agree: what the blocking call returns is what [secure_send]
    computes for the network that the run saw. *)

From S2P Require Import Prelude Codec Wire Domain Enums Header RData RDataProps Resource Message RecordSet.
From S2P Require Import KeyPair Signer Update BTree Journal Authority AuthorityProps ZoneInstances Returns ClientHandle.
From S2P Require Import Validate ValidateProps ClientFuture Sync ClientSteps Futures Blocking.

(** What the library of futures and the random numbers decide: the order in which a selection polls its
    futures, and the ids that [ClientHandle::query] draws. *)
Class Scheduler := {
  query_id : path → Z;
  poll_order : path → nat → list nat;
  poll_order_perm p n : poll_order p n ≡ₚ seq 0 n;
}.

(** ** Selections *)

(** [select_ok]: the first success, or the last error. *)
Definition select_ok_next {A} : gathering A A := λ acc r last,
  match r with
  | Err e => if last : bool then inr (Err e) else inl acc
  | r => inr r
  end.

Lemma gather_select_ok {A} acc (results : list (res client_error A)) :
  results ≠ [] → gather select_ok_next acc results = select_ok results.
Proof.
  induction results as [|r results IH]; [done|]. intros _. cbn [gather].
  destruct results as [|r' results]; [by destruct r|]. destruct r; try done. by apply IH.
Qed.

Section futures.
Context `{L : Lowercase} `{HO : HashOrder} `{C : Crypto} `{SC : Scheduler}.

(** The body of the loop in [VerifyRrsetsFuture::poll]. *)
Definition verify_rrsets_next (message_result : Message) : gathering Rrset Message := λ verified r last,
  match r with
  | Ok rrset =>
      let verified := set_insert verified (rr_name rrset, rr_record_type rrset) in
      if last : bool then inr (filter_message verified message_result) else inl verified
  | Err e => if last : bool then inr (Err e) else inl verified
  | Panic => inr Panic
  | Diverge => inr Diverge
  end.

Lemma gather_verify_rrsets m verified results :
  results ≠ [] →
  gather (verify_rrsets_next m) verified results = rbind (verify_loop verified results) (λ v, filter_message v m).
Proof.
  revert verified. induction results as [|r results IH]; [done|]. intros verified _. cbn [gather verify_loop].
  destruct results as [|r' results]; [by destruct r|]. destruct r as [s|e| |]; try done; [by apply IH|].
  rewrite bool_decide_eq_false_2 by done. by apply IH.
Qed.

(** [select_all] or [select_ok] of the futures [fs]. *)
Definition select {A B} (p : path) (next : gathering A B) (fs : list (future A)) : future B :=
  Select p (length fs) (omap (λ i, pair i <$> fs !! i) (poll_order p (length fs))) next [].

Definition try_future {A B} (r : res client_error A) (k : A → future B) : future B :=
  match r with
  | Ok a => k a
  | Err e => Done (Err e)
  | Panic => Done Panic
  | Diverge => Done Diverge
  end.

(** ** The futures of the source *)

Section recursion.
Variable send_future : SecureClientHandle → path → Message → future Message.

Definition query_future (client : SecureClientHandle) (p : path) (name : Name) (query_class : DNSClass)
    (query_type : RecordType) : future Message :=
  send_future client p (query_message (query_id p) name query_class query_type).

Definition verify_dnskey_rrset_future (client : SecureClientHandle) (p : path) (rrset : Rrset) : future Rrset :=
  let with_records records :=
    mkRrset (rr_name rrset) (rr_record_type rrset) (rr_record_class rrset) records in
  try_future
    (dnskeys_where rrset (λ key, Ok (TrustAnchor_contains (sc_trust_anchor client) (dk_public_key key))))
    (λ anchored_keys,
       if bool_decide (anchored_keys ≠ []) then
         Done (Ok (with_records (preserve (rr_records rrset) anchored_keys)))
       else
         AndThen (query_future client (0%nat :: 1%nat :: p) (rr_name rrset) (rr_record_class rrset) RecordType.DS)
           (λ ds_message,
              let dss := omap ds_of (filter (is_type RecordType.DS) (m_answers ds_message)) in
              Done
                (try* valid_keys :=
                   dnskeys_where rrset (λ key, any_m (λ ds, unwrap_or_false (DS_covers ds (rr_name rrset) key)) dss) in
                 if bool_decide (valid_keys ≠ []) then Ok (with_records (preserve (rr_records rrset) valid_keys))
                 else Err (ClientMessage "Could not validate all DNSKEYs")))).

Definition verify_with_signer_future (client : SecureClientHandle) (p : path) (rrset : Rrset) (sig : SIG) :
    future Rrset :=
  AndThen (query_future client p (sig_signer_name sig) (rr_record_class rrset) RecordType.DNSKEY)
    (λ message,
       Done
         (try* found := find_m (verified_by rrset sig) (filter (is_type RecordType.DNSKEY) (m_answers message)) in
          match found with
          | Some _ => Ok rrset
          | None => Err (ClientMessage "validation failed")
          end)).

Definition verify_default_rrset_future (client : SecureClientHandle) (p : path) (rrset : Rrset)
    (rrsigs : list RRecord) : future Rrset :=
  let rrsigs := filter (is_type RecordType.RRSIG) rrsigs in
  try_future
    (any_m (λ rrsig,
       try* sig := expect_sig rrsig in
       Ok (bool_decide (rr_record_type rrset = RecordType.DNSKEY) &&
           Name_eq (sig_signer_name sig) (rr_name rrset))) rrsigs)
    (λ self_signed : bool,
       if self_signed then
         Done
           (try* found := find_m (λ rrsig,
              try* sig := expect_sig rrsig in any_m (verified_by rrset sig) (rr_records rrset)) rrsigs in
            match found with
            | Some _ => Ok rrset
            | None => Err (ClientMessage "self-signed dnskey is invalid")
            end)
       else
         try_future (expect_sigs rrsigs) (λ sigs,
           if bool_decide (sigs = []) then Done (Err (ClientNoRrsigs (rr_name rrset) (rr_record_type rrset)))
           else
             select (0%nat :: p) select_ok_next
               (imap (λ j sig, verify_with_signer_future (clone_with_context client) (j :: 0%nat :: p) rrset sig) sigs))).

Definition verify_rrset_future (client : SecureClientHandle) (p : path) (rrset : Rrset) (rrsigs : list RRecord) :
    future Rrset :=
  if bool_decide (rr_record_type rrset = RecordType.DNSKEY) && bool_decide (rrsigs = []) then
    verify_dnskey_rrset_future (clone_with_context client) p rrset
  else
    AndThen (verify_default_rrset_future (clone_with_context client) p rrset rrsigs)
      (λ rrset,
         match rr_record_type rrset with
         | RecordType.DNSKEY => verify_dnskey_rrset_future client p rrset
         | _ => Done (Ok rrset)
         end).

Definition verify_rrsets_future (client : SecureClientHandle) (p : path) (message_result : Message)
    (dns_class : DNSClass) : future Message :=
  let types := rrset_types client message_result in
  if bool_decide (types = []) then Done (Err (ClientMessage "no results to verify"))
  else
    select p (verify_rrsets_next message_result)
      (imap (λ i x,
         verify_rrset_future (clone_with_context client) (i :: p) (rrset_of message_result dns_class x)
           (rrsigs_of message_result x)) types).

Definition send_future_step (self : SecureClientHandle) (p : path) (message : Message) : future Message :=
  if (20 <? sc_request_depth self)%nat then Done (Err (ClientMessage "exceeded max validation depth"))
  else
    match h_op_code (m_header message) with
    | OpCode.Query =>
        match m_queries message with
        | [] => Done Panic
        | query :: _ =>
            let client := clone_with_context self in
            AndThen
              (AndThen (Send p (secure_message message))
                 (λ message_response, verify_rrsets_future client p message_response (q_query_class query)))
              (λ verified_message,
                 Done
                   (if bool_decide (m_answers verified_message = []) then
                      let nsecs := filter (is_type RecordType.NSEC) (m_name_servers verified_message) in
                      try* b := verify_nsec query nsecs in
                      if negb b then Err (ClientMessage "could not validate nxdomain with NSEC")
                      else Ok verified_message
                    else Ok verified_message))
        end
    | _ => Send p message
    end.
End recursion.

(** [SecureClientHandle::send] *)
Fixpoint send_future (fuel : nat) (self : SecureClientHandle) (p : path) (message : Message) : future Message :=
  match fuel with
  | O => Done Diverge
  | S fuel => send_future_step (send_future fuel) self p message
  end.
End futures.

(** ** They mean what [Validate] computes *)

Section agree.
Context `{L : Lowercase} `{HO : HashOrder} `{C : Crypto} `{SC : Scheduler}.

Lemma fresh_nil {A} (f : future A) : fresh [] f.
Proof.
  unfold fresh. induction f as [A r|p m|A B f k IHf IHk|A B p n waiting next acc IH] using future_induction; simpl.
  - done.
  - constructor.
  - by split.
  - split; [by intros i _ ?%not_elem_of_nil|]. by apply all_in_Forall.
Qed.

Lemma assoc_elem {A} i (x : A) l : NoDup l.*1 → (i, x) ∈ l → assoc i l = Some x.
Proof.
  induction l as [|[j y] l IH]; [by intros _ ?%not_elem_of_nil|]. rewrite fmap_cons.
  intros [Hj Hd]%NoDup_cons [Hin|Hin]%elem_of_cons; simpl.
  - simplify_eq. by rewrite decide_True.
  - rewrite decide_False; [by apply IH|]. intros ->. apply Hj. apply list_elem_of_fmap. by exists (j, x).
Qed.

Lemma select_idx {A} (fs : list (future A)) l :
  Forall (λ i, i < length fs)%nat l → (omap (λ i, pair i <$> fs !! i) l).*1 = l.
Proof.
  induction 1 as [|i l Hi _ IH]; simpl; [done|]. destruct (lookup_lt_is_Some_2 _ _ Hi) as [g ->]. simpl. f_equal. exact IH.
Qed.

Lemma poll_order_bound p n : Forall (λ i, i < n)%nat (poll_order p n).
Proof. rewrite poll_order_perm. apply Forall_forall. intros i Hi%elem_of_seq. lia. Qed.

(** The futures of a selection by their numbers. *)
Lemma select_assoc `{Network} {A} p (fs : list (future A)) i :
  assoc i (map (λ x, (x.1, meaning x.2)) (omap (λ i, pair i <$> fs !! i) (poll_order p (length fs)))) =
  (meaning <$> fs) !! i.
Proof.
  set (l := omap _ _). assert (Hl : l.*1 = poll_order p (length fs)) by apply select_idx, poll_order_bound.
  rewrite list_lookup_fmap. destruct (fs !! i) as [g|] eqn:E; simpl.
  - apply assoc_elem.
    + rewrite meanings_idx, Hl, poll_order_perm. apply NoDup_seq.
    + apply list_elem_of_In, in_map_iff. exists (i, g). split; [done|]. apply list_elem_of_In, list_elem_of_omap.
      exists i. rewrite E. split; [|done]. rewrite poll_order_perm. apply elem_of_seq. apply lookup_lt_Some in E. lia.
  - apply assoc_None. rewrite meanings_idx, Hl, poll_order_perm, elem_of_seq. apply lookup_ge_None in E. lia.
Qed.

Lemma omap_eq {X Y} (f g : X → option Y) (l : list X) : (∀ x, f x = g x) → omap f l = omap g l.
Proof. intros H. induction l as [|x l IH]; simpl; [done|]. rewrite H. destruct (g x); [f_equal|]; exact IH. Qed.

Lemma meaning_select `{Network} {A B} p (next : gathering A B) (fs : list (future A)) :
  meaning (select p next fs) = gather next [] (omap (λ i, (meaning <$> fs) !! i) (completion p (length fs))).
Proof. unfold select. cbn [meaning]. f_equal. apply omap_eq. intros i. apply select_assoc. Qed.

(** A selection of one future for each element of a list. *)
Lemma meaning_select_imap `{Network} {X A B} p (next : gathering A B) (f : nat → X → future A) g l :
  (∀ i x, meaning (f i x) = g i x) →
  meaning (select p next (imap f l)) =
    let results := imap g l in gather next [] (omap (λ i, results !! i) (completion p (length results))).
Proof.
  intros Hg. rewrite meaning_select. assert (meaning <$> imap f l = imap g l) as ->.
  { rewrite fmap_imap. apply imap_ext. intros i x _. apply Hg. }
  cbv zeta. by rewrite (length_imap f), (length_imap g).
Qed.

Lemma completions_nonempty `{Network} {A} p (fs : list A) :
  fs ≠ [] → omap (λ i, fs !! i) (completion p (length fs)) ≠ [].
Proof.
  intros Hf He. destruct fs as [|x fs]; [done|].
  assert (Hx : x ∈ omap (λ i, (x :: fs) !! i) (completion p (length (x :: fs)))).
  { apply list_elem_of_omap. exists 0%nat. split; [|done]. rewrite completion_perm. apply elem_of_seq. simpl. lia. }
  rewrite He in Hx. by apply not_elem_of_nil in Hx.
Qed.

Lemma meaning_try `{Network} {A B} (r : res client_error A) (k : A → future B) :
  meaning (try_future r k) = rbind r (λ a, meaning (k a)).
Proof. by destruct r. Qed.

Lemma rbind_ext {E A B} (r : res E A) (k k' : A → res E B) : (∀ a, k a = k' a) → rbind r k = rbind r k'.
Proof. intros H. destruct r; simpl; auto. Qed.

Section step.
Context `{NW : Network}.
Variable futures : SecureClientHandle → path → Message → future Message.
Variable recur : SecureClientHandle → path → Message → res client_error Message.
Hypothesis agree : ∀ client p m, meaning (futures client p m) = recur client p m.
Hypothesis ids : ∀ p, random_id p = query_id p.

Lemma query_meaning client p name c t : meaning (query_future futures client p name c t) = secure_query recur client p
  name c t.
Proof. unfold query_future, secure_query. by rewrite agree, ids. Qed.

Lemma verify_dnskey_meaning client p s :
  meaning (verify_dnskey_rrset_future futures client p s) = verify_dnskey_rrset recur client p s.
Proof.
  unfold verify_dnskey_rrset_future, verify_dnskey_rrset. rewrite meaning_try. apply rbind_ext. intros keys.
  case_match; [done|]. cbn [meaning]. by rewrite query_meaning.
Qed.

Lemma verify_default_meaning client p s rrsigs :
  meaning (verify_default_rrset_future futures client p s rrsigs) = verify_default_rrset recur client p s rrsigs.
Proof.
  unfold verify_default_rrset_future, verify_default_rrset. rewrite meaning_try. apply rbind_ext. intros [|]; [done|].
  rewrite meaning_try. apply rbind_ext. intros sigs. case_bool_decide as Hs; [done|].
  erewrite meaning_select_imap.
  - apply gather_select_ok, completions_nonempty. by destruct sigs.
  - intros j sig. simpl. unfold verify_with_signer. by rewrite query_meaning.
Qed.

Lemma verify_rrset_meaning client p s rrsigs :
  meaning (verify_rrset_future futures client p s rrsigs) = verify_rrset recur client p s rrsigs.
Proof.
  unfold verify_rrset_future, verify_rrset. case_match; [apply verify_dnskey_meaning|]. cbn [meaning].
  rewrite verify_default_meaning. apply rbind_ext. intros s'. destruct (rr_record_type s'); try done.
  apply verify_dnskey_meaning.
Qed.

Lemma verify_rrsets_meaning client p m c :
  meaning (verify_rrsets_future futures client p m c) = verify_rrsets recur client p m c.
Proof.
  unfold verify_rrsets_future, verify_rrsets. case_bool_decide as Ht; [done|].
  erewrite meaning_select_imap; [|intros i x; apply verify_rrset_meaning].
  apply gather_verify_rrsets, completions_nonempty. by destruct (rrset_types client m).
Qed.

Lemma send_step_meaning client p m : meaning (send_future_step futures client p m) = send_step recur client p m.
Proof.
  unfold send_future_step, send_step. case_match; [done|]. destruct (h_op_code (m_header m)); try done.
  destruct (m_queries m) as [|q qs]; [done|]. cbn [meaning]. destruct (upstream p (secure_message m)); try done.
  cbn [rbind]. by rewrite verify_rrsets_meaning.
Qed.
End step.

Lemma send_future_meaning `{NW : Network} fuel client p m :
  (∀ p, random_id p = query_id p) → meaning (send_future fuel client p m) = secure_send fuel client p m.
Proof.
  intros Hid. revert client p m. induction fuel as [|fuel IH]; intros client p m; [done|].
  by apply send_step_meaning.
Qed.

(** *** Their keys *)

Lemma within_select_imap {X A B} p (next : gathering A B) (f : nat → X → future A) l (P : key → Prop) :
  l ≠ [] → decides next → P (false, p) → (∀ i x, within (f i x) (λ y, P y ∧ below (i :: p) y)) →
  within (select p next (imap f l)) P.
Proof.
  intros Hl Hn HP Hf. unfold select. rewrite within_select.
  assert (Hidx : (omap (λ i, pair i <$> imap f l !! i) (poll_order p (length (imap f l)))).*1 = poll_order p (length
    (imap f l)))
    by apply select_idx, poll_order_bound.
  rewrite Hidx. split_and!; [done| | |apply poll_order_bound|done|].
  - intros He. rewrite He in Hidx. symmetry in Hidx. pose proof (poll_order_perm p (length (imap f l))) as Hp.
    rewrite Hidx, length_imap in Hp. apply Permutation_length in Hp. rewrite length_seq in Hp. by destruct l.
  - rewrite poll_order_perm. apply NoDup_seq.
  - apply Forall_forall. intros x Hx. apply list_elem_of_omap in Hx as (i & _ & Hi).
    rewrite list_lookup_imap in Hi. destruct (l !! i) as [y|]; simplify_eq/=. apply Hf.
Qed.

Lemma within_try {A B} (r : res client_error A) (k : A → future B) P : (∀ a, within (k a) P) → within (try_future r k) P.
Proof. by destruct r; simpl. Qed.

(** A future whose continuation sends nothing. *)
Lemma within_map {A B} (f : future A) (k : A → future B) (P : key → Prop) :
  within f P → (∀ a, within (k a) (λ _, False)) → within (AndThen f k) P.
Proof.
  intros Hf Hk. exists (λ _, True). split; [eapply within_mono; [|exact Hf]; done|].
  intros a. eapply within_mono; [|apply Hk]. done.
Qed.

Section keys.
Variable futures : SecureClientHandle → path → Message → future Message.
Hypothesis inside : ∀ client p m, within (futures client p m) (below p).

Lemma within_below {A} (f : future A) p (P : key → Prop) : within f (below p) → (∀ x, below p x → P x) → within f P.
Proof. intros Hf HP. by eapply within_mono. Qed.

Lemma verify_dnskey_within client p s : within (verify_dnskey_rrset_future futures client p s) (below (1%nat :: p)).
Proof.
  apply within_try. intros keys. case_match; [done|]. apply within_map; [|done].
  eapply within_below; [apply inside|]. apply below_cons.
Qed.

Lemma verify_default_within client p s rrsigs :
  within (verify_default_rrset_future futures client p s rrsigs) (below (0%nat :: p)).
Proof.
  apply within_try. intros [|]; [done|]. apply within_try. intros sigs. case_bool_decide as Hs; [done|].
  apply within_select_imap; [done| |by exists []|].
  - intros acc [] ; eauto.
  - intros j sig. apply within_map; [|done]. eapply within_below; [apply inside|]. intros x Hx. split; [|done].
    by apply below_cons in Hx.
Qed.

Lemma verify_rrset_within client p s rrsigs : within (verify_rrset_future futures client p s rrsigs) (below p).
Proof.
  unfold verify_rrset_future. case_match.
  { eapply within_below; [apply verify_dnskey_within|]. apply below_cons. }
  exists (below (0%nat :: p)). split.
  - eapply within_below; [apply verify_default_within|]. intros x Hx. split; [by apply below_cons in Hx|done].
  - intros s'. destruct (rr_record_type s'); try done. eapply within_below; [apply verify_dnskey_within|].
    intros x Hx. split; [by apply below_cons in Hx|]. by eapply below_disjoint.
Qed.

Lemma verify_rrsets_within client p m c :
  within (verify_rrsets_future futures client p m c) (λ x, below p x ∧ x ≠ (true, p)).
Proof.
  unfold verify_rrsets_future. case_bool_decide as Ht; [done|]. apply within_select_imap; [done| | |].
  - intros verified []; simpl; eauto.
  - split; [by exists []|done].
  - intros i x. eapply within_below; [apply verify_rrset_within|]. intros y Hy.
    split_and!; [by apply below_cons in Hy| |done].
    intros ->. by apply below_not_self in Hy.
Qed.

Lemma send_step_within client p m : within (send_future_step futures client p m) (below p).
Proof.
  unfold send_future_step. case_match; [done|].
  assert (Hs : ∀ m, within (Send p m) (below p)) by (intros ?; by exists []).
  destruct (h_op_code (m_header m)); try apply Hs. destruct (m_queries m) as [|q qs]; [done|].
  apply within_map; [|done]. exists (λ x, x = (true, p)). split; [split; [by exists []|done]|].
  intros reply. apply verify_rrsets_within.
Qed.
End keys.

Lemma send_future_within fuel client p m : within (send_future fuel client p m) (below p).
Proof.
  revert client p m. induction fuel as [|fuel IH]; intros client p m; [done|]. by apply send_step_within.
Qed.
End agree.

(** ** The client *)

Section client.
Context `{L : Lowercase} `{HO : HashOrder} `{C : Crypto} `{R : Rng} `{SC : Scheduler}.

Record SecureSyncClient : Type := mkSecureSync {
  ss_client_handle : SecureClientHandle;
  ss_io_loop : SyncClient;
}.

Record SecureSyncClientBuilder : Type := mkBuilder {
  sb_trust_anchor : option TrustAnchor;
  sb_signer : option Signer;
}.

Definition SecureSyncClient_new : SecureSyncClientBuilder := mkBuilder None None.
Definition SecureSyncClientBuilder_trust_anchor (self : SecureSyncClientBuilder) (trust_anchor : TrustAnchor) :
    SecureSyncClientBuilder := mkBuilder (Some trust_anchor) (sb_signer self).
Definition SecureSyncClientBuilder_signer (self : SecureSyncClientBuilder) (signer : Signer) :
    SecureSyncClientBuilder := mkBuilder (sb_trust_anchor self) (Some signer).

(** The built-in anchor is made even where it is not used ([unwrap_or]). *)
Definition SecureSyncClientBuilder_build {E} (self : SecureSyncClientBuilder) (root_key : option Rsa)
    (stream : list stream_event) (turns : list turn) : res E SecureSyncClient :=
  try* default_anchor := TrustAnchor_default root_key in
  Ok (mkSecureSync (SecureClientHandle_with_trust_anchor (default default_anchor (sb_trust_anchor self)))
        (mkSync (ClientFuture_new stream (sb_signer self)) true 0 turns)).

(** The loop before a call. *)
Definition world_of (s : SyncClient) : World := mkWorld _ (sy_client s) (sy_running s) (sy_next s) [].

(** [self.get_io_loop().run(self.get_client_handle().send(message))] *)
Definition SecureSyncClient_run (message : Message) (self : SecureSyncClient) : res client_error Message * World * list
  turn :=
  let f := send_future 22 (ss_client_handle self) [] message in
  block_on (sy_turns (ss_io_loop self)) f (start f (world_of (ss_io_loop self))).

(** The loop after it. *)
Definition loop_of (x : res client_error Message * World * list turn) : SyncClient :=
  let '(_, w, turns) := x in mkSync (w_client w) (w_running w) (w_next w) turns.

#[global] Instance SecureSyncClient_send : ClientHandle SecureSyncClient := λ message self,
  let x := SecureSyncClient_run message self in
  (x.1.1, mkSecureSync (ss_client_handle self) (loop_of x)).

Definition SecureSyncClient_secure_query (id : Z) (query_name : Name) (query_class : DNSClass) (query_type : RecordType) :
    M SecureSyncClient client_error Message := query id query_name query_class query_type.

(** [SyncClient] is the same loop with a future that only waits for a reply. *)
Definition run_result (x : res client_error Message * World * list turn) : res client_error Message * SyncClient :=
  (x.1.1, loop_of x).

Lemma Core_run_block_on turns req next self log message :
  receiver [] log = Some (message, Some req) → outcome_of req self = None →
  Core_run turns req next self = run_result (block_on turns (Send [] message) (mkWorld _ self true next log)).
Proof.
  intros Hr. revert self. induction turns as [|[events tick] turns IH]; intros self Ho; cbn [block_on poll Core_run];
    unfold Receiver_poll; cbn [w_log w_client w_running]; rewrite Hr, Ho; cbn [finished]; [done|].
  unfold turn_loop. cbn [w_running w_client w_next w_log fst snd].
  destruct (ClientFuture_poll tick _) as [[[]| | |] self']; try done;
    try (destruct turns; cbn [block_on poll]; unfold Receiver_poll; cbn [w_log w_client w_running]; rewrite Hr;
         by destruct (outcome_of req self')).
  destruct (outcome_of req self') as [r|] eqn:Ho'; [|by apply IH].
  destruct turns; cbn [block_on poll]; unfold Receiver_poll; cbn [w_log w_client w_running]; by rewrite Hr, Ho'.
Qed.

Lemma SyncClient_send_block_on message s :
  outcome_of (sy_next s) (sy_client s) = None →
  SyncClient_send message s = run_result (block_on (sy_turns s) (Send [] message) (start (Send [] message) (world_of s))).
Proof.
  intros Ho. unfold SyncClient_send. cbn [start]. unfold issue, world_of, note. destruct s as [self running next turns].
  simpl in Ho.
  cbn [w_running w_log w_next w_client sy_running sy_turns sy_client sy_next]. destruct running.
  - by apply Core_run_block_on.
  - destruct turns; cbn [block_on poll]; unfold Receiver_poll; done.
Qed.

(** ** What a call returns *)

(** A client that can be called: [heard] is what it was sent so far. *)
Definition callable (signer : option Signer) (heard : list stream_event) (s : SyncClient) : Prop :=
  client_ok signer [] heard (sy_next s) (sy_client s).

Lemma world_of_ok signer heard s : callable signer heard s → world_ok signer heard (world_of s).
Proof. intros H. split; [done|by intros p m r ?%not_elem_of_nil|by intros p m ?%not_elem_of_nil]. Qed.

(** A reply that was told was heard, and answers the bytes of its question. *)
Definition replied_to (signer : option Signer) (heard : list stream_event) (self : ClientFuture) (m reply : Message) :
  Prop :=
  ∃ b req buffer, Buffer b ∈ heard ∧ Message_from_vec b = Ok reply ∧
    (req, h_id (m_header reply), buffer) ∈ cf_sent self ∧ sent_as signer m (h_id (m_header reply)) buffer.

Lemma told_heard signer heard w p m reply :
  world_ok signer heard w → log_ok (w_log w) → answer p (w_log w) = Some (m, Ok reply) →
  replied_to signer heard (w_client w) m reply.
Proof.
  intros [Hc Ht _] Hl Ea%answer_Told. destruct (log_ok_receiver _ _ _ _ Hl Ea) as [req' Hr].
  destruct (Ht _ _ _ Ea) as [_ [(m' & req & Hr' & Hcom)|[_ [?|?]]]]; [|done..].
  rewrite Hr in Hr'. simplify_eq. apply receiver_asks in Hr.
  destruct (ck_heard _ _ _ _ _ Hc _ _ _ Hr Hcom) as (b & Hb & Hdec).
  apply (ids_replied _ (ck_ids _ _ _ _ _ Hc)) in Hcom. apply list_elem_of_fmap in Hcom as ([y buffer] & Hy & Hin).
  simpl in Hy. subst y.
  exists b, req, buffer. split_and!; [done..|]. by eapply ck_sent_as.
Qed.

(** The errors of the transport: those a request was completed with, or that stand for a client that has
    ended. *)
Definition lost_with (self : ClientFuture) (e : client_error) : Prop :=
  e = ClientCanceled ∨ e = ClientMessage "error sending to mpsc" ∨ ∃ req, (req, Err e) ∈ cf_completed self.

Lemma told_lost signer heard w p m e :
  world_ok signer heard w → answer p (w_log w) = Some (m, Err e) → lost_with (w_client w) e.
Proof.
  intros [_ Ht _] Ea%answer_Told. destruct (Ht _ _ _ Ea) as [_ [(m' & req & _ & Hcom)|[_ [?|?]]]]; simplify_eq;
    [|by left|by right; left]. right. right. by exists req.
Qed.

(** A network with the ids that were drawn. *)
Definition with_ids (NW : Network) : Network :=
  {| upstream := upstream; random_id := query_id; completion := completion; completion_perm := completion_perm |}.

Lemma send_future_quiet message handle (NW : Network) :
  (∀ p m, ends_r (upstream p m)) → ends_r (meaning (send_future 22 handle [] message)).
Proof.
  intros Hu. rewrite (meaning_ext _ NW (with_ids NW)) by done.
  rewrite (send_future_meaning (NW:=with_ids NW)) by done. apply secure_send_ends; [done|lia..].
Qed.

(** A call begins in order. *)
Lemma start_good message handle signer heard s :
  callable signer heard s →
  let f := send_future 22 handle [] message in good signer (below []) f (start f (world_of s)).
Proof.
  intros Hc f. pose proof (send_future_within 22 handle [] message) as Hw. fold f in Hw.
  destruct (start_spec f (below []) (world_of s) Hw) as (new & E & [_ A2 A3 _]); [apply fresh_nil|constructor|].
  rewrite <-E in A2, A3. split; [done..| |].
  - exists heard. by apply start_world, world_of_ok.
  - intros NW _. apply send_future_quiet.
Qed.

(** A run, the log it leaves, and the network that log is. *)
Lemma SecureSyncClient_run_spec message self signer heard otherwise :
  callable signer heard (ss_io_loop self) → Forall (λ t, decodable t.1) (sy_turns (ss_io_loop self)) →
  let '(r, w, _) := SecureSyncClient_run message self in
  world_ok signer (heard ++ concat (sy_turns (ss_io_loop self)).*1) w ∧
  (r ≠ Panic → r ≠ Diverge → log_ok (w_log w) ∧
   secure_send (NW:=network_of (w_log w) query_id otherwise) 22 (ss_client_handle self) [] message = r).
Proof.
  intros Hc Hd. unfold SecureSyncClient_run. set (f := send_future 22 (ss_client_handle self) [] message).
  pose proof (start_world f _ _ _ (world_of_ok _ _ _ Hc)) as Hw. apply (block_on_world _ f _ _ _ Hd) in Hw.
  destruct (block_on _ f _) as [[r w] turns] eqn:Eb. split; [exact Hw|]. intros Hp Hdv.
  destruct (started_meaning (below []) _ f (world_of (ss_io_loop self)) r w turns query_id otherwise
    (send_future_within _ _ _ _) (fresh_nil f) eq_refl Eb Hp Hdv) as [Hl Hm]. split; [done|].
  by rewrite <-(send_future_meaning (NW:=network_of _ _ _)).
Qed.

(** C3: A blocking call of a validating client does what [secure_send] computes: when it
    returns a reply or an error there is a network, the one the run saw, under which the
    validator has that outcome, in whatever order replies came and checks were polled.
    Every reply of that network is a message that was heard, in answer to the bytes of
    the very question, under the id they were sent with, and every error one of the
    transport; so a reply that is returned to a query has only records that are vouched
    for. The client can be called again. *)
Theorem SecureSyncClient_refines message self signer heard :
  callable signer heard (ss_io_loop self) → Forall (λ t, decodable t.1) (sy_turns (ss_io_loop self)) →
  let x := SecureSyncClient_send message self in
  let heard' := heard ++ concat (sy_turns (ss_io_loop self)).*1 in
  callable signer heard' (ss_io_loop x.2) ∧
  (x.1 ≠ Panic → x.1 ≠ Diverge →
   ∃ NW : Network, secure_send 22 (ss_client_handle self) [] message = x.1 ∧
     (∀ p m reply, upstream p m = Ok reply → replied_to signer heard' (sy_client (ss_io_loop x.2)) m reply) ∧
     (∀ p m e, upstream p m = Err e → lost_with (sy_client (ss_io_loop x.2)) e)) ∧
  (∀ m', x.1 = Ok m' → h_op_code (m_header message) = OpCode.Query →
     Forall (vouched (sc_trust_anchor (ss_client_handle self))) (all_sections m')).
Proof.
  intros Hc Hd. cbv zeta. pose proof (SecureSyncClient_run_spec message self _ _ (λ _ _, Err ClientCanceled) Hc Hd) as Hs.
  unfold SecureSyncClient_send. destruct (SecureSyncClient_run message self) as [[r w] turns].
  cbn [fst snd loop_of ss_io_loop sy_client]. destruct Hs as [Hw Hs]. split_and!.
  - eapply client_ok_asks; [|apply Hw]. by intros ? ?%not_elem_of_nil.
  - intros Hp Hdv. destruct (Hs Hp Hdv) as [Hl Hm]. eexists. split_and!; [exact Hm|..]; intros p m o; cbn [upstream network_of];
      (destruct (answer p (w_log w)) as [[m' r']|] eqn:Ea; [case_decide; [subst m'|]|]); try done;
      [intros ->; by eapply told_heard|intros ->; by eapply told_lost|by intros [= <-]; left..].
  - intros m' -> Ho. destruct Hs as [_ Hm]; [done..|]. by eapply secure_send_vouched.
Qed.

(** C16: A blocking call of a validating client returns: whatever the network delivers,
    as long as the decoder ends on it, and in whatever order replies, timeouts and
    checks happen, if time passes the call has returned after some number of turns,
    however many requests the validation gives rise to. *)
Theorem SecureSyncClient_returns message handle s signer heard (turns : nat → turn) :
  callable signer heard s → (∀ n, decodable (turns n).1) → (∀ T n, ∃ k, (T ≤ t_now (turns (n + k)%nat).2)%Z) →
  ∃ n, ends_r (SecureSyncClient_send message
         (mkSecureSync handle (mkSync (sy_client s) (sy_running s) (sy_next s) (turns <$> seq 0 n)))).1.
Proof.
  intros Hc Hd Ht. destruct (good_ends turns Hd Ht signer (below []) _ _ 0 (start_good message handle _ _ _ Hc)) as [n Hn].
  by exists n.
Qed.
End client.
