(* ===== verification/SignedClient.v ===== *)
(** * SignedClient: a blocking client and a server that signs

    The two ends meet: [SecureSyncClient] of [client/src/client/client.rs] runs its event loop, the
    bytes it sends reach a [Catalog] whose zone was signed, and the bytes of the responses come back in
    some order and some turns.  What the call returns is the record set of the zone. *)

From S2P Require Import Prelude Codec Wire Domain Enums Header RData RDataProps Resource Message RecordSet.
From S2P Require Import KeyPair Signer Update BTree Journal Authority AuthorityProps ZoneSecurity ZoneInstances.
From S2P Require Import Catalog CatalogProps Responses Returns.
From S2P Require Import ClientHandle Validate ValidateProps ValidateExamples SignedZone SignedReply SignedExamples.
From S2P Require Import ClientFuture Sync ClientSteps Futures Blocking SecureSync.

Open Scope Z_scope.

Section meet.
Context `{L : Lowercase} `{HO : HashOrder} `{CL : CryptoLaws} `{SQ : Sqlite} `{CK : Clock} `{R : Rng} `{SC : Scheduler}.

(** The server's response to a datagram, computed and as a relation. *)
Definition respond (c : Catalog) (datagram : bytes) : res client_error bytes :=
  try* request := map_err ClientDecode (Message_from_vec datagram) in
  try* response := (Catalog_handle_request request c).1 in
  map_err ClientEncode (Message_to_vec response).
Definition responds (c : Catalog) (datagram reply : bytes) : Prop :=
  ∃ request response, Message_from_vec datagram = Ok request ∧
    (Catalog_handle_request (E:=client_error) request c).1 = Ok response ∧ Message_to_vec response = Ok reply.

(** Whatever is heard under the id of a request is the server's response to it. *)
Definition honest (c : Catalog) (heard : list stream_event) (sent : list (ticket * Z * bytes)) : Prop :=
  ∀ b reply req datagram, Buffer b ∈ heard → Message_from_vec b = Ok reply →
    (req, h_id (m_header reply), datagram) ∈ sent → responds c datagram b.

Lemma respond_Ok c datagram reply : respond c datagram = Ok reply → responds c datagram reply.
Proof.
  unfold respond. destruct (Message_from_vec datagram) as [request| | |] eqn:E1; try done. cbn [map_err rbind].
  destruct (Catalog_handle_request request c) as [[response| | |] c'] eqn:E2; try done. cbn [fst rbind].
  destruct (Message_to_vec response) as [b| | |] eqn:E3; try done. intros [= <-]. exists request, response. by rewrite E2.
Qed.

(** Honesty of a run that is over can be checked. *)
Definition honest_reply (c : Catalog) (sent : list (ticket * Z * bytes)) (e : stream_event) : bool :=
  match e with
  | Buffer b =>
      match Message_from_vec b with
      | Ok reply =>
          forallb (λ x, negb (x.1.2 =? h_id (m_header reply)) ||
                        match respond c x.2 with Ok b' => bool_decide (b' = b) | _ => false end) sent
      | _ => true
      end
  | _ => true
  end.

Lemma honest_checked c heard sent : forallb (honest_reply c sent) heard = true → honest c heard sent.
Proof.
  intros H b reply req datagram Hb Hdec Hsent. rewrite forallb_forall in H. apply list_elem_of_In, H in Hb. simpl in Hb.
  rewrite Hdec, forallb_forall in Hb. apply list_elem_of_In, Hb in Hsent. simpl in Hsent. rewrite Z.eqb_refl in Hsent.
  simpl in Hsent.
  destruct (respond c datagram) as [b'| | |] eqn:E; try done. apply bool_decide_eq_true in Hsent as ->. by apply respond_Ok.
Qed.

(** The network of an honest run delivers. *)
Lemma honest_delivers c csigner heard w :
  world_ok csigner heard w → log_ok (w_log w) → honest c heard (cf_sent (w_client w)) →
  w_running w = true → Forall (λ x, is_Ok x.2) (cf_completed (w_client w)) →
  ∀ p, delivers (NW:=network_of (w_log w) query_id (λ _ m, wire_exchange c (Message_id m 0))) c p.
Proof.
  intros Hw Hl Hh Hrun Hall p id name t. set (m := secure_message (query_message id name DNSClass.IN t)).
  cbn [upstream network_of].
  assert (Hother : ∃ id', u16 id' ∧ ∀ m', exchanged c (secure_message (query_message id' name DNSClass.IN t)) m' →
    wire_exchange c (Message_id m 0) = Ok m').
  { exists 0. split; [split; lia|]. intros m' H.
    exact (wire_exchange_Ok c (secure_message (query_message 0 name DNSClass.IN t)) m' H). }
  destruct (answer p (w_log w)) as [[m0 r]|] eqn:Ea; [|done]. case_decide as Hm; [subst m0|done].
  assert (Hok : is_Ok r).
  { destruct (wo_told _ _ _ Hw _ _ _ (answer_Told _ _ _ _ Ea)) as [_ [(m' & req & _ & Hc)|[Hf _]]]; [|congruence].
    rewrite Forall_forall in Hall. by apply (Hall (req, r)). }
  destruct Hok as [reply ->]. destruct (told_heard _ _ _ _ _ _ Hw Hl Ea) as (b & req & datagram & Hb & Hdec & Hsent &
    (tick & m1 & Hsig & Hvec)).
  destruct (Hh _ _ _ _ Hb Hdec Hsent) as (request & response & Hreq & Hresp & Hrb).
  exists (h_id (m_header reply)). split.
  - pose proof (ids_range _ (ck_ids _ _ _ _ _ (wo_client _ _ _ Hw))) as Hr. rewrite Forall_forall in Hr.
    assert (Hin : h_id (m_header reply) ∈ (cf_sent (w_client w)).*1.*2).
    { apply list_elem_of_fmap. eexists. split; [|apply list_elem_of_fmap; eexists; by split]. done. }
    apply Hr in Hin. unfold u16. lia.
  - intros m' (d & rq & rs & rp & H1 & H2 & H3 & H4 & H5).
    assert (m1 = secure_message (query_message (h_id (m_header reply)) name DNSClass.IN t)) as ->
      by (unfold sign_update in Hsig; change (h_op_code _) with OpCode.Query in Hsig; by injection Hsig).
    congruence.
Qed.

(** C4: What the server signs, a blocking client that validates returns: when a zone of
    class IN was given its first key, an RSA key for RSASHA256, and secured, the key is
    the client's trust anchor, and what the client hears under the id of a request is
    the server's response to the bytes of that request, with none missing, then a call
    of [query] for a record set the operator put in the zone, of any type but NS and
    those the server writes itself (SOA, NSEC, DNSKEY, RRSIG), returns exactly its
    records, with the zone's name servers, in whatever turns and order the responses
    come. Between the two are the queue, the ids, the table of requests and the futures
    of the client. The set is not empty, and its records and the name servers can be
    written and are spelled like their set; sets of type NS are left out because the
    client refuses the zone's own one. The zones of the server have at most 32000
    records each, and these can be written. The claim is for a call that ends without a
    panic within the turns that there are, during which no request failed or timed out
    and the client's future still runs; that a call ends is another theorem. *)
Theorem blocking_answer_validates c a0 a signer bs anchor id name t s n self csigner heard :
  server_ok c a0 a signer bs → newly_signed a0 a signer → TrustAnchor_contains anchor bs = true → name_ok name →
  Catalog_find_auth_recurse c name = Some (n, RwLock_new a) → plain_type t → t ≠ RecordType.NS →
  BTreeMap_get (RrKey_new name t) (a_records a0) = Some s → servable s → rs_records s ≠ [] →
  ss_client_handle self = SecureClientHandle_with_trust_anchor anchor →
  callable csigner heard (ss_io_loop self) → Forall (λ t, decodable t.1) (sy_turns (ss_io_loop self)) →
  let x := Client_query id name DNSClass.IN t self in
  let after := ss_io_loop x.2 in
  x.1 ≠ Panic → x.1 ≠ Diverge →
  honest c (heard ++ concat (sy_turns (ss_io_loop self)).*1) (cf_sent (sy_client after)) →
  sy_running after = true → Forall (λ x, is_Ok x.2) (cf_completed (sy_client after)) →
  ∃ m, x.1 = Ok m ∧ m_answers m = rs_records s ∧ m_name_servers m = ns_records a0 ∧ m_additionals m = [].
Proof.
  intros Hst [Hu Hk Hsig Hsec] Hanchor Hname Hf Ht Hns Hg Hs Hne Hhandle Hc Hd. cbv zeta.
  unfold Client_query, query, send, SecureSyncClient_send. set (message := query_message id name DNSClass.IN t).
  pose proof (SecureSyncClient_run_spec message self _ _ (λ _ m, wire_exchange c (Message_id m 0)) Hc Hd) as Hspec.
  destruct (SecureSyncClient_run message self) as [[r w] turns]. cbn [fst snd loop_of ss_io_loop sy_client sy_running].
  destruct Hspec as [Hw Hspec]. intros Hp Hdv Hh Hrun Hall. destruct (Hspec Hp Hdv) as [Hl Hm]. rewrite Hhandle in Hm.
  pose proof (honest_delivers c csigner _ w Hw Hl Hh Hrun Hall) as Hup.
  destruct (secured_answer_validates (NW:=network_of (w_log w) query_id _) c a0 a signer bs Hst Hup) with (anchor :=
    anchor) (fuel := 20%nat)
    (p := @nil nat) (id := id) (name := name) (t := t) (s := s) (n := n) as (m & Hm' & Ha); try done.
  - destruct Hst. by apply secure_zone_inv.
  - exists m. split; [|done]. rewrite <-Hm. exact Hm'.
Qed.
End meet.

(** ** A conversation *)

#[local] Existing Instance ascii_lowercase.
#[local] Existing Instance list_hash_order.
#[local] Existing Instance keyed_crypto.
#[local] Existing Instance keyed_laws.
#[local] Existing Instance list_sqlite.
#[local] Existing Instance fixed_clock.
#[local] Existing Instance counting_rng.

#[local] Instance in_order : Scheduler.
Proof. by refine {| query_id _ := 5; poll_order _ n := seq 0 n |}. Defined.

Definition sx_client (turns : list turn) : SecureSyncClient :=
  mkSecureSync (SecureClientHandle_with_trust_anchor anchor_a) (SyncClient_new [] turns).
Definition sx_call (turns : list turn) : res client_error Message * SecureSyncClient :=
  Client_query 7 ex_www DNSClass.IN RecordType.A (sx_client turns).
Definition sx_sent (turns : list turn) : list (ticket * Z * bytes) := cf_sent (sy_client (ss_io_loop (sx_call turns).2)).

(** What the server responds to the requests that were sent in some turns. *)
Definition sx_responses (turns : list turn) : list stream_event :=
  omap (λ x, match respond sx_catalog x.2 with Ok b => Some (Buffer b) | _ => None end) (sx_sent turns).

(** The question is sent and answered; then the key is asked for twice, once for each set of the answer, and
    the responses come in the other order. *)
Definition sx_asked : list turn := [([], tick_at 0)].
Definition sx_answered : list turn := sx_asked ++ [(sx_responses sx_asked, tick_at 10); ([], tick_at 20)].
Definition sx_turns : list turn := Eval vm_compute in sx_answered ++
  [(rev (drop 1 (sx_responses sx_answered)), tick_at 30)].

Lemma new_callable stream turns : decodable stream → callable None stream (SyncClient_new stream turns).
Proof.
  intros Hd. split; simpl; try done; try constructor; simpl; try done;
    intros; match goal with H : _ ∈ [] |- _ => by apply not_elem_of_nil in H end.
Qed.

Lemma sx_turns_decodable : Forall (λ t : turn, decodable t.1) sx_turns.
Proof. repeat constructor; vm_compute; discriminate. Qed.

Lemma sx_answer :
  is_Some (answers_of (sx_call sx_turns).1) ∧ length (sx_sent sx_turns) = 3%nat.
Proof. split; vm_compute; [by eexists|reflexivity]. Qed.

Lemma blocking_answer_validates_witness :
  ∃ m, (sx_call sx_turns).1 = Ok m ∧
    m_answers m = [mkRecord ex_www RecordType.A DNSClass.IN 60 (RData.A (mkIpv4 10 0 0 1))].
Proof.
  destruct (blocking_answer_validates sx_catalog sx_zone sx_signed sx_signer [1; 3; 187] anchor_a 7 ex_www RecordType.A
    (sx_set ex_www (RData.A (mkIpv4 10 0 0 1))).2 ex_zone_a (sx_client sx_turns) None []) as (m & Hm & Ha & _).
  - exact sx_server.
  - split; [reflexivity|reflexivity|exact sx_can_sign|exact sx_secured].
  - reflexivity.
  - exact sx_www_ok.
  - apply sx_found. by right; left.
  - unfold plain_type, managed_types. set_solver.
  - discriminate.
  - reflexivity.
  - exact sx_a_ok.
  - discriminate.
  - reflexivity.
  - apply new_callable. constructor.
  - exact sx_turns_decodable.
  - vm_compute. discriminate.
  - vm_compute. discriminate.
  - apply honest_checked. vm_compute. reflexivity.
  - vm_compute. reflexivity.
  - by_decision.
  - exists m. split; [exact Hm|exact Ha].
Defined.

(** The validator's own view of that conversation. *)
Lemma SecureSyncClient_refines_witness :
  ∃ (NW : Network) m, secure_send 22 (SecureClientHandle_with_trust_anchor anchor_a)
    [] (query_message 7 ex_www DNSClass.IN RecordType.A) = Ok m ∧
    (sx_call sx_turns).1 = Ok m ∧ Forall (vouched anchor_a) (all_sections m).
Proof.
  destruct (SecureSyncClient_refines (query_message 7 ex_www DNSClass.IN RecordType.A) (sx_client sx_turns) None []
    (new_callable [] sx_turns (Forall_nil_2 _)) sx_turns_decodable) as (_ & Hr & Hv).
  destruct Hr as (NW & Hs & _); [vm_compute; discriminate..|]. assert (Hok : is_Ok (sx_call sx_turns).1) by by_decision.
  destruct Hok as [m Hm]. exists NW, m. split_and!; [etrans; [exact Hs|exact Hm]|exact Hm|]. exact (Hv m Hm eq_refl).
Defined.

(** Nothing answers: the call ends, and with a timeout. *)
Definition sx_silence (n : nat) : turn := ([], tick_at (Z.of_nat n * 1000)).

Lemma SecureSyncClient_returns_witness :
  (sx_call (sx_silence <$> seq 0 5)).1 = Diverge ∧ (sx_call (sx_silence <$> seq 0 6)).1 = Err ClientTimeout ∧
  ∃ n, ends_r (sx_call (sx_silence <$> seq 0 n)).1.
Proof.
  split; [vm_compute; reflexivity|]. split; [vm_compute; reflexivity|].
  destruct (SecureSyncClient_returns (query_message 7 ex_www DNSClass.IN RecordType.A)
    (SecureClientHandle_with_trust_anchor anchor_a) (SyncClient_new [] []) None [] sx_silence (new_callable []
      [] (Forall_nil_2 _)))
    as [n Hn].
  - intros n. constructor.
  - intros T n. exists (Z.to_nat T). unfold sx_silence, tick_at. cbn [snd t_now]. lia.
  - exists n. unfold sx_call, Client_query, query, send, sx_client, SyncClient_new. exact Hn.
Defined.
