(* ===== verification/Server.v ===== *)
(** * Server: from datagrams and connections to the catalog

    [RequestStream] and [ResponseHandle] of [server/src/server/request_stream.rs],
    [TimeoutStream] of [timeout_stream.rs], and the loop [ServerFuture] runs for a UDP
    socket or a connection ([server_future.rs]): requests are decoded, handed to the catalog one
    after the other, and the responses queued for their sources. *)

From S2P Require Import Prelude Codec Wire Domain Enums Header RData RDataProps Resource Message.
From S2P Require Import RecordSet KeyPair Signer Update BTree Journal Authority AuthorityProps ZoneSecurity ZoneInstances.
From S2P Require Import Catalog CatalogProps Streams Tcp Udp ClientHandle ClientFuture.

Open Scope Z_scope.

(** ** Timeouts *)

Section timeout.
Context {SocketAddr S : Type} `{BS : BufStream SocketAddr S}.

Record TimeoutStream : Type := mkTimeoutStream {
  ts_stream : S;
  ts_timeout_duration : Z;
  ts_timeout : option Z;
}.

(** A new timer, by its deadline; a duration of zero means none. *)
Definition TimeoutStream_timeout (m : Moment) (timeout_duration : Z) : option (option Z) :=
  if 0 <? timeout_duration then if timer_new m then Some (Some (now m + timeout_duration)) else None
  else Some None.

Definition TimeoutStream_new (m : Moment) (stream : S) (timeout_duration : Z) : option TimeoutStream :=
  timeout ← TimeoutStream_timeout m timeout_duration;
  Some (mkTimeoutStream stream timeout_duration timeout).

Definition TimeoutStream_poll (m : Moment) (t : TimeoutStream) :
    option (Poll (bytes * SocketAddr) * TimeoutStream) :=
  '(r, stream) ← stream_poll m (ts_stream t);
  let t := mkTimeoutStream stream (ts_timeout_duration t) (ts_timeout t) in
  match r with
  | Ready _ | PollErr _ =>
      match TimeoutStream_timeout m (ts_timeout_duration t) with
      | Some timeout => Some (r, mkTimeoutStream stream (ts_timeout_duration t) timeout)
      | None => Some (PollErr SocketError, t)
      end
  | NotReady =>
      match ts_timeout t with
      | None => Some (NotReady, t)
      | Some deadline =>
          if timer_error m then Some (PollErr SocketError, t)
          else if deadline <=? now m then Some (PollErr TimedOut, t)
          else Some (NotReady, t)
      end
  end.

#[global] Instance TimeoutStream_stream : BufStream SocketAddr TimeoutStream := {
  stream_poll := TimeoutStream_poll;
  stream_send message t :=
    mkTimeoutStream (stream_send message (ts_stream t)) (ts_timeout_duration t) (ts_timeout t);
}.
End timeout.

(** ** Requests and responses *)

Section server.
Context {SocketAddr S : Type} `{BS : BufStream SocketAddr S}.
Context `{L : Lowercase} `{HO : HashOrder} `{C : Crypto} `{SQ : Sqlite} `{CK : Clock}.

Record Request : Type := mkRequest { message : Message; src : SocketAddr }.

(** Messages that do not decode are dropped; [None] when the fuel has run out. *)
Fixpoint RequestStream_poll (fuel : nat) (m : Moment) (stream : S) : option (res Empty_set (Poll Request) * S) :=
  match fuel with
  | O => None
  | Datatypes.S fuel =>
      '(r, stream) ← stream_poll m stream;
      match r with
      | NotReady => Some (Ok NotReady, stream)
      | PollErr e => Some (Ok (PollErr e), stream)
      | Ready None => Some (Ok (Ready None), stream)
      | Ready (Some (buffer, addr)) =>
          match (Message_read (BinDecoder_new buffer)).1 with
          | Ok message => Some (Ok (Ready (Some (mkRequest message addr))), stream)
          | Err _ => RequestStream_poll fuel m stream
          | Panic => Some (Panic, stream)
          | Diverge => Some (Diverge, stream)
          end
      end
  end.

(** [ResponseHandle::send] of a handle for [dst]. *)
Definition ResponseHandle_send (dst : SocketAddr) (response : Message) : M S io_error () := λ stream,
  match Message_emit response (BinEncoder_new []) with
  | (Ok _, e) => (Ok (), stream_send (ebuf e, dst) stream)
  | (Err _, _) => (Err IoOther, stream)
  | (Panic, _) => (Panic, stream)
  | (Diverge, _) => (Diverge, stream)
  end.

Definition ServerFuture_handle_request (request : Request) : M (S * Catalog) io_error () := λ '(stream, catalog),
  match Catalog_handle_request (message request) catalog with
  | (Ok response, catalog) =>
      let '(r, stream) := ResponseHandle_send (src request) response stream in (r, (stream, catalog))
  | (Err e, catalog) => (Err e, (stream, catalog))
  | (Panic, catalog) => (Panic, (stream, catalog))
  | (Diverge, catalog) => (Diverge, (stream, catalog))
  end.

(** How a poll of the loop ends: it waits, its stream has ended, or it has ended with an error, which
    is logged. *)
Inductive served : Type := Waiting | Finished | Ended (e : io_error).

(** [request_stream.for_each(handle_request)], which [register_socket],
    [register_listener] and [register_tls_listener] spawn. *)
Fixpoint serve (fuel : nat) (m : Moment) (stream : S) (catalog : Catalog) :
    option (res Empty_set served * (S * Catalog)) :=
  match fuel with
  | O => None
  | Datatypes.S fuel =>
      '(r, stream) ← RequestStream_poll (Datatypes.S fuel) m stream;
      match r with
      | Ok (Ready (Some request)) =>
          match ServerFuture_handle_request request (stream, catalog) with
          | (Ok _, (stream, catalog)) => serve fuel m stream catalog
          | (Err e, state) => Some (Ok (Ended e), state)
          | (Panic, state) => Some (Panic, state)
          | (Diverge, state) => Some (Diverge, state)
          end
      | Ok (Ready None) => Some (Ok Finished, (stream, catalog))
      | Ok NotReady => Some (Ok Waiting, (stream, catalog))
      | Ok (PollErr e) => Some (Ok (Ended e), (stream, catalog))
      | Err e => match (e : Empty_set) with end
      | Panic => Some (Panic, (stream, catalog))
      | Diverge => Some (Diverge, (stream, catalog))
      end
  end.
End server.
Arguments Request : clear implicits.
Arguments TimeoutStream : clear implicits.

(** ** Connections that stay silent *)

(** A connection is closed when, and only when, it has not yielded a message for the
    timeout: a poll that finds nothing leaves the deadline and fails once the deadline
    has come, however many bytes of an unfinished message have arrived, and a poll that yields
    a message or an error sets a new deadline.  Without a timeout it is never closed. *)
Theorem TimeoutStream_poll_spec {SocketAddr S} `{BufStream SocketAddr S} m (t : TimeoutStream S) (r : Poll (list Z * SocketAddr)) s' :
  stream_poll m (ts_stream t) = Some (r, s') → timer_new m = true → timer_error m = false →
  ∃ r' t', TimeoutStream_poll m t = Some (r', t') ∧ ts_stream t' = s' ∧
    ts_timeout_duration t' = ts_timeout_duration t ∧
    (r = NotReady → ts_timeout t' = ts_timeout t) ∧
    (r ≠ NotReady → r' = r ∧
       ts_timeout t' = if 0 <? ts_timeout_duration t then Some (now m + ts_timeout_duration t) else None) ∧
    (r = NotReady → ∀ deadline, ts_timeout t = Some deadline →
       r' = if deadline <=? now m then PollErr TimedOut else NotReady) ∧
    (r = NotReady → ts_timeout t = None → r' = NotReady).
Proof.
  intros Hp Hn He. unfold TimeoutStream_poll. rewrite Hp. simpl. unfold TimeoutStream_timeout. rewrite Hn, He.
  destruct r as [item| |e]; simpl; [| |].
  1,3: destruct (0 <? ts_timeout_duration t); eexists _, _; (split; [reflexivity|]); by split_and!.
  destruct (ts_timeout t) as [deadline|] eqn:Et; [destruct (Z.leb_spec deadline (now m))|];
    eexists _, _; (split; [reflexivity|]); simpl; split_and!; try done; intros _ d [= <-]; case_match; try done;
    apply Z.leb_le in H1 || apply Z.leb_gt in H1; lia.
Qed.

(** ** What a response repeats *)

Section props.
Context `{L : Lowercase} `{HO : HashOrder} `{C : Crypto} `{SQ : Sqlite} `{CK : Clock}.

Lemma response_code_id m c : h_id (m_header (Message_response_code m c)) = h_id (m_header m).
Proof. done. Qed.

Lemma answer_query_id a request q m : h_id (m_header (answer_query a request q m)) = h_id (m_header m).
Proof.
  unfold answer_query. destruct (dnssec_request request) as [d algs].
  destruct (negb _); [|destruct d]; case_match; rewrite ?add_name_servers_eq, ?response_code_id;
    by rewrite ?add_name_servers_eq, ?add_answers_eq.
Qed.

Lemma lookup_queries_id {E} c request qs m m' :
  lookup_queries (E:=E) c request qs m = Ok m' → h_id (m_header m') = h_id (m_header m).
Proof.
  revert m. induction qs as [|q qs IH]; intros m; cbn [lookup_queries]; [by intros [= ->]|].
  destruct (Catalog_find_auth_recurse c (q_name q)) as [[n lock]|].
  - unfold RwLock_read. destruct (l_poisoned lock); [done|]. cbn [rbind]. intros ->%IH. apply answer_query_id.
  - intros ->%IH. done.
Qed.

Lemma Catalog_update_id {E} request c m c' :
  Catalog_update (E:=E) request c = (Ok m, c') → h_id (m_header m) = h_id (m_header request).
Proof. unfold Catalog_update. intros H. repeat case_match; simplify_eq; done. Qed.

Lemma dispatch_request_id {E} request c m c' :
  dispatch_request (E:=E) request c = (Ok m, c') → h_id (m_header m) = h_id (m_header request).
Proof.
  unfold dispatch_request. destruct (h_message_type (m_header request)); [|by intros [= <- _]].
  destruct (h_op_code (m_header request)); try (by intros [= <- _]).
  - intros [= H _]. unfold Catalog_lookup in H. apply lookup_queries_id in H. rewrite H.
    by rewrite add_queries_eq.
  - apply Catalog_update_id.
Qed.

Lemma handle_request_id {E} request c m c' :
  Catalog_handle_request (E:=E) request c = (Ok m, c') → h_id (m_header m) = h_id (m_header request).
Proof.
  unfold Catalog_handle_request. destruct (m_edns request) as [edns|].
  - destruct (0 <? e_version edns); [by intros [= <- _]|].
    intros (m' & c1 & Hd & [= <- _])%bind_Ok_inv. by apply dispatch_request_id in Hd.
  - intros (m' & c1 & Hd & [= <- _])%bind_Ok_inv. by apply dispatch_request_id in Hd.
Qed.

(** ** A UDP server *)

Context {SocketAddr : Type}.
Abbreviation udp := (UdpStream SocketAddr).

(** What a server has to do with datagrams, one after the other: nothing with those that are not
    messages, and for the others the catalog's response, for the source. *)
Fixpoint udp_answers (ds : list (bytes * SocketAddr)) : M Catalog io_error (list (bytes * SocketAddr)) :=
  match ds with
  | [] => ret []
  | (buffer, src) :: ds =>
      match Message_from_vec buffer with
      | Ok request =>
          let* response := Catalog_handle_request request in
          let* reply := lift (match Message_to_vec response with
                              | Ok b => Ok b | Err _ => Err IoOther | Panic => Panic | Diverge => Diverge end) in
          let* replies := udp_answers ds in
          ret ((reply, src) :: replies)
      | Err _ => udp_answers ds
      | Panic => panic
      | Diverge => diverge
      end
  end.

Definition datagrams (ds : list (bytes * SocketAddr)) : list udp_read := (λ '(b, src), Datagram b src) <$> ds.

(** The same for any socket: [ins] is what its next reads find and [outs] what its next writes do.  The
    outcome is what was sent, how the poll of the loop has ended, and the catalog. *)
Definition outcome : Type := list (bytes * SocketAddr) * res Empty_set served * Catalog.

(** One request: its response is sent when the socket takes it; the loop waits when the socket does
    not, and ends when it fails or the response cannot be written. *)
Definition udp_reply (request : Message) (src : SocketAddr) (outs : list udp_write) (catalog : Catalog)
    (next : list udp_write → Catalog → outcome) : outcome :=
  match Catalog_handle_request (E:=io_error) request catalog with
  | (Ok response, catalog) =>
      match Message_to_vec response with
      | Ok reply =>
          match outs with
          | Writable (Done _) :: outs => let '(out, r, catalog) := next outs catalog in ((reply, src) :: out, r, catalog)
          | Writable Streams.Failed :: _ => ([], Ok (Ended SocketError), catalog)
          | _ => ([], Ok Waiting, catalog)
          end
      | Err _ => ([], Ok (Ended IoOther), catalog)
      | Panic => ([], Panic, catalog)
      | Diverge => ([], Diverge, catalog)
      end
  | (Err e, catalog) => ([], Ok (Ended e), catalog)
  | (Panic, catalog) => ([], Panic, catalog)
  | (Diverge, catalog) => ([], Diverge, catalog)
  end.

(** All that waits to be read: a datagram is cut after 2048 bytes, and dropped when it does not decode. *)
Fixpoint udp_run (ins : list udp_read) (outs : list udp_write) (catalog : Catalog) : outcome :=
  match ins with
  | [] | NoDatagram :: _ => ([], Ok Waiting, catalog)
  | RecvError :: _ => ([], Ok (Ended SocketError), catalog)
  | Datagram bs src :: ins =>
      match Message_from_vec (take (Z.to_nat 2048) bs) with
      | Ok request => udp_reply request src outs catalog (udp_run ins)
      | Err _ => udp_run ins outs catalog
      | Panic => ([], Panic, catalog)
      | Diverge => ([], Diverge, catalog)
      end
  end.

Lemma ResponseHandle_send_vec {S} `{BufStream SocketAddr S} (stream : S) (dst : SocketAddr) response :
  ResponseHandle_send dst response stream =
  match Message_to_vec response with
  | Ok reply => (Ok (), stream_send (reply, dst) stream)
  | Err _ => (Err IoOther, stream)
  | Panic => (Panic, stream)
  | Diverge => (Diverge, stream)
  end.
Proof. unfold Message_to_vec, ResponseHandle_send. by destruct (Message_emit response (BinEncoder_new [])) as [[] e]. Qed.

(** The next request of a stream with nothing to send. *)
Lemma request_poll_run fuel m u : u_outbound_messages u = [] → (length (us_in (u_socket u)) < fuel)%nat →
  ∃ r u', RequestStream_poll fuel m u = Some (r, u') ∧ u_outbound_messages u' = [] ∧
    us_sent (u_socket u') = us_sent (u_socket u) ∧ us_out (u_socket u') = us_out (u_socket u) ∧
    match r with
    | Ok (Ready (Some request)) => (length (us_in (u_socket u')) < length (us_in (u_socket u)))%nat ∧
        ∀ outs c, udp_run (us_in (u_socket u)) outs c =
          udp_reply (message request) (src request) outs c (udp_run (us_in (u_socket u')))
    | Ok (Ready None) | Err _ => False
    | Ok NotReady => ∀ outs c, udp_run (us_in (u_socket u)) outs c = ([], Ok Waiting, c)
    | Ok (PollErr e) => ∀ outs c, udp_run (us_in (u_socket u)) outs c = ([], Ok (Ended e), c)
    | Panic => ∀ outs c, udp_run (us_in (u_socket u)) outs c = ([], Panic, c)
    | Diverge => ∀ outs c, udp_run (us_in (u_socket u)) outs c = ([], Diverge, c)
    end.
Proof.
  destruct u as [[outs sent ins] queue]. cbn [u_outbound_messages u_socket us_in us_out us_sent]. intros ->.
  revert ins. induction fuel as [|fuel IH]; intros ins Hf; [lia|].
  cbn [RequestStream_poll stream_poll UdpStream_stream]. unfold UdpStream_poll, recv_from.
  cbn [udp_send_loop u_outbound_messages u_socket us_in].
  destruct ins as [|[bs src| |] ins]; cbn [mbind option_bind us_out us_sent]; try (by eexists _, _).
  change ((Message_read (BinDecoder_new (take (Z.to_nat 2048) bs))).1) with (Message_from_vec (take (Z.to_nat 2048) bs)).
  cbn [udp_run]. destruct (Message_from_vec (take (Z.to_nat 2048) bs)) as [request|e| |]; try (by eexists _, _).
  - eexists _, _. split_and!; [done..|]. split; [|done]. simpl. lia.
  - destruct (IH ins) as (r & u' & -> & Hq & Hs & Ho & Hr); [simpl in Hf; lia|]. exists r, u'. split_and!; try done.
    destruct r as [[[request|]| |]| | |]; try done. destruct Hr as [Hr1 Hr2]. split; [simpl; lia|done].
Qed.

(** Before a stream is read, what is queued is sent. *)
Lemma serve_queued fuel m (u u' : udp) c : UdpStream_poll u = UdpStream_poll u' → serve fuel m u c = serve fuel m u' c.
Proof.
  intros H. destruct fuel as [|fuel]; [done|]. cbn [serve RequestStream_poll stream_poll UdpStream_stream]. by rewrite H.
Qed.

Lemma serve_run fuel m (u : udp) c : u_outbound_messages u = [] → (length (us_in (u_socket u)) < fuel)%nat →
  let '(out, r, c') := udp_run (us_in (u_socket u)) (us_out (u_socket u)) c in
  ∃ u', serve fuel m u c = Some (r, (u', c')) ∧ us_sent (u_socket u') = us_sent (u_socket u) ++ out.
Proof.
  revert u c. induction fuel as [|fuel IH]; intros u c Hq Hf; [lia|].
  destruct (request_poll_run (S fuel) m u Hq Hf) as (r & u1 & Hp & Hq1 & Hs1 & Ho1 & Hr).
  assert (Hdone : ∀ x : res Empty_set served, ∃ u', Some (x, (u1, c)) = Some (x, (u', c)) ∧
    us_sent (u_socket u') = us_sent (u_socket u) ++ []) by (intros; exists u1; by rewrite Hs1, app_nil_r).
  cbn [serve]. rewrite Hp. cbn [mbind option_bind].
  destruct r as [[[request|]| |e]|[]| |]; try (by destruct Hr); try (rewrite Hr; apply Hdone).
  destruct Hr as [Hlt ->]. unfold udp_reply, ServerFuture_handle_request. rewrite <-Ho1, <-Hs1.
  destruct (Catalog_handle_request (message request) c) as [[response|e| |] c1];
    try (eexists; split; [reflexivity|]; by rewrite app_nil_r).
  rewrite ResponseHandle_send_vec. destruct (Message_to_vec response) as [reply| | |];
    try (eexists; split; [reflexivity|]; by rewrite app_nil_r).
  destruct u1 as [[outs sent ins] queue]. cbn in Hq1, Hlt, Hf |- *. subst queue. simpl.
  destruct fuel as [|fuel]; [lia|].
  destruct outs as [|[[[]| |]|] outs]; try (eexists; split; [reflexivity|]; simpl; by rewrite app_nil_r).
  erewrite (serve_queued _ m _ (mkUdp (mkUdpSocket outs (sent ++ [(reply, src request)]) ins) [])) by reflexivity.
  specialize (IH (mkUdp (mkUdpSocket outs (sent ++ [(reply, src request)]) ins) []) c1 eq_refl).
  cbn [u_socket us_in us_out us_sent] in IH. specialize (IH ltac:(lia)).
  destruct (udp_run ins outs c1) as [[out r] c2]. destruct IH as (u' & Hv & Hs). exists u'. split; [done|].
  by rewrite Hs, <-app_assoc.
Qed.

(** A socket that can send [n] times, with [ds] to read. *)
Record udp_ready (u : udp) (ds : list (bytes * SocketAddr)) (n : nat) : Prop := {
  ur_queue : u_outbound_messages u = [];
  ur_in : us_in (u_socket u) = datagrams ds;
  ur_out : us_out (u_socket u) = replicate n (Writable (Done ()));
}.

Lemma run_answers ds n c out c' : (length ds ≤ n)%nat → Forall (λ d, Z.of_nat (length d.1) ≤ 2048) ds →
  udp_answers ds c = (Ok out, c') →
  udp_run (datagrams ds) (replicate n (Writable (Done ()))) c = (out, Ok Waiting, c').
Proof.
  intros Hn Hl. revert n c out Hn. induction Hl as [|[b src] ds Hb _ IH]; intros n c out Hn.
  { by intros [= <- <-]. }
  change (datagrams ((b, src) :: ds)) with (Datagram b src :: datagrams ds).
  cbn [udp_answers udp_run]. simpl in Hb, Hn. rewrite take_ge by lia.
  destruct (Message_from_vec b) as [request| | |]; [|intros; apply IH; [lia|done]|done..].
  intros (response & c1 & Hh & Ha)%bind_Ok_inv. apply bind_Ok_inv in Ha as (reply & c2 & Hv & Ha).
  apply bind_Ok_inv in Ha as (replies & c3 & Ha & [= <- <-]). unfold udp_reply. rewrite Hh.
  destruct (Message_to_vec response); try done. unfold lift in Hv. simplify_eq.
  destruct n as [|n]; [lia|]. cbn [replicate].
  by rewrite (IH n c2 replies ltac:(lia) Ha).
Qed.

(** Serving is answering. *)
Lemma serve_udp fuel m u ds n c out c' :
  udp_ready u ds n → (length ds ≤ n)%nat → (length ds < fuel)%nat →
  Forall (λ d, Z.of_nat (length d.1) ≤ 2048) ds → udp_answers ds c = (Ok out, c') →
  ∃ u', serve fuel m u c = Some (Ok Waiting, (u', c')) ∧ us_sent (u_socket u') = us_sent (u_socket u) ++ out.
Proof.
  intros [Hq Hi Ho] Hn Hf Hl Ha. pose proof (serve_run fuel m u c Hq) as H. rewrite Hi, Ho in H.
  rewrite (run_answers ds n c out c' Hn Hl Ha) in H. apply H. unfold datagrams. by rewrite length_fmap.
Qed.

(** C10: A UDP server implements its specification, whatever its socket does and
    whatever arrives: with nothing left to send, a poll of the loop has sent what
    handling the waiting datagrams one after the other sends, in their order and to
    their sources, has left the catalog as that does, and has ended as that says.
    Datagrams are cut after 2048 bytes and dropped without a reply when decoding reports
    an error; the loop waits when nothing more can be read or written, ends when the
    socket fails or a response cannot be encoded, and panics or hangs where the decoder,
    the catalog or the encoder does. In particular, when the socket takes every reply
    and no datagram is longer than 2048 bytes or makes one of these fail, all are read
    and answered and the loop waits for more. *)
Theorem udp_server_refines fuel m (u : udp) catalog :
  u_outbound_messages u = [] → (length (us_in (u_socket u)) < fuel)%nat →
  let '(out, r, catalog') := udp_run (us_in (u_socket u)) (us_out (u_socket u)) catalog in
  (∃ u', serve fuel m u catalog = Some (r, (u', catalog')) ∧ us_sent (u_socket u') = us_sent (u_socket u) ++ out) ∧
  ∀ ds n out' c', udp_ready u ds n → (length ds ≤ n)%nat → Forall (λ d, Z.of_nat (length d.1) ≤ 2048) ds →
    udp_answers ds catalog = (Ok out', c') → out = out' ∧ r = Ok Waiting ∧ catalog' = c'.
Proof.
  intros Hq Hf. pose proof (serve_run fuel m u catalog Hq Hf) as H.
  destruct (udp_run _ _ catalog) as [[out r] c1] eqn:E. split; [done|].
  intros ds n out' c' [_ Hi Ho] Hn Hl Ha. rewrite Hi, Ho, (run_answers ds n _ _ _ Hn Hl Ha) in E. by simplify_eq.
Qed.

(** ** A question and its answer *)

(** The client's stream with a message handed to its handle, and with a datagram that has arrived. *)
Definition client_send (buffer : bytes) (c : UdpClientStream (SocketAddr:=SocketAddr)) : UdpClientStream :=
  mkUdpClient (name_server c) (BufClientStreamHandle_send (name_server c) buffer (udp_stream c)).
Definition client_hears (bs : bytes) (src : SocketAddr) (c : UdpClientStream) : UdpClientStream :=
  let s := u_socket (udp_stream c) in
  mkUdpClient (name_server c)
    (mkUdp (mkUdpSocket (us_out s) (us_sent s) (us_in s ++ [Datagram bs src])) (u_outbound_messages (udp_stream c))).

(** What a poll of the stream is to [ClientFuture]. *)
Definition event_of (p : Poll bytes) : stream_event :=
  match p with Ready (Some b) => Buffer b | Ready None => StreamEnd | NotReady => StreamNotReady | PollErr _ => StreamError end.

(** A client's stream with nothing queued and nothing to read, and a socket that can send. *)
Record client_ready (c : UdpClientStream (SocketAddr:=SocketAddr)) : Prop := {
  cr_queue : u_outbound_messages (udp_stream c) = [];
  cr_in : us_in (u_socket (udp_stream c)) = [];
  cr_out : ∃ outs, us_out (u_socket (udp_stream c)) = Writable (Done ()) :: outs;
}.

Lemma client_send_poll c buffer : client_ready c →
  let c1 := (UdpClientStream_poll (client_send buffer c)).2 in
  name_server c1 = name_server c ∧ u_outbound_messages (udp_stream c1) = [] ∧ us_in (u_socket (udp_stream c1)) = [] ∧
  us_sent (u_socket (udp_stream c1)) = us_sent (u_socket (udp_stream c)) ++ [(buffer, name_server c)].
Proof.
  destruct c as [ns [[outs sent ins] queue]]. intros [Hq Hi [outs' Ho]]. simpl in *. by subst.
Qed.

Lemma client_hears_poll c bs src : u_outbound_messages (udp_stream c) = [] → us_in (u_socket (udp_stream c)) = [] →
  (UdpClientStream_poll (client_hears bs src c)).1 = Ready (Some (take (Z.to_nat 2048) bs)).
Proof. destruct c as [ns [[outs sent ins] queue]]. intros Hq Hi. simpl in *. by subst. Qed.

(** A request that is not signed goes out as its bytes. *)
Lemma send_request_unsigned `{R : Rng} tick (self : ClientFuture) request req id buffer :
  cf_signer self = None ∨ h_op_code (m_header request) ≠ OpCode.Update →
  t_timer_new tick req = true → t_sink tick req = true → Message_to_vec (Message_id request id) = Ok buffer →
  send_request tick request req id self =
    (Ok (), set_active (set_sent self (cf_sent self ++ [(req, id, buffer)]))
       (<[id := (req, t_now tick + cf_timeout_duration self)]> (cf_active_requests self))).
Proof.
  intros Hsg Ht Hk Hb. unfold send_request.
  assert (sign_update tick (cf_signer self) (Message_id request id) = Ok (Message_id request id)) as ->.
  { unfold sign_update. change (h_op_code (m_header (Message_id request id))) with (h_op_code (m_header request)).
    destruct Hsg as [->|Hop]; by destruct (h_op_code (m_header request)). }
  by rewrite Ht, Hb, Hk.
Qed.

(** C24: The whole way of a request over UDP: the client's future takes a request that
    is not to be signed, with the id it has drawn, and hands its bytes, at most 2048, to
    its stream, which sends them to the name server; the server reads the datagram, and
    sends the catalog's response back. The client's stream cuts what it reads after 2048
    bytes. When the reply is no longer than that, and the request has not timed out, the
    caller's ticket is completed with what the catalog made of the request, as the wire
    carries both. The request and the response are well formed, the two sockets can
    send, nothing is lost between them, and the client has nothing else to do. *)
Theorem udp_request_answered `{R : Rng} tick tick' (self : ClientFuture) request req id buffer
    (c : UdpClientStream (SocketAddr:=SocketAddr)) (addr : SocketAddr) m u n catalog response catalog' fuel reply :
  cf_signer self = None ∨ h_op_code (m_header request) ≠ OpCode.Update →
  cf_active_requests self !! id = None → cf_new_receiver self = [] →
  t_timer_new tick req = true → t_sink tick req = true →
  canceled tick' (req, t_now tick + cf_timeout_duration self) = false →
  message_ok (Message_id request id) → Message_to_vec (Message_id request id) = Ok buffer →
  Z.of_nat (length buffer) ≤ 2048 →
  Catalog_handle_request (E:=io_error) (message_norm (Message_id request id)) catalog = (Ok response, catalog') →
  message_ok response → Message_to_vec response = Ok reply →
  client_ready c → udp_ready u [(buffer, addr)] n → (1 ≤ n)%nat → (1 < fuel)%nat →
  let self' := (send_request tick request req id self).2 in
  let c1 := (UdpClientStream_poll (client_send buffer c)).2 in
  let p := (UdpClientStream_poll (client_hears reply (name_server c) c1)).1 in
  cf_sent self' = cf_sent self ++ [(req, id, buffer)] ∧
  us_sent (u_socket (udp_stream c1)) = us_sent (u_socket (udp_stream c)) ++ [(buffer, name_server c)] ∧
  (∃ u', serve fuel m u catalog = Some (Ok Waiting, (u', catalog')) ∧
    us_sent (u_socket u') = us_sent (u_socket u) ++ [(reply, addr)]) ∧
  p = Ready (Some (take (Z.to_nat 2048) reply)) ∧
  (Z.of_nat (length reply) ≤ 2048 →
   (req, Ok (message_norm response)) ∈ cf_completed (ClientFuture_poll tick' (set_stream self' [event_of p])).2).
Proof.
  intros Hsg Hid Hq Ht Hk Hc Hm Hb Hl Hh Hrm Hv Hcr Hr Hn Hf. cbv zeta.
  assert (Hread : Message_from_vec buffer = Ok (message_norm (Message_id request id))) by (by apply message_written_read).
  assert (Hreply : Message_from_vec reply = Ok (message_norm response)) by (by apply message_written_read).
  rewrite (send_request_unsigned _ _ _ _ _ _ Hsg Ht Hk Hb). destruct (client_send_poll c buffer Hcr) as (_ & Hq1 & Hi1 & Hs1).
  rewrite (client_hears_poll _ reply (name_server c) Hq1 Hi1). cbn [snd event_of]. split_and!; [done|exact Hs1| |done|].
  - apply (serve_udp fuel m u [(buffer, addr)] n); [done..|by repeat constructor|].
    cbn [udp_answers]. rewrite Hread. unfold bind, lift. by rewrite Hh, Hv.
  - intros Hl'. rewrite take_ge by lia.
    eapply (poll_first_reply tick' _ reply [] _ _ (t_now tick + cf_timeout_duration self)); simpl; try done.
    apply handle_request_id in Hh. simpl in Hh. rewrite Hh. apply lookup_insert_eq.
Qed.

(** ** What stops a UDP server *)

(** A query whose name points to itself. *)
Definition endless_query : bytes := [0; 1; 0; 0; 0; 1; 0; 0; 0; 0; 0; 0; 192; 12; 0; 1; 0; 1].

(** A UDP server serves all clients through one loop, and any of them can end it: after a
    reply the socket refuses to send the loop ends with that error and the socket is not read
    again, and a datagram of 18 bytes, whose only name is a pointer to itself, keeps it in the decoder
    for ever.  What other clients have sent is not answered. *)
Theorem udp_server_stopped fuel m catalog (message : bytes * SocketAddr) queue out sent rest (addr : SocketAddr) :
  let refused := mkUdp (mkUdpSocket (Writable Streams.Failed :: out) sent rest) (message :: queue) in
  let hostile := mkUdp (mkUdpSocket out sent (Datagram endless_query addr :: rest)) [] in
  (∃ u', serve (S fuel) m refused catalog = Some (Ok (Ended SocketError), (u', catalog)) ∧ us_in (u_socket u') = rest) ∧
  (∃ u', serve (S fuel) m hostile catalog = Some (Diverge, (u', catalog)) ∧ us_in (u_socket u') = rest).
Proof.
  split; eexists; by split.
Qed.
End props.

(** ** Instances *)

Section instances.
#[local] Existing Instance ascii_lowercase.
#[local] Existing Instance list_hash_order.
#[local] Existing Instance toy_crypto.
#[local] Existing Instance list_sqlite.
#[local] Existing Instance fixed_clock.
#[local] Existing Instance counting_rng.

Definition ex_moment : Moment := mkMoment 0 true false.

(** The bytes of a question to the zone of the examples, with id 11, and of its answer. *)
Definition ex_datagram : bytes := match Message_to_vec (Message_id ex_question 11) with Ok b => b | _ => [] end.
Definition ex_response : Message :=
  match (Catalog_handle_request (E:=io_error) (message_norm (Message_id ex_question 11)) ex_catalog).1 with
  | Ok m => m | _ => Message_new end.
Definition ex_reply : bytes := match Message_to_vec ex_response with Ok b => b | _ => [] end.

(** A server that has something that is no message, and the question, to read. *)
Definition ex_server (ds : list (bytes * nat)) : UdpStream nat :=
  mkUdp (mkUdpSocket (replicate 2 (Writable (Done ()))) [] (datagrams ds)) [].

Lemma udp_server_refines_witness :
  ∃ u', serve 3 ex_moment (ex_server [([1; 2; 3], 7%nat); (ex_datagram, 8%nat)]) ex_catalog =
      Some (Ok Waiting, (u', ex_catalog)) ∧ us_sent (u_socket u') = [(ex_reply, 8%nat)].
Proof.
  pose proof (udp_server_refines 3 ex_moment (ex_server [([1; 2; 3], 7%nat); (ex_datagram, 8%nat)]) ex_catalog eq_refl) as H.
  destruct (udp_run _ _ ex_catalog) as [[out r] c']. destruct H as [(u' & Hs & Hu) H]; [simpl; lia|].
  destruct (H [([1; 2; 3], 7%nat); (ex_datagram, 8%nat)] 2%nat [(ex_reply, 8%nat)] ex_catalog) as (-> & -> & ->).
  - by split.
  - simpl. lia.
  - repeat constructor; vm_compute; discriminate.
  - vm_compute. reflexivity.
  - exists u'. split; [exact Hs|exact Hu].
Defined.

Lemma ex_zone_ok : name_ok ex_zone.
Proof. by_decision. Qed.

Lemma ex_question_ok : message_ok (Message_id ex_question 11).
Proof. by_decision. Qed.

Lemma ex_response_ok : message_ok ex_response.
Proof. by_decision. Qed.

(** A client with nothing in flight asks the question. *)
Definition ex_client : ClientFuture := ClientFuture_new [] None.

(** Its stream, to the name server 53. *)
Definition ex_client_stream : UdpClientStream (SocketAddr:=nat) :=
  mkUdpClient 53%nat (UdpStream_with_bound (mkUdpSocket [Writable (Done ())] [] [])).

Lemma udp_request_answered_witness :
  ∃ u', serve 2 ex_moment (ex_server [(ex_datagram, 8%nat)]) ex_catalog = Some (Ok Waiting, (u', ex_catalog)) ∧
    (5%nat, Ok (message_norm ex_response)) ∈
      cf_completed (ClientFuture_poll (tick_at 40)
        (set_stream (send_request (tick_at 0) ex_question 5 11 ex_client).2 [Buffer ex_reply])).2.
Proof.
  destruct (udp_request_answered (tick_at 0) (tick_at 40) ex_client ex_question 5%nat 11 ex_datagram ex_client_stream
    8%nat ex_moment (ex_server [(ex_datagram, 8%nat)]) 2 ex_catalog ex_response ex_catalog 2 ex_reply)
    as (_ & _ & (u' & Hs & _) & Hp & Hc);
    try (exact ex_question_ok); try (exact ex_response_ok); try (vm_compute; reflexivity); try lia; try (by split).
  - by left.
  - vm_compute. discriminate.
  - split; [done..|by eexists].
  - exists u'. split; [exact Hs|]. rewrite Hp in Hc. cbn [event_of] in Hc. rewrite take_ge in Hc by (apply Nat.leb_le; reflexivity).
    apply Hc. vm_compute. discriminate.
Defined.

(** A connection with half a message, at and after its deadline. *)
Definition ex_half (deadline : Z) : TimeoutStream (TcpStream (SocketAddr:=nat)) :=
  mkTimeoutStream (TcpStream_from_stream_with_receiver (mkSocket [] [] [Chunk [0; 9; 1]]) 7%nat []) 5000 (Some deadline).

Lemma TimeoutStream_poll_spec_witness :
  ∃ t', TimeoutStream_poll (mkMoment 6000 true false) (ex_half 5000) = Some (PollErr TimedOut, t').
Proof.
  destruct (TimeoutStream_poll_spec (mkMoment 6000 true false) (ex_half 5000) NotReady
    (turn_stream (run_turns 4 read_turn (ts_stream (ex_half 5000))))) as (r & t' & Hp & _ & _ & _ & _ & Hd & _);
    [vm_compute; reflexivity|done|done|].
  rewrite (Hd eq_refl 5000 eq_refl) in Hp. by exists t'.
Defined.
End instances.
