(* ===== verification/Listener.v ===== *)
(** * Listener: TCP and TLS connections

    [ServerFuture::register_listener] and [register_tls_listener] of
    [server/src/server/server_future.rs]: a connection that is accepted becomes a [TcpStream] under a
    [TimeoutStream], and the loop of [Server.v] is spawned for it.

    The theorems compose the transport, the timeout, the decoding of requests, the
    catalog and the encoding of responses: what a client reads from a connection are
    the frames of the answers to the messages it wrote, in order. *)

From S2P Require Import Prelude Codec Wire Domain Enums Header RData RDataProps Resource Message.
From S2P Require Import RecordSet KeyPair Signer Update BTree Journal Authority AuthorityProps ZoneSecurity ZoneInstances.
From S2P Require Import Catalog CatalogProps Streams Tcp Udp ClientHandle ClientFuture Server.

Open Scope Z_scope.

(** ** Accepting *)

Section listener.
Context {SocketAddr : Type} `{EqDecision SocketAddr}.

Abbreviation connection := (TimeoutStream (TcpStream (SocketAddr:=SocketAddr))).

(** [TcpStream::from_stream], whose receiver is a new channel. *)
Definition TcpStream_from_stream (stream : Socket) (peer : SocketAddr) : TcpStream :=
  TcpStream_from_stream_with_receiver stream peer [].

(** What [listener.incoming()] yields. *)
Inductive incoming_event : Type :=
  | Accepted (m : Moment) (tcp_stream : Socket) (src_addr : SocketAddr)
  | AcceptError.

(** What becomes of the handshake of [accept_async]: the plain stream under TLS, nothing yet, or
    an error. *)
Inductive handshake : Type := Secured (m : Moment) (tls_stream : Socket) | Shaking | Refused.

Inductive tls_event : Type :=
  | TlsAccepted (h : handshake) (src_addr : SocketAddr)
  | TlsAcceptError.

(** A listener waits for the next connection or for the one it is at, or its future has ended. *)
Inductive listening : Type := Listening | Stopped.

(** The closure of [for_each]: the future to spawn, or the error that ends the listener. *)
Definition new_connection (timeout : Z) (m : Moment) (stream : Socket) (src_addr : SocketAddr) : option connection :=
  TimeoutStream_new m (TcpStream_from_stream stream src_addr) timeout.

Fixpoint listen_tcp (timeout : Z) (events : list incoming_event) : list connection * listening :=
  match events with
  | [] => ([], Listening)
  | AcceptError :: _ => ([], Stopped)
  | Accepted m tcp_stream src_addr :: events =>
      match new_connection timeout m tcp_stream src_addr with
      | None => ([], Stopped)
      | Some c => let '(cs, l) := listen_tcp timeout events in (c :: cs, l)
      end
  end.

(** Here the closure's future holds the handshake, and [for_each] takes the next connection only
    when it has ended. *)
Fixpoint listen_tls (timeout : Z) (events : list tls_event) : list connection * listening :=
  match events with
  | [] => ([], Listening)
  | TlsAcceptError :: _ | TlsAccepted Refused _ :: _ => ([], Stopped)
  | TlsAccepted Shaking _ :: _ => ([], Listening)
  | TlsAccepted (Secured m tls_stream) src_addr :: events =>
      match new_connection timeout m tls_stream src_addr with
      | None => ([], Stopped)
      | Some c => let '(cs, l) := listen_tls timeout events in (c :: cs, l)
      end
  end.
End listener.
Arguments incoming_event : clear implicits.
Arguments tls_event : clear implicits.

(** ** Serving a connection *)

Section connections.
Context {SocketAddr : Type} `{EqDecision SocketAddr}.
Context `{L : Lowercase} `{HO : HashOrder} `{C : Crypto} `{SQ : Sqlite} `{CK : Clock}.
Abbreviation connection := (TimeoutStream (TcpStream (SocketAddr:=SocketAddr))).
Implicit Types t : connection.

(** The messages of one peer. *)
Definition from_peer (peer : SocketAddr) (bs : list bytes) : list (bytes * SocketAddr) := addressed peer bs.

(** The frames of replies. *)
Definition reply_frames (out : list (bytes * SocketAddr)) : bytes := concat ((frame ∘ fst) <$> out).

(** What a piece of the loop that yielded the messages [bs] did to a connection that queued [out]. *)
Record moved t (bs : list bytes) (out : list (bytes * SocketAddr)) t' : Prop := {
  mv_ok : stream_ok (ts_stream t');
  mv_in : incoming (ts_stream t) = concat (frame <$> bs) ++ incoming (ts_stream t');
  mv_out : outgoing (ts_stream t') = outgoing (ts_stream t) ++ reply_frames out;
  mv_fit : Forall message_fits bs;
  mv_peer : peer_addr (ts_stream t') = peer_addr (ts_stream t);
}.

Lemma moved_refl t : stream_ok (ts_stream t) → moved t [] [] t.
Proof. by split; [|..|rewrite app_nil_r| |]. Qed.

Lemma moved_trans t bs out t1 bs' out' t2 :
  moved t bs out t1 → moved t1 bs' out' t2 → moved t (bs ++ bs') (out ++ out') t2.
Proof.
  intros [_ I O F P] [K I' O' F' P']. split; [done| | |by apply Forall_app|congruence].
  - by rewrite I, I', fmap_app, concat_app, app_assoc.
  - unfold reply_frames in *. by rewrite O', O, fmap_app, concat_app, app_assoc.
Qed.

(** A poll under the timeout. *)
Lemma connection_poll m t : stream_ok (ts_stream t) → timer_new m = true →
  ∃ r t', TimeoutStream_poll m t = Some (r, t') ∧ moved t (delivered r) [] t' ∧
    (∀ b a, r = Ready (Some (b, a)) → a = peer_addr (ts_stream t)).
Proof.
  intros Hok Hn. destruct (TcpStream_poll_spec _ Hok) as (r & s' & Hp & Hok' & Ho & Hi & Hf & Hpe & Ha).
  unfold TimeoutStream_poll. cbn [stream_poll TcpStream_stream]. rewrite Hp. cbn [mbind option_bind].
  assert (Hmv : ∀ d dl, moved t (delivered r) [] (mkTimeoutStream s' d dl)).
  { intros. split; simpl; [done|done|by rewrite Ho, app_nil_r|done|done]. }
  assert (Hnone : r = NotReady → ∀ e d dl, moved t (delivered (SocketAddr:=SocketAddr) (PollErr e)) [] (mkTimeoutStream s' d dl)).
  { intros -> e d dl. apply Hmv. }
  unfold TimeoutStream_timeout. rewrite Hn.
  destruct r as [item| |e]; [destruct (0 <? _); by eexists _, _| |destruct (0 <? _); by eexists _, _].
  simpl. repeat case_match; by eexists _, _.
Qed.

Lemma answers_skip peer bs ds c :
  Forall (λ b, ∃ e, Message_from_vec b = Err e) bs →
  udp_answers (from_peer peer bs ++ ds) c = udp_answers (SocketAddr:=SocketAddr) ds c.
Proof. induction 1 as [|b bs [e He] _ IH]; [done|]. cbn [udp_answers from_peer addressed fmap list_fmap app]. rewrite He. apply IH. Qed.

(** The next request of a connection: what comes before it does not decode. *)
Lemma request_poll_connection fuel m t r t' : stream_ok (ts_stream t) → timer_new m = true →
  RequestStream_poll fuel m t = Some (Ok r, t') →
  ∃ bad bs, Forall (λ b, ∃ e, Message_from_vec b = Err e) bad ∧ moved t (bad ++ bs) [] t' ∧
    match r with
    | Ready (Some request) => ∃ b, bs = [b] ∧ Message_from_vec b = Ok (message request) ∧ src request = peer_addr (ts_stream t)
    | _ => bs = []
    end.
Proof.
  intros Hok Hn. revert t Hok. induction fuel as [|fuel IH]; intros t Hok; [done|].
  destruct (connection_poll m t Hok Hn) as (p & t1 & Hp & Hm & Ha).
  cbn [RequestStream_poll stream_poll TimeoutStream_stream]. rewrite Hp. cbn [mbind option_bind].
  destruct p as [[[b a]|]| |e]; try (intros [= <- <-]; exists [], []; by split_and!).
  change ((Message_read (BinDecoder_new b)).1) with (Message_from_vec b).
  destruct (Message_from_vec b) as [request|e| |] eqn:Eb; try done.
  - intros [= <- <-]. exists [], [b]. split; [constructor|]. split; [exact Hm|]. exists b. split_and!; [done|done|]. by apply (Ha b).
  - intros (bad & bs & Hbad & Hm' & Hr)%IH; [|by apply Hm]. exists (b :: bad), bs. split; [by constructor; [exists e|]|].
    split; [exact (moved_trans _ _ _ _ _ _ _ Hm Hm')|]. rewrite (mv_peer _ _ _ _ Hm) in Hr. done.
Qed.

(** A handler answers or panics: it has no errors of its own. *)
Lemma lookup_queries_no_error {E} c request qs m (e : E) : lookup_queries c request qs m ≠ Err e.
Proof.
  revert m. induction qs as [|q qs IH]; intros m; cbn [lookup_queries]; [done|].
  destruct (Catalog_find_auth_recurse c (q_name q)) as [[n lock]|]; [|apply IH].
  unfold RwLock_read. destruct (l_poisoned lock); [done|]. apply IH.
Qed.

Lemma handle_request_no_error {E} request c (e : E) c' : Catalog_handle_request request c ≠ (Err e, c').
Proof.
  assert (Hd : ∀ c1, dispatch_request request c ≠ (Err e, c1)).
  { intros c1. unfold dispatch_request. destruct (h_message_type (m_header request)); [|done].
    destruct (h_op_code (m_header request)); try done.
    - intros [= H _]. by apply lookup_queries_no_error in H.
    - unfold Catalog_update. intros H. repeat case_match; simplify_eq. }
  unfold Catalog_handle_request, bind. destruct (m_edns request) as [edns|]; [destruct (0 <? _); [done|]|];
    destruct (dispatch_request request c) as [[] c1]; try done; intros [= -> ->]; by destruct (Hd c').
Qed.

(** A poll of the loop for a connection: the messages read are answered in order.  An answer that
    cannot be written ends the loop, and is left out here. *)
Lemma serve_connection fuel m t c r t' c' : stream_ok (ts_stream t) → timer_new m = true →
  serve fuel m t c = Some (Ok r, (t', c')) → r ≠ Ended IoOther →
  ∃ bs out, moved t bs out t' ∧ udp_answers (from_peer (peer_addr (ts_stream t)) bs) c = (Ok out, c').
Proof.
  intros Hok Hn. revert t c Hok. induction fuel as [|fuel IH]; intros t c Hok; [done|].
  cbn [serve]. destruct (RequestStream_poll (S fuel) m t) as [[q t1]|] eqn:Eq; [|done].
  cbn [mbind option_bind]. intros Hs Hr.
  destruct q as [q|[]| |]; [|done..].
  destruct (request_poll_connection (S fuel) m t q t1 Hok Hn Eq) as (bad & bs & Hbad & Hm & Hq).
  assert (Hskip : ∀ ds, udp_answers (from_peer (peer_addr (ts_stream t)) bad ++ ds) c = udp_answers ds c)
    by (intros; by apply answers_skip).
  assert (Hdone : bs = [] → c' = c → t' = t1 → ∃ bs out, moved t bs out t' ∧
    udp_answers (from_peer (peer_addr (ts_stream t)) bs) c = (Ok out, c')).
  { intros -> -> ->. exists bad, []. rewrite app_nil_r in Hm. split; [done|]. rewrite <-(app_nil_r (from_peer _ _)). apply Hskip. }
  destruct q as [[request|]| |e]; try (simplify_eq; by apply Hdone).
  destruct Hq as (b & -> & Hb & Hsrc). revert Hs. unfold ServerFuture_handle_request.
  destruct (Catalog_handle_request (message request) c) as [[response|e| |] c1] eqn:Eh; try (by intros; simplify_eq).
  2:{ intros; simplify_eq. exfalso. by eapply handle_request_no_error. }
  destruct (ResponseHandle_send (src request) response t1) as [rs t2] eqn:Er.
  revert Er. unfold ResponseHandle_send. destruct (Message_emit response (BinEncoder_new [])) as [[[]|e| |] enc] eqn:Ee;
    intros [= <- <-]; try done; try (intros [= <- <- <-]; by destruct Hr).
  intros Hs. set (t2 := stream_send (ebuf enc, src request) t1) in *.
  assert (Hm2 : moved t (bad ++ [b]) [(ebuf enc, src request)] t2).
  { rewrite <-(app_nil_r (bad ++ [b])), <-(app_nil_l [(ebuf enc, _)]). eapply moved_trans; [exact Hm|].
    destruct Hm as [[K1 K2 K3] _ _ _ P]. split; simpl; [|done| |constructor|done].
    - split; [|done..]. apply Forall_app. split; [done|]. apply Forall_singleton. simpl. congruence.
    - unfold outgoing, reply_frames. simpl. by rewrite fmap_app, concat_app, !app_assoc. }
  destruct (IH t2 c1) as (bs & out & Hm' & Ha); [apply Hm2|done|done|].
  exists ((bad ++ [b]) ++ bs), ((ebuf enc, src request) :: out). split; [exact (moved_trans _ _ _ _ _ _ _ Hm2 Hm')|].
  unfold from_peer, addressed. rewrite <-app_assoc, fmap_app. unfold from_peer, addressed in Hskip. rewrite Hskip.
  cbn [udp_answers fmap list_fmap app]. rewrite Hb. unfold bind. rewrite Eh. unfold Message_to_vec. rewrite Ee. unfold lift.
  rewrite (mv_peer _ _ _ _ Hm2) in Ha. unfold from_peer, addressed in Ha. simpl in Ha. rewrite Ha. by rewrite Hsrc.
Qed.
(** *** Termination *)

Lemma frame_length b : (length b < length (frame b))%nat.
Proof. unfold frame. rewrite length_app. simpl. lia. Qed.

Lemma moved_shrinks t b bs out t' : moved t (b :: bs) out t' →
  (length (incoming (ts_stream t')) < length (incoming (ts_stream t)))%nat.
Proof.
  intros [_ I _ _ _]. rewrite I, fmap_cons. cbn [concat]. rewrite !length_app. pose proof (frame_length b). lia.
Qed.

Lemma request_poll_ends fuel m t : stream_ok (ts_stream t) → timer_new m = true →
  (length (incoming (ts_stream t)) < fuel)%nat → is_Some (RequestStream_poll fuel m t).
Proof.
  intros Hok Hn. revert t Hok. induction fuel as [|fuel IH]; intros t Hok Hf; [lia|].
  destruct (connection_poll m t Hok Hn) as (p & t1 & Hp & Hm & _).
  cbn [RequestStream_poll stream_poll TimeoutStream_stream]. rewrite Hp. cbn [mbind option_bind].
  destruct p as [[[b a]|]| |e]; try (by eexists).
  destruct ((Message_read (BinDecoder_new b)).1); try (by eexists).
  apply IH; [apply Hm|]. apply moved_shrinks in Hm. lia.
Qed.

Lemma serve_ends fuel m t c : stream_ok (ts_stream t) → timer_new m = true →
  (length (incoming (ts_stream t)) < fuel)%nat → is_Some (serve fuel m t c).
Proof.
  intros Hok Hn. revert t c Hok. induction fuel as [|fuel IH]; intros t c Hok Hf; [lia|].
  cbn [serve]. destruct (request_poll_ends (S fuel) m t Hok Hn Hf) as [[q t1] Eq]. rewrite Eq. cbn [mbind option_bind].
  destruct q as [q|[]| |]; [|by eexists..].
  destruct (request_poll_connection (S fuel) m t q t1 Hok Hn Eq) as (bad & bs & _ & Hm & Hq).
  destruct q as [[request|]| |e]; try (by eexists).
  destruct Hq as (b & -> & _ & Hsrc). unfold ServerFuture_handle_request.
  destruct (Catalog_handle_request (message request) c) as [[response|e| |] c1]; try (by eexists).
  unfold ResponseHandle_send. destruct (Message_emit response (BinEncoder_new [])) as [[[]|e| |] enc]; try (by eexists).
  assert (Hlt : (length (incoming (ts_stream t1)) < length (incoming (ts_stream t)))%nat).
  { destruct bad; simpl in Hm; by apply moved_shrinks in Hm. }
  apply IH.
  - destruct Hm as [[K1 K2 K3] _ _ _ P]. split; simpl; [|done..]. apply Forall_app. split; [done|].
    apply Forall_singleton. simpl. congruence.
  - change (incoming (ts_stream (stream_send (ebuf enc, src request) t1))) with (incoming (ts_stream t1)). lia.
Qed.

(** ** The life of a connection *)

(** Polls of the loop at any moments, until it ends or the observation does; a loop that ends because a
    response cannot be encoded is the case that is left out. *)
Inductive serves : connection → Catalog → connection → Catalog → Prop :=
  | serves_refl t c : serves t c t c
  | serves_wait fuel m t c t1 c1 t2 c2 :
      timer_new m = true → serve fuel m t c = Some (Ok Waiting, (t1, c1)) → serves t1 c1 t2 c2 → serves t c t2 c2
  | serves_end fuel m t c r t1 c1 :
      timer_new m = true → serve fuel m t c = Some (Ok r, (t1, c1)) → r ≠ Ended IoOther → serves t c t1 c1.

Lemma answers_app ds ds' c out c1 :
  udp_answers (SocketAddr:=SocketAddr) ds c = (Ok out, c1) →
  udp_answers (ds ++ ds') c =
    match udp_answers ds' c1 with
    | (Ok out', c2) => (Ok (out ++ out'), c2)
    | r => r
    end.
Proof.
  revert c out. induction ds as [|[b src] ds IH]; intros c out; cbn [udp_answers app].
  - intros [= <- <-]. by destruct (udp_answers ds' c) as [[] c2].
  - destruct (Message_from_vec b); try done; [|apply IH].
    intros (response & c2 & Hh & Ha)%bind_Ok_inv. apply bind_Ok_inv in Ha as (reply & c3 & Hv & Ha).
    apply bind_Ok_inv in Ha as (replies & c4 & Ha & [= <- <-]). unfold bind. rewrite Hh, Hv, (IH _ _ Ha).
    by destruct (udp_answers ds' c4) as [[] c5].
Qed.

Lemma serves_spec t c t' c' : serves t c t' c' → stream_ok (ts_stream t) →
  ∃ bs out, moved t bs out t' ∧ udp_answers (from_peer (peer_addr (ts_stream t)) bs) c = (Ok out, c').
Proof.
  induction 1 as [t c|fuel m t c t1 c1 t2 c2 Hn Hs _ IH|fuel m t c r t1 c1 Hn Hs Hr]; intros Hok.
  - exists [], []. split; [by apply moved_refl|done].
  - destruct (serve_connection _ _ _ _ _ _ _ Hok Hn Hs ltac:(done)) as (bs & out & Hm & Ha).
    destruct (IH (mv_ok _ _ _ _ Hm)) as (bs' & out' & Hm' & Ha'). exists (bs ++ bs'), (out ++ out').
    split; [by eapply moved_trans|]. unfold from_peer, addressed in *. rewrite fmap_app, (answers_app _ _ _ _ _ Ha).
    rewrite (mv_peer _ _ _ _ Hm) in Ha'. by rewrite Ha'.
  - by eapply serve_connection.
Qed.

Lemma fresh_connection timeout m sock peer t : new_connection timeout m sock peer = Some t → Forall u8 (input_bytes sock) →
  stream_ok (ts_stream t) ∧ incoming (ts_stream t) = input_bytes sock ∧ outgoing (ts_stream t) = so_written sock ∧
  peer_addr (ts_stream t) = peer.
Proof.
  unfold new_connection, TimeoutStream_new. destruct (TimeoutStream_timeout m timeout) as [d|]; [|done].
  intros [= <-] Hu. simpl. split; [by apply (fresh_stream_ok sock peer [])|]. split; [done|]. split; [|done].
  unfold outgoing. simpl. by rewrite app_nil_r.
Qed.


(** A poll of the loop ends, whatever the connection holds: the number of bytes that have
    arrived bounds its turns. *)
Theorem tcp_server_poll_ends fuel m t c :
  stream_ok (ts_stream t) → timer_new m = true → (length (incoming (ts_stream t)) < fuel)%nat →
  ∃ r t' c', serve fuel m t c = Some (r, (t', c')).
Proof. intros Hok Hn Hf. destruct (serve_ends fuel m t c Hok Hn Hf) as [[r [t' c']] H]. by exists r, t', c'. Qed.

(** ** What stops a listener *)

Lemma new_connection_some timeout m s (a : SocketAddr) : timer_new m = true → is_Some (new_connection timeout m s a).
Proof.
  intros Hn. unfold new_connection, TimeoutStream_new, TimeoutStream_timeout. rewrite Hn. case_match; by eexists.
Qed.

(** A TCP listener makes one loop of each connection it accepts, and nothing a client sends ends it. *)
Lemma listen_tcp_all timeout conns :
  Forall (λ x : Moment * Socket * SocketAddr, timer_new x.1.1 = true) conns →
  ∃ cs, listen_tcp timeout ((λ '(m, s, a), Accepted m s a) <$> conns) = (cs, Listening) ∧
    Forall2 (λ '(m, s, a) t, new_connection timeout m s a = Some t) conns cs.
Proof.
  induction 1 as [|[[m s] a] conns Hn _ (cs & Hl & Hf)]; [by exists []|].
  rewrite fmap_cons. cbn [fst snd app listen_tcp listen_tls length] in *.
  destruct (new_connection_some timeout m s a Hn) as [t Ht].
  exists (t :: cs). rewrite Ht, Hl. split; [done|]. by constructor.
Qed.

(** A client can stop the TLS listener.  The error of a handshake ends the listener's
    future, so after one that fails no connection is accepted again; and while one has not
    ended, all later connections wait for it, with no timeout.  The connections accepted before
    are not touched. *)
Theorem tls_listener_stopped timeout (conns : list (Moment * Socket * SocketAddr)) (src : SocketAddr) rest rest' :
  Forall (λ x, timer_new x.1.1 = true) conns →
  let before := (λ '(m, s, a), TlsAccepted (Secured m s) a) <$> conns in
  ∃ cs, length cs = length conns ∧
    listen_tls timeout (before ++ TlsAccepted Refused src :: rest) = (cs, Stopped) ∧
    listen_tls timeout (before ++ TlsAccepted Shaking src :: rest') = (cs, Listening).
Proof.
  intros H before. subst before. induction H as [|[[m s] a] conns Hn _ (cs & Hl & Hr & Hs)]; [by exists []|].
  rewrite fmap_cons. cbn [fst snd app listen_tcp listen_tls length] in *.
  destruct (new_connection_some timeout m s a Hn) as [t Ht].
  exists (t :: cs). rewrite Ht, Hr, Hs. simpl. by rewrite Hl.
Qed.
End connections.

(** ** Instances *)

Section instances.
#[local] Existing Instance ascii_lowercase.
#[local] Existing Instance list_hash_order.
#[local] Existing Instance toy_crypto.
#[local] Existing Instance list_sqlite.
#[local] Existing Instance fixed_clock.

(** The question of the examples, in two pieces, the second after a pause. *)
Definition ex_socket : Socket :=
  mkSocket (replicate 3 (Accept 999)) []
    [Chunk (take 5 (frame ex_datagram)); WouldBlockR; Chunk (drop 5 (frame ex_datagram))].

Definition ex_connection : TimeoutStream (TcpStream (SocketAddr:=nat)) :=
  mkTimeoutStream (TcpStream_from_stream ex_socket 8%nat) 5000 (Some 5000).

(** The connection after a number of polls of its loop. *)
Fixpoint ex_served (n : nat) : TimeoutStream (TcpStream (SocketAddr:=nat)) :=
  match n with
  | O => ex_connection
  | S n => match serve 99 ex_moment (ex_served n) ex_catalog with Some (_, (t, _)) => t | None => ex_connection end
  end.

Lemma ex_serves : serves ex_connection ex_catalog (ex_served 2) ex_catalog.
Proof.
  eapply (serves_wait 99 ex_moment _ _ (ex_served 1) ex_catalog); [done|vm_compute; reflexivity|].
  eapply (serves_wait 99 ex_moment _ _ (ex_served 2) ex_catalog); [done|vm_compute; reflexivity|]. apply serves_refl.
Qed.

Lemma ex_datagram_fits : message_fits ex_datagram ∧ Forall u8 ex_datagram.
Proof. split; [by vm_compute|]. vm_compute. repeat constructor; discriminate. Qed.


Lemma tcp_server_poll_ends_witness :
  ∃ r t' c', serve 99 ex_moment ex_connection ex_catalog = Some (r, (t', c')).
Proof.
  apply (tcp_server_poll_ends 99 ex_moment ex_connection ex_catalog); [|done|vm_compute; lia].
  apply (fresh_stream_ok ex_socket 8%nat []). vm_compute. repeat constructor; discriminate.
Defined.

(** One client is served, the second fails its handshake, and the third is not heard. *)
Lemma tls_listener_stopped_witness :
  ∃ t, listen_tls 5000 [TlsAccepted (Secured ex_moment ex_socket) 8%nat; TlsAccepted Refused 9%nat;
                        TlsAccepted (Secured ex_moment ex_socket) 10%nat] = ([t], Stopped).
Proof.
  destruct (tls_listener_stopped 5000 [(ex_moment, ex_socket, 8%nat)] 9%nat
    [TlsAccepted (Secured ex_moment ex_socket) 10%nat] []) as ([|t [|]] & Hl & Hs & _);
    [apply Forall_singleton; reflexivity|discriminate| |discriminate].
  exists t. exact Hs.
Defined.
End instances.
