(* ===== verification/Schema.v ===== *)
(** * Schema: opening a journal

    The rest of [server/src/authority/persistence.rs]: a journal is opened on a
    connection, and its tables are made step by step until they have the current version.  The
    statements are the class [SqliteSchema]; [SchemaLaws] states what SQLite documents of them, the
    count [execute] reports included: it is the number of rows that the connection's last
    INSERT, UPDATE or DELETE has changed, which CREATE TABLE leaves alone. *)

From S2P Require Import Prelude Codec Wire Domain Enums RData RDataProps Resource RecordSet KeyPair Journal.

Open Scope Z_scope.

Class SqliteSchema `{Sqlite} := {
  (** [SELECT name FROM sqlite_master WHERE type='table' AND name='tdns_schema'] *)
  query_schema_table : Connection → option (option string);
  (** [SELECT version FROM tdns_schema], an error when there is no row *)
  query_version : Connection → option Z;
  (** [CREATE TABLE tdns_schema (..)] *)
  create_schema_table : Connection → option Z * Connection;
  (** [INSERT INTO tdns_schema (version) VALUES (0)] *)
  insert_version : Connection → option Z * Connection;
  (** [UPDATE tdns_schema SET version = $1] *)
  update_version : Z → Connection → option Z * Connection;
  (** [CREATE TABLE records (..)] *)
  create_records_table : Connection → option Z * Connection;
}.

Section schema.
Context `{SQ : Sqlite} `{SS : !SqliteSchema}.

(** [try!(self.conn.execute(..))] followed by an assertion on the count. *)
Definition execute (stmt : Connection → option Z * Connection) (expected : Z) :
    M Connection persistence_error () := λ conn,
  match stmt conn with
  | (None, conn) => (Err PersistenceSqlite, conn)
  | (Some count, conn) => (if count =? expected then Ok () else Panic, conn)
  end.

Definition Journal_select_schema_version (conn : Connection) : res persistence_error Z :=
  match query_schema_table conn with
  | None => Err PersistenceSqlite
  | Some None => Ok (-1)
  | Some (Some tdns_schema) =>
      if bool_decide (tdns_schema = "tdns_schema"%string) then
        match query_version conn with Some version => Ok version | None => Err PersistenceSqlite end
      else Panic
  end.

Definition Journal_new (conn : Connection) : res persistence_error Journal :=
  try* version := Journal_select_schema_version conn in Ok (mkJournal _ conn version).

Definition Journal_update_schema_version (new_version : Z) : M Connection persistence_error () :=
  assert_ (new_version <=? CURRENT_VERSION) ;;; execute (update_version new_version) 1.

Definition Journal_init_up : M Connection persistence_error Z :=
  execute create_schema_table 0 ;;; execute insert_version 1 ;;; ret 0.

Definition Journal_records_up : M Connection persistence_error Z :=
  execute create_records_table 1 ;;; ret 1.

(** A statement of [&self] methods, run on the connection of the journal. *)
Definition on_conn {A} (m : M Connection persistence_error A) : M Journal persistence_error A := λ self,
  let '(r, conn) := m (j_conn self) in (r, mkJournal _ conn (j_version self)).

Definition set_version (version : Z) : M Journal persistence_error () := λ self,
  (Ok (), mkJournal _ (j_conn self) version).

(** One turn of the loop. *)
Definition schema_step : M Journal persistence_error () := λ self,
  (let* version :=
     (if j_version self + 1 =? 0 then on_conn Journal_init_up
      else if j_version self + 1 =? 1 then on_conn Journal_records_up
      else panic) in
   set_version version ;;;
   on_conn (Journal_update_schema_version version)) self.

(** Every turn raises the version, from at least -1 to at most 1, or panics. *)
Fixpoint schema_loop (fuel : nat) : M Journal persistence_error () := λ self,
  if j_version self <? CURRENT_VERSION then
    match fuel with
    | O => (Diverge, self)
    | S fuel => (schema_step ;;; schema_loop fuel) self
    end
  else (Ok (), self).

Definition Journal_schema_up : M Journal persistence_error Z :=
  schema_loop 3 ;;; gets j_version.

(** [opened] is what [Connection::open] gives for the file. *)
Definition Journal_from_file (opened : option Connection) : res persistence_error Journal :=
  match opened with
  | None => Err PersistenceSqlite
  | Some conn =>
      try* journal := Journal_new conn in
      let '(r, journal) := Journal_schema_up journal in
      match r with Ok _ => Ok journal | Err _ => Panic | Panic => Panic | Diverge => Diverge end
  end.

(** ** What SQLite does *)

(** The rows of the table of versions, if there is one, whether there is the table of records, its rows, and the
    count of the connection, which is 0 for one that was just opened. *)
Class SchemaLaws := {
  db_schema : Connection → option (list Z);
  db_records : Connection → bool;
  db_rows : Connection → list bytes;
  db_changes : Connection → Z;
  query_schema_table_ok c : query_schema_table c = Some ((λ _, "tdns_schema"%string) <$> db_schema c);
  query_version_ok c : query_version c = (db_schema c ≫= head);
  create_schema_table_ok c : db_schema c = None → ∃ c',
    create_schema_table c = (Some (db_changes c), c') ∧ db_schema c' = Some [] ∧
    db_records c' = db_records c ∧ db_changes c' = db_changes c ∧ db_rows c' = db_rows c;
  insert_version_ok c rows : db_schema c = Some rows → ∃ c',
    insert_version c = (Some 1, c') ∧ db_schema c' = Some (rows ++ [0]) ∧ db_records c' = db_records c ∧
    db_changes c' = 1 ∧ db_rows c' = db_rows c;
  update_version_ok c rows v : db_schema c = Some rows → ∃ c',
    update_version v c = (Some (Z.of_nat (length rows)), c') ∧ db_schema c' = Some ((λ _, v) <$> rows) ∧
    db_records c' = db_records c ∧ db_changes c' = Z.of_nat (length rows) ∧ db_rows c' = db_rows c;
  create_records_table_ok c : db_records c = false → ∃ c',
    create_records_table c = (Some (db_changes c), c') ∧ db_schema c' = db_schema c ∧
    db_records c' = true ∧ db_changes c' = db_changes c ∧ db_rows c' = db_rows c;
  create_records_table_err c : db_records c = true → ∃ c', create_records_table c = (None, c');
}.

Context {SL : SchemaLaws}.

Lemma execute_ok stmt n c c' : stmt c = (Some n, c') → execute stmt n c = (Ok (), c').
Proof. unfold execute. intros ->. by rewrite Z.eqb_refl. Qed.

Lemma on_conn_eq {A} (m : M Connection persistence_error A) j r c :
  m (j_conn j) = (r, c) → on_conn m j = (r, mkJournal _ c (j_version j)).
Proof. unfold on_conn. by intros ->. Qed.

Lemma update_schema_version_ok c v v' : db_schema c = Some [v] → v' ≤ 1 → ∃ c',
  Journal_update_schema_version v' c = (Ok (), c') ∧ db_schema c' = Some [v'] ∧
  db_records c' = db_records c ∧ db_changes c' = 1 ∧ db_rows c' = db_rows c.
Proof.
  intros Hv Hle. destruct (update_version_ok c [v] v' Hv) as (c' & Hu & ?). exists c'. split; [|done].
  unfold Journal_update_schema_version, CURRENT_VERSION. rewrite (proj2 (Z.leb_le v' 1) Hle). by apply execute_ok.
Qed.

Lemma records_up_ok c : db_records c = false → db_changes c = 1 → ∃ c',
  Journal_records_up c = (Ok 1, c') ∧ db_schema c' = db_schema c ∧ db_records c' = true ∧ db_rows c' = db_rows c.
Proof.
  intros Hr Hc. destruct (create_records_table_ok c Hr) as (c' & H & V & R & _ & W). rewrite Hc in H.
  exists c'. split; [|done]. unfold Journal_records_up, bind. by rewrite (execute_ok _ _ _ _ H).
Qed.

Lemma init_up_ok c : db_schema c = None → db_changes c = 0 → ∃ c',
  Journal_init_up c = (Ok 0, c') ∧ db_schema c' = Some [0] ∧ db_records c' = db_records c ∧ db_rows c' = db_rows c.
Proof.
  intros Hv Hc. destruct (create_schema_table_ok c Hv) as (c1 & H1 & V1 & R1 & _ & W1). rewrite Hc in H1.
  destruct (insert_version_ok c1 [] V1) as (c2 & H2 & V2 & R2 & _ & W2).
  exists c2. split; [|split; [exact V2|split; congruence]]. unfold Journal_init_up, bind. by rewrite (execute_ok _ _ _ _ H1), (execute_ok _ _ _ _ H2).
Qed.

(** A turn of the loop whose statements succeed. *)
Lemma schema_step_ok c (up : M Connection persistence_error Z) v v' c1 c2 :
  schema_step (mkJournal _ c v) =
    (let* version := on_conn up in set_version version ;;; on_conn (Journal_update_schema_version version)) (mkJournal _ c v) →
  up c = (Ok v', c1) → Journal_update_schema_version v' c1 = (Ok (), c2) →
  schema_step (mkJournal _ c v) = (Ok (), mkJournal _ c2 v').
Proof.
  intros -> H1 H2. unfold bind. rewrite (on_conn_eq up (mkJournal _ c v) _ _ H1). unfold set_version. simpl.
  by rewrite (on_conn_eq _ (mkJournal _ c1 v') _ _ H2).
Qed.

(** The step to version 1, with the count of the statement before. *)
Lemma records_step c : db_schema c = Some [0] → db_records c = false → db_changes c = 1 → ∃ c',
  schema_step (mkJournal _ c 0) = (Ok (), mkJournal _ c' 1) ∧ db_schema c' = Some [1] ∧ db_records c' = true ∧
  db_rows c' = db_rows c.
Proof.
  intros Hv Hr Hc. destruct (records_up_ok c Hr Hc) as (c1 & H1 & V1 & R1 & W1). rewrite Hv in V1.
  destruct (update_schema_version_ok c1 0 1 V1) as (c2 & H2 & V2 & R2 & _ & W2); [done|].
  exists c2. split; [|split_and!; congruence]. by eapply schema_step_ok.
Qed.

(** The step to version 0 of a new database. *)
Lemma init_step c : db_schema c = None → db_changes c = 0 → db_records c = false → ∃ c',
  schema_step (mkJournal _ c (-1)) = (Ok (), mkJournal _ c' 0) ∧ db_schema c' = Some [0] ∧ db_records c' = false ∧
  db_changes c' = 1 ∧ db_rows c' = db_rows c.
Proof.
  intros Hv Hc Hr. destruct (init_up_ok c Hv Hc) as (c1 & H1 & V1 & R1 & W1). rewrite Hr in R1.
  destruct (update_schema_version_ok c1 0 0 V1) as (c2 & H2 & V2 & R2 & C2 & W2); [done|].
  exists c2. split; [|split_and!; congruence]. by eapply schema_step_ok.
Qed.

Lemma journal_from_file_ok conn :
  (db_schema conn = None ∧ db_changes conn = 0 ∧ db_records conn = false) ∨ db_schema conn = Some [1] →
  ∃ j, Journal_from_file (Some conn) = Ok j ∧ j_version j = CURRENT_VERSION ∧
    db_schema (j_conn j) = Some [1] ∧ db_rows (j_conn j) = db_rows conn ∧
    (db_schema conn = Some [1] → j_conn j = conn) ∧ (db_schema conn = None → db_records (j_conn j) = true).
Proof.
  unfold Journal_from_file, Journal_new, Journal_select_schema_version. rewrite query_schema_table_ok, query_version_ok.
  intros [(Hv & Hc & Hr)|Hv]; rewrite Hv; cbn [rbind fmap option_fmap option_map mbind option_bind head].
  - destruct (init_step conn Hv Hc Hr) as (c1 & H1 & V1 & R1 & C1 & W1).
    destruct (records_step c1 V1 R1 C1) as (c2 & H2 & V2 & R2 & W2).
    exists (mkJournal _ c2 1). split; [|split_and!; done || simpl; congruence].
    unfold Journal_schema_up, bind, gets. cbn [schema_loop].
    unfold CURRENT_VERSION. cbn [j_version Z.ltb Z.compare]. unfold bind. rewrite H1.
    cbn [j_version Z.ltb Z.compare]. rewrite H2. done.
  - exists (mkJournal _ conn 1). split; [done|]. done.
Qed.

(** A journal that is opened is ready: a new file is given both tables and the current
    version, and a complete one is left as it is; the records it holds stay. *)
Theorem Journal_from_file_ready conn :
  (db_schema conn = None ∧ db_changes conn = 0 ∧ db_records conn = false) ∨ db_schema conn = Some [1] →
  ∃ j, Journal_from_file (Some conn) = Ok j ∧ j_version j = CURRENT_VERSION ∧
    db_schema (j_conn j) = Some [1] ∧ db_rows (j_conn j) = db_rows conn ∧
    (db_schema conn = Some [1] → j_conn j = conn) ∧ (db_schema conn = None → db_records (j_conn j) = true).
Proof. apply journal_from_file_ok. Qed.

(** A journal whose creation was interrupted after the first step can never be opened again:
    the assertion on creating the second table counts on the row that the statement
    before it has changed, and on a new connection there is none. *)
Theorem Journal_from_file_interrupted conn :
  db_schema conn = Some [0] → db_records conn = false → db_changes conn = 0 →
  Journal_from_file (Some conn) = Panic.
Proof.
  intros Hv Hr Hc. destruct (create_records_table_ok conn Hr) as (c1 & H1 & _). rewrite Hc in H1.
  unfold Journal_from_file, Journal_new, Journal_select_schema_version. rewrite query_schema_table_ok, query_version_ok, Hv.
  cbn [fmap option_fmap option_map]. rewrite bool_decide_eq_true_2 by done. cbn [mbind option_bind head rbind].
  assert (Hs : (schema_step (mkJournal _ conn 0)).1 = Panic).
  { unfold schema_step, on_conn, Journal_records_up, execute, bind. cbn [j_version j_conn Z.add Z.eqb Pos.eqb].
    change (0 + 1 =? 0) with false. change (0 + 1 =? 1) with true. cbn [j_conn]. by rewrite H1. }
  assert (Hl : Journal_schema_up (mkJournal _ conn 0) = ((schema_step ;;; schema_loop 2) ;;; gets j_version) (mkJournal _ conn 0))
    by done.
  rewrite Hl. unfold bind. destruct (schema_step (mkJournal _ conn 0)) as [r j]. simpl in Hs. by subst.
Qed.
End schema.

(** ** An instance *)

(** A database: its table of versions, its table of records, and the count of the connection. *)
Definition toy_db : Type := option (list Z) * option (list bytes) * Z.

Definition schema_sqlite : Sqlite := {|
  Connection := toy_db;
  execute_insert c _ b := match c with (v, Some rows, _) => (Some 1, (v, Some (rows ++ [b]), 1)) | _ => (None, c) end;
  query_record c i := Some ((λ b, (Z.max 1 i, b)) <$> default [] c.1.2 !! Z.to_nat (Z.max 1 i - 1));
|}.

Definition schema_sqlite_laws : SqliteLaws (H:=schema_sqlite).
Proof.
  refine (@Build_SqliteLaws schema_sqlite (λ c : toy_db, default [] c.1.2) _ _ _).
  - intros [[v [r|]] n] s b k c'; intros [= <- <-]. done.
  - intros [[v [r|]] n] s b c'; intros [= <-]. done.
  - intros c i Hi. cbn. by rewrite Z.max_r by lia.
Defined.

Section instances.
#[local] Existing Instance schema_sqlite.

Definition toy_schema : SqliteSchema := {|
  query_schema_table c := Some ((λ _, "tdns_schema"%string) <$> c.1.1);
  query_version c := c.1.1 ≫= head;
  create_schema_table c :=
    match c with (None, r, n) => (Some n, (Some [], r, n)) | _ => (None, c) end : option Z * toy_db;
  insert_version c :=
    match c with (Some rows, r, _) => (Some 1, (Some (rows ++ [0]), r, 1)) | _ => (None, c) end : option Z * toy_db;
  update_version v c :=
    match c with
    | (Some rows, r, _) => (Some (Z.of_nat (length rows)), (Some ((λ _, v) <$> rows), r, Z.of_nat (length rows)))
    | _ => (None, c)
    end : option Z * toy_db;
  create_records_table c :=
    match c with (v, None, n) => (Some n, (v, Some [], n)) | _ => (None, c) end : option Z * toy_db;
|}.
#[local] Existing Instance toy_schema.

Definition toy_schema_laws : SchemaLaws.
Proof.
  refine (@Build_SchemaLaws schema_sqlite toy_schema (λ c : toy_db, c.1.1) (λ c : toy_db, bool_decide (is_Some c.1.2))
    (λ c : toy_db, default [] c.1.2) (λ c : toy_db, c.2) _ _ _ _ _ _ _).
  - done.
  - done.
  - intros [[[v|] r] n]; [done|]. intros _. by eexists.
  - intros [[[v|] r] n] rows; [|done]. intros [= ->]. by eexists.
  - intros [[[v|] r] n] rows v''; [|done]. intros [= ->]. by eexists.
  - intros [[v [r|]] n]; [done|]. intros _. by eexists.
  - intros [[v [r|]] n]; [|done]. intros _. by eexists.
Defined.
#[local] Existing Instance toy_schema_laws.

Definition new_db : toy_db := (None, None, 0).
Definition half_db : toy_db := (Some [0], None, 0).

Lemma Journal_from_file_ready_witness :
  ∃ j, Journal_from_file (SQ:=schema_sqlite) (SS:=toy_schema) (Some new_db) = Ok j ∧ j_version j = CURRENT_VERSION.
Proof.
  destruct (Journal_from_file_ready (SL:=toy_schema_laws) new_db) as (j & Hj & Hv & _); [by left|]. by exists j.
Defined.

Lemma Journal_from_file_interrupted_witness :
  Journal_from_file (SQ:=schema_sqlite) (SS:=toy_schema) (Some half_db) = Panic.
Proof. by apply (Journal_from_file_interrupted (SL:=toy_schema_laws) half_db). Defined.
End instances.
