(* ===== verification/Nsec3.v ===== *)
(** * Nsec3: hashed owner names

    [Nsec3HashAlgorithm::hash] of [client/src/rr/dnssec/nsec3.rs]: the iterated, salted
    hash of a name.  The digest is openssl's, a field of [Crypto]. *)

From S2P Require Import Prelude Codec Wire Domain Enums RData KeyPair.

Open Scope Z_scope.

Section nsec3.
Context `{C : Crypto}.

(** The hasher is created before the recursion; it can fail only with an error of the
    library, as the hashing can. *)
Fixpoint sha1_recursive_hash (salt bs : bytes) (iterations : nat) : res dnssec_error bytes :=
  try* digest_type := DigestType_to_openssl_digest DigestType.SHA1 in
  match iterations with
  | S iterations =>
      try* hash := sha1_recursive_hash salt bs iterations in
      ssl (openssl_hash digest_type (hash ++ salt))
  | O => ssl (openssl_hash digest_type (bs ++ salt))
  end.

Definition Nsec3HashAlgorithm_hash (self : Nsec3HashAlgorithm) (salt : bytes) (name : Name) (iterations : nat) :
    res dnssec_error bytes :=
  match self with
  | Nsec3HashAlgorithm.SHA1 =>
      match (BinEncoder_set_canonical_names true ;;; Name_emit name) (BinEncoder_new []) with
      | (Ok _, e) => sha1_recursive_hash salt (ebuf e) iterations
      | (Diverge, _) => Diverge
      | _ => Panic
      end
  end.

(** ** The wire form of a name without compression *)

Definition label_wire (l : label) : bytes := Z.of_nat (length l) :: l.
Definition name_wire (n : Name) : bytes := concat (label_wire <$> labels n) ++ [0].

(** An emitter that appends [bs] as long as the offset stays below 2^32. *)
Definition writes (m : X ()) (bs : bytes) : Prop := ∀ e,
  eoffset e + Z.of_nat (length bs) ≤ u32_max →
  m e = (Ok (), mk_encoder (eoffset e + Z.of_nat (length bs)) (ebuf e ++ bs) (name_pointers e) (emode e)
                  (canonical_names e)).

Lemma writes_emit b : writes (BinEncoder_emit b) [b].
Proof. intros e He. unfold BinEncoder_emit. simpl in *. by rewrite (proj2 (Z.leb_le (eoffset e + 1) _) He). Qed.

Lemma writes_nil : writes (ret ()) [].
Proof. intros e _. unfold ret. simpl. rewrite Z.add_0_r, app_nil_r. by destruct e. Qed.

Lemma writes_app m1 m2 bs1 bs2 : writes m1 bs1 → writes m2 bs2 → writes (m1 ;;; m2) (bs1 ++ bs2).
Proof.
  intros H1 H2 e He. rewrite length_app in *. unfold bind. rewrite H1 by lia. rewrite H2 by (simpl; lia). simpl.
  rewrite <-app_assoc. rewrite Nat2Z.inj_add, Z.add_assoc. done.
Qed.

Lemma writes_for_each {A} (f : A → X ()) (g : A → bytes) xs :
  Forall (λ x, writes (f x) (g x)) xs → writes (for_each f xs) (concat (g <$> xs)).
Proof. induction 1; simpl; [apply writes_nil|by apply writes_app]. Qed.

Lemma writes_bytes bs : writes (for_each BinEncoder_emit bs) bs.
Proof.
  induction bs as [|b bs IHb]; [apply writes_nil|]. apply (writes_app _ _ [b] bs); [apply writes_emit|exact IHb].
Qed.

Lemma writes_label l : label_ok l → writes (BinEncoder_emit_character_data l) (label_wire l).
Proof.
  intros Hl. unfold BinEncoder_emit_character_data, label_wire. unfold label_ok in Hl. rewrite decide_False by lia.
  unfold as_u8. rewrite Z.mod_small by lia. apply (writes_app _ _ [_] l); [apply writes_emit|].
  apply writes_bytes.
Qed.

Lemma canonical_name_wire name : name_ok name → ∃ e',
  (BinEncoder_set_canonical_names true ;;; Name_emit name) (BinEncoder_new []) = (Ok (), e') ∧ ebuf e' = name_wire name.
Proof.
  intros [Hl Hw].
  assert (Hlen : length (concat (label_wire <$> labels name)) = (wire_len (labels name) - 1)%nat ∧ (0 < wire_len (labels name))%nat).
  { unfold wire_len. clear. induction (labels name) as [|l ls IHl]; [cbn; lia|]. rewrite fmap_cons. cbn [concat sum_list_with].
    rewrite length_app. cbn [label_wire length]. lia. }
  destruct Hlen as [Hlen Hpos].
  assert (Hf : writes (for_each BinEncoder_emit_character_data (labels name)) (concat (label_wire <$> labels name))).
  { apply writes_for_each. eapply Forall_impl; [exact Hl|]. apply writes_label. }
  unfold bind, BinEncoder_set_canonical_names, Name_emit, gets, BinEncoder_is_canonical_names. cbn [BinEncoder_new].
  unfold Name_emit_as_canonical, bind, gets, ret. cbn [canonical_names]. rewrite Hf.
  2:{ simpl. unfold u32_max. lia. }
  rewrite writes_emit. 2:{ simpl. unfold u32_max. lia. }
  unfold BinEncoder_len. cbn [ebuf]. simpl. rewrite length_app. simpl. rewrite decide_False by lia.
  eexists. split; [reflexivity|]. done.
Qed.

(** The definition of RFC 5155, for the digest [h]. *)
Fixpoint IH (h : bytes → option bytes) (salt x : bytes) (k : nat) : option bytes :=
  match k with
  | O => h (x ++ salt)
  | S k => prev ← IH h salt x k; h (prev ++ salt)
  end.

Lemma recursive_hash_IH salt bs k : sha1_recursive_hash salt bs k = ssl (IH (openssl_hash Sha1) salt bs k).
Proof.
  induction k as [|k IHk]; [done|]. cbn [sha1_recursive_hash IH]. unfold DigestType_to_openssl_digest.
  cbn [rbind]. rewrite IHk. by destruct (IH (openssl_hash Sha1) salt bs k).
Qed.

(** The hash of an owner name is that of RFC 5155 over the name's uncompressed wire form, with
    as many iterations as asked for; but over the name as it is spelt, not its lower-case form, so
    that names that are the same up to case, which the program takes for equal, are hashed from
    different bytes. *)
Theorem Nsec3_hash_spec salt name k :
  name_ok name →
  Nsec3HashAlgorithm_hash Nsec3HashAlgorithm.SHA1 salt name k = ssl (IH (openssl_hash Sha1) salt (name_wire name) k) ∧
  (∀ name', name_wire name' = name_wire name → name_ok name' → labels name' = labels name).
Proof.
  intros Hn. split.
  - unfold Nsec3HashAlgorithm_hash. destruct (canonical_name_wire name Hn) as (e' & -> & ->). apply recursive_hash_IH.
  - intros name' H Hn'. destruct Hn as [Hn _], Hn' as [Hn' _]. unfold name_wire in H. apply app_inj_tail in H as [H _].
    revert H Hn'. generalize (labels name'). induction Hn as [|l ls Hl _ IHl]; intros [|l' ls'] H Hn'; try done.
    apply Forall_cons in Hn' as [Hl' Hn']. simpl in H. injection H as Hlen H. apply app_inj_1 in H as [-> H]; [|lia].
    f_equal. by apply IHl.
Qed.
End nsec3.

(** ** An instance *)

(** Two spellings of one name. *)
Definition upper_name : Name := mkName [[69; 88]].
Definition lower_name : Name := mkName [[101; 120]].

Lemma Nsec3_hash_spec_witness :
  Nsec3HashAlgorithm_hash (C:=toy_crypto) Nsec3HashAlgorithm.SHA1 [9] upper_name 2 =
    ssl (IH (openssl_hash (Crypto:=toy_crypto) Sha1) [9] (name_wire upper_name) 2) ∧
  Name_eq (L:=ascii_lowercase) upper_name lower_name = true ∧ name_wire upper_name ≠ name_wire lower_name.
Proof.
  destruct (Nsec3_hash_spec (C:=toy_crypto) [9] upper_name 2) as [H1 H2].
  { by_decision. }
  split; [exact H1|]. split; [vm_compute; reflexivity|]. intros H. symmetry in H. apply H2 in H; [done|].
  by_decision.
Defined.
