(* ===== verification/KeyFormat.v ===== *)
(** * KeyFormat: private keys in files

    [KeyFormat] of [client/src/rr/dnssec/key_format.rs] and [KeyPair::generate]: the encodings of a
    private key, with or without a password.  The encoders of openssl are the class
    [KeyFiles]; [KeyFileLaws] states that each decodes what it has encoded. *)

From S2P Require Import Prelude Codec Wire Domain Enums RData KeyPair.

Open Scope Z_scope.

Module KeyFormat.
Inductive KeyFormat : Type := Der | Pem | Raw.
End KeyFormat.
Abbreviation KeyFormat := KeyFormat.KeyFormat.

Class KeyFiles `{Crypto} := {
  Rsa_private_key_from_der : bytes → option Rsa;
  Rsa_private_key_from_pem_passphrase : bytes → bytes → option Rsa;
  EcKey_private_key_from_der : bytes → option EcKey;
  EcKey_private_key_from_pem_passphrase : bytes → bytes → option EcKey;
  PKey_private_key_to_der : PKey → option bytes;
  (** with [Cipher::aes_256_cbc()] *)
  PKey_private_key_to_pem_passphrase : bytes → PKey → option bytes;
  (** new keys, from the library's random numbers *)
  Rsa_generate : Z → option Rsa;
  EcKey_generate : Curve → option EcKey;
  Ed25519_generate : option (bytes * bytes);
}.

Section key_format.
Context `{C : Crypto} `{KF : !KeyFiles}.

(** [map_err(|e| format!(..).into())] *)
Definition msg {A} (r : res dnssec_error A) : res dnssec_error A :=
  match r with Err _ => Err DnsSecMessage | r => r end.

Definition KeyFormat_decode_key (self : KeyFormat) (bs : bytes) (password : option bytes) (algorithm : Algorithm) :
    res dnssec_error KeyPair :=
  let password := default [] password in
  match algorithm with
  | Algorithm.RSASHA1 | Algorithm.RSASHA1NSEC3SHA1 | Algorithm.RSASHA256 | Algorithm.RSASHA512 =>
      try* key :=
        match self with
        | KeyFormat.Der => msg (ssl (Rsa_private_key_from_der bs))
        | KeyFormat.Pem => msg (ssl (Rsa_private_key_from_pem_passphrase bs password))
        | KeyFormat.Raw => Err DnsSecMessage
        end in
      msg (KeyPair_from_rsa key)
  | Algorithm.ECDSAP256SHA256 | Algorithm.ECDSAP384SHA384 =>
      try* key :=
        match self with
        | KeyFormat.Der => msg (ssl (EcKey_private_key_from_der bs))
        | KeyFormat.Pem => msg (ssl (EcKey_private_key_from_pem_passphrase bs password))
        | KeyFormat.Raw => Err DnsSecMessage
        end in
      msg (KeyPair_from_ec_key key)
  | Algorithm.ED25519 =>
      match self with
      | KeyFormat.Raw => msg (KeyPair_from_private_bytes algorithm bs)
      | _ => Err DnsSecMessage
      end
  end.

(** On encoding an empty password is none. *)
Definition KeyFormat_encode_key (self : KeyFormat) (key_pair : KeyPair) (password : option bytes) :
    res dnssec_error bytes :=
  let password := match password with Some (_ :: _) => password | _ => None end in
  match key_pair with
  | KeyPair.EC pkey | KeyPair.RSA pkey =>
      match self with
      | KeyFormat.Der =>
          match password with Some _ => Err DnsSecMessage | None => msg (ssl (PKey_private_key_to_der pkey)) end
      | KeyFormat.Pem =>
          msg (ssl (match password with
                    | Some password => PKey_private_key_to_pem_passphrase password pkey
                    | None => PKey_private_key_to_pem pkey
                    end))
      | KeyFormat.Raw => Err DnsSecMessage
      end
  | KeyPair.ED25519 _ _ =>
      match self with
      | KeyFormat.Raw =>
          match password with Some _ => Err DnsSecMessage | None => msg (KeyPair_to_private_bytes key_pair) end
      | _ => Err DnsSecMessage
      end
  end.

Definition KeyPair_generate (algorithm : Algorithm) : res dnssec_error KeyPair :=
  match algorithm with
  | Algorithm.RSASHA1 | Algorithm.RSASHA1NSEC3SHA1 | Algorithm.RSASHA256 | Algorithm.RSASHA512 =>
      try* rsa := ssl (Rsa_generate 2048) in KeyPair_from_rsa rsa
  | Algorithm.ECDSAP256SHA256 => try* ec_key := ssl (EcKey_generate SECP256K1) in KeyPair_from_ec_key ec_key
  | Algorithm.ECDSAP384SHA384 => try* ec_key := ssl (EcKey_generate SECP384R1) in KeyPair_from_ec_key ec_key
  | Algorithm.ED25519 =>
      match Ed25519_generate with
      | Some (private_key, public_key) => Ok (KeyPair_from_ed25519 private_key public_key)
      | None => Err DnsSecRing
      end
  end.

(** ** Round trips *)

(** Openssl reads the private keys it has written: DER, PEM and PEM under the password it was written
    with, where a PEM without a password opens with any. *)
Class KeyFileLaws : Prop := {
  rsa_der pkey b : PKey_private_key_to_der pkey = Some b → ∀ rsa, PKey_rsa pkey = Some rsa →
    ∃ rsa', Rsa_private_key_from_der b = Some rsa' ∧ PKey_from_rsa rsa' = Some pkey;
  rsa_pem pkey b : PKey_private_key_to_pem pkey = Some b → ∀ rsa pw, PKey_rsa pkey = Some rsa →
    ∃ rsa', Rsa_private_key_from_pem_passphrase b pw = Some rsa' ∧ PKey_from_rsa rsa' = Some pkey;
  rsa_pem_passphrase pkey b pw : PKey_private_key_to_pem_passphrase pw pkey = Some b →
    ∀ rsa, PKey_rsa pkey = Some rsa →
    ∃ rsa', Rsa_private_key_from_pem_passphrase b pw = Some rsa' ∧ PKey_from_rsa rsa' = Some pkey;
  ec_der pkey b : PKey_private_key_to_der pkey = Some b → ∀ ec, PKey_ec_key pkey = Some ec →
    ∃ ec', EcKey_private_key_from_der b = Some ec' ∧ PKey_from_ec_key ec' = Some pkey;
  ec_pem pkey b : PKey_private_key_to_pem pkey = Some b → ∀ ec pw, PKey_ec_key pkey = Some ec →
    ∃ ec', EcKey_private_key_from_pem_passphrase b pw = Some ec' ∧ PKey_from_ec_key ec' = Some pkey;
  ec_pem_passphrase pkey b pw : PKey_private_key_to_pem_passphrase pw pkey = Some b →
    ∀ ec, PKey_ec_key pkey = Some ec →
    ∃ ec', EcKey_private_key_from_pem_passphrase b pw = Some ec' ∧ PKey_from_ec_key ec' = Some pkey;
}.

(** The key is of the kind its algorithm uses. *)
Definition key_matches (algorithm : Algorithm) (key : KeyPair) : Prop :=
  match algorithm, key with
  | Algorithm.ECDSAP256SHA256, KeyPair.EC pkey | Algorithm.ECDSAP384SHA384, KeyPair.EC pkey => is_Some (PKey_ec_key pkey)
  | Algorithm.ED25519, KeyPair.ED25519 private_key public_key => length private_key = 32%nat ∧ length public_key = 32%nat
  | Algorithm.ECDSAP256SHA256, _ | Algorithm.ECDSAP384SHA384, _ | Algorithm.ED25519, _ => False
  | _, KeyPair.RSA pkey => is_Some (PKey_rsa pkey)
  | _, _ => False
  end.

Lemma msg_ssl_Ok {A} (o : option A) a : msg (ssl o) = Ok a → o = Some a.
Proof. by destruct o; intros [= ->]. Qed.

Lemma msg_from_rsa rsa pkey : PKey_from_rsa rsa = Some pkey → msg (KeyPair_from_rsa rsa) = Ok (KeyPair.RSA pkey).
Proof. unfold KeyPair_from_rsa. by intros ->. Qed.
Lemma msg_from_ec ec pkey : PKey_from_ec_key ec = Some pkey → msg (KeyPair_from_ec_key ec) = Ok (KeyPair.EC pkey).
Proof. unfold KeyPair_from_ec_key. by intros ->. Qed.

(** A file that was written for a key, read in its format. *)
Lemma rsa_file_read (format : KeyFormat) pkey rsa password b : KeyFileLaws → PKey_rsa pkey = Some rsa →
  KeyFormat_encode_key format (KeyPair.RSA pkey) password = Ok b →
  ∃ rsa', match format with
          | KeyFormat.Der => Rsa_private_key_from_der b
          | _ => Rsa_private_key_from_pem_passphrase b (default [] password)
          end = Some rsa' ∧ PKey_from_rsa rsa' = Some pkey ∧ format ≠ KeyFormat.Raw.
Proof.
  intros KL Hrsa He. unfold KeyFormat_encode_key in He. destruct format; [| |done].
  - destruct password as [[|c pw]|]; try done; apply msg_ssl_Ok in He;
      destruct (rsa_der _ _ He _ Hrsa) as (rsa' & ? & ?); by exists rsa'.
  - apply msg_ssl_Ok in He. destruct password as [[|c pw]|];
      [destruct (rsa_pem _ _ He _ [] Hrsa) as (rsa' & ? & ?)|
       destruct (rsa_pem_passphrase _ _ _ He _ Hrsa) as (rsa' & ? & ?)|
       destruct (rsa_pem _ _ He _ [] Hrsa) as (rsa' & ? & ?)]; by exists rsa'.
Qed.

Lemma ec_file_read (format : KeyFormat) pkey ec password b : KeyFileLaws → PKey_ec_key pkey = Some ec →
  KeyFormat_encode_key format (KeyPair.EC pkey) password = Ok b →
  ∃ ec', match format with
         | KeyFormat.Der => EcKey_private_key_from_der b
         | _ => EcKey_private_key_from_pem_passphrase b (default [] password)
         end = Some ec' ∧ PKey_from_ec_key ec' = Some pkey ∧ format ≠ KeyFormat.Raw.
Proof.
  intros KL Hec He. unfold KeyFormat_encode_key in He. destruct format; [| |done].
  - destruct password as [[|c pw]|]; try done; apply msg_ssl_Ok in He;
      destruct (ec_der _ _ He _ Hec) as (ec' & ? & ?); by exists ec'.
  - apply msg_ssl_Ok in He. destruct password as [[|c pw]|];
      [destruct (ec_pem _ _ He _ [] Hec) as (ec' & ? & ?)|
       destruct (ec_pem_passphrase _ _ _ He _ Hec) as (ec' & ? & ?)|
       destruct (ec_pem _ _ He _ [] Hec) as (ec' & ? & ?)]; by exists ec'.
Qed.

(** What is written for a key is read as that key, under the password it was written with;
    a missing and an empty password are the same.  Passwords protect PEM files only, and the
    other formats refuse them when a key is written. *)
Theorem KeyFormat_roundtrip (format : KeyFormat) algorithm key password b :
  KeyFileLaws → key_matches algorithm key → KeyFormat_encode_key format key password = Ok b →
  KeyFormat_decode_key format b password algorithm = Ok key ∧
  (format ≠ KeyFormat.Pem → default [] password = []).
Proof.
  intros KL Hm He. split.
  - destruct key as [pkey|pkey|private_key public_key].
    + assert (Hrsa : is_Some (PKey_rsa pkey)) by (by destruct algorithm). destruct Hrsa as [rsa Hrsa].
      destruct (rsa_file_read format pkey rsa password b KL Hrsa He) as (rsa' & Hk & Hp & Hf). unfold KeyFormat_decode_key.
      destruct algorithm; try done; destruct format; try done; rewrite Hk; cbn; by apply msg_from_rsa.
    + assert (Hec : is_Some (PKey_ec_key pkey)) by (by destruct algorithm). destruct Hec as [ec Hec].
      destruct (ec_file_read format pkey ec password b KL Hec He) as (ec' & Hk & Hp & Hf). unfold KeyFormat_decode_key.
      destruct algorithm; try done; destruct format; try done; rewrite Hk; cbn; by apply msg_from_ec.
    + destruct algorithm; try done. destruct Hm as [H1 H2]. unfold KeyFormat_encode_key in He.
      destruct format; try done. destruct password as [[|c pw]|]; try done; injection He as <-;
        unfold KeyFormat_decode_key, KeyPair_from_private_bytes; rewrite length_app, H1, H2; cbn;
        rewrite take_app_length', drop_app_length' by lia; done.
  - intros Hf. unfold KeyFormat_encode_key in He. destruct key, format; try done; by destruct password as [[|c pw]|].
Qed.
End key_format.

(** ** An instance *)

(** A pair of byte strings as one, and back. *)
Definition pack (p : bytes * bytes) : bytes := Z.of_nat (length p.1) :: p.1 ++ p.2.
Definition unpack (b : bytes) : option (bytes * bytes) :=
  match b with n :: r => Some (take (Z.to_nat n) r, drop (Z.to_nat n) r) | [] => None end.

Lemma unpack_pack p : unpack (pack p) = Some p.
Proof. destruct p as [a b]. cbn. by rewrite Nat2Z.id, take_app_length, drop_app_length. Qed.

Section instances.
#[local] Existing Instance toy_crypto.

Definition toy_key_files : KeyFiles := {|
  Rsa_private_key_from_der b := unpack b;
  Rsa_private_key_from_pem_passphrase b pw :=
    match unpack b with Some (pw', r) => if bool_decide (pw = pw') then unpack r else None | None => None end;
  EcKey_private_key_from_der _ := None;
  EcKey_private_key_from_pem_passphrase _ _ := None;
  PKey_private_key_to_der (pkey : bytes * bytes) := Some (pack pkey);
  PKey_private_key_to_pem_passphrase pw (pkey : bytes * bytes) := Some (pack (pw, pack pkey));
  Rsa_generate _ := Some ([187; 9], [1; 0; 1]);
  EcKey_generate _ := None;
  Ed25519_generate := Some (replicate 32 7, replicate 32 8);
|}.
#[local] Existing Instance toy_key_files.

Lemma toy_key_file_laws : KeyFileLaws.
Proof.
  split; try done.
  - intros pkey b [= <-] rsa _. exists pkey. split; [apply unpack_pack|done].
  - intros pkey b pw [= <-] rsa _. exists pkey. split; [|done]. cbn [Rsa_private_key_from_pem_passphrase toy_key_files].
    rewrite unpack_pack. by rewrite bool_decide_eq_true_2, unpack_pack.
Qed.

Lemma KeyFormat_roundtrip_witness :
  KeyFormat_decode_key KeyFormat.Pem (pack ([115], pack ([187; 9], [1; 0; 1]))) (Some [115]) Algorithm.RSASHA256 =
    Ok (KeyPair.RSA toy_pkey).
Proof.
  refine (proj1 (KeyFormat_roundtrip KeyFormat.Pem Algorithm.RSASHA256 (KeyPair.RSA toy_pkey) (Some [115]) _
    toy_key_file_laws _ _)); [by eexists|reflexivity].
Defined.
End instances.
