(* ===== verification/Recovery.v ===== *)
(** * Recovery: a zone through its journal

    [persist_to_journal] writes a zone into a new journal, and [recover_with_journal] makes a
    zone from a journal ([server/src/authority/authority.rs]); the server does the first
    when it starts with a zone file, and the second when it starts again. *)

From S2P Require Import Prelude Codec Wire Domain Enums Header RData RDataProps Resource Message.
From S2P Require Import RecordSet KeyPair Signer Update BTree Journal Authority AuthorityProps ZoneInstances.

Open Scope Z_scope.

(** ** Maps that grow at their end *)

Section btree_end.
Context {K V : Type} `{CL : CompareLaws K}.

Lemma get_app_gt (k : K) (m t : BTreeMap K V) :
  Forall (λ x, cmp k x.1 = Gt) m → BTreeMap_get k (m ++ t) = BTreeMap_get k t.
Proof. induction 1 as [|[k' v] m Hk _ IH]; [done|]. simpl in *. by rewrite Hk. Qed.

Lemma set_app_gt (k : K) (v : V) (m t : BTreeMap K V) :
  Forall (λ x, cmp k x.1 = Gt) m → BTreeMap_set k v (m ++ t) = m ++ BTreeMap_set k v t.
Proof. induction 1 as [|[k' v'] m Hk _ IH]; [done|]. simpl in *. by rewrite Hk, IH. Qed.
End btree_end.

Section recovery.
Context `{L : Lowercase} `{HO : HashOrder} `{C : Crypto} `{SL : SqliteLaws} `{CK : Clock}.
Implicit Types a b : Authority.

(** ** Reading the journal is replaying its records *)

Fixpoint replay (rs : list RRecord) (self : Authority) : res persistence_error () * Authority :=
  match rs with
  | [] => (Ok (), self)
  | record :: rs =>
      if decide (r_rr_type record = RecordType.AXFR) then replay rs (with_records self [])
      else
        match Authority_update_records [record] false self with
        | (Ok _, self) => replay rs self
        | (Err error, self) => (Err (RecoveryError (ResponseCode_to_str error)), self)
        | (Panic, self) => (Panic, self)
        | (Diverge, self) => (Diverge, self)
        end
  end.

Lemma iter_next_holds {E} j rs0 r rs : journal_holds j (rs0 ++ r :: rs) →
  JournalIter_next (E:=E) j (Z.of_nat (length rs0)) = Ok (Some (Z.of_nat (length (rs0 ++ [r])), record_norm r)).
Proof.
  intros [Hv Hrows]. unfold JournalIter_next, Journal_select_record. rewrite Hv, Z.eqb_refl, query_record_ok by lia.
  replace (Z.to_nat (Z.of_nat (length rs0) + 1 - 1)) with (length rs0) by lia.
  assert (Hl : (rs0 ++ r :: rs) !! length rs0 = Some r) by (by apply list_lookup_middle).
  destruct (Forall2_lookup_l _ _ _ _ _ Hrows Hl) as (bs & Hb & Hrow). rewrite Hb. cbn. rewrite (row_read r bs Hrow).
  do 3 f_equal. rewrite length_app. simpl. lia.
Qed.

Lemma iter_next_end {E} j rs : journal_holds j rs → JournalIter_next (E:=E) j (Z.of_nat (length rs)) = Ok None.
Proof.
  intros [Hv Hrows]. unfold JournalIter_next, Journal_select_record. rewrite Hv, Z.eqb_refl, query_record_ok by lia.
  replace (Z.to_nat (Z.of_nat (length rs) + 1 - 1)) with (length rs) by lia.
  apply Forall2_length in Hrows. by rewrite lookup_ge_None_2 by lia.
Qed.

Lemma recover_loop_replay rs : ∀ n j rs0 self, journal_holds j (rs0 ++ rs) → (length rs < n)%nat →
  recover_loop n j (Z.of_nat (length rs0)) self = replay (record_norm <$> rs) self.
Proof.
  induction rs as [|r rs IH]; intros [|n] j rs0 self Hj Hn; simpl in Hn; try lia; cbn [recover_loop].
  - rewrite app_nil_r in Hj. by rewrite (iter_next_end j rs0 Hj).
  - rewrite (iter_next_holds j rs0 r rs Hj). rewrite fmap_cons. cbn [replay].
    assert (Hj' : journal_holds j ((rs0 ++ [r]) ++ rs)) by (by rewrite <-app_assoc).
    case_decide; [by apply IH; [|lia]|].
    destruct (Authority_update_records [record_norm r] false self) as [[] self']; [by apply IH; [|lia]|done..].
Qed.

(** ** Replaying one record *)

Lemma get_serial_total {E} a : zone_ok a → ∃ v, Authority_get_serial (E:=E) a = Ok v.
Proof.
  intros Hz. unfold Authority_get_serial, Authority_get_soa.
  destruct (Authority_lookup a (a_origin a) RecordType.SOA false SupportedAlgorithms_new) as [|r rs] eqn:El; [by eexists|].
  cbn [head]. assert (Hr : r ∈ Authority_lookup a (a_origin a) RecordType.SOA false no_algorithms)
    by (unfold no_algorithms; rewrite El; left).
  apply lookup_spec in Hr as [Hr Ha]; [|done]. apply elem_of_zone_records in Hr as (k & s & Hin & Hr).
  destruct (entry_record a k s r Hz Hin Hr) as (Hs & _ & Ht & _ & Ht'). destruct Ha as [Ha _].
  pose proof (rso_soa _ Hs ltac:(congruence)) as Hsoa. rewrite Forall_forall in Hsoa.
  destruct (Hsoa r Hr) as [soa ->]. by eexists.
Qed.

(** Without a journal of its own the zone is changed by the upsert alone. *)
Lemma update_one a r serial changed a' :
  zone_ok a → a_journal a = None → r_dns_class r = a_class a →
  Authority_get_serial (E:=ResponseCode) a = Ok serial →
  Authority_upsert (E:=ResponseCode) a r serial = Ok (changed, a') →
  Authority_update_records [r] false a = (Ok (changed || false), a').
Proof.
  intros Hz Hj Hc Hs Hu. unfold Authority_update_records, bind, gets, lift, id. rewrite Hs. unfold log_records. rewrite Hj.
  cbn [update_loop]. unfold update_record. rewrite decide_True by done. rewrite Hu. by rewrite andb_false_r.
Qed.

(** ** Rebuilding the zone *)

Definition same_set (e x : RrKey * RecordSet) : Prop := cmp e.1 x.1 = Eq ∧ rs_records x.2 = rs_records e.2.

(** [m] has the sets of [es] that have records. *)
Definition rebuilt (es m : list (RrKey * RecordSet)) : Prop :=
  Forall2 same_set (filter (λ e, rs_records e.2 ≠ []) es) m.

(** A set of which the records [q] have been replayed. *)
Definition partial (k : RrKey) (q : list RRecord) (t : BTreeMap RrKey RecordSet) : Prop :=
  match q with [] => t = [] | _ => ∃ k0 s0, t = [(k0, s0)] ∧ cmp k k0 = Eq ∧ rs_records s0 = q end.

Lemma insert_fresh {E} r serial :
  RecordSet_insert (E:=E) (RecordSet_new (r_name_labels r) (r_rr_type r) serial) r serial =
  Ok (true, mkRecordSet (r_name_labels r) (r_rr_type r) (rs_dns_class (RecordSet_new (r_name_labels r) (r_rr_type r) serial))
              (r_ttl r) [r] [] serial).
Proof.
  unfold RecordSet_insert. simpl. rewrite Name_eq_refl, bool_decide_eq_true_2 by done. simpl. by destruct (r_rr_type r).
Qed.

(** A record whose data is not in the set yet goes to its end. *)
Lemma insert_at_end {E} s r serial :
  rset_ok s → fits s r → ¬ single_type (rs_record_type s) →
  (rdata_key (r_rdata r) ∉ (rdata_key ∘ r_rdata) <$> rs_records s) →
  ∃ s', RecordSet_insert (E:=E) s r serial = Ok (true, s') ∧ rs_records s' = rs_records s ++ [r].
Proof.
  intros Hs Hf Hns Hk. unfold single_type in Hns. rewrite RecordSet_insert_cases by done.
  rewrite !decide_False by tauto.
  destruct (insert_rdata_spec (E:=E) s r serial (rso_unique _ Hs)) as [[_ ->]|(j & rr & Hj & Hkey & _)].
  - by eexists.
  - destruct Hk. rewrite <-Hkey. apply list_elem_of_fmap. exists rr. split; [done|]. by eapply list_elem_of_lookup_2.
Qed.

(** Where the next record of the set under [k] goes. *)
Lemma upsert_next a m0 t k s q r q' serial :
  a_records a = m0 ++ t → zone_ok a → Forall (λ x, cmp k x.1 = Gt) m0 → partial k q t → entry_ok (k, s) →
  rs_records s = q ++ r :: q' → a_class a = r_dns_class r →
  ∃ t', Authority_upsert (E:=ResponseCode) a r serial = Ok (true, with_records a (m0 ++ t')) ∧ partial k (q ++ [r]) t'.
Proof.
  intros Hrec Hz Hgt Hp [Hs Hn Ht] Hq Hc. cbn [fst snd] in Hs, Hn, Ht. set (k' := RrKey_new (r_name_labels r) (r_rr_type r)).
  assert (Hr : r ∈ rs_records s) by (rewrite Hq; apply elem_of_app; right; left).
  pose proof (proj1 (Forall_forall _ _) (rso_names _ Hs) _ Hr) as Hrn.
  pose proof (proj1 (Forall_forall _ _) (rso_types _ Hs) _ Hr) as Hrt. cbn beta in Hrn, Hrt.
  assert (Hk : cmp k' k = Eq).
  { apply RrKey_eq. unfold k'. simpl. split; [|congruence]. eapply Name_eq_trans; [exact Hrn|by apply Name_eq_sym]. }
  assert (Hgt' : Forall (λ x, cmp k' x.1 = Gt) m0).
  { eapply Forall_impl; [exact Hgt|]. intros x Hx. simpl in *. by rewrite (cmp_eq_l k' k). }
  unfold Authority_upsert. rewrite decide_True by done. fold k'. rewrite Hrec, get_app_gt by done.
  destruct q as [|x q].
  - simpl in Hp. subst t. cbn [BTreeMap_get from_option]. rewrite insert_fresh. cbn [rbind fst snd].
    rewrite set_app_gt by done. eexists. split; [reflexivity|]. simpl. eexists _, _. split; [reflexivity|]. split; [|done].
    by apply cmp_eq_sym.
  - destruct Hp as (k0 & s0 & -> & Hk0 & Hs0).
    assert (Hk'0 : cmp k' k0 = Eq) by (rewrite (cmp_eq_l k' k) by done; done).
    assert (Hg : BTreeMap_get k' (a_records a) = Some s0) by (rewrite Hrec, get_app_gt by done; simpl; by rewrite Hk'0).
    destruct (get_entry _ _ _ Hz Hg) as (Hok0 & Hn0 & Ht0). simpl in Hn0, Ht0.
    cbn [BTreeMap_get]. rewrite Hk'0. cbn [from_option id default].
    destruct (insert_at_end (E:=ResponseCode) s0 r serial Hok0) as (s' & Hins & Hs').
    + split; [done|done|]. intros Hsoa. pose proof (rso_soa _ Hs ltac:(congruence)) as Hall.
      rewrite Forall_forall in Hall. by apply Hall.
    + intros Hsing. pose proof (rso_single _ Hs) as Hone. rewrite Hq in Hone. simpl in Hone. rewrite length_app in Hone.
      simpl in Hone. assert (rs_record_type s = rs_record_type s0) as Hts by congruence. rewrite Hts in Hone.
      specialize (Hone Hsing). lia.
    + rewrite Hs0. pose proof (rso_unique _ Hs) as Hu. rewrite Hq, fmap_app in Hu. apply NoDup_app in Hu as (_ & Hd & _).
      intros Hin. apply (Hd _ Hin). rewrite fmap_cons. left.
    + rewrite Hins. cbn [rbind fst snd]. rewrite set_app_gt by done. eexists. split; [reflexivity|]. simpl. rewrite Hk'0.
      exists k0, s'. split; [done|]. split; [done|]. by rewrite Hs', Hs0.
Qed.

(** A record of the zone, replayed. *)
Lemma update_next a m0 t k s q r q' :
  a_records a = m0 ++ t → zone_ok a → a_journal a = None → Forall (λ x, cmp k x.1 = Gt) m0 → partial k q t →
  entry_ok (k, s) → rs_records s = q ++ r :: q' → a_class a = r_dns_class r →
  ∃ t', Authority_update_records [r] false a = (Ok true, with_records a (m0 ++ t')) ∧ partial k (q ++ [r]) t' ∧
    zone_ok (with_records a (m0 ++ t')).
Proof.
  intros Hrec Hz Hj Hgt Hp He Hq Hc. destruct (get_serial_total (E:=ResponseCode) a Hz) as [serial Hser].
  destruct (upsert_next a m0 t k s q r q' serial Hrec Hz Hgt Hp He Hq Hc) as (t' & Hu & Hp').
  exists t'. split; [|split; [done|]].
  - by rewrite (update_one a r serial true _ Hz Hj (eq_sym Hc) Hser Hu).
  - destruct He as [Hs _ _]. cbn [snd] in Hs. destruct (upsert_ok (E:=ResponseCode) a r serial Hz) as (bb & s' & Hu' & Hok & _).
    { split; [done|]. intros Ht. assert (Hr : r ∈ rs_records s) by (rewrite Hq; apply elem_of_app; right; left).
      pose proof (proj1 (Forall_forall _ _) (rso_types _ Hs) _ Hr) as Hrt. cbn in Hrt.
      pose proof (rso_soa _ Hs ltac:(congruence)) as Hall. rewrite Forall_forall in Hall. by apply Hall. }
    rewrite Hu' in Hu. injection Hu as _ Hu. by rewrite <-Hu.
Qed.

(** The rest of a set. *)
Lemma replay_set q' : ∀ a m0 t k s q rest,
  a_records a = m0 ++ t → zone_ok a → a_journal a = None → Forall (λ x, cmp k x.1 = Gt) m0 → partial k q t →
  entry_ok (k, s) → rs_records s = q ++ q' →
  Forall (λ r, r_dns_class r = a_class a ∧ r_rr_type r ≠ RecordType.AXFR) q' →
  ∃ t', replay (q' ++ rest) a = replay rest (with_records a (m0 ++ t')) ∧ partial k (q ++ q') t' ∧
    zone_ok (with_records a (m0 ++ t')).
Proof.
  induction q' as [|r q' IH]; intros a m0 t k s q rest Hrec Hz Hj Hgt Hp He Hq Hall.
  - exists t. rewrite app_nil_r. assert (with_records a (m0 ++ t) = a) as -> by (rewrite <-Hrec; by destruct a). done.
  - apply Forall_cons in Hall as [[Hc Hx] Hall].
    destruct (update_next a m0 t k s q r q' Hrec Hz Hj Hgt Hp He Hq (eq_sym Hc)) as (t1 & Hu & Hp1 & Hz1).
    cbn [app replay]. rewrite decide_False by done. rewrite Hu.
    destruct (IH (with_records a (m0 ++ t1)) m0 t1 k s (q ++ [r]) rest) as (t' & Hr & Hp' & Hz'); try done.
    + by rewrite <-app_assoc.
    + exists t'. split; [exact Hr|]. split; [by rewrite <-app_assoc in Hp'|done].
Qed.

(** The sets of a zone, one after the other. *)
Lemma replay_sets es : ∀ a done_es,
  btree_ok (done_es ++ es) → Forall entry_ok (done_es ++ es) → zone_ok a → a_journal a = None →
  rebuilt done_es (a_records a) →
  Forall (λ r, r_dns_class r = a_class a ∧ r_rr_type r ≠ RecordType.AXFR) (concat (rs_records <$> es.*2)) →
  ∃ a', replay (concat (rs_records <$> es.*2)) a = (Ok (), a') ∧ rebuilt (done_es ++ es) (a_records a') ∧ zone_ok a' ∧
    a_is_dnssec_enabled a' = a_is_dnssec_enabled a ∧ a_origin a' = a_origin a.
Proof.
  induction es as [|[k s] es IH]; intros a done_es Hbt Hen Hz Hj Hre Hall.
  { exists a. rewrite app_nil_r. done. }
  rewrite !fmap_cons in *. cbn [concat snd] in *. apply Forall_app in Hall as [Hs Hall].
  assert (Hk : Forall (λ x, cmp k x.1 = Gt) (a_records a)).
  { apply Forall_forall. intros x Hx. apply list_elem_of_lookup in Hx as [i Hi].
    destruct (Forall2_lookup_r _ _ _ _ _ Hre Hi) as (e & He & Hsame & _).
    apply list_elem_of_lookup_2, list_elem_of_filter in He as [_ He].
    assert (Hlt : cmp e.1 k = Lt).
    { clear -He Hbt. induction done_es as [|y ys IHy]; [by apply not_elem_of_nil in He|]. cbn [app] in Hbt.
      apply btree_ok_cons in Hbt as [Hb Hf]. apply elem_of_cons in He as [->|He]; [|by apply IHy].
      apply Forall_app in Hf as [_ Hf]. by apply Forall_cons in Hf as [Hf _]. }
    apply cmp_gt_lt. by rewrite <-(cmp_eq_l e.1 x.1). }
  assert (Hek : entry_ok (k, s)) by (apply Forall_app in Hen as [_ Hen]; by apply Forall_cons in Hen as [? _]).
  destruct (replay_set (rs_records s) a (a_records a) [] k s [] (concat (rs_records <$> es.*2)))
    as (t' & Hr & Hp & Hz'); [by rewrite app_nil_r|done..|].
  rewrite Hr. cbn [app] in Hp.
  destruct (IH (with_records a (a_records a ++ t')) (done_es ++ [(k, s)])) as (a' & Hr' & Hre' & Hz2 & Hd);
    [by rewrite <-app_assoc|by rewrite <-app_assoc|done|done| |done|].
  - cbn [a_records with_records]. unfold rebuilt. rewrite filter_app, filter_cons, filter_nil. apply Forall2_app; [done|].
    destruct (rs_records s) as [|x xs] eqn:Es; simpl in Hp.
    + rewrite decide_False by (simpl; rewrite Es; tauto). by subst t'.
    + destruct Hp as (k0 & s0 & -> & Hk0 & Hs0). rewrite decide_True by (simpl; by rewrite Es).
      constructor; [|constructor]. split; [done|]. simpl. by rewrite Es.
  - exists a'. rewrite <-app_assoc in Hre'. done.
Qed.

Lemma rebuilt_records es m : rebuilt es m → concat (rs_records <$> m.*2) = concat (rs_records <$> es.*2).
Proof.
  unfold rebuilt. revert m. induction es as [|e es IH]; intros m Hm.
  { by inversion Hm. }
  rewrite filter_cons in Hm. rewrite !fmap_cons. cbn [concat]. case_decide as He.
  - inversion_clear Hm as [|? x ? m' [_ Hx] Hm']. rewrite !fmap_cons. cbn [concat]. by rewrite Hx, (IH m').
  - by rewrite He, (IH m).
Qed.

(** The record that marks the beginning of a zone. *)
Definition axfr_marker : RRecord := Record_rr_type Record_new RecordType.AXFR.

Lemma axfr_marker_ok : record_ok axfr_marker.
Proof. split; simpl; try done; [by_decision|by left]. Qed.

(** What the journal can hold and give back. *)
Definition journalable (r : RRecord) : Prop :=
  record_ok r ∧ record_norm r = r ∧ r_dns_class r = DNSClass.IN ∧ r_rr_type r ≠ RecordType.AXFR.

(** Persisting leaves the marker and the records in the journal, *)
Lemma persist_holds a a' j : a_journal a = Some j → journal_holds j [] → Forall journalable (zone_records a) →
  Authority_persist_to_journal a = (Ok (), a') →
  ∃ serial j', Journal_insert_records serial (axfr_marker :: zone_records a) j = (Ok (), j') ∧
    a_journal a' = Some j' ∧ journal_holds j' (axfr_marker :: zone_records a).
Proof.
  intros Hj Hh Hall Hp. unfold Authority_persist_to_journal in Hp. rewrite Hj in Hp.
  destruct (Authority_get_serial a) as [serial| | |]; try done. fold axfr_marker in Hp. fold (zone_records a) in Hp.
  destruct (Journal_insert_records serial (axfr_marker :: zone_records a) j) as [r j1] eqn:Hins.
  injection Hp as -> <-. exists serial, j1. split; [done|]. split; [done|].
  apply (insert_records_holds serial (axfr_marker :: zone_records a) j j1 []) in Hins; [done|done|].
  constructor; [apply axfr_marker_ok|]. eapply Forall_impl; [exact Hall|]. by intros r (? & _).
Qed.

(** and a journal with them recovers the zone. *)
Lemma recover_held a j origin zone_type allow_update n :
  zone_ok a → Forall journalable (zone_records a) → journal_holds j (axfr_marker :: zone_records a) →
  (length (zone_records a) + 1 < n)%nat →
  ∃ b, Authority_recover_with_journal n j (Authority_new origin [] zone_type allow_update false) = (Ok (), b) ∧
    zone_ok b ∧ zone_records b = zone_records a ∧ a_origin b = origin.
Proof.
  intros Hz Hall Hh Hn. set (b0 := Authority_new origin [] zone_type allow_update false).
  assert (Hb0 : zone_ok b0) by (split; [apply btree_ok_nil|constructor]).
  assert (Hnorm : record_norm <$> zone_records a = zone_records a).
  { rewrite <-(list_fmap_id (zone_records a)) at 2. apply list_fmap_ext. intros i r Hi.
    rewrite Forall_forall in Hall. destruct (Hall r) as (_ & ? & _); [by eapply list_elem_of_lookup_2|done]. }
  destruct (replay_sets (a_records a) b0 []) as (b & Hr & Hre & Hzb & Hd & Ho);
    [apply Hz|apply Hz|done|done|constructor| |].
  { change (concat (rs_records <$> (a_records a).*2)) with (zone_records a). eapply Forall_impl; [exact Hall|].
    by intros r (_ & _ & ? & ?). }
  assert (Hrec : zone_records b = zone_records a) by (by apply rebuilt_records in Hre).
  exists b. split; [|done]. unfold Authority_recover_with_journal. cbn [a_records b0 Authority_new].
  assert (Hl : recover_loop n j 0 b0 = replay (record_norm <$> axfr_marker :: zone_records a) b0)
    by (apply (recover_loop_replay _ n j [] b0 Hh); simpl; lia).
  rewrite Hl, fmap_cons. cbn [replay]. rewrite decide_True by done. rewrite Hnorm.
  change (with_records b0 []) with b0. change (zone_records a) with (concat (rs_records <$> (a_records a).*2)).
  rewrite Hr, Hd. done.
Qed.

(** C14: A zone survives a restart: recovering from the journal that a zone was
    persisted to gives a zone with the same records in the same order, which answers every lookup
    as the zone did, when its records have a wire form and are of class IN. *)
Theorem Authority_persist_recover a a' j j' zone_type allow_update n :
  zone_ok a → a_journal a = Some j → journal_holds j [] →
  Forall journalable (zone_records a) →
  Authority_persist_to_journal a = (Ok (), a') → a_journal a' = Some j' →
  (length (zone_records a) + 1 < n)%nat →
  ∃ b, Authority_recover_with_journal n j' (Authority_new (a_origin a) [] zone_type allow_update false) = (Ok (), b) ∧
    zone_ok b ∧ zone_records b = zone_records a ∧
    ∀ name t r, r ∈ Authority_lookup b name t false no_algorithms ↔ r ∈ Authority_lookup a name t false no_algorithms.
Proof.
  intros Hz Hj Hh Hall Hp Hj' Hn.
  destruct (persist_holds a a' j Hj Hh Hall Hp) as (serial & j1 & _ & Hj1 & Hh1). rewrite Hj' in Hj1. injection Hj1 as <-.
  destruct (recover_held a j' (a_origin a) zone_type allow_update n Hz Hall Hh1 Hn) as (b & Hr & Hzb & Hrec & Ho). exists b. split_and!; [done..|].
  intros name t r. rewrite !lookup_spec by done. rewrite Hrec. unfold answers. rewrite Ho. done.
Qed.
End recovery.

(** ** An instance *)

Section instances.
#[local] Existing Instance ascii_lowercase.
#[local] Existing Instance list_hash_order.
#[local] Existing Instance toy_crypto.
#[local] Existing Instance list_sqlite.
#[local] Existing Instance list_sqlite_laws.
#[local] Existing Instance fixed_clock.

Lemma Authority_persist_recover_witness :
  ∃ b, Authority_recover_with_journal 9 (default empty_journal (a_journal ex_persisted))
      (Authority_new ex_zone [] Master true false) = (Ok (), b) ∧ zone_records b = zone_records ex_auth.
Proof.
  destruct (Authority_persist_recover (Authority_journal ex_auth empty_journal) ex_persisted empty_journal
    (default empty_journal (a_journal ex_persisted)) Master true 9) as (b & Hr & _ & Hz & _).
  - exact ex_auth_ok.
  - reflexivity.
  - split; [reflexivity|constructor].
  - repeat (apply Forall_cons; split); [..|by constructor]; (split; [by_decision|by split_and!]).
  - vm_compute. reflexivity.
  - vm_compute. reflexivity.
  - vm_compute. lia.
  - exists b. by split.
Defined.
End instances.
