(* ===== verification/Named.v ===== *)
(** * Named: configuration and start-up

    [Config], [ZoneConfig], [KeyConfig] and [TlsCertConfig] of [server/src/config.rs], after the TOML
    was decoded, and from [server/src/named.rs] the loading of keys and zones and the part of
    [main] that fills the catalog and chooses the addresses.

    Strings are their bytes, as everywhere; the disk is a map from paths to files, a
    journal's file being a database.  What the operating system refuses is a parameter. *)

From S2P Require Import Prelude Codec Wire Domain Enums Header RData RDataProps Resource Message RecordSet.
From S2P Require Import KeyPair Signer Update BTree Journal Authority AuthorityProps ZoneInstances Catalog.
From S2P Require Import Text Lexer Master Schema KeyFormat Recovery.

Open Scope Z_scope.

(** ** Paths *)

(** [std::path::Path] by its components: whether it is absolute, and the names between the
    slashes; empty ones and [.] do not count. *)
Definition Path : Type := bool * list bytes.

Fixpoint split_on (c : Z) (s : bytes) (acc : bytes) : list bytes :=
  match s with
  | [] => [acc]
  | b :: s => if b =? c then acc :: split_on c s [] else split_on c s (acc ++ [b])
  end.

Definition is_component (c : bytes) : bool := negb (bool_decide (c = [])) && negb (bool_decide (c = [46])).

Definition Path_new (s : bytes) : Path :=
  (bool_decide (head s = Some 47), filter (λ c, is_component c = true) (split_on 47 s [])).

Definition Path_join (self other : Path) : Path := if other.1 then other else (self.1, self.2 ++ other.2).

(** The last component, unless it is [..]. *)
Definition Path_file_name (self : Path) : option bytes :=
  match last self.2 with Some c => if bool_decide (c = [46; 46]) then None else Some c | None => None end.

(** A file name cut at its last dot, if that is not its first character. *)
Definition split_extension (name : bytes) : bytes * option bytes :=
  match split_on 46 name [] with
  | [] => (name, None)
  | parts =>
      let ext := default [] (last parts) in
      let stem := take (length name - length ext - 1) name in
      if bool_decide (stem = []) || (length parts =? 1)%nat then (name, None) else (stem, Some ext)
  end.

Definition Path_extension (self : Path) : option bytes := Path_file_name self ≫= λ n, (split_extension n).2.

Definition Path_with_extension (self : Path) (ext : bytes) : Path :=
  match Path_file_name self with
  | None => self
  | Some name => (self.1, removelast self.2 ++ [(split_extension name).1 ++ 46 :: ext])
  end.

Definition Path_to_string (self : Path) : bytes :=
  (if self.1 then [47] else []) ++
  match self.2 with [] => [] | c :: cs => c ++ concat ((λ c, 47 :: c) <$> cs) end.

(** ** Configuration *)

Record KeyConfig : Type := mkKeyConfig {
  key_path : bytes;
  kc_password : option bytes;
  kc_algorithm : bytes;
  kc_signer_name : option bytes;
  kc_is_zone_signing_key : option bool;
  kc_is_zone_update_auth : option bool;
  kc_create_if_absent : option bool;
}.

Record ZoneConfig : Type := mkZoneConfig {
  zc_zone : bytes;
  zc_zone_type : ZoneType;
  zc_file : bytes;
  zc_allow_update : option bool;
  zc_enable_dnssec : option bool;
  zc_keys : list KeyConfig;
}.

Record TlsCertConfig : Type := mkTlsCertConfig {
  tc_path : bytes;
  tc_password : option bytes;
  tc_create_if_absent : option bool;
  tc_subject_name : bytes;
}.

Record Config : Type := mkConfig {
  cfg_listen_addrs_ipv4 : list bytes;
  cfg_listen_addrs_ipv6 : list bytes;
  cfg_listen_port : option Z;
  cfg_tls_listen_port : option Z;
  cfg_tcp_request_timeout : option Z;
  cfg_log_level : option bytes;
  cfg_directory : option bytes;
  cfg_zones : list ZoneConfig;
  cfg_tls_cert : option TlsCertConfig;
}.

Inductive LogLevel : Type := LogTrace | LogDebug | LogInfo | LogWarn | LogError.

(** [iter().map(|s| s.parse().unwrap()).collect()] *)
Fixpoint unwrap_all {E A} (f : bytes → res E A) (l : list bytes) : res E (list A) :=
  match l with
  | [] => Ok []
  | s :: l =>
      match f s with
      | Ok a => try* r := unwrap_all f l in Ok (a :: r)
      | Diverge => Diverge
      | _ => Panic
      end
  end.

Definition Config_get_listen_addrs_ipv4 (self : Config) : res parse_error (list Ipv4Addr) :=
  unwrap_all parse_ipv4 (cfg_listen_addrs_ipv4 self).
Definition Config_get_listen_addrs_ipv6 (self : Config) : res parse_error (list Ipv6Addr) :=
  unwrap_all parse_ipv6 (cfg_listen_addrs_ipv6 self).
Definition Config_get_listen_port (self : Config) : Z := default 53 (cfg_listen_port self).
Definition Config_get_tls_listen_port (self : Config) : Z := default 853 (cfg_tls_listen_port self).
(** In milliseconds. *)
Definition Config_get_tcp_request_timeout (self : Config) : Z := 1000 * default 5 (cfg_tcp_request_timeout self).
Definition Config_get_log_level (self : Config) : LogLevel :=
  match cfg_log_level self with
  | Some level_str =>
      match str_of_bytes level_str with
      | "Trace"%string => LogTrace
      | "Debug"%string => LogDebug
      | "Info"%string => LogInfo
      | "Warn"%string => LogWarn
      | "Error"%string => LogError
      | _ => LogInfo
      end
  | None => LogInfo
  end.
Definition Config_get_directory (self : Config) : Path :=
  Path_new (default (bytes_of_str "/var/named") (cfg_directory self)).
Definition Config_get_zones (self : Config) : list ZoneConfig := cfg_zones self.
Definition Config_get_tls_cert (self : Config) : option TlsCertConfig := cfg_tls_cert self.

Section config.
Context `{N : Numeric}.

Definition ZoneConfig_get_zone (self : ZoneConfig) : res parse_error Name := Name_parse (zc_zone self) (Some Name_new).
Definition ZoneConfig_get_file (self : ZoneConfig) : Path := Path_new (zc_file self).
Definition ZoneConfig_is_update_allowed (self : ZoneConfig) : bool := default false (zc_allow_update self).
Definition ZoneConfig_is_dnssec_enabled (self : ZoneConfig) : bool := default false (zc_enable_dnssec self).

Definition KeyConfig_new (key_path : bytes) (password : option bytes) (algorithm : Algorithm) (signer_name : bytes)
    (is_zone_signing_key is_zone_update_auth do_auto_generate : bool) : KeyConfig :=
  mkKeyConfig key_path password (bytes_of_str (Algorithm_to_str algorithm)) (Some signer_name)
    (Some is_zone_signing_key) (Some is_zone_update_auth) (Some do_auto_generate).

Definition KeyConfig_get_key_path (self : KeyConfig) : Path := Path_new (key_path self).

Definition KeyConfig_get_format (self : KeyConfig) : res parse_error KeyFormat :=
  match Path_extension (KeyConfig_get_key_path self) with
  | None => Err (ParseMessage "file lacks extension")
  | Some extension =>
      match str_of_bytes extension with
      | "der"%string => Ok KeyFormat.Der
      | "key"%string => Ok KeyFormat.Pem
      | "pem"%string => Ok KeyFormat.Pem
      | "raw"%string => Ok KeyFormat.Raw
      | _ => Err (ParseMessage "extension not understood")
      end
  end.

Definition KeyConfig_get_algorithm (self : KeyConfig) : res parse_error Algorithm :=
  match Algorithm_from_str (str_of_bytes (kc_algorithm self)) () with
  | (Ok a, _) => Ok a
  | (Err e, _) => Err (ParseDecode e)
  | (Panic, _) => Panic
  | (Diverge, _) => Diverge
  end.

Definition KeyConfig_get_signer_name (self : KeyConfig) : res parse_error (option Name) :=
  match kc_signer_name self with
  | Some signer_name => try* name := Name_parse signer_name None in Ok (Some name)
  | None => Ok None
  end.

Definition KeyConfig_is_zone_signing_key (self : KeyConfig) : bool := default false (kc_is_zone_signing_key self).
Definition KeyConfig_is_zone_update_auth (self : KeyConfig) : bool := default false (kc_is_zone_update_auth self).
Definition KeyConfig_create_if_absent (self : KeyConfig) : bool := default false (kc_create_if_absent self).
End config.

(** ** The disk *)

Class Disk `{Sqlite} := {
  (** what [File::open] with reading, [File::create] and [write_all] succeed for *)
  can_read : Path → bool;
  can_create : Path → bool;
  can_write : Path → bool;
  can_remove : Path → bool;
  (** [Connection::open] of a database, or of a file that is not there *)
  open_database : option Connection → option Connection;
}.

Inductive File `{Sqlite} : Type := Contents (b : bytes) | Database (conn : Connection).

Inductive load_error : Type :=
  | LoadMessage (msg : string)
  | LoadParse (msg : string) (e : parse_error)
  | LoadDnsSec (msg : string) (e : dnssec_error)
  | LoadPersistence (msg : string) (e : persistence_error).

Section load.
Context `{N : Numeric} `{L : Lowercase} `{HO : HashOrder} `{C : Crypto} `{KF : !KeyFiles} `{SQ : Sqlite} `{SS : !SqliteSchema} `{CK : Clock}
  `{D : !Disk}.

(** The state of the disk. *)
Abbreviation World := (gmap Path File).

Definition exists_path (p : Path) : M World load_error bool := gets (λ w, bool_decide (is_Some (w !! p))).

(** [File::open] and [read_to_end] *)
Definition read_file (what : string) (p : Path) : M World load_error bytes := λ w,
  match w !! p with
  | Some (Contents b) => (if can_read p then Ok b else Err (LoadMessage what), w)
  | _ => (Err (LoadMessage what), w)
  end.

Definition put_file (p : Path) (f : File) : M World load_error () := λ w, (Ok (), <[p := f]> w).

Definition opened (w : World) (p : Path) : option Connection :=
  match w !! p with
  | None => open_database None
  | Some (Database conn) => open_database (Some conn)
  | Some (Contents _) => None
  end.

(** ** Keys *)

(** [file.write_all(..).or_else(|_| fs::remove_file(..))]: when the bytes cannot be written
    but the file can be removed, there is no error. *)
Definition write_key (p : Path) (key_bytes : bytes) : M World load_error () := λ w,
  if can_write p then (Ok (), <[p := Contents key_bytes]> w)
  else if can_remove p then (Ok (), delete p w)
  else (Err (LoadMessage "error writing private key file"), w).

Definition load_key (zone_name : Name) (key_config : KeyConfig) : M World load_error Signer :=
  let path := KeyConfig_get_key_path key_config in
  let* algorithm := lift (map_err (LoadParse "bad algorithm") (KeyConfig_get_algorithm key_config)) in
  let* format := lift (map_err (LoadParse "bad key format") (KeyConfig_get_format key_config)) in
  let* key_exists := exists_path path in
  let* key :=
    (if key_exists : bool then
       let* key_bytes := read_file "error opening private key file" path in
       lift (map_err (LoadDnsSec "could not decode key")
               (KeyFormat_decode_key format key_bytes (kc_password key_config) algorithm))
     else if KeyConfig_create_if_absent key_config then
       if can_create path then
         put_file path (Contents []) ;;;
         let* key := lift (map_err (LoadDnsSec "could not generate key") (KeyPair_generate algorithm)) in
         let* key_bytes := lift (map_err (LoadDnsSec "could not get key bytes")
                                   (KeyFormat_encode_key format key (kc_password key_config))) in
         write_key path key_bytes ;;;
         ret key
       else fail (LoadMessage "error creating private key file")
     else fail (LoadMessage "file not found")) in
  let* name := lift (map_err (LoadParse "error reading name") (KeyConfig_get_signer_name key_config)) in
  ret (Signer_new Algorithm.RSASHA256 key (default zone_name name) (52 * 7 * 86400 * 10^9) true true).

(** [authority.add_secure_key(signer).expect(..)] *)
Definition add_key (authority : Authority) (signer : Signer) : res load_error Authority :=
  match Authority_add_secure_key signer authority with
  | (Ok _, authority) => Ok authority
  | (Diverge, _) => Diverge
  | _ => Panic
  end.

Fixpoint load_keys (zone_name : Name) (keys : list KeyConfig) (authority : Authority) : M World load_error Authority :=
  match keys with
  | [] => ret authority
  | key_config :: keys =>
      let* signer := load_key zone_name key_config in
      let* authority := lift (add_key authority signer) in
      load_keys zone_name keys authority
  end.

(** ** Zones *)

(** [Journal::from_file(&journal_path)]; the file is there from then on. *)
Definition open_journal (what : string) (journal_path : Path) : M World load_error Journal := λ w,
  match Journal_from_file (opened w journal_path) with
  | Ok journal => (Ok journal, <[journal_path := Database (j_conn journal)]> w)
  | r => (map_err (LoadPersistence what) r, w)
  end.

(** The zone is the one the journal ends with; [fuel] bounds the number of its rows. *)
Definition recover_zone (fuel : nat) (journal_path : Path) (zone_name : Name) (zone_config : ZoneConfig) :
    M World load_error Authority :=
  let* journal := open_journal "error opening journal" journal_path in
  let authority := Authority_new zone_name [] (zc_zone_type zone_config)
    (ZoneConfig_is_update_allowed zone_config) (ZoneConfig_is_dnssec_enabled zone_config) in
  match Authority_recover_with_journal fuel journal authority with
  | (Ok _, authority) => ret (Authority_journal authority journal)
  | (Err e, _) => fail (LoadPersistence "error recovering from journal" e)
  | (Panic, _) => panic
  | (Diverge, _) => diverge
  end.

(** [File::open] and [read_to_string], which wants UTF-8, and [parse_file]. *)
Definition read_zone (zone_path : Path) (zone_name : Name) (zone_config : ZoneConfig) : M World load_error Authority :=
  let* buf := read_file "error opening zone file" zone_path in
  if valid_utf8 buf then
    lift (map_err (LoadParse "error reading zone")
            (parse_file buf (Some zone_name) (zc_zone_type zone_config)
               (ZoneConfig_is_update_allowed zone_config) (ZoneConfig_is_dnssec_enabled zone_config)))
  else fail (LoadMessage "error reading zone").

(** The journal that a zone from a file starts with. *)
Definition start_journal (journal_path : Path) (authority : Authority) : M World load_error Authority :=
  let* journal := open_journal "error creating journal" journal_path in
  match Authority_persist_to_journal (Authority_journal authority journal) with
  | (Ok _, authority) =>
      match a_journal authority with
      | Some journal => put_file journal_path (Database (j_conn journal)) ;;; ret authority
      | None => ret authority
      end
  | (Err e, _) => fail (LoadPersistence "error persisting to journal" e)
  | (Panic, _) => panic
  | (Diverge, _) => diverge
  end.

(** The key of earlier versions, beside the zone file. *)
Definition original_key (zone_name : Name) (zone_path : Path) : KeyConfig :=
  KeyConfig_new (Path_to_string (Path_with_extension zone_path (bytes_of_str "key"))) None Algorithm.RSASHA256
    (Name_to_string zone_name) true true true.

Definition zone_keys (zone_name : Name) (zone_path : Path) (zone_config : ZoneConfig) : list KeyConfig :=
  match zc_keys zone_config with [] => [original_key zone_name zone_path] | keys => keys end.

Definition load_zone (fuel : nat) (zone_dir : Path) (zone_config : ZoneConfig) : M World load_error Authority :=
  let* zone_name := lift (match ZoneConfig_get_zone zone_config with Ok n => Ok n | Diverge => Diverge | _ => Panic end) in
  let zone_path := Path_join zone_dir (ZoneConfig_get_file zone_config) in
  let journal_path := Path_with_extension zone_path (bytes_of_str "jrnl") in
  let* has_journal := exists_path journal_path in
  let* has_zone := exists_path zone_path in
  let* authority :=
    (if ZoneConfig_is_update_allowed zone_config && has_journal then
       recover_zone fuel journal_path zone_name zone_config
     else if has_zone : bool then
       let* authority := read_zone zone_path zone_name zone_config in
       if ZoneConfig_is_update_allowed zone_config then start_journal journal_path authority else ret authority
     else fail (LoadMessage "no zone file defined")) in
  if ZoneConfig_is_dnssec_enabled zone_config then load_keys zone_name (zone_keys zone_name zone_path zone_config) authority
  else ret authority.

(** ** The part of [main] that fills the catalog *)

Fixpoint load_zones (fuel : nat) (zone_dir : Path) (zones : list ZoneConfig) (catalog : Catalog) :
    M World load_error Catalog := λ w,
  match zones with
  | [] => (Ok catalog, w)
  | zone :: zones =>
      match ZoneConfig_get_zone zone with
      | Ok zone_name =>
          match load_zone fuel zone_dir zone w with
          | (Ok authority, w) => load_zones fuel zone_dir zones (Catalog_upsert catalog zone_name authority) w
          | (Err _, w) => load_zones fuel zone_dir zones catalog w
          | (Panic, w) => (Panic, w)
          | (Diverge, w) => (Diverge, w)
          end
      | Diverge => (Diverge, w)
      | _ => (Panic, w)
      end
  end.

(** The addresses to listen on: all that are configured, or every IPv4 address. *)
Definition listen_addrs (config : Config) : res parse_error (list (Ipv4Addr + Ipv6Addr)) :=
  try* v4addr := Config_get_listen_addrs_ipv4 config in
  try* v6addr := Config_get_listen_addrs_ipv6 config in
  match (inl <$> v4addr) ++ (inr <$> v6addr) with
  | [] => Ok [inl (mkIpv4 0 0 0 0)]
  | addrs => Ok addrs
  end.

(** ** Keys *)

(** What a key is configured for is not what it is used for: whatever the configuration says, a key that is
    loaded signs as RSASHA256, signs the zone and authorises updates; only its name is the
    configured one, or the zone's. *)
Theorem load_key_ignores_config zone_name key_config w signer w' :
  load_key zone_name key_config w = (Ok signer, w') →
  s_algorithm signer = Algorithm.RSASHA256 ∧ s_is_zone_signing_key signer = true ∧
  s_is_zone_update_auth signer = true ∧
  ∃ name, KeyConfig_get_signer_name key_config = Ok name ∧ s_signer_name signer = default zone_name name.
Proof.
  unfold load_key. intros H. do 4 (apply bind_Ok_inv in H as (? & ? & _ & H)).
  apply bind_Ok_inv in H as (name & w1 & Hn & [= <- _]). split_and!; try done. exists name. split; [|done].
  unfold lift, map_err in Hn. by destruct (KeyConfig_get_signer_name key_config); simplify_eq.
Qed.

(** ** No signatures *)

Definition unsigned (m : BTreeMap RrKey RecordSet) : Prop := Forall (λ x, rs_rrsigs x.2 = []) m.

Lemma insert_replace_unsigned {E} js r serial s b x :
  insert_replace (E:=E) js r serial s b = Ok x → rs_rrsigs s = [] →
  match x with inl s' => rs_rrsigs s' = [] | inr (_, s') => rs_rrsigs s' = [] end.
Proof.
  revert s b. induction js as [|i js IH]; intros s b; cbn [insert_replace]; [by intros [= <-]|].
  intros H Hs. repeat case_match; try done; unfold rbind in H; repeat case_match; simplify_eq; try done; by eapply IH.
Qed.

Lemma insert_rdata_unsigned {E} s r serial b s' :
  insert_rdata (E:=E) s r serial = Ok (b, s') → rs_rrsigs s = [] → rs_rrsigs s' = [].
Proof.
  unfold insert_rdata. destruct (insert_replace _ r serial s false) as [x| | |] eqn:E1; try done. cbn [rbind]. intros H Hs.
  apply insert_replace_unsigned in E1; [|done]. destruct x as [s1|[[] s1]]; simpl in *; simplify_eq; done.
Qed.

Lemma insert_unsigned {E} s r serial b s' :
  RecordSet_insert (E:=E) s r serial = Ok (b, s') → rs_rrsigs s = [] → rs_rrsigs s' = [].
Proof.
  unfold RecordSet_insert. intros H Hs. repeat case_match; simplify_eq; try done;
    eapply insert_rdata_unsigned; try exact H; done.
Qed.

Lemma get_unsigned k m s : unsigned m → BTreeMap_get k m = Some s → rs_rrsigs s = [].
Proof.
  intros Hm. induction Hm as [|[k' s'] m Hs _ IH]; [done|]. simpl in *. destruct (cmp k k'); [|done|done].
  by intros [= <-].
Qed.

Lemma set_unsigned k s m : unsigned m → rs_rrsigs s = [] → unsigned (BTreeMap_set k s m).
Proof. intros Hm Hs. by apply Forall_set. Qed.

Lemma default_unsigned k m n t serial : unsigned m →
  rs_rrsigs (default (RecordSet_new n t serial) (BTreeMap_get k m)) = [].
Proof. intros Hm. destruct (BTreeMap_get k m) as [s|] eqn:E; [by eapply get_unsigned|done]. Qed.

Lemma add_record_unsigned t r m m' : add_record t r m = Ok m' → unsigned m → unsigned m'.
Proof.
  unfold add_record. intros H Hm.
  assert (Hins : (try* r0 := RecordSet_insert (E:=parse_error)
    (default (RecordSet_new (r_name_labels r) (r_rr_type r) 0) (BTreeMap_get (RrKey_new (r_name_labels r) (r_rr_type r)) m)) r 0 in
     Ok (BTreeMap_set (RrKey_new (r_name_labels r) (r_rr_type r)) r0.2 m)) = Ok m' → unsigned m').
  { clear H. destruct (RecordSet_insert _ r 0) as [[b s]| | |] eqn:E; try done. cbn [rbind snd]. intros [= <-].
    apply set_unsigned; [done|]. eapply insert_unsigned; [exact E|]. by apply default_unsigned. }
  destruct t; try (by apply Hins). case_match; simplify_eq. by apply set_unsigned.
Qed.

Lemma parse_step_unsigned p t p' : parse_step p t = Ok p' → unsigned (ps_records p) → unsigned (ps_records p').
Proof.
  unfold parse_step, start_line, ttl_class_type, end_record. intros H Hm.
  destruct (ps_state p); try done;
    repeat (unfold rbind in H; case_match; simplify_eq; try done). simpl. by eapply add_record_unsigned.
Qed.

Lemma parse_loop_unsigned fuel lx p o m : parse_loop fuel lx p = Ok (o, m) → unsigned (ps_records p) → unsigned m.
Proof.
  revert lx p. induction fuel as [|fuel IH]; intros lx p; cbn [parse_loop]; [done|].
  destruct (next_token lx) as [[[t|]|e| |] lx']; try done.
  - destruct (parse_step p t) as [p'| | |] eqn:E; try done. cbn [rbind]. intros H Hm. eapply IH; [exact H|].
    by eapply parse_step_unsigned.
  - unfold parse_finish. destruct (ps_origin p); [|done]. by intros [= _ <-].
Qed.

Lemma upsert_unsigned {E} a r serial b a' :
  Authority_upsert (E:=E) a r serial = Ok (b, a') → unsigned (a_records a) → unsigned (a_records a').
Proof.
  unfold Authority_upsert. intros H Hm. case_decide; [|done].
  destruct (RecordSet_insert _ r serial) as [[b' s]| | |] eqn:E1; try done. cbn [rbind] in H. simplify_eq. cbn.
  apply set_unsigned; [done|]. eapply insert_unsigned; [exact E1|]. by apply default_unsigned.
Qed.

(** A key adds its DNSKEY record, and no signature. *)
Lemma add_key_ok a signer a' : add_key a signer = Ok a' → a_class a = DNSClass.IN → zone_ok a → unsigned (a_records a) →
  zone_ok a' ∧ unsigned (a_records a') ∧ a_class a' = DNSClass.IN.
Proof.
  unfold add_key, Authority_add_secure_key, step. intros H Hc Hz Hu.
  destruct (KeyPair_to_dnskey _ _) as [dnskey| | |]; try done.
  destruct (Authority_get_serial a) as [serial| | |]; try done. cbn [rbind] in H.
  set (r := Record_from_rdata _ _ _ _) in H.
  destruct (upsert_ok (E:=dnssec_error) a r serial Hz) as (b & s & Hup & Hok & _); [by split|].
  pose proof (upsert_unsigned _ _ _ _ _ Hup Hu) as Hun. rewrite Hup in H. cbn in H. simplify_eq. done.
Qed.

Lemma load_keys_ok zone_name keys a w a' w' :
  load_keys zone_name keys a w = (Ok a', w') → a_class a = DNSClass.IN → zone_ok a → unsigned (a_records a) →
  zone_ok a' ∧ unsigned (a_records a').
Proof.
  revert a w. induction keys as [|kc keys IH]; intros a w; cbn [load_keys]; [by intros [= <- _]|].
  intros H Hc Hz Hu. apply bind_Ok_inv in H as (signer & w1 & _ & H). apply bind_Ok_inv in H as (a1 & w2 & Ha & H).
  unfold lift in Ha. injection Ha as Ha <-. apply add_key_ok in Ha as (Hz1 & Hu1 & Hc1); [|done..].
  by eapply IH.
Qed.

(** ** Zones *)

Lemma parse_file_facts buf origin zone_type allow_update dnssec a :
  parse_file buf origin zone_type allow_update dnssec = Ok a →
  zone_ok a ∧ unsigned (a_records a) ∧ a_class a = DNSClass.IN ∧ a_journal a = None.
Proof.
  unfold parse_file. pose proof (Parser_parse_ok buf origin) as Hok.
  destruct (Parser_parse (Lexer_new buf) origin) as [[o m]| | |] eqn:E; try done. cbn [rbind]. intros [= <-].
  split; [exact Hok|]. split; [|done]. unfold Parser_parse in E. eapply parse_loop_unsigned; [exact E|constructor].
Qed.

Lemma read_zone_facts p n zc w a w' : read_zone p n zc w = (Ok a, w') →
  w' = w ∧ zone_ok a ∧ unsigned (a_records a) ∧ a_class a = DNSClass.IN ∧ a_journal a = None.
Proof.
  unfold read_zone. intros (buf & w1 & Hr & H)%bind_Ok_inv.
  assert (w1 = w) as ->. { unfold read_file in Hr. repeat case_match; by simplify_eq. }
  destruct (valid_utf8 buf); [|done]. unfold lift, map_err in H.
  destruct (parse_file buf _ _ _ _) as [a1| | |] eqn:E; try done. simplify_eq. split; [done|]. by eapply parse_file_facts.
Qed.

Lemma persist_same_records a r a' : Authority_persist_to_journal a = (r, a') →
  a_records a' = a_records a ∧ a_class a' = a_class a.
Proof.
  unfold Authority_persist_to_journal. destruct (a_journal a); [|by intros [= _ <-]].
  destruct (Authority_get_serial a); try (by intros [= _ <-]).
  destruct (Journal_insert_records _ _ _) as [r1 j1]. by intros [= _ <-].
Qed.

Lemma start_journal_facts p a w a' w' : start_journal p a w = (Ok a', w') →
  a_records a' = a_records a ∧ a_class a' = a_class a.
Proof.
  unfold start_journal. intros (j & w1 & _ & H)%bind_Ok_inv.
  destruct (Authority_persist_to_journal (Authority_journal a j)) as [[u| | |] a1] eqn:E; try done.
  apply persist_same_records in E. destruct (a_journal a1); [|by injection H as <- _].
  apply bind_Ok_inv in H as (? & ? & _ & [= <- _]). done.
Qed.

(** Where [load_zone] looks. *)
Definition zone_path_of (zone_dir : Path) (zc : ZoneConfig) : Path := Path_join zone_dir (ZoneConfig_get_file zc).
Definition journal_path_of (zone_dir : Path) (zc : ZoneConfig) : Path :=
  Path_with_extension (zone_path_of zone_dir zc) (bytes_of_str "jrnl").

(** A zone that is loaded from its file is served without signatures, even when it is configured to be
    signed: its keys are added, but the zone is not signed before its first update.  It is
    well-formed in any case. *)
Theorem load_zone_unsigned fuel zone_dir zc w a w' :
  load_zone fuel zone_dir zc w = (Ok a, w') →
  ZoneConfig_is_update_allowed zc = false ∨ w !! journal_path_of zone_dir zc = None →
  zone_ok a ∧ Forall (λ x, rs_rrsigs x.2 = []) (a_records a).
Proof.
  unfold load_zone. intros H Hno. apply bind_Ok_inv in H as (zone_name & w1 & Hn & H).
  unfold lift in Hn. injection Hn as _ <-. fold (zone_path_of zone_dir zc) in H. fold (journal_path_of zone_dir zc) in H.
  unfold bind at 1, exists_path, gets in H. unfold bind at 1 in H.
  assert (Hf : ZoneConfig_is_update_allowed zc && bool_decide (is_Some (w !! journal_path_of zone_dir zc)) = false).
  { destruct Hno as [-> | ->]; [done|]. rewrite bool_decide_eq_false_2 by (by intros []). by rewrite andb_false_r. }
  rewrite Hf in H. apply bind_Ok_inv in H as (a1 & w2 & H1 & H).
  assert (Ha1 : zone_ok a1 ∧ unsigned (a_records a1) ∧ a_class a1 = DNSClass.IN).
  { destruct (bool_decide (is_Some (w !! zone_path_of zone_dir zc))); [|done].
    apply bind_Ok_inv in H1 as (a0 & w0 & Hr & H1). apply read_zone_facts in Hr as (-> & Hz & Hu & Hc & _).
    destruct (ZoneConfig_is_update_allowed zc).
    - apply start_journal_facts in H1 as [Hr1 Hc1]. unfold zone_ok in *. by rewrite Hr1, Hc1.
    - by injection H1 as <- _. }
  destruct Ha1 as (Hz & Hu & Hc). destruct (ZoneConfig_is_dnssec_enabled zc).
  - by eapply load_keys_ok.
  - by injection H as <- _.
Qed.
End load.

(** ** Starting again *)

Section restart.
Context `{N : Numeric} `{L : Lowercase} `{HO : HashOrder} `{C : Crypto} `{KF : !KeyFiles} `{SL : SqliteLaws}
  `{SS : !SqliteSchema} `{SCL : !SchemaLaws} `{CK : Clock} `{D : !Disk}.

(** A database keeps what was put in it: a new file is an empty database, one that is opened again
    has its tables and rows, and inserting a record leaves the version alone. *)
Class DiskLaws : Prop := {
  dl_rows c : rows c = db_rows c;
  dl_insert c s b n c' : execute_insert c s b = (Some n, c') → db_schema c' = db_schema c;
  dl_new : ∃ c, open_database None = Some c ∧ db_schema c = None ∧ db_changes c = 0 ∧ db_records c = false ∧
    db_rows c = [];
  dl_again c : ∃ c', open_database (Some c) = Some c' ∧ db_schema c' = db_schema c ∧ db_rows c' = db_rows c;
}.
Context `{DL : !DiskLaws}.

Lemma insert_records_schema serial rs j j' :
  Journal_insert_records serial rs j = (Ok (), j') → db_schema (j_conn j') = db_schema (j_conn j) ∧ j_version j' = j_version j.
Proof.
  revert j. induction rs as [|r rs IH]; intros j; [by intros [= <-]|].
  intros ([] & j1 & H1 & H2)%bind_Ok_inv. apply IH in H2 as [-> ->]. unfold Journal_insert_record in H1.
  destruct (j_version j =? CURRENT_VERSION); [|done]. destruct (Record_emit r (BinEncoder_new [])) as [[] e]; try done.
  destruct (execute_insert (j_conn j) serial (ebuf e)) as [[n|] c] eqn:E; [|done].
  apply dl_insert in E. injection H1 as _ <-. done.
Qed.

(** The journal of a zone that had none. *)
Lemma open_journal_new (what : string) (p : Path) (w : gmap Path File) : w !! p = None →
  ∃ j, open_journal what p w = (Ok j, <[p := Database (j_conn j)]> w) ∧ journal_holds j [] ∧
    db_schema (j_conn j) = Some [1].
Proof.
  intros Hw. destruct dl_new as (c & Ho & Hs & Hch & Hr & Hrows).
  destruct (journal_from_file_ok c) as (j & Hj & Hv & Hs' & Hrows' & _); [by left|].
  exists j. unfold open_journal, opened. rewrite Hw, Ho, Hj. split; [done|]. split; [|done].
  split; [done|]. rewrite dl_rows, Hrows', Hrows. constructor.
Qed.

(** The journal of a zone that has one. *)
Lemma open_journal_again (what : string) (p : Path) (w : gmap Path File) j rs :
  w !! p = Some (Database (j_conn j)) → journal_holds j rs → db_schema (j_conn j) = Some [1] →
  ∃ j' w', open_journal what p w = (Ok j', w') ∧ journal_holds j' rs.
Proof.
  intros Hw [_ Hrows] Hs. destruct (dl_again (j_conn j)) as (c & Ho & Hs' & Hr').
  destruct (journal_from_file_ok c) as (j' & Hj & Hv & _ & Hrows' & _); [right; congruence|].
  exists j', (<[p := Database (j_conn j')]> w). unfold open_journal, opened. rewrite Hw, Ho, Hj. split; [done|].
  split; [done|]. by rewrite dl_rows, Hrows', Hr', <-dl_rows.
Qed.

(** C30: The server can be started again: a zone that takes updates, is not signed (no
    DNSSEC in its configuration, so that no keys are loaded after it) and was loaded
    from its file is loaded from its journal the next time, with the same records, when
    they can be written to a journal. *)
Theorem load_zone_restart (fuel : nat) (zone_dir : Path) (zc : ZoneConfig) (w : gmap Path File) (a : Authority) w1 :
  ZoneConfig_is_update_allowed zc = true → ZoneConfig_is_dnssec_enabled zc = false →
  w !! journal_path_of zone_dir zc = None →
  load_zone fuel zone_dir zc w = (Ok a, w1) →
  Forall journalable (zone_records a) → (length (zone_records a) + 1 < fuel)%nat →
  ∃ b w2, load_zone fuel zone_dir zc w1 = (Ok b, w2) ∧ zone_ok b ∧ zone_records b = zone_records a.
Proof.
  intros Hup Hdn Hno Hl Hall Hlen. unfold load_zone in *.
  fold (zone_path_of zone_dir zc) in *. fold (journal_path_of zone_dir zc) in *. rewrite Hup, Hdn in *.
  apply bind_Ok_inv in Hl as (zone_name & w0 & Hn & Hl). unfold lift in Hn. injection Hn as Hn <-.
  unfold bind at 1, exists_path, gets in Hl. unfold bind at 1 in Hl.
  rewrite Hno, (bool_decide_eq_false_2 (is_Some None)) in Hl by (by intros []). cbn [andb] in Hl.
  apply bind_Ok_inv in Hl as (a1 & w2 & Hl & [= -> ->]).
  destruct (bool_decide (is_Some (w !! zone_path_of zone_dir zc))); [|done].
  apply bind_Ok_inv in Hl as (a0 & w3 & Hr & Hl). apply read_zone_facts in Hr as (-> & Hz0 & _ & _ & Hj0).
  unfold start_journal in Hl. destruct (open_journal_new "error creating journal" _ _ Hno) as (j & Ho & Hh & Hs).
  apply bind_Ok_inv in Hl as (j1 & w4 & Ho' & Hl). rewrite Ho in Ho'. injection Ho' as <- <-.
  destruct (Authority_persist_to_journal (Authority_journal a0 j)) as [[[]| | |] a2] eqn:Hp; try done.
  pose proof (persist_same_records _ _ _ Hp) as [Hsame _]. cbn in Hsame.
  assert (Hrec : zone_records a2 = zone_records a0) by (unfold zone_records; by rewrite Hsame).
  assert (Ha : a = a2) by (destruct (a_journal a2); [by apply bind_Ok_inv in Hl as (? & ? & _ & [= <- _])|by injection Hl as <- _]).
  subst a2. rewrite Hrec in *. change (zone_records a0) with (zone_records (Authority_journal a0 j)) in *.
  destruct (persist_holds (Authority_journal a0 j) a j eq_refl Hh Hall Hp) as (serial & j' & Hins & Hj' & Hh').
  rewrite Hj' in Hl. apply bind_Ok_inv in Hl as (? & w5 & [= _ <-] & [= <-]).
  apply insert_records_schema in Hins as [Hs' _].
  destruct (open_journal_again "error opening journal" (journal_path_of zone_dir zc)
    (<[journal_path_of zone_dir zc := Database (j_conn j')]> (<[journal_path_of zone_dir zc := Database (j_conn j)]> w)) j'
    (axfr_marker :: zone_records (Authority_journal a0 j))) as (j2 & w6 & Ho2 & Hh2);
    [apply lookup_insert_eq|done|congruence|].
  destruct (recover_held (Authority_journal a0 j) j2 zone_name (zc_zone_type zc) true fuel Hz0 Hall Hh2 Hlen)
    as (b & Hb & Hzb & Hrb & _).
  exists (Authority_journal b j2), w6. split; [|done].
  unfold bind at 1, lift. rewrite Hn. unfold bind at 1, exists_path, gets. unfold bind at 1.
  rewrite lookup_insert_eq, (bool_decide_eq_true_2 (is_Some (Some _))) by (by eexists). cbn [andb].
  unfold recover_zone, bind. rewrite Ho2, Hup, Hdn, Hb. done.
Qed.
End restart.

(** ** Instances *)

Section instances.
#[local] Existing Instance ascii_numeric.
#[local] Existing Instance ascii_lowercase.
#[local] Existing Instance list_hash_order.
#[local] Existing Instance toy_crypto.
#[local] Existing Instance toy_key_files.
#[local] Existing Instance schema_sqlite.
#[local] Existing Instance schema_sqlite_laws.
#[local] Existing Instance toy_schema.
#[local] Existing Instance toy_schema_laws.
#[local] Existing Instance fixed_clock.

(** A disk where nothing fails; a connection that is opened has no count. *)
Definition toy_disk : Disk :=
  @Build_Disk schema_sqlite (λ _, true) (λ _, true) (λ _, true) (λ _, true)
    (λ c : option toy_db, Some (match c with Some (v, r, _) => (v, r, 0) | None => new_db end)).
#[local] Existing Instance toy_disk.

Lemma toy_disk_laws : DiskLaws.
Proof.
  split.
  - done.
  - intros [[v [r|]] n] s b k c'; intros [= <- <-]. done.
  - by exists new_db.
  - intros [[v r] n]. by exists (v, r, 0).
Qed.

(** The zone [a.] with a SOA and an address. *)
Definition ex_zone_file : bytes := bytes_of_str "@ 60 IN SOA a. a. (10 1 2 3 4)
b A 1.2.3.4
".
Definition ex_key_config : KeyConfig :=
  mkKeyConfig (bytes_of_str "k.der") None (bytes_of_str "RSASHA512") None (Some false) (Some false) (Some true).
Definition ex_zone_config (update dnssec : bool) : ZoneConfig :=
  mkZoneConfig (bytes_of_str "a.") Master (bytes_of_str "a.zone") (Some update) (Some dnssec) [ex_key_config].
Definition ex_dir : Path := Path_new (bytes_of_str "/etc/zones").
Definition ex_disk : gmap Path File := {[ Path_new (bytes_of_str "/etc/zones/a.zone") := Contents ex_zone_file ]}.

Definition loaded {E A W : Type} (r : res E A * W) : bool := if r.1 is Ok _ then true else false.

Lemma loaded_eq {E A W : Type} (r : res E A * W) (d : A) :
  loaded r = true → r = (Ok (match r.1 with Ok a => a | _ => d end), r.2).
Proof. by destruct r as [[] w]. Qed.

Definition ex_loaded (update dnssec : bool) : res load_error Authority * gmap Path File :=
  load_zone 9 ex_dir (ex_zone_config update dnssec) ex_disk.

(** A key that was configured for another algorithm, and for nothing. *)
Definition ex_signer : Signer :=
  match (load_key ex_zone ex_key_config ex_disk).1 with Ok s => s | _ => toy_signer end.
Definition ex_disk' : gmap Path File := (load_key ex_zone ex_key_config ex_disk).2.

Lemma ex_signer_loaded : load_key ex_zone ex_key_config ex_disk = (Ok ex_signer, ex_disk').
Proof. apply (loaded_eq _ toy_signer). by vm_compute. Qed.

Lemma load_key_ignores_config_witness :
  load_key ex_zone ex_key_config ex_disk = (Ok ex_signer, ex_disk') ∧
  KeyConfig_get_algorithm ex_key_config = Ok Algorithm.RSASHA512 ∧ s_algorithm ex_signer = Algorithm.RSASHA256 ∧
  s_is_zone_update_auth ex_signer = true.
Proof.
  destruct (load_key_ignores_config ex_zone ex_key_config ex_disk ex_signer ex_disk' ex_signer_loaded) as (Ha & _ & Hu & _).
  split; [exact ex_signer_loaded|]. split; [vm_compute; reflexivity|]. by split.
Defined.

Definition empty_zone : Authority := Authority_new ex_zone [] Master false false.

(** A zone that was configured to be signed. *)
Definition ex_secured : Authority := match (ex_loaded false true).1 with Ok a => a | _ => empty_zone end.

Lemma ex_secured_loaded :
  load_zone 9 ex_dir (ex_zone_config false true) ex_disk = (Ok ex_secured, (ex_loaded false true).2).
Proof. apply (loaded_eq (ex_loaded false true) empty_zone). by vm_compute. Qed.

Lemma load_zone_unsigned_witness :
  load_zone 9 ex_dir (ex_zone_config false true) ex_disk = (Ok ex_secured, (ex_loaded false true).2) ∧
  a_is_dnssec_enabled ex_secured = true ∧ length (a_secure_keys ex_secured) = 1%nat ∧
  Forall (λ x, rs_rrsigs x.2 = []) (a_records ex_secured).
Proof.
  pose proof (load_zone_unsigned 9 ex_dir (ex_zone_config false true) ex_disk _ _ ex_secured_loaded (or_introl eq_refl)) as H.
  split; [exact ex_secured_loaded|]. split; [vm_compute; reflexivity|]. split; [vm_compute; reflexivity|]. apply H.
Defined.

Definition ex_first : Authority := match (ex_loaded true false).1 with Ok a => a | _ => empty_zone end.

Lemma ex_first_loaded :
  load_zone 9 ex_dir (ex_zone_config true false) ex_disk = (Ok ex_first, (ex_loaded true false).2).
Proof. apply (loaded_eq (ex_loaded true false) empty_zone). by vm_compute. Qed.

Definition ex_soa_record : RRecord :=
  mkRecord ex_zone RecordType.SOA DNSClass.IN 3 (RData.SOA (mkSOA ex_zone ex_zone 10 1 2 3 4)).
Definition ex_a_record : RRecord :=
  mkRecord (mkName [[98]; [97]]) RecordType.A DNSClass.IN 60 (RData.A (mkIpv4 1 2 3 4)).

Lemma ex_first_records : zone_records ex_first = [ex_soa_record; ex_a_record].
Proof. by_decision. Qed.

Lemma ex_records_journalable : Forall journalable [ex_soa_record; ex_a_record].
Proof.
  apply Forall_cons; split; [|apply Forall_singleton]; (split; [by_decision|by split_and!]).
Qed.

Lemma load_zone_restart_witness :
  ∃ b w2, load_zone 9 ex_dir (ex_zone_config true false) (ex_loaded true false).2 = (Ok b, w2) ∧
    zone_records b = zone_records ex_first.
Proof.
  destruct (load_zone_restart (DL:=toy_disk_laws) 9 ex_dir (ex_zone_config true false) ex_disk ex_first
    (ex_loaded true false).2) as (b & w2 & Hl & _ & Hr).
  - reflexivity.
  - reflexivity.
  - vm_compute. reflexivity.
  - exact ex_first_loaded.
  - rewrite ex_first_records. exact ex_records_journalable.
  - rewrite ex_first_records. simpl. lia.
  - exists b, w2. by split.
Defined.
End instances.
