(* ===== verification/Certificate.v ===== *)
(** * Certificate: the certificate of the TLS listener

    [read_cert] and [load_cert] of [server/src/named.rs] with [TlsCertConfig] of [server/src/config.rs]: the
    PKCS #12 file is read, or a key and a self-signed certificate are made and written first.
    What [openssl] and [native_tls] do is the class [X509Lib], call by call. *)

From S2P Require Import Prelude Codec Wire Domain Enums Header RData Resource Message RecordSet.
From S2P Require Import KeyPair Signer Update BTree Journal Authority Catalog Text Lexer Master Schema KeyFormat Named.

Open Scope Z_scope.

(** ** The libraries *)

(** [None] is an error; a builder that is changed in place is returned. *)
Class X509Lib `{Crypto} := {
  X509Name : Type;
  X509NameBuilder : Type;
  X509Builder : Type;
  X509Extension : Type;
  X509 : Type;
  Asn1Time : Type;
  (** [openssl::pkcs12::Pkcs12] and [native_tls::Pkcs12] *)
  Pkcs12Archive : Type;
  Pkcs12 : Type;
  X509NameBuilder_new : option X509NameBuilder;
  append_common_name : X509NameBuilder → bytes → option X509NameBuilder;
  X509NameBuilder_build : X509NameBuilder → X509Name;
  X509_builder : option X509Builder;
  days_from_now : Z → option Asn1Time;
  set_not_before : Asn1Time → X509Builder → option X509Builder;
  set_not_after : Asn1Time → X509Builder → option X509Builder;
  set_issuer_name : X509Name → X509Builder → option X509Builder;
  set_subject_name : X509Name → X509Builder → option X509Builder;
  set_pubkey : PKey → X509Builder → option X509Builder;
  (** with [server_auth] and [client_auth] *)
  ExtendedKeyUsage_build : bool → bool → option X509Extension;
  SubjectKeyIdentifier_build : X509Builder → option X509Extension;
  (** with [keyid] *)
  AuthorityKeyIdentifier_build : bool → X509Builder → option X509Extension;
  (** [critical] and [ca] *)
  BasicConstraints_build : bool → bool → option X509Extension;
  append_extension : X509Extension → X509Builder → option X509Builder;
  X509Builder_sign : PKey → MessageDigest → X509Builder → option X509Builder;
  X509Builder_build : X509Builder → X509;
  X509_to_der : X509 → option bytes;
  Pkcs12_build : bytes → bytes → PKey → X509 → option Pkcs12Archive;
  Pkcs12_to_der : Pkcs12Archive → option bytes;
  Pkcs12_from_der : bytes → bytes → option Pkcs12;
}.

Definition TlsCertConfig_get_path (self : TlsCertConfig) : Path := Path_new (tc_path self).
Definition TlsCertConfig_get_password (self : TlsCertConfig) : option bytes := tc_password self.
Definition TlsCertConfig_create_if_absent (self : TlsCertConfig) : bool := default false (tc_create_if_absent self).
Definition TlsCertConfig_get_subject_name (self : TlsCertConfig) : bytes := tc_subject_name self.

Section certificate.
Context `{C : Crypto} `{KF : !KeyFiles} `{XL : !X509Lib} `{SQ : Sqlite} `{D : !Disk}.
Abbreviation World := (gmap Path File).

(** ** Operations *)

Definition read_cert (path : Path) (password : option bytes) : M World load_error Pkcs12 :=
  let* key_bytes := read_file "error opening pkcs12 cert file" path in
  match Pkcs12_from_der key_bytes (default [] password) with
  | Some pkcs12 => ret pkcs12
  | None => fail (LoadMessage "badly formated pkcs12 key")
  end.

(** The certificate, signed with its own key; every call is unwrapped. *)
Definition self_signed_cert (subject_name : bytes) (pkey : PKey) : res load_error X509 :=
  try* x509_name := expect X509NameBuilder_new in
  try* x509_name := expect (append_common_name x509_name subject_name) in
  let x509_name := X509NameBuilder_build x509_name in
  try* x509_build := expect X509_builder in
  try* now := expect (days_from_now 0) in
  try* x509_build := expect (set_not_before now x509_build) in
  try* later := expect (days_from_now 256) in
  try* x509_build := expect (set_not_after later x509_build) in
  try* x509_build := expect (set_issuer_name x509_name x509_build) in
  try* x509_build := expect (set_subject_name x509_name x509_build) in
  try* x509_build := expect (set_pubkey pkey x509_build) in
  try* ext_key_usage := expect (ExtendedKeyUsage_build true true) in
  try* x509_build := expect (append_extension ext_key_usage x509_build) in
  try* subject_key_identifier := expect (SubjectKeyIdentifier_build x509_build) in
  try* x509_build := expect (append_extension subject_key_identifier x509_build) in
  try* authority_key_identifier := expect (AuthorityKeyIdentifier_build true x509_build) in
  try* x509_build := expect (append_extension authority_key_identifier x509_build) in
  try* basic_constraints := expect (BasicConstraints_build true true) in
  try* x509_build := expect (append_extension basic_constraints x509_build) in
  try* x509_build := expect (X509Builder_sign pkey Sha256 x509_build) in
  Ok (X509Builder_build x509_build).

(** [write_all(..).or_else(|_| fs::remove_file(..))] after [File::create]; [on_error] is what an
    error of either becomes. *)
Definition write_new (path : Path) (contents : bytes) (create_error write_error : M World load_error ()) :
    M World load_error () :=
  if can_create path then
    put_file path (Contents []) ;;;
    (if can_write path then put_file path (Contents contents)
     else if can_remove path then λ w, (Ok (), delete path w)
     else write_error)
  else create_error.

(** The branch that makes a key and its certificate. *)
Definition create_cert (path : Path) (password : option bytes) (subject_name : bytes) : M World load_error () :=
  let* key_pair := lift (map_err (LoadDnsSec "error generating key") (KeyPair_generate Algorithm.RSASHA256)) in
  match key_pair with
  | KeyPair.RSA pkey =>
      let* cert := lift (self_signed_cert subject_name pkey) in
      let cert_path := Path_with_extension path (bytes_of_str "cert") in
      let* cert_exists := exists_path cert_path in
      if cert_exists : bool then fail (LoadMessage "certificate file exists")
      else
        let* cert_der := lift (expect (X509_to_der cert)) in
        write_new cert_path cert_der panic panic ;;;
        let* pkcs12 := lift (expect (Pkcs12_build (default [] password) subject_name pkey cert)) in
        let* pkcs12_der := lift (expect (Pkcs12_to_der pkcs12)) in
        write_new path pkcs12_der (fail (LoadMessage "error creating pkcs12 file"))
          (fail (LoadMessage "error writing pkcs12 cert file"))
  | _ => panic
  end.

Definition load_cert (tls_cert_config : TlsCertConfig) : M World load_error Pkcs12 :=
  let path := TlsCertConfig_get_path tls_cert_config in
  let password := TlsCertConfig_get_password tls_cert_config in
  let subject_name := TlsCertConfig_get_subject_name tls_cert_config in
  let* path_exists := exists_path path in
  if path_exists : bool then read_cert path password
  else if TlsCertConfig_create_if_absent tls_cert_config then
    create_cert path password subject_name ;;;
    read_cert path password
  else fail (LoadMessage "TLS certificate not found").

(** ** What the disk holds afterwards *)

Definition cert_path_of (path : Path) : Path := Path_with_extension path (bytes_of_str "cert").

(** Only these files differ. *)
Definition differ_at (ps : list Path) (w w' : World) : Prop := ∀ p, p ∉ ps → w' !! p = w !! p.

Lemma differ_at_trans ps qs w1 w2 w3 :
  differ_at ps w1 w2 → differ_at qs w2 w3 → differ_at (ps ++ qs) w1 w3.
Proof. intros H1 H2 p Hp. rewrite H2, H1 by set_solver. done. Qed.

Lemma read_file_world what p w r w' : read_file what p w = (r, w') → w' = w.
Proof. unfold read_file. repeat case_match; by intros [= _ <-]. Qed.

Lemma read_cert_world path password w r w' : read_cert path password w = (r, w') → w' = w.
Proof.
  unfold read_cert, bind. destruct (read_file _ _ w) as [r1 w1] eqn:Hr. apply read_file_world in Hr as ->.
  destruct r1; [|by intros [= _ <-]..]. by destruct (Pkcs12_from_der _ _); intros [= _ <-].
Qed.

Lemma write_new_differ path contents ce we w r w' :
  (∀ w1, (ce w1).2 = w1) → (∀ w1, (we w1).2 = w1) →
  write_new path contents ce we w = (r, w') → differ_at [path] w w'.
Proof.
  intros Hce Hwe H p Hp%not_elem_of_cons. destruct Hp as [Hp _]. apply (f_equal snd) in H. simpl in H. subst w'.
  unfold write_new, bind. destruct (can_create path); [|by rewrite Hce]. cbn [put_file].
  destruct (can_write path); [|destruct (can_remove path)]; cbn [put_file snd].
  - by rewrite !lookup_insert_ne.
  - by rewrite lookup_delete_ne, lookup_insert_ne.
  - by rewrite Hwe, lookup_insert_ne.
Qed.

Lemma create_cert_differ path password subject w r w' :
  create_cert path password subject w = (r, w') →
  differ_at [cert_path_of path; path] w w' ∧ (is_Some (w !! cert_path_of path) → w' = w).
Proof.
  intros H. assert (Hsame : w' = w → differ_at [cert_path_of path; path] w w' ∧ (is_Some (w !! cert_path_of path) → w' = w))
    by (intros ->; by split; [intros p|]).
  revert H. unfold create_cert, bind, lift.
  destruct (map_err _ _) as [key| | |]; [|intros [= _ <-]; auto..].
  destruct key as [pkey|pkey|]; [|intros [= _ <-]; auto..].
  destruct (self_signed_cert subject pkey) as [cert| | |]; [|intros [= _ <-]; auto..].
  cbn [exists_path gets]. fold (cert_path_of path). case_bool_decide as Hex; [intros [= _ <-]; auto|].
  destruct (expect (X509_to_der cert)) as [der| | |]; [|intros [= _ <-]; auto..].
  destruct (write_new (cert_path_of path) der panic panic w) as [r1 w1] eqn:H1.
  apply write_new_differ in H1; [|done..].
  assert (Hd1 : differ_at [cert_path_of path; path] w w1) by (intros p Hp; apply H1; set_solver).
  destruct r1; [|intros [= _ <-]; by split; [|intros ?]..].
  destruct (expect (Pkcs12_build _ _ _ _)) as [p12| | |]; [|intros [= _ <-]; by split; [|intros ?]..].
  destruct (expect (Pkcs12_to_der _)) as [p12der| | |]; [|intros [= _ <-]; by split; [|intros ?]..].
  intros H2%write_new_differ; [|done..]. split; [|by intros ?].
  exact (differ_at_trans _ _ _ _ _ H1 H2).
Qed.

(** Loading a certificate touches at most the PKCS #12 file and the certificate beside it, and
    none of the two if either is there; a certificate that was loaded, or made and then
    loaded, is loaded again by the next start, which changes nothing. *)
Theorem load_cert_once tc w r w' :
  load_cert tc w = (r, w') →
  let path := TlsCertConfig_get_path tc in
  differ_at [cert_path_of path; path] w w' ∧
  (is_Some (w !! path) ∨ is_Some (w !! cert_path_of path) ∨ TlsCertConfig_create_if_absent tc = false → w' = w) ∧
  (∀ pkcs12, r = Ok pkcs12 → load_cert tc w' = (Ok pkcs12, w')).
Proof.
  intros H path. unfold load_cert, bind in H. cbn [exists_path gets] in H. fold path in H.
  assert (Hagain : ∀ w1 pkcs12, read_cert path (TlsCertConfig_get_password tc) w1 = (Ok pkcs12, w1) →
    load_cert tc w1 = (Ok pkcs12, w1)).
  { intros w1 pkcs12 Hr. unfold load_cert, bind. cbn [exists_path gets]. fold path.
    rewrite bool_decide_eq_true_2; [exact Hr|]. revert Hr. unfold read_cert, bind, read_file.
    destruct (w1 !! path) as [[b|]|]; try done. }
  case_bool_decide as Hex.
  { pose proof H as ->%read_cert_world. split_and!; [by intros p|done|]. intros pkcs12 ->. by apply Hagain. }
  destruct (TlsCertConfig_create_if_absent tc) eqn:Hca; cycle 1.
  { injection H as <- <-. by split_and!; [intros p| |]. }
  destruct (create_cert _ _ _ w) as [r1 w1] eqn:Hc. apply create_cert_differ in Hc as [Hd Hkeep].
  assert (w' = w1) as ->.
  { destruct r1; [by apply read_cert_world in H|by injection H..]. }
  split_and!; [done| |].
  - intros [?|[?|?]]; [done|by apply Hkeep|done].
  - intros pkcs12 ->. destruct r1; [by apply Hagain|by simplify_eq..].
Qed.

Lemma self_signed_cert_unwraps subject pkey e : self_signed_cert subject pkey ≠ Err e.
Proof.
  assert (Hx : ∀ A (o : option A) (k : A → res load_error X509), (∀ a, k a ≠ Err e) → rbind (expect o) k ≠ Err e)
    by (intros A [a|] k Hk; [apply Hk|done]).
  unfold self_signed_cert. repeat (apply Hx; intros ?). done.
Qed.

(** A certificate whose PKCS #12 file could not be created is in the way of every later start: the
    certificate is on the disk already, and nothing looks at it but to refuse. *)
Theorem load_cert_stuck tc w w' :
  let path := TlsCertConfig_get_path tc in
  can_write (cert_path_of path) = true →
  load_cert tc w = (Err (LoadMessage "error creating pkcs12 file"), w') →
  w' !! path = None ∧ load_cert tc w' = (Err (LoadMessage "certificate file exists"), w').
Proof.
  intros path Hwr H. unfold load_cert, bind in H. cbn [exists_path gets] in H. fold path in H.
  assert (Hread : ∀ w1 w2, read_cert path (TlsCertConfig_get_password tc) w1 ≠
    (Err (LoadMessage "error creating pkcs12 file"), w2)).
  { intros w1 w2. unfold read_cert, bind, read_file.
    destruct (w1 !! path) as [[b|]|]; [destruct (can_read path); [destruct (Pkcs12_from_der b _)|]|..]; discriminate. }
  case_bool_decide as Hex; [by apply Hread in H|].
  destruct (TlsCertConfig_create_if_absent tc) eqn:Hca; [|done].
  destruct (create_cert _ _ _ w) as [r1 w1] eqn:Hc. destruct r1; [by apply Hread in H|..|done|done].
  injection H as -> ->. revert Hc. unfold create_cert, bind, lift.
  destruct (KeyPair_generate _) as [key| | |] eqn:Hk; cbn [map_err]; try done.
  destruct key as [pkey|pkey|]; try done.
  destruct (self_signed_cert _ pkey) as [cert|e| |] eqn:Hcert; try done.
  { cbn [exists_path gets]. fold (cert_path_of path). case_bool_decide as Hce; [done|].
    destruct (X509_to_der cert) as [der|]; cbn [expect]; [|done].
    unfold write_new, bind. destruct (can_create (cert_path_of path)) eqn:Hcc; [|done].
    rewrite Hwr. cbn [put_file].
    destruct (Pkcs12_build _ _ _ _) as [p12|]; cbn [expect]; [|done].
    destruct (Pkcs12_to_der _) as [p12der|]; cbn [expect]; [|done].
    destruct (can_create path) eqn:Hcp.
    { cbn [put_file]. destruct (can_write path); [done|]. by destruct (can_remove path). }
    intros [= <-]. assert (Hne : cert_path_of path ≠ path) by congruence.
    rewrite !lookup_insert_ne by done. split; [by destruct (w !! path); [destruct Hex|]|].
    unfold load_cert, bind. cbn [exists_path gets]. fold path. rewrite !lookup_insert_ne by done.
    rewrite bool_decide_eq_false_2, Hca by done. unfold create_cert, bind, lift. rewrite Hk. cbn [map_err].
    rewrite Hcert. cbn [exists_path gets]. fold (cert_path_of path).
    by rewrite lookup_insert_eq. }
  by apply self_signed_cert_unwraps in Hcert.
Qed.
End certificate.

(** A certificate library in which everything is bytes. *)
Definition toy_x509 : X509Lib (H:=toy_crypto) := {|
  X509Name := bytes; X509NameBuilder := bytes; X509Builder := bytes; X509Extension := bytes; X509 := bytes;
  Asn1Time := Z; Pkcs12Archive := bytes; Pkcs12 := bytes;
  X509NameBuilder_new := Some [];
  append_common_name n s := Some (n ++ s);
  X509NameBuilder_build n := n;
  X509_builder := Some [];
  days_from_now d := Some d;
  set_not_before _ b := Some b;
  set_not_after _ b := Some b;
  set_issuer_name n b := Some (b ++ n);
  set_subject_name n b := Some (b ++ n);
  set_pubkey _ b := Some b;
  ExtendedKeyUsage_build _ _ := Some [1];
  SubjectKeyIdentifier_build _ := Some [2];
  AuthorityKeyIdentifier_build _ _ := Some [3];
  BasicConstraints_build _ _ := Some [4];
  append_extension e b := Some (b ++ e);
  X509Builder_sign _ _ b := Some (b ++ [5]);
  X509Builder_build b := b;
  X509_to_der x := Some x;
  Pkcs12_build _ _ _ x := Some x;
  Pkcs12_to_der x := Some x;
  Pkcs12_from_der x _ := Some x;
|}.
