(* ===== verification/Connect.v ===== *)
(** * Connect: making connections

    How a client gets its stream: [TcpStream::new], [UdpStream::new], the builder of [TlsStream] and the client streams
    and connections around them ([client/src/tcp], [client/src/udp], [client/src/tls]), and what the blocking
    client does when the connection cannot be made.

    A connection is a future; messages may be sent on its handle before it is there, and wait
    in the channel.  The sockets of the operating system and the calls of [native_tls] and [openssl] are
    parameters; [TlsLaws] states what their documentation says of a handshake. *)

From S2P Require Import Prelude Codec Wire Domain Enums Header RData RDataProps Resource Message RecordSet.
From S2P Require Import KeyPair Signer Update BTree Journal Authority AuthorityProps ZoneInstances Catalog Returns.
From S2P Require Import Streams Tcp Udp ClientHandle ClientFuture Validate Sync Text Schema KeyFormat Named Certificate.

Open Scope Z_scope.

Definition IpAddr : Type := Ipv4Addr + Ipv6Addr.
Definition SocketAddr : Type := IpAddr * Z.

(** What becomes of a future. *)
Inductive future (A : Type) : Type := Resolves (a : A) | Fails (e : io_error) | Pending | Crashes.
Arguments Resolves {A} a.
Arguments Fails {A} e.
Arguments Pending {A}.
Arguments Crashes {A}.

#[global] Instance future_fmap : FMap future := λ A B f x,
  match x with Resolves a => Resolves (f a) | Fails e => Fails e | Pending => Pending | Crashes => Crashes end.

(** [map_err(|e| io::Error::new(io::ErrorKind::ConnectionRefused, ..))] *)
Definition refused {A} (x : future A) : future A :=
  match x with Fails _ => Fails ConnectionRefused | x => x end.

(** ** The environment *)

Class Net := {
  client_core_new : bool;
  (** [TokioTcpStream::connect] *)
  tcp_connect : SocketAddr → future Socket;
  (** the [k]th draw of [rand.gen_range(1025_u16, u16::max_value())], and [UdpSocket::bind] *)
  random_port : nat → Z;
  bind_udp : SocketAddr → option (UdpSocket SocketAddr);
  (** [tokio_core::net::UdpSocket::from_socket] *)
  register_udp : Z → bool;
  random_port_range k : 1025 ≤ random_port k < u16_max;
}.

Inductive Protocol : Type := Sslv3 | Tlsv10 | Tlsv11 | Tlsv12.
#[global] Instance Protocol_eq_dec : EqDecision Protocol.
Proof. solve_decision. Defined.

(** [native_tls::TlsConnector] and [openssl::x509::store]; [None] is an error. *)
Class TlsLib `{X509Lib} := {
  TlsConnectorBuilder : Type;
  TlsConnector : Type;
  X509StoreBuilder : Type;
  TlsConnector_builder : option TlsConnectorBuilder;
  supported_protocols : list Protocol → TlsConnectorBuilder → option TlsConnectorBuilder;
  X509StoreBuilder_new : option X509StoreBuilder;
  add_cert : X509 → X509StoreBuilder → option X509StoreBuilder;
  set_verify_cert_store : X509StoreBuilder → TlsConnectorBuilder → option TlsConnectorBuilder;
  tls_identity : Pkcs12 → TlsConnectorBuilder → option TlsConnectorBuilder;
  TlsConnectorBuilder_build : TlsConnectorBuilder → option TlsConnector;
  (** the handshake on a connection, for the name of a server *)
  connect_async : TlsConnector → bytes → Socket → future Socket;
}.

(** What the libraries document: a builder keeps what it is given, and a handshake succeeds only with a
    peer whose certificate is for the name and signed by one in the store. *)
Class TlsLaws `{TlsLib} := {
  store_of : X509StoreBuilder → list X509;
  trust_of : TlsConnectorBuilder → list X509;
  protocols_of : TlsConnectorBuilder → list Protocol;
  connector_trust : TlsConnector → list X509;
  connector_protocols : TlsConnector → list Protocol;
  (** the peer of the connection has shown a certificate for the name that [ca] signed *)
  vouches : X509 → bytes → Socket → Prop;
  store_new store : X509StoreBuilder_new = Some store → store_of store = [];
  store_add cert store store' : add_cert cert store = Some store' → store_of store' = store_of store ++ [cert];
  set_protocols ps b b' : supported_protocols ps b = Some b' → protocols_of b' = ps;
  set_store store b b' : set_verify_cert_store store b = Some b' →
    trust_of b' = store_of store ∧ protocols_of b' = protocols_of b;
  set_identity p b b' : tls_identity p b = Some b' → trust_of b' = trust_of b ∧ protocols_of b' = protocols_of b;
  build_connector b c : TlsConnectorBuilder_build b = Some c →
    connector_trust c = trust_of b ∧ connector_protocols c = protocols_of b;
  handshake_verified c name tcp tls : connect_async c name tcp = Resolves tls →
    ∃ ca, ca ∈ connector_trust c ∧ vouches ca name tcp;
}.

(** [ClientConnection]: the event loop, the future of the stream and the handle to send on. *)
Record ClientConnection (MessageStream : Type) : Type := mkConnection {
  cc_stream : list bytes → future MessageStream;
}.
Arguments mkConnection {MessageStream} cc_stream.
Arguments cc_stream {MessageStream} c.

(** ** TCP and UDP *)

Section connect.
Context `{NT : Net}.

(** The future of the stream; [queued] is what was sent on the handle until it resolves. *)
Definition TcpStream_new (name_server : SocketAddr) (queued : list (bytes * SocketAddr)) :
    future (TcpStream (SocketAddr:=SocketAddr)) :=
  (λ tcp_stream, TcpStream_from_stream_with_receiver tcp_stream name_server queued) <$> tcp_connect name_server.

(** The client's handle, [BufClientStreamHandle], addresses everything to the name server. *)
Definition TcpClientStream_new (name_server : SocketAddr) (queued : list bytes) :
    future (TcpStream (SocketAddr:=SocketAddr)) :=
  TcpStream_new name_server (addressed name_server queued).

Definition IPV4_ZERO : Ipv4Addr := mkIpv4 0 0 0 0.
Definition IPV6_ZERO : Ipv6Addr := mkIpv6 0 0 0 0 0 0 0 0.

Definition UdpStream_next_bound_local_address (name_server : SocketAddr) : IpAddr :=
  match name_server.1 with inl _ => inl IPV4_ZERO | inr _ => inr IPV6_ZERO end.

(** The polls of [NextRandomUdpSocket], each of which draws its own ports. *)
Fixpoint next_random_socket (polls : nat) (drawn : nat) (bind_address : IpAddr) :
    future (Z * UdpSocket SocketAddr) :=
  match polls with
  | O => Pending
  | S polls =>
      match NextRandomUdpSocket_poll (λ k, random_port (drawn + k))
              (λ port, bool_decide (is_Some (bind_udp (bind_address, port)))) with
      | Some port =>
          match bind_udp (bind_address, port) with Some socket => Resolves (port, socket) | None => Pending end
      | None => next_random_socket polls (drawn + 10) bind_address
      end
  end.

Definition UdpStream_new (polls : nat) (name_server : SocketAddr) (queued : list (bytes * SocketAddr)) :
    future (UdpStream SocketAddr) :=
  match next_random_socket polls 0 (UdpStream_next_bound_local_address name_server) with
  | Resolves (port, socket) => if register_udp port then Resolves (mkUdp socket queued) else Crashes
  | Fails e => Fails e
  | Pending => Pending
  | Crashes => Crashes
  end.

Definition UdpClientStream_new (polls : nat) (name_server : SocketAddr) (queued : list bytes) :
    future (UdpClientStream (SocketAddr:=SocketAddr)) :=
  mkUdpClient name_server <$> UdpStream_new polls name_server (addressed name_server queued).
End connect.

(** ** TLS *)

Section tls.
Context `{NT : Net} `{TL : TlsLib}.

Record TlsStreamBuilder : Type := mkTlsBuilder { ca_chain : list X509; identity : option Pkcs12 }.

Definition TlsStream_builder : TlsStreamBuilder := mkTlsBuilder [] None.
Definition TlsStreamBuilder_add_ca (self : TlsStreamBuilder) (ca : X509) : TlsStreamBuilder :=
  mkTlsBuilder (ca_chain self ++ [ca]) (identity self).
Definition TlsStreamBuilder_identity (self : TlsStreamBuilder) (pkcs12 : Pkcs12) : TlsStreamBuilder :=
  mkTlsBuilder (ca_chain self) (Some pkcs12).

(** [try!(..map_err(|e| io::Error::new(io::ErrorKind::ConnectionRefused, ..)))] *)
Definition or_refuse {A} (o : option A) : res io_error A :=
  match o with Some a => Ok a | None => Err ConnectionRefused end.

Fixpoint add_certs (certs : list X509) (store : X509StoreBuilder) : res io_error X509StoreBuilder :=
  match certs with
  | [] => Ok store
  | cert :: certs => try* store := or_refuse (add_cert cert store) in add_certs certs store
  end.

(** [TlsStream::new], the variant for Linux. *)
Definition TlsStream_new (certs : list X509) (pkcs12 : option Pkcs12) : res io_error TlsConnector :=
  try* tls := or_refuse TlsConnector_builder in
  try* tls := or_refuse (supported_protocols [Tlsv12] tls) in
  try* store := or_refuse X509StoreBuilder_new in
  try* store := add_certs certs store in
  try* tls := or_refuse (set_verify_cert_store store tls) in
  try* tls := match pkcs12 with Some pkcs12 => or_refuse (tls_identity pkcs12 tls) | None => Ok tls end in
  or_refuse (TlsConnectorBuilder_build tls).

Definition TlsStreamBuilder_build (self : TlsStreamBuilder) (name_server : SocketAddr) (subject_name : bytes)
    (queued : list (bytes * SocketAddr)) : future (TcpStream (SocketAddr:=SocketAddr)) :=
  match TlsStream_new (ca_chain self) (identity self) with
  | Ok tls_connector =>
      refused
        match tcp_connect name_server with
        | Resolves tcp_stream =>
            refused ((λ s, TcpStream_from_stream_with_receiver s name_server queued) <$>
                       connect_async tls_connector subject_name tcp_stream)
        | Fails e => Fails e
        | Pending => Pending
        | Crashes => Crashes
        end
  | _ => Fails ConnectionRefused
  end.

(** [TlsStream::from_tls_stream], for a connection that was accepted: the channel is new. *)
Definition TlsStream_from_tls_stream (stream : Socket) (peer : SocketAddr) : TcpStream (SocketAddr:=SocketAddr) :=
  TcpStream_from_stream_with_receiver stream peer [].

Record TlsClientStreamBuilder : Type := mkTlsClientBuilder { tls_stream_builder : TlsStreamBuilder }.

Definition TlsClientStream_builder : TlsClientStreamBuilder := mkTlsClientBuilder TlsStream_builder.
Definition TlsClientStreamBuilder_add_ca (self : TlsClientStreamBuilder) (ca : X509) : TlsClientStreamBuilder :=
  mkTlsClientBuilder (TlsStreamBuilder_add_ca (tls_stream_builder self) ca).
Definition TlsClientStreamBuilder_identity (self : TlsClientStreamBuilder) (pkcs12 : Pkcs12) : TlsClientStreamBuilder :=
  mkTlsClientBuilder (TlsStreamBuilder_identity (tls_stream_builder self) pkcs12).
Definition TlsClientStreamBuilder_build (self : TlsClientStreamBuilder) (name_server : SocketAddr) (subject_name : bytes)
    (queued : list bytes) : future (TcpStream (SocketAddr:=SocketAddr)) :=
  TlsStreamBuilder_build (tls_stream_builder self) name_server subject_name (addressed name_server queued).

(** ** Client connections *)

(** [try!(Core::new())] *)
Definition on_core {A} (a : A) : res io_error A := if client_core_new then Ok a else Err IoOther.

Definition TcpClientConnection_new (name_server : SocketAddr) : res io_error (ClientConnection TcpStream) :=
  on_core (mkConnection (TcpClientStream_new name_server)).
Definition UdpClientConnection_new (polls : nat) (name_server : SocketAddr) :
    res io_error (ClientConnection UdpClientStream) :=
  on_core (mkConnection (UdpClientStream_new polls name_server)).

Record TlsClientConnectionBuilder : Type := mkTlsConnectionBuilder { tls_client_builder : TlsClientStreamBuilder }.

Definition TlsClientConnection_builder : TlsClientConnectionBuilder := mkTlsConnectionBuilder TlsClientStream_builder.
Definition TlsClientConnectionBuilder_add_ca (self : TlsClientConnectionBuilder) (ca : X509) :
    TlsClientConnectionBuilder :=
  mkTlsConnectionBuilder (TlsClientStreamBuilder_add_ca (tls_client_builder self) ca).
Definition TlsClientConnectionBuilder_identity (self : TlsClientConnectionBuilder) (pkcs12 : Pkcs12) :
    TlsClientConnectionBuilder :=
  mkTlsConnectionBuilder (TlsClientStreamBuilder_identity (tls_client_builder self) pkcs12).
Definition TlsClientConnectionBuilder_build (self : TlsClientConnectionBuilder) (name_server : SocketAddr)
    (subject_name : bytes) : res io_error (ClientConnection TcpStream) :=
  on_core (mkConnection (TlsClientStreamBuilder_build (tls_client_builder self) name_server subject_name)).

(** ** Theorems *)

Lemma or_refuse_Ok {A} (o : option A) a : or_refuse o = Ok a → o = Some a.
Proof. destruct o; [by intros [= ->]|done]. Qed.

Context `{LW : !TlsLaws}.

Lemma add_certs_store certs : ∀ store store',
  add_certs certs store = Ok store' → store_of store' = store_of store ++ certs.
Proof.
  induction certs as [|cert certs IH]; intros store store'; simpl; [intros [= ->]; by rewrite app_nil_r|].
  destruct (add_cert cert store) as [store1|] eqn:Ha; [|done]. intros ->%IH.
  rewrite (store_add _ _ _ Ha), <-app_assoc. done.
Qed.

(** The connector speaks TLS 1.2 and trusts the certificates it was given, no others. *)
Lemma TlsStream_new_trust certs pkcs12 c :
  TlsStream_new certs pkcs12 = Ok c → connector_trust c = certs ∧ connector_protocols c = [Tlsv12].
Proof.
  unfold TlsStream_new. intros Hc.
  repeat match type of Hc with
  | rbind ?r _ = Ok _ => let E := fresh "E" in destruct r eqn:E; try done; cbn [rbind] in Hc
  end.
  apply or_refuse_Ok, build_connector in Hc as [-> ->].
  repeat match goal with E : or_refuse _ = Ok _ |- _ => apply or_refuse_Ok in E end.
  match goal with E : add_certs _ _ = Ok _, E' : X509StoreBuilder_new = _ |- _ =>
    apply add_certs_store in E; rewrite (store_new _ E') in E; cbn [app] in E end.
  match goal with E : supported_protocols _ _ = _ |- _ => apply set_protocols in E end.
  match goal with E : set_verify_cert_store _ _ = _ |- _ => apply set_store in E as [Ht Hp] end.
  match goal with E : match pkcs12 with Some _ => _ | None => _ end = Ok _ |- _ =>
    destruct pkcs12; [apply or_refuse_Ok, set_identity in E as [-> ->]|injection E as <-] end;
  split; congruence.
Qed.

Lemma tls_resolves self name_server subject_name queued t :
  TlsStreamBuilder_build self name_server subject_name queued = Resolves t →
  ∃ c tcp tls, TlsStream_new (ca_chain self) (identity self) = Ok c ∧ tcp_connect name_server = Resolves tcp ∧
    connect_async c subject_name tcp = Resolves tls ∧ t = TcpStream_from_stream_with_receiver tls name_server queued.
Proof.
  unfold TlsStreamBuilder_build. destruct (TlsStream_new _ _) as [c| | |]; try done.
  destruct (tcp_connect name_server) as [tcp| | |]; try done. cbn [refused].
  destruct (connect_async c subject_name tcp) as [tls| | |] eqn:Ht; try done. intros [= <-]. eauto 10.
Qed.

(** The certificates that were added, in order. *)
Fixpoint with_cas (cas : list X509) (self : TlsClientConnectionBuilder) : TlsClientConnectionBuilder :=
  match cas with [] => self | ca :: cas => with_cas cas (TlsClientConnectionBuilder_add_ca self ca) end.

Lemma with_cas_chain cas : ∀ self,
  ca_chain (tls_stream_builder (tls_client_builder (with_cas cas self))) =
  ca_chain (tls_stream_builder (tls_client_builder self)) ++ cas.
Proof.
  induction cas as [|ca cas IH]; intros self; simpl; [by rewrite app_nil_r|].
  rewrite IH. simpl. by rewrite <-app_assoc.
Qed.

(** C23: Nothing is said to a server that has not shown who it is: when the TLS
    connection of a client comes up, the peer has shown a certificate for the name that
    was asked for, signed by one of the certificates that were added, over TLS 1.2; and
    all that the stream ever writes, with messages sent before the connection was there,
    goes through the secured stream, as frames in order. *)
Theorem tls_connection_trusted cas name_server subject_name connection ms t got t' :
  TlsClientConnectionBuilder_build (with_cas cas TlsClientConnection_builder) name_server subject_name = Ok connection →
  cc_stream connection ms = Resolves t → Forall u8 (input_bytes (socket t)) → polls t got t' →
  ∃ c tcp tls ca, tcp_connect name_server = Resolves tcp ∧ connect_async c subject_name tcp = Resolves tls ∧
    connector_protocols c = [Tlsv12] ∧ ca ∈ cas ∧ vouches ca subject_name tcp ∧
    so_written (socket t') `prefix_of` so_written tls ++ concat (frame <$> ms).
Proof.
  unfold TlsClientConnectionBuilder_build, on_core. destruct client_core_new; [|done]. intros [= <-].
  intros (c & tcp & tls & Hc & Htcp & Htls & ->)%tls_resolves Hin Hp.
  destruct (TlsStream_new_trust _ _ _ Hc) as [Htrust Hprot]. rewrite with_cas_chain in Htrust.
  destruct (handshake_verified _ _ _ _ Htls) as (ca & Hca & Hv). rewrite Htrust in Hca.
  exists c, tcp, tls, ca. split_and!; try done.
  apply polls_spec in Hp as (_ & Ho & _); [|by apply fresh_stream_ok]. rewrite fresh_outgoing in Ho.
  rewrite <-Ho. unfold outgoing. by eexists.
Qed.

(** Without a certificate that was added no TLS connection comes up, whatever the server shows. *)
Theorem tls_no_trust self name_server subject_name queued t :
  ca_chain self = [] → TlsStreamBuilder_build self name_server subject_name queued ≠ Resolves t.
Proof.
  intros Hca (c & tcp & tls & Hc & _ & Htls & _)%tls_resolves.
  destruct (handshake_verified _ _ _ _ Htls) as (ca & Hin & _).
  rewrite (proj1 (TlsStream_new_trust _ _ _ Hc)), Hca in Hin. by apply elem_of_nil in Hin.
Qed.
End tls.

(** ** A blocking client that connects *)

Section sync.
Context `{L : Lowercase} `{HO : HashOrder} `{C : Crypto} `{R : Rng}.

Definition stopped (self : SyncClient) : SyncClient := mkSync (sy_client self) false (S (sy_next self)) (sy_turns self).

(** [loop_handle.spawn(stream.map(..).flatten())] of [ClientFuture::with_timeout], under the first call of a
    [SyncClient]: each turn of the loop polls the future of the stream, and the [ClientFuture] is there when it
    has resolved.  When it fails the receiver of the requests is dropped with it. *)
Fixpoint first_send {MS} (connecting : list (future MS)) (message : Message) (self : SyncClient) :
    res client_error Message * SyncClient :=
  match connecting with
  | [] => (Diverge, self)
  | Resolves _ :: _ => SyncClient_send message self
  | Fails _ :: _ => (Err ClientCanceled, stopped self)
  | Crashes :: _ => (Panic, stopped self)
  | Pending :: connecting =>
      first_send connecting message (mkSync (sy_client self) (sy_running self) (sy_next self) (tail (sy_turns self)))
  end.

(** A connection that is refused: the call that waits for it fails, and so does every later one, at once. *)
Theorem connection_refused_reported {MS} (waits : nat) e (rest : list (future MS)) message self :
  ∃ self', first_send (replicate waits Pending ++ Fails e :: rest) message self = (Err ClientCanceled, self') ∧
    ∀ message', SyncClient_send message' self' = (Err (ClientMessage "error sending to mpsc"), self').
Proof.
  revert self. induction waits as [|waits IH]; intros self; simpl; [by eexists|apply IH].
Qed.

(** The timeout of requests does not cover the connection: while it is being made a call waits, at
    whatever time, and no request has been started that could time out. *)
Theorem connecting_no_timeout (waits : nat) message self :
  (first_send (MS:=()) (replicate waits Pending) message self).1 = Diverge ∧
  sy_client (first_send (MS:=()) (replicate waits Pending) message self).2 = sy_client self.
Proof.
  revert self. induction waits as [|waits IH]; intros self; simpl; [done|].
  set (self' := mkSync _ _ _ _). exact (IH self').
Qed.
End sync.

Section local.
Context `{NT : Net}.

Lemma next_random_socket_port polls : ∀ drawn a port socket,
  next_random_socket polls drawn a = Resolves (port, socket) → 1025 ≤ port < u16_max ∧ bind_udp (a, port) = Some socket.
Proof.
  induction polls as [|polls IH]; intros drawn a port socket; simpl; [done|].
  destruct (NextRandomUdpSocket_poll _ _) as [p|] eqn:Hp; [|by intros ?%IH].
  apply bind_attempts_spec in Hp as [Hp _]; [|intros k; apply random_port_range].
  destruct (bind_udp (a, p)) eqn:Hb; [|done]. intros [= <- <-]. by split.
Qed.

(** A UDP client is bound to the unspecified address of the family of its name server, on an
    unprivileged port; what was sent before waits in its queue, for the name server. *)
Theorem UdpClientStream_bound polls name_server queued c :
  UdpClientStream_new polls name_server queued = Resolves c →
  ∃ port, 1025 ≤ port < u16_max ∧
    bind_udp (match name_server.1 with inl _ => inl IPV4_ZERO | inr _ => inr IPV6_ZERO end, port) =
      Some (u_socket (udp_stream c)) ∧
    u_outbound_messages (udp_stream c) = (λ m, (m, name_server)) <$> queued.
Proof.
  unfold UdpClientStream_new, UdpStream_new.
  destruct (next_random_socket _ _ _) as [[port socket]| | |] eqn:Hs; try done.
  apply next_random_socket_port in Hs as [Hp Hb]. destruct (register_udp port); [|done].
  intros [= <-]. by exists port.
Qed.
End local.

(** ** Instances *)

Section instances.
#[local] Existing Instance toy_crypto.
#[local] Existing Instance toy_x509.

Definition ex_name_server : SocketAddr := (inl (mkIpv4 10 0 0 1), 853).

(** The server shows its certificate and the name it is for, and then sends a message. *)
Definition ex_tls_server : Socket :=
  mkSocket [Accept 9; Accept 9; Accept 9; Accept 9] [] [Chunk ([5; 5] ++ [110; 115]); Chunk [0; 1; 7]].

Definition ex_net : Net.
Proof.
  refine {| client_core_new := true;
            tcp_connect a := if bool_decide (a = ex_name_server) then Resolves ex_tls_server else Fails SocketError;
            random_port k := 1025 + Z.of_nat k mod 100;
            bind_udp _ := Some (mkUdpSocket [] [] []); register_udp _ := true |}.
  intros k. unfold u16_max. pose proof (Z.mod_pos_bound (Z.of_nat k) 100 eq_refl). lia.
Defined.
#[local] Existing Instance ex_net.

(** A handshake that looks for a certificate of the store, followed by the name. *)
Definition toy_tls : TlsLib := {|
  TlsConnectorBuilder := list Protocol * list bytes;
  TlsConnector := list Protocol * list bytes;
  X509StoreBuilder := list bytes;
  TlsConnector_builder := Some ([Tlsv10; Tlsv11; Tlsv12], []);
  supported_protocols ps b := Some (ps, b.2);
  X509StoreBuilder_new := Some [];
  add_cert c s := Some (s ++ [c]);
  set_verify_cert_store s b := Some (b.1, s);
  tls_identity _ b := Some b;
  TlsConnectorBuilder_build b := Some b;
  connect_async c name tcp :=
    match so_in tcp with
    | Chunk shown :: rest =>
        if bool_decide (Exists (λ ca, shown = ca ++ name) c.2) then Resolves (mkSocket (so_out tcp) [] rest)
        else Fails SocketError
    | _ => Pending
    end;
|}.
#[local] Existing Instance toy_tls.

#[local] Instance toy_tls_laws : TlsLaws.
Proof.
  refine {| store_of s := s; trust_of b := b.2; protocols_of b := b.1; connector_trust c := c.2;
            connector_protocols c := c.1;
            vouches ca name tcp := head (so_in tcp) = Some (Chunk (ca ++ name)) |}.
  all: try (simpl; by intros; simplify_eq).
  intros c name tcp tls. simpl. destruct (so_in tcp) as [|[shown| | |] rest]; try done.
  case_bool_decide as Hex; [|done]. intros _. apply Exists_exists in Hex as (ca & Hca & ->). by exists ca.
Defined.

Definition ex_tls_connection : res io_error (ClientConnection TcpStream) :=
  TlsClientConnectionBuilder_build (with_cas [[4]; [5; 5]] TlsClientConnection_builder) ex_name_server [110; 115].

Lemma tls_connection_trusted_witness :
  ∃ connection t t' ca, ex_tls_connection = Ok connection ∧ cc_stream connection [[8; 9]] = Resolves t ∧
    poll_times 1 t = Some ([[7]], t') ∧ ca ∈ [[4]; [5; 5]] ∧
    so_written (socket t') `prefix_of` concat (frame <$> [[8; 9]]).
Proof.
  assert (Hb : ∃ connection t, ex_tls_connection = Ok connection ∧ cc_stream connection [[8; 9]] = Resolves t ∧
    Forall u8 (input_bytes (socket t)) ∧ ∃ t', poll_times 1 t = Some ([[7]], t'))
    by (do 2 eexists; split; [reflexivity|]; split; [vm_compute; reflexivity|]; split; [by_decision|];
        eexists; vm_compute; reflexivity).
  destruct Hb as (connection & t & Hc & Hb & Hin & t' & Hp). exists connection, t, t'.
  destruct (tls_connection_trusted ([[4]; [5; 5]] : list (X509 (X509Lib:=toy_x509))) ex_name_server [110; 115] connection [[8; 9]] t [[7]] t' Hc Hb Hin
    (poll_times_polls 1 t [[7]] t' Hp)) as (c & tcp & tls & ca & Htcp & Htls & _ & Hca & _ & Hw).
  exists ca. split_and!; [done..|].
  assert (so_written tls = []) as Hnil.
  { injection Htcp as <-. revert Htls. simpl. case_bool_decide; [|done]. by intros [= <-]. }
  by rewrite Hnil in Hw.
Defined.
End instances.
