(* ===== verification/Startup.v ===== *)
(** * Startup: the [named] program

    [main] of [server/src/named.rs] up to the call of [listen], with what it calls: the logger of
    [client/src/logger.rs], [Config::read_config] of [server/src/config.rs], and the constructor and
    the registrations of [ServerFuture] in [server/src/server/server_future.rs].  The result is the
    server with the sockets it listens on; what it does with a request is in [Server.v],
    [Listener.v] and [Catalog.v], and the theorems here compose the two.

    Docopt's reading of the command line, the TOML library, the operating system's sockets and
    the event loop are parameters. *)

From S2P Require Import Prelude Codec Wire Domain Enums Header RData RDataProps Resource Message RecordSet.
From S2P Require Import KeyPair Signer Update BTree Journal Authority AuthorityProps ZoneInstances Catalog CatalogProps Responses.
From S2P Require Import Streams Tcp Udp ClientHandle ClientFuture Server Text Lexer Master ZoneText ZoneFile Schema KeyFormat Recovery Named Certificate Connect.

Open Scope Z_scope.

(** ** Logging *)

(** The order of [log::LogLevel]. *)
Definition LogLevel_rank (l : LogLevel) : Z :=
  match l with LogError => 1 | LogWarn => 2 | LogInfo => 3 | LogDebug => 4 | LogTrace => 5 end.

Record TrustDnsLogger : Type := mkLogger { level : LogLevel }.

Definition TrustDnsLogger_new (level : LogLevel) : TrustDnsLogger := mkLogger level.

Definition TrustDnsLogger_enabled (self : TrustDnsLogger) (metadata_level : LogLevel) : bool :=
  LogLevel_rank metadata_level <=? LogLevel_rank (level self).

(** [log::set_logger] takes the first logger of the process and refuses every other one. *)
Definition TrustDnsLogger_init (self : TrustDnsLogger) : M (option TrustDnsLogger) () () := λ global,
  match global with
  | None => (Ok (), Some self)
  | Some _ => (Err (), global)
  end.

(** [.is_ok();] *)
Definition TrustDnsLogger_enable_logging (log_level : LogLevel) (global : option TrustDnsLogger) :
    option TrustDnsLogger :=
  (TrustDnsLogger_init (TrustDnsLogger_new log_level) global).2.

(** The lines that a sequence of records prints, each with the module and line it comes from. *)
Record LogRecord : Type := mkLogRecord { lr_level : LogLevel; lr_text : string }.
Definition TrustDnsLogger_log (self : TrustDnsLogger) (record : LogRecord) : list LogRecord :=
  if TrustDnsLogger_enabled self (lr_level record) then [record] else [].

(** ** The command line *)

Record Args : Type := mkArgs {
  flag_quiet : bool;
  flag_debug : bool;
  flag_help : bool;
  flag_version : bool;
  flag_config : option bytes;
  flag_zonedir : option bytes;
  flag_port : option Z;
  flag_tls_port : option Z;
}.

Definition args_log_level (args : Args) : LogLevel :=
  if flag_quiet args then LogWarn else if flag_debug args then LogDebug else LogInfo.

(** ** The environment *)

Class Host `{X509Lib} := {
  (** [toml.parse()] and [Config::decode] *)
  toml_config : bytes → option Config;
  (** whether an address can be bound, after those *)
  udp_bind : list SocketAddr → SocketAddr → bool;
  tcp_bind : list SocketAddr → SocketAddr → bool;
  (** [Core::new], [UdpSocket::from_socket], [local_addr] and [TcpListener::from_listener] *)
  core_new : bool;
  from_socket : SocketAddr → bool;
  local_addr : SocketAddr → bool;
  from_listener : SocketAddr → bool;
  (** [TlsAcceptor::builder], [supported_protocols(&[Tlsv12])] and [build] *)
  TlsAcceptor : Type;
  tls_acceptor : Pkcs12 → option TlsAcceptor;
}.

(** ** The server *)

(** [ServerFuture] as the futures it was given: one for each UDP socket and each listener. *)
Record ServerFuture `{Host} `{Sqlite} : Type := mkServer {
  sf_catalog : Catalog;
  sf_sockets : list SocketAddr;
  sf_listeners : list (SocketAddr * Z);
  sf_tls_listeners : list (SocketAddr * Z * TlsAcceptor);
}.

Section startup.
Context `{N : Numeric} `{L : Lowercase} `{HO : HashOrder} `{C : Crypto} `{KF : !KeyFiles} `{XL : !X509Lib}
  `{HS : !Host} `{SQ : Sqlite} `{SS : !SqliteSchema} `{CK : Clock} `{D : !Disk}.
Abbreviation World := (gmap Path File).

(** ** Reading the configuration *)

(** [File::open], [read_to_string] and [parse]. *)
Definition Config_read_config (path : Path) : M World load_error Config :=
  let* toml := read_file "io error" path in
  if valid_utf8 toml then
    match toml_config toml with Some config => ret config | None => fail (LoadMessage "parser errors") end
  else fail (LoadMessage "io error").

(** ** Building the server *)

Definition ServerFuture_new (catalog : Catalog) : res io_error ServerFuture :=
  if core_new then Ok (mkServer _ _ _ _ catalog [] [] []) else Err IoOther.

(** [UdpStream::with_bound] expects the socket to be registered with the loop. *)
Definition ServerFuture_register_socket {E} (self : ServerFuture) (socket : SocketAddr) : res E ServerFuture :=
  if negb (from_socket socket) then Panic
  else Ok (mkServer _ _ _ _ (sf_catalog self) (sf_sockets self ++ [socket]) (sf_listeners self) (sf_tls_listeners self)).

Definition ServerFuture_register_listener (self : ServerFuture) (listener : SocketAddr) (timeout : Z) :
    res io_error ServerFuture :=
  if negb (local_addr listener) then Err IoOther
  else if negb (from_listener listener) then Panic
  else Ok (mkServer _ _ _ _ (sf_catalog self) (sf_sockets self) (sf_listeners self ++ [(listener, timeout)])
             (sf_tls_listeners self)).

Definition ServerFuture_register_tls_listener (self : ServerFuture) (listener : SocketAddr) (timeout : Z)
    (pkcs12 : Pkcs12) : res io_error ServerFuture :=
  if negb (local_addr listener) then Panic
  else if negb (from_listener listener) then Panic
  else
    match tls_acceptor pkcs12 with
    | None => Err ConnectionRefused
    | Some acceptor =>
        Ok (mkServer _ _ _ _ (sf_catalog self) (sf_sockets self) (sf_listeners self)
              (sf_tls_listeners self ++ [(listener, timeout, acceptor)]))
    end.

(** [.expect(..)] *)
Definition expect_ok {S E F A} (r : res E A) : M S F A :=
  match r with Ok a => ret a | Diverge => diverge | _ => panic end.
Definition expect_m {S E F A} (m : M S E A) : M S F A := λ s,
  match m s with (Ok a, s) => (Ok a, s) | (Diverge, s) => (Diverge, s) | (_, s) => (Panic, s) end.

(** [iter().map(|x| ..::bind(x).expect(..)).collect()] *)
Fixpoint bind_all (can_bind : list SocketAddr → SocketAddr → bool) (bound sockaddrs : list SocketAddr) :
    M World load_error (list SocketAddr) :=
  match sockaddrs with
  | [] => ret []
  | x :: sockaddrs =>
      if can_bind bound x then
        let* sockets := bind_all can_bind (bound ++ [x]) sockaddrs in ret (x :: sockets)
      else panic
  end.

Fixpoint register_sockets (server : ServerFuture) (udp_sockets : list SocketAddr) : M World load_error ServerFuture :=
  match udp_sockets with
  | [] => ret server
  | udp_socket :: udp_sockets =>
      let* server := lift (ServerFuture_register_socket server udp_socket) in
      register_sockets server udp_sockets
  end.

Fixpoint register_listeners (server : ServerFuture) (tcp_request_timeout : Z) (tcp_listeners : list SocketAddr) :
    M World load_error ServerFuture :=
  match tcp_listeners with
  | [] => ret server
  | tcp_listener :: tcp_listeners =>
      let* server := expect_ok (ServerFuture_register_listener server tcp_listener tcp_request_timeout) in
      register_listeners server tcp_request_timeout tcp_listeners
  end.

(** The certificate is loaded anew for each listener. *)
Fixpoint register_tls_listeners (server : ServerFuture) (tcp_request_timeout : Z) (tls_cert_config : TlsCertConfig)
    (tls_listeners : list SocketAddr) : M World load_error ServerFuture :=
  match tls_listeners with
  | [] => ret server
  | tls_listener :: tls_listeners =>
      let* tls_cert := expect_m (load_cert tls_cert_config) in
      let* server := expect_ok (ServerFuture_register_tls_listener server tls_listener tcp_request_timeout tls_cert) in
      register_tls_listeners server tcp_request_timeout tls_cert_config tls_listeners
  end.

(** ** [main] *)

(** [to_socket_addrs] of each address with the port. *)
Definition to_socket_addrs (addrs : list IpAddr) (port : Z) : list SocketAddr :=
  (λ x, (x, port)) <$> addrs.

Definition zone_dir_of (args : Args) (config : Config) : Path :=
  match flag_zonedir args with Some s => Path_new s | None => Config_get_directory config end.

(** From the catalog on: the sockets are bound before the server is made. *)
Definition start_server (args : Args) (config : Config) (catalog : Catalog) : M World load_error ServerFuture :=
  let* listen_addrs := expect_ok (listen_addrs config) in
  let listen_port := default (Config_get_listen_port config) (flag_port args) in
  let tcp_request_timeout := Config_get_tcp_request_timeout config in
  let sockaddrs := to_socket_addrs listen_addrs listen_port in
  let* udp_sockets := bind_all udp_bind [] sockaddrs in
  let* tcp_listeners := bind_all tcp_bind [] sockaddrs in
  let* server := expect_ok (ServerFuture_new catalog) in
  let* server := register_sockets server udp_sockets in
  let* server := register_listeners server tcp_request_timeout tcp_listeners in
  match Config_get_tls_cert config with
  | None => ret server
  | Some tls_cert_config =>
      let tls_listen_port := default (Config_get_tls_listen_port config) (flag_tls_port args) in
      let tls_sockaddrs := to_socket_addrs listen_addrs tls_listen_port in
      let* tls_listeners := bind_all tcp_bind tcp_listeners tls_sockaddrs in
      register_tls_listeners server tcp_request_timeout tls_cert_config tls_listeners
  end.

(** [main], up to [server.listen()], with the logger it sets; [fuel] bounds the journals. *)
Definition main (fuel : nat) (args : Args) : M World load_error (option TrustDnsLogger * ServerFuture) :=
  let logger := TrustDnsLogger_enable_logging (args_log_level args) None in
  let config_path := Path_new (default (bytes_of_str "/etc/named.toml") (flag_config args)) in
  let* config := expect_m (Config_read_config config_path) in
  let* catalog := load_zones fuel (zone_dir_of args config) (Config_get_zones config) Catalog_new in
  let* server := start_server args config catalog in
  ret (logger, server).

(** ** What starting does to the disk *)

(** No file with contents is lost or changed. *)
Definition keeps_files (w w' : World) : Prop := ∀ p b, w !! p = Some (Contents b) → w' !! p = Some (Contents b).

#[global] Instance keeps_files_preorder : PreOrder keeps_files.
Proof. split; [by intros w p b|]. intros w1 w2 w3 H1 H2 p b H. auto. Qed.

Lemma keeps_differ p w w' : (∀ b, w !! p ≠ Some (Contents b)) → differ_at [p] w w' → keeps_files w w'.
Proof.
  intros Hp Hd q b Hq. rewrite Hd; [done|]. intros ->%list_elem_of_singleton. by apply (Hp b).
Qed.

Lemma load_key_keeps zone_name kc w r w' : load_key zone_name kc w = (r, w') → keeps_files w w'.
Proof.
  set (p := KeyConfig_get_key_path kc).
  intros H. assert (Hcase : w' = w ∨ w !! p = None ∧ differ_at [p] w w').
  { revert H. unfold load_key, bind, lift, exists_path, gets, ret. fold p.
    destruct (map_err _ (KeyConfig_get_algorithm kc)); [|intros [= _ <-]; by left..].
    destruct (map_err _ (KeyConfig_get_format kc)); [|intros [= _ <-]; by left..].
    case_bool_decide as Hex.
    - destruct (read_file _ p w) as [r1 w1] eqn:Hr. apply read_file_world in Hr as ->.
      intros H. left. destruct r1; [|by injection H..]. repeat case_match; by simplify_eq.
    - assert (w !! p = None) by (by destruct (w !! p); [destruct Hex|]).
      destruct (KeyConfig_create_if_absent kc); [|intros [= _ <-]; by left].
      destruct (can_create p); [|intros [= _ <-]; by left].
      unfold put_file, write_key. intros Hw. right. split; [done|]. intros q Hq.
      assert (p ≠ q) by set_solver.
      repeat case_match; simplify_eq; by rewrite ?lookup_delete_ne, ?lookup_insert_ne. }
  destruct Hcase as [->|[Hp Hd]]; [done|]. eapply keeps_differ; [|exact Hd]. by rewrite Hp.
Qed.

Lemma load_keys_keeps zone_name keys : ∀ a w r w', load_keys zone_name keys a w = (r, w') → keeps_files w w'.
Proof.
  induction keys as [|kc keys IH]; intros a w r w'; [by intros [= _ <-]|]. simpl. unfold bind.
  destruct (load_key zone_name kc w) as [r1 w1] eqn:Hk. apply load_key_keeps in Hk.
  destruct r1; [|by intros [= _ <-]..]. unfold lift. destruct (add_key a _); [|by intros [= _ <-]..].
  intros Hr%IH. by etrans.
Qed.

Lemma open_journal_keeps what p w r w' : open_journal what p w = (r, w') →
  keeps_files w w' ∧ match r with Ok j => w' !! p = Some (Database (j_conn j)) | _ => True end.
Proof.
  unfold open_journal, opened. destruct (w !! p) as [[b|conn]|] eqn:Hp.
  - simpl. by intros [= <- <-].
  - destruct (Journal_from_file _) as [j| | |]; intros [= <- <-]; try done.
    split; [|by rewrite lookup_insert_eq]. apply (keeps_differ p); [by rewrite Hp|].
    intros q Hq. rewrite lookup_insert_ne by set_solver. done.
  - destruct (Journal_from_file _) as [j| | |]; intros [= <- <-]; try done.
    split; [|by rewrite lookup_insert_eq]. apply (keeps_differ p); [by rewrite Hp|].
    intros q Hq. rewrite lookup_insert_ne by set_solver. done.
Qed.

Lemma recover_zone_keeps fuel p n zc w r w' : recover_zone fuel p n zc w = (r, w') → keeps_files w w'.
Proof.
  unfold recover_zone, bind. destruct (open_journal _ p w) as [r1 w1] eqn:Ho. apply open_journal_keeps in Ho as [Ho _].
  destruct r1; [|by intros [= _ <-]..].
  destruct (Authority_recover_with_journal _ _ _) as [[] ?]; by intros [= _ <-].
Qed.

Lemma start_journal_keeps p a w r w' : start_journal p a w = (r, w') → keeps_files w w'.
Proof.
  unfold start_journal, bind. destruct (open_journal _ p w) as [r1 w1] eqn:Ho. apply open_journal_keeps in Ho as [Ho Hp].
  destruct r1; [|by intros [= _ <-]..].
  destruct (Authority_persist_to_journal _) as [[] a']; [|by intros [= _ <-]..].
  destruct (a_journal a') as [j|]; [|by intros [= _ <-]]. intros [= _ <-].
  etrans; [exact Ho|]. apply (keeps_differ p); [by rewrite Hp|]. intros q Hq.
  rewrite lookup_insert_ne by set_solver. done.
Qed.

Lemma read_zone_world p n zc w r w' : read_zone p n zc w = (r, w') → w' = w.
Proof.
  unfold read_zone, bind. destruct (read_file _ p w) as [r1 w1] eqn:Hr. apply read_file_world in Hr as ->.
  destruct r1; [|by intros [= _ <-]..]. by destruct (valid_utf8 _); intros [= _ <-].
Qed.

Lemma load_zone_keeps fuel dir zc w r w' : load_zone fuel dir zc w = (r, w') → keeps_files w w'.
Proof.
  unfold load_zone, bind, lift, exists_path, gets.
  destruct (match ZoneConfig_get_zone zc with Ok _ => _ | _ => _ end) as [n| | |]; [|by intros [= _ <-]..].
  set (zp := Path_join _ _). set (jp := Path_with_extension _ _).
  match goal with |- (let (_, _) := ?x in _) = _ → _ => destruct x as [r1 w1] eqn:Hz end.
  assert (Hk : keeps_files w w1).
  { revert Hz. case_match; [apply recover_zone_keeps|]. case_match; [|by intros [= _ <-]].
    destruct (read_zone _ _ _ w) as [r2 w2] eqn:Hr. apply read_zone_world in Hr as ->.
    destruct r2; [|by intros [= _ <-]..]. destruct (ZoneConfig_is_update_allowed zc); [|by intros [= _ <-]].
    apply start_journal_keeps. }
  destruct r1; [|by intros [= _ <-]..].
  destruct (ZoneConfig_is_dnssec_enabled zc); [|by intros [= _ <-]]. intros H%load_keys_keeps. by etrans.
Qed.

(** ** The zones of the catalog *)

(** A zone that is served from its file as it is: no updates, no signatures. *)
Record static_zone (dir : Path) (w : World) (zc : ZoneConfig) (n : Name) (a : Authority) : Prop := {
  sz_name : ZoneConfig_get_zone zc = Ok n;
  sz_update : ZoneConfig_is_update_allowed zc = false;
  sz_dnssec : ZoneConfig_is_dnssec_enabled zc = false;
  sz_read : can_read (zone_path_of dir zc) = true;
  sz_file : ∃ buf, w !! zone_path_of dir zc = Some (Contents buf) ∧ valid_utf8 buf = true ∧
    parse_file buf (Some n) (zc_zone_type zc) false false = Ok a;
}.

Lemma static_zone_keeps dir w w' zc n a : keeps_files w w' → static_zone dir w zc n a → static_zone dir w' zc n a.
Proof. intros Hk [? ? ? ? (buf & Hf & ?)]. split; [done..|]. exists buf. split; [by apply Hk|done]. Qed.

Lemma load_zone_static fuel dir w zc n a :
  static_zone dir w zc n a → load_zone fuel dir zc w = (Ok a, w).
Proof.
  intros [Hn Hu Hd Hr (buf & Hf & Hutf & Hp)]. unfold load_zone, bind, lift, exists_path, gets.
  rewrite Hn, Hu, Hd. cbn [andb]. fold (zone_path_of dir zc). rewrite Hf.
  rewrite bool_decide_eq_true_2 by done. unfold read_zone, bind, read_file. rewrite Hf, Hr, Hutf, Hu, Hd, Hp. done.
Qed.

Lemma load_zones_other fuel dir zones key : ∀ c w c' w',
  Forall (λ z, ∀ n, ZoneConfig_get_zone z = Ok n → map_key n ≠ key) zones →
  load_zones fuel dir zones c w = (Ok c', w') → c_authorities c' !! key = c_authorities c !! key.
Proof.
  induction zones as [|z zones IH]; intros c w c' w' Hz; simpl; [by intros [= <- _]|].
  apply Forall_cons in Hz as [Hz Hzs]. destruct (ZoneConfig_get_zone z) as [n| | |]; try done.
  destruct (load_zone fuel dir z w) as [[a|e| |] w1]; try done; intros H%IH; try done.
  rewrite H. simpl. rewrite lookup_insert_ne by (by apply Hz). done.
Qed.

Lemma load_zones_static fuel dir pre zc post n a : ∀ c w c' w',
  static_zone dir w zc n a →
  Forall (λ z, ∀ n', ZoneConfig_get_zone z = Ok n' → map_key n' ≠ map_key n) post →
  load_zones fuel dir (pre ++ zc :: post) c w = (Ok c', w') →
  c_authorities c' !! map_key n = Some (RwLock_new a).
Proof.
  induction pre as [|z pre IH]; intros c w c' w' Hz Hpost; simpl.
  - rewrite (sz_name _ _ _ _ _ Hz), (load_zone_static fuel _ _ _ _ _ Hz).
    intros H%(load_zones_other _ _ _ (map_key n)); [|done]. rewrite H. simpl. by rewrite lookup_insert_eq.
  - destruct (ZoneConfig_get_zone z) as [nz| | |]; try done.
    destruct (load_zone fuel dir z w) as [[az|e| |] w1] eqn:Hl; try done; apply load_zone_keeps in Hl;
      apply IH; eauto using static_zone_keeps.
Qed.

(** ** The sockets *)

Lemma bind_all_ok can_bind sockaddrs : ∀ bound w r w',
  bind_all can_bind bound sockaddrs w = (Ok r, w') → r = sockaddrs ∧ w' = w.
Proof.
  induction sockaddrs as [|x sockaddrs IH]; intros bound w r w'; simpl; [by intros [= <- <-]|].
  destruct (can_bind bound x); [|done]. intros (r1 & w1 & H1 & [= <- <-])%bind_Ok_inv.
  by apply IH in H1 as [-> ->].
Qed.

Lemma expect_ok_inv {S E F A} (r : res E A) (s : S) a s' : expect_ok (F:=F) r s = (Ok a, s') → r = Ok a ∧ s' = s.
Proof. destruct r; try done. by intros [= <- <-]. Qed.

Lemma expect_m_inv {S E F A} (m : M S E A) (s : S) a s' : expect_m (F:=F) m s = (Ok a, s') → m s = (Ok a, s').
Proof. unfold expect_m. destruct (m s) as [[] ?]; try done. by intros [= <- <-]. Qed.

Lemma register_sockets_ok sockets : ∀ server w server' w',
  register_sockets server sockets w = (Ok server', w') → w' = w ∧
  server' = mkServer _ _ _ _ (sf_catalog server) (sf_sockets server ++ sockets) (sf_listeners server) (sf_tls_listeners server).
Proof.
  induction sockets as [|x sockets IH]; intros server w server' w'; simpl.
  { intros [= <- <-]. rewrite app_nil_r. by destruct server. }
  unfold bind, lift, ServerFuture_register_socket. destruct (from_socket x); [|done]. cbn [negb].
  intros [-> ->]%IH. simpl. by rewrite <-app_assoc.
Qed.

Lemma register_listeners_ok timeout ls : ∀ server w server' w',
  register_listeners server timeout ls w = (Ok server', w') → w' = w ∧
  server' = mkServer _ _ _ _ (sf_catalog server) (sf_sockets server)
    (sf_listeners server ++ ((λ l, (l, timeout)) <$> ls)) (sf_tls_listeners server).
Proof.
  induction ls as [|l ls IH]; intros server w server' w'; simpl.
  { intros [= <- <-]. rewrite app_nil_r. split; [done|]. by destruct server. }
  intros (s1 & w1 & [Hr ->]%expect_ok_inv & H)%bind_Ok_inv.
  unfold ServerFuture_register_listener in Hr. repeat case_match; simplify_eq.
  apply IH in H as [-> ->]. simpl. by rewrite <-app_assoc.
Qed.

Lemma register_tls_listeners_ok timeout tc ls : ∀ server w server' w',
  register_tls_listeners server timeout tc ls w = (Ok server', w') →
  ∃ acceptors, length acceptors = length ls ∧
  server' = mkServer _ _ _ _ (sf_catalog server) (sf_sockets server) (sf_listeners server)
    (sf_tls_listeners server ++ zip ((λ l, (l, timeout)) <$> ls) acceptors).
Proof.
  induction ls as [|l ls IH]; intros server w server' w'; simpl.
  { intros [= <- <-]. exists []. rewrite app_nil_r. split; [done|]. by destruct server. }
  intros (cert & w1 & _ & H)%bind_Ok_inv. apply bind_Ok_inv in H as (s1 & w2 & [Hr ->]%expect_ok_inv & H).
  unfold ServerFuture_register_tls_listener in Hr. repeat case_match; simplify_eq.
  apply IH in H as (acceptors & Hlen & ->). simpl. eexists (_ :: acceptors). split; [simpl; by rewrite Hlen|].
  simpl. by rewrite <-app_assoc.
Qed.

(** ** What is served *)

Lemma main_inv fuel args w logger server w' :
  main fuel args w = (Ok (logger, server), w') →
  ∃ config catalog w1 w2,
    Config_read_config (Path_new (default (bytes_of_str "/etc/named.toml") (flag_config args))) w = (Ok config, w1) ∧
    load_zones fuel (zone_dir_of args config) (cfg_zones config) Catalog_new w1 = (Ok catalog, w2) ∧
    start_server args config catalog w2 = (Ok server, w') ∧
    logger = Some (mkLogger (args_log_level args)).
Proof.
  intros (config & w1 & Hc%expect_m_inv & H)%bind_Ok_inv. apply bind_Ok_inv in H as (catalog & w2 & Hz & H).
  apply bind_Ok_inv in H as (server' & w3 & Hs & [= <- <- <-]). by exists config, catalog, w1, w2.
Qed.

Lemma read_config_world path w config w' : Config_read_config path w = (Ok config, w') → w' = w.
Proof.
  unfold Config_read_config, bind. destruct (read_file _ path w) as [r1 w1] eqn:Hr. apply read_file_world in Hr as ->.
  destruct r1; try done. destruct (valid_utf8 _); [|done]. destruct (toml_config _); [|done]. by intros [= _ <-].
Qed.

(** The addresses and ports of the server, by protocol. *)
Record listens (args : Args) (config : Config) (addrs : list IpAddr) (server : ServerFuture) : Prop := {
  ls_udp : sf_sockets server = to_socket_addrs addrs (default (Config_get_listen_port config) (flag_port args));
  ls_tcp : sf_listeners server =
    (λ l, (l, Config_get_tcp_request_timeout config)) <$>
    to_socket_addrs addrs (default (Config_get_listen_port config) (flag_port args));
  ls_tls : fst <$> sf_tls_listeners server =
    (λ l, (l, Config_get_tcp_request_timeout config)) <$>
    (if cfg_tls_cert config is Some _ then to_socket_addrs addrs (default (Config_get_tls_listen_port config) (flag_tls_port args))
     else []);
}.

Lemma start_server_ok args config catalog w server w' :
  start_server args config catalog w = (Ok server, w') →
  sf_catalog server = catalog ∧ ∃ addrs, listen_addrs config = Ok addrs ∧ addrs ≠ [] ∧ listens args config addrs server.
Proof.
  intros (addrs & w1 & [Ha ->]%expect_ok_inv & H)%bind_Ok_inv.
  assert (Hne : addrs ≠ []).
  { unfold listen_addrs in Ha. destruct (Config_get_listen_addrs_ipv4 config); try done.
    destruct (Config_get_listen_addrs_ipv6 config); try done. cbn [rbind] in Ha.
    destruct (_ ++ _); by injection Ha as <-. }
  apply bind_Ok_inv in H as (udp & w1 & [-> ->]%bind_all_ok & H).
  apply bind_Ok_inv in H as (tcp & w1 & [-> ->]%bind_all_ok & H).
  apply bind_Ok_inv in H as (s0 & w1 & [H0 ->]%expect_ok_inv & H).
  unfold ServerFuture_new in H0. destruct core_new; [|done]. injection H0 as <-.
  apply bind_Ok_inv in H as (s1 & w1 & [-> ->]%register_sockets_ok & H). simpl in H.
  apply bind_Ok_inv in H as (s1 & w1 & [-> ->]%register_listeners_ok & H). simpl in H.
  unfold Config_get_tls_cert in H. destruct (cfg_tls_cert config) as [tc|] eqn:Htc.
  - apply bind_Ok_inv in H as (tls & w1 & [-> ->]%bind_all_ok & H).
    apply register_tls_listeners_ok in H as (acceptors & Hlen & ->). simpl. split; [done|].
    exists addrs. split_and!; [done..|]. split; simpl; [done..|]. rewrite Htc.
    rewrite fst_zip; [done|]. rewrite length_fmap. lia.
  - injection H as <- <-. split; [done|]. exists addrs. split_and!; [done..|]. split; simpl; [done..|]. by rewrite Htc.
Qed.

(** Where the program listens: on every address of the configuration, or on all IPv4 addresses if it
    has none, with UDP and TCP on the port of the command line, of the configuration or 53, and with
    TLS, exactly when a certificate is configured, on its port; the timeout of every
    connection is the configured one.  The log level is that of the command line. *)
Theorem main_listens fuel args w logger server w' :
  main fuel args w = (Ok (logger, server), w') →
  ∃ config addrs,
    Config_read_config (Path_new (default (bytes_of_str "/etc/named.toml") (flag_config args))) w = (Ok config, w) ∧
    listen_addrs config = Ok addrs ∧ addrs ≠ [] ∧ listens args config addrs server ∧
    logger = Some (mkLogger (args_log_level args)).
Proof.
  intros (config & catalog & w1 & w2 & Hc & _ & Hs & Hl)%main_inv. pose proof Hc as ->%read_config_world.
  apply start_server_ok in Hs as (_ & addrs & Ha & Hne & Hls). by exists config, addrs.
Qed.

(** A zone whose file has entries that mean the records [rs]; SOA records are not repeated. *)
Record zone_from_text (dir : Path) (w : World) (zc : ZoneConfig) (o : Name) (rs : list RRecord) : Prop := {
  zt_name : ZoneConfig_get_zone zc = Ok o;
  zt_update : ZoneConfig_is_update_allowed zc = false;
  zt_dnssec : ZoneConfig_is_dnssec_enabled zc = false;
  zt_read : can_read (zone_path_of dir zc) = true;
  zt_text : ∃ ls st, w !! zone_path_of dir zc = Some (Contents (string_of (file_text ls))) ∧
    valid_utf8 (string_of (file_text ls)) = true ∧ Forall (λ c, is_scalar c = true) (file_text ls) ∧
    file_ok ls ∧ file_meaning (nothing_stated (Some o)) ls = Some (st, rs);
  zt_filed : is_Ok (add_records rs []);
}.

Lemma zone_from_text_static dir w zc o rs :
  zone_from_text dir w zc o rs → ∃ a, static_zone dir w zc o a ∧ filed rs (a_records a).
Proof.
  intros [Hn Hu Hd Hr (ls & st & Hf & Hutf & Hsc & Hok & Hls) [m Hm]].
  destruct (file_meaning_origin _ _ _ _ Hls) as [o' Ho]; [by eexists|].
  assert (Hp : ∃ a, parse_file (string_of (file_text ls)) (Some o) (zc_zone_type zc) false false = Ok a).
  { unfold parse_file, zone_of. rewrite (parse_whole_file ls _ st rs Hok Hls Hsc). unfold zone_of.
    rewrite Hm, Ho. by eexists. }
  destruct Hp as [a Hp]. exists a. split; [by split; eauto|]. eapply parse_file_filed; eauto.
Qed.

(** A question without EDNS for the records of one type. *)
Record plain_query (request : Message) (q : Query) : Prop := {
  pq_edns : m_edns request = None;
  pq_type : h_message_type (m_header request) = MessageType.Query;
  pq_op_code : h_op_code (m_header request) = OpCode.Query;
  pq_queries : m_queries request = [q];
  pq_query_type : q_query_type q ∉ [RecordType.AXFR; RecordType.ANY; RecordType.SOA; RecordType.CNAME];
}.

Definition matches (q : Query) (r : RRecord) : Prop :=
  r_rr_type r = q_query_type q ∧ Name_eq (r_name_labels r) (q_name q) = true.

Lemma answers_matches a q r :
  q_query_type q ∉ [RecordType.AXFR; RecordType.ANY; RecordType.SOA; RecordType.CNAME] →
  answers a (q_name q) (q_query_type q) r ↔ matches q r.
Proof. intros Hq. unfold answers, matches. destruct (q_query_type q); set_solver. Qed.

(** The catalog of the program answers from the file. *)
Lemma catalog_answers fuel args w logger server w' config pre zc post o rs q request n lock :
  main fuel args w = (Ok (logger, server), w') →
  Config_read_config (Path_new (default (bytes_of_str "/etc/named.toml") (flag_config args))) w = (Ok config, w) →
  cfg_zones config = pre ++ zc :: post → zone_from_text (zone_dir_of args config) w zc o rs →
  Forall (λ z, ∀ o', ZoneConfig_get_zone z = Ok o' → map_key o' ≠ map_key o) post →
  plain_query request q →
  Catalog_find_auth_recurse (sf_catalog server) (q_name q) = Some (n, lock) → map_key n = map_key o →
  ∃ response, Catalog_handle_request (E:=io_error) request (sf_catalog server) = (Ok response, sf_catalog server) ∧
    h_id (m_header response) = h_id (m_header request) ∧ m_queries response = [q] ∧
    Forall (λ r, r ∈ rs ∧ matches q r) (m_answers response) ∧
    ∀ r, r ∈ rs → matches q r → ∃ r', r' ∈ m_answers response ∧ RData_eq (r_rdata r') (r_rdata r) = true.
Proof.
  intros (config' & catalog & w1 & w2 & Hc & Hz & Hs & _)%main_inv Hc' Hzones Ht Hpost [Hed Hty Hop Hqs Hqt] Hf Hn.
  rewrite Hc' in Hc. injection Hc as <- <-. rewrite Hzones in Hz.
  destruct (zone_from_text_static _ _ _ _ _ Ht) as (a & Hst & Hfiled).
  pose proof (load_zones_static _ _ _ _ _ _ _ _ _ _ _ Hst Hpost Hz) as Hget.
  apply start_server_ok in Hs as [Hcat _]. rewrite Hcat in *.
  assert (lock = RwLock_new a) as ->.
  { apply find_auth_at in Hf. unfold zone_at in Hf. rewrite Hn, Hget in Hf. by injection Hf. }
  destruct (query_answer (E:=io_error) request catalog q n (RwLock_new a)) as (response & Hh & Hid & _ & Hq & Hans & _);
    [done|done|done|done|set_solver|done|done|apply Hfiled|].
  exists response. split_and!; [done..| |].
  - apply Forall_forall. intros r [Hr Hm]%Hans. split; [by eapply filed_lookup|]. by apply answers_matches in Hm.
  - intros r Hr [Hrt Hrn]. destruct (filed_answered rs a r Hfiled Hr) as (r' & Hr' & Ht' & Hn' & Hd').
    { rewrite Hrt. unfold single_type. set_solver. }
    exists r'. split; [|done]. apply Hans. split; [done|]. apply answers_matches; [done|]. split; [congruence|].
    eapply Name_eq_trans; [exact Hn'|done].
Qed.

(** A request as it arrives: a datagram of at most 2048 bytes from [src], and a socket that can send. *)
Record arrives (u : UdpStream SocketAddr) (buffer : bytes) (src : SocketAddr) (request : Message) : Prop := {
  ar_size : Z.of_nat (length buffer) ≤ 2048;
  ar_decodes : Message_from_vec buffer = Ok request;
  ar_socket : udp_ready u [(buffer, src)] 1;
}.

End startup.

(** ** Instances *)

Section instances.
#[local] Existing Instance ascii_numeric.
#[local] Existing Instance ascii_lowercase.
#[local] Existing Instance list_hash_order.
#[local] Existing Instance toy_crypto.
#[local] Existing Instance toy_key_files.
#[local] Existing Instance schema_sqlite.
#[local] Existing Instance toy_schema.
#[local] Existing Instance fixed_clock.
#[local] Existing Instance toy_disk.

#[local] Existing Instance toy_x509.

(** The configuration: one zone from a file, and a certificate that is made on the first start. *)
Definition ex_file_zone : ZoneConfig :=
  mkZoneConfig (bytes_of_str "a.") Master (bytes_of_str "a.zone") None None [].
Definition ex_tls_cert : TlsCertConfig :=
  mkTlsCertConfig (bytes_of_str "/etc/ns.p12") None (Some true) (bytes_of_str "ns.a").
Definition ex_config : Config :=
  mkConfig [] [] None None None (Some (bytes_of_str "Trace")) (Some (bytes_of_str "/etc/zones")) [ex_file_zone]
    (Some ex_tls_cert).

Definition toy_host : Host := {|
  toml_config _ := Some ex_config;
  udp_bind bound x := negb (bool_decide (x ∈ bound));
  tcp_bind bound x := negb (bool_decide (x ∈ bound));
  core_new := true;
  from_socket _ := true;
  local_addr _ := true;
  from_listener _ := true;
  TlsAcceptor := bytes;
  tls_acceptor p := Some p;
|}.
#[local] Existing Instance toy_host.

Definition ex_start_disk : gmap Path File :=
  <[Path_new (bytes_of_str "/etc/named.toml") := Contents []]>
  {[ Path_new (bytes_of_str "/etc/zones/a.zone") := Contents (string_of (file_text ex_entries)) ]}.
Definition ex_args : Args := mkArgs false true false false None None (Some 5353) None.

Definition ex_started : res load_error (option TrustDnsLogger * ServerFuture) * gmap Path File :=
  main 9 ex_args ex_start_disk.
Definition empty_server : option TrustDnsLogger * ServerFuture := (None, mkServer _ _ _ _ Catalog_new [] [] []).
Definition ex_named : ServerFuture := (match ex_started.1 with Ok x => x | _ => empty_server end).2.
Definition ex_logger : option TrustDnsLogger := (match ex_started.1 with Ok x => x | _ => empty_server end).1.

Lemma ex_started_eq : main 9 ex_args ex_start_disk = (Ok (ex_logger, ex_named), ex_started.2).
Proof.
  rewrite (loaded_eq (main 9 ex_args ex_start_disk) empty_server) by (vm_compute; reflexivity).
  unfold ex_logger, ex_named, ex_started. by destruct (match _ with Ok x => x | _ => _ end).
Qed.

Lemma ex_config_read :
  Config_read_config (Path_new (bytes_of_str "/etc/named.toml")) ex_start_disk = (Ok ex_config, ex_start_disk).
Proof. unfold Config_read_config, bind, read_file, ex_start_disk. by rewrite lookup_insert_eq. Qed.

(** On the port of the command line, and with TLS on its default port. *)
Lemma main_listens_witness :
  sf_sockets ex_named = [(inl (mkIpv4 0 0 0 0), 5353)] ∧
  fst <$> sf_tls_listeners ex_named = [((inl (mkIpv4 0 0 0 0), 853), 5000)] ∧ ex_logger = Some (mkLogger LogDebug).
Proof.
  destruct (main_listens 9 ex_args ex_start_disk ex_logger ex_named _ ex_started_eq)
    as (config & addrs & Hc & Ha & _ & Hl & Hlog).
  change (default _ _) with (bytes_of_str "/etc/named.toml") in Hc. rewrite ex_config_read in Hc. injection Hc as <-.
  assert (addrs = [inl (mkIpv4 0 0 0 0)]) as -> by (vm_compute in Ha; congruence).
  split; [exact (ls_udp _ _ _ _ Hl)|]. split; [exact (ls_tls _ _ _ _ Hl)|exact Hlog].
Defined.

Lemma ex_zone_text :
  zone_from_text (zone_dir_of ex_args ex_config) ex_start_disk ex_file_zone (mkName [bytes_of_str "a"])
    [ex_entry_record].
Proof.
  split; [vm_compute; reflexivity|reflexivity..| |].
  - eexists ex_entries, _. split; [vm_compute; reflexivity|]. split; [vm_compute; reflexivity|]. split; [by_decision|].
    split; [by_decision|vm_compute; reflexivity].
  - eexists. vm_compute. reflexivity.
Qed.

Definition ex_www_query : Query := mkQuery (mkName [bytes_of_str "WWW"; bytes_of_str "a"]) RecordType.A DNSClass.IN.
Definition ex_www_question : Message := Message_add_query (Message_id Message_new 3) ex_www_query.
Definition ex_client_addr : SocketAddr := (inl (mkIpv4 10 0 0 9), 4000).
Definition ex_www_datagram : bytes := match Message_to_vec ex_www_question with Ok b => b | _ => [] end.
Definition ex_udp : UdpStream SocketAddr :=
  mkUdp (mkUdpSocket (replicate 1 (Writable (Done ()))) [] (datagrams [(ex_www_datagram, ex_client_addr)])) [].
Definition ex_decoded : Message := match Message_from_vec ex_www_datagram with Ok m => m | _ => Message_new end.

Lemma ex_arrives : arrives ex_udp ex_www_datagram ex_client_addr ex_decoded.
Proof. split; [vm_compute; discriminate|vm_compute; reflexivity|by split]. Qed.

(** The zone of the file. *)
Definition ex_named_zone : Authority :=
  match parse_file (string_of (file_text ex_entries)) (Some (mkName [bytes_of_str "a"])) Master false false with
  | Ok a => a | _ => empty_zone end.

Lemma ex_named_zones :
  c_authorities (sf_catalog ex_named) = {[ map_key (mkName [bytes_of_str "a"]) := RwLock_new ex_named_zone ]}.
Proof. vm_compute. reflexivity. Qed.

Lemma ex_entry_record_ok : record_ok ex_entry_record.
Proof. by_decision. Qed.

Lemma ex_named_writable :
  map_Forall (λ _ lock, zone_writable (l_value lock)) (c_authorities (sf_catalog ex_named)).
Proof.
  rewrite ex_named_zones. apply map_Forall_singleton. cbn [l_value RwLock_new].
  assert (H : all_records ex_named_zone = [ex_entry_record]) by (vm_compute; reflexivity).
  split; rewrite H; [apply Forall_singleton; exact ex_entry_record_ok|simpl; lia].
Qed.

Lemma ex_decoded_question : one_question ex_decoded ex_www_query.
Proof.
  split; [split; vm_compute; congruence|vm_compute; reflexivity| |intros edns He; vm_compute in He; discriminate].
  split; [by_decision|done|done].
Qed.



(** ** Certificates *)

Lemma load_cert_once_witness :
  ∃ cert w', load_cert ex_tls_cert ∅ = (Ok cert, w') ∧ load_cert ex_tls_cert w' = (Ok cert, w').
Proof.
  destruct (load_cert ex_tls_cert ∅) as [[cert| | |] w'] eqn:Hl;
    try (apply (f_equal (λ x, loaded x)) in Hl; vm_compute in Hl; discriminate).
  exists cert, w'. split; [done|]. by apply (load_cert_once ex_tls_cert ∅ (Ok cert) w' Hl).
Defined.

(** A disk on which the PKCS #12 file cannot be created. *)
Definition locked_disk : Disk :=
  @Build_Disk schema_sqlite (λ _, true) (λ p, negb (bool_decide (p = TlsCertConfig_get_path ex_tls_cert))) (λ _, true)
    (λ _, true) (@open_database _ toy_disk).

Lemma load_cert_stuck_witness :
  ∃ w', load_cert (D:=locked_disk) ex_tls_cert ∅ = (Err (LoadMessage "error creating pkcs12 file"), w') ∧
    load_cert (D:=locked_disk) ex_tls_cert w' = (Err (LoadMessage "certificate file exists"), w').
Proof.
  destruct (load_cert (D:=locked_disk) ex_tls_cert ∅) as [r w'] eqn:Hl.
  assert (r = Err (LoadMessage "error creating pkcs12 file")) as ->
    by (apply (f_equal fst) in Hl; vm_compute in Hl; by rewrite <-Hl).
  exists w'. split; [done|]. by apply (load_cert_stuck (D:=locked_disk) ex_tls_cert ∅ w' eq_refl Hl).
Defined.
End instances.
